(** * A shallow embedding of mm.c, the segregated-list storage allocator

    The allocator of [src/mm.c] manages one contiguous heap obtained from
    memlib's [mem_sbrk].  Every function of the file is embedded below as
    a function over an explicit machine state: a byte-addressed memory,
    the heap bounds kept by memlib, and the file-scope variables of mm.c.

    Machine model: LP64, so [sizeof(void * )] is 8, [size_t] and
    [uintptr_t] are 64-bit and wrap, and words are stored little-endian.
    A read or a write outside the heap [mem_lo, mem_brk) is undefined
    behaviour in C; the embedding reports it as an error carrying the
    offending address, so that a null dereference is visible. *)

From Stdlib Require Import ZArith List Bool Lia.
Import ListNotations.
Local Open Scope Z_scope.

(** ** Constants and macros of mm.c *)

Definition WSIZE : Z := 8.
Definition DSIZE : Z := 2 * WSIZE.
Definition ALIGNMENT : Z := 2 * WSIZE.
Definition CHUNKSIZE : Z := Z.shiftl 1 12.
Definition OVERHEAD : Z := DSIZE.
Definition LISTLIMIT : Z := 20.
Definition NULL : Z := 0.

(** Arithmetic on [size_t], [uintptr_t] and pointers wraps at 64 bits. *)
Definition wrap (z : Z) : Z := z mod 2 ^ 64.

(** [(void * )-1], the failure value of [mem_sbrk]. *)
Definition SBRK_FAILED : Z := wrap (-1).

(** [~(DSIZE - 1)] at type [size_t]. *)
Definition SIZE_MASK : Z := wrap (Z.lnot (DSIZE - 1)).

Definition ALIGN (size : Z) : Z :=
  Z.land (wrap (size + (ALIGNMENT - 1))) SIZE_MASK.

Definition MAX (x y : Z) : Z := if x >? y then x else y.

Definition PACK (size alloc : Z) : Z := Z.lor size alloc.

Definition HDRP (bp : Z) : Z := wrap (bp - WSIZE).

(** ** Memory: bytes, and little-endian 64-bit words over them *)

Definition memory := Z -> Z.

Fixpoint load_bytes (n : nat) (m : memory) (a : Z) : Z :=
  match n with
  | O => 0
  | S k => m a mod 256 + 256 * load_bytes k m (a + 1)
  end.

Definition load (m : memory) (a : Z) : Z := load_bytes 8 m a.

Definition store (m : memory) (a v : Z) : memory :=
  fun x => if (a <=? x) && (x <? a + 8)
           then Z.shiftr v (8 * (x - a)) mod 256
           else m x.

(** [memcpy]: the [n] bytes at [src] copied to [dst] (the source and the
    destination of a C [memcpy] may not overlap; bytes are taken from the
    memory as it was before the call). *)
Definition copy_bytes (m : memory) (dst src n : Z) : memory :=
  fun x => if (dst <=? x) && (x <? dst + n) then m (src + (x - dst)) else m x.

(** [memset]: [n] bytes at [dst] set to the byte [c]. *)
Definition fill_bytes (m : memory) (dst c n : Z) : memory :=
  fun x => if (dst <=? x) && (x <? dst + n) then c mod 256 else m x.

(** ** Machine state *)

(** [mem_lo], [mem_brk] and [mem_max_addr] are memlib's heap bounds;
    [heap_listp] and [segregated_lists] are the globals of mm.c.
    [free_listp] is the list head that [insert_to_free_list] and
    [remove_from_free_list] read and assign; mm.c uses it without
    declaring it, so it is a variable of the state whose initial value is
    left to the caller of the model. *)
Record state : Type := mkState {
  mem : memory;
  mem_lo : Z;
  mem_brk : Z;
  mem_max_addr : Z;
  heap_listp : Z;
  segregated_lists : list Z;
  free_listp : Z
}.

Definition set_mem (s : state) (m : memory) : state :=
  mkState m (mem_lo s) (mem_brk s) (mem_max_addr s) (heap_listp s)
          (segregated_lists s) (free_listp s).

Definition set_brk (s : state) (b : Z) : state :=
  mkState (mem s) (mem_lo s) b (mem_max_addr s) (heap_listp s)
          (segregated_lists s) (free_listp s).

Definition set_heap_listp (s : state) (p : Z) : state :=
  mkState (mem s) (mem_lo s) (mem_brk s) (mem_max_addr s) p
          (segregated_lists s) (free_listp s).

Definition set_segregated_lists (s : state) (l : list Z) : state :=
  mkState (mem s) (mem_lo s) (mem_brk s) (mem_max_addr s) (heap_listp s)
          l (free_listp s).

Definition set_free_listp (s : state) (p : Z) : state :=
  mkState (mem s) (mem_lo s) (mem_brk s) (mem_max_addr s) (heap_listp s)
          (segregated_lists s) p.

(** ** Outcomes and the state-and-error monad *)

Inductive fault : Type :=
| SegFault (addr : Z)        (* access outside the heap, e.g. through NULL *)
| OutOfBounds (idx : Z)      (* index outside segregated_lists *)
| Hang.                      (* a list walk that never ends *)

Inductive result (A : Type) : Type :=
| Ok (a : A)
| Err (f : fault).
Arguments Ok {A} a.
Arguments Err {A} f.

Definition M (A : Type) : Type := state -> result (A * state).

Definition ret {A} (a : A) : M A := fun s => Ok (a, s).

Definition bind {A B} (c : M A) (k : A -> M B) : M B :=
  fun s => match c s with
           | Ok (a, s') => k a s'
           | Err f => Err f
           end.

Declare Scope mm_scope.
Delimit Scope mm_scope with mm.
Notation "x <- c ;; k" := (bind c (fun x => k))
  (at level 61, c at next level, right associativity) : mm_scope.
Notation "c ;;; k" := (bind c (fun _ => k))
  (at level 61, right associativity) : mm_scope.
Local Open Scope mm_scope.

Definition raise {A} (f : fault) : M A := fun _ => Err f.

(** ** Primitive accesses *)

Definition valid_range (s : state) (a n : Z) : bool :=
  (mem_lo s <=? a) && (a + n <=? mem_brk s).

Definition valid (s : state) (a : Z) : bool := valid_range s a 8.

(** [GET(p)] *)
Definition GET (p : Z) : M Z :=
  fun s => if valid s p then Ok (load (mem s) p, s) else Err (SegFault p).

(** [PUT(p, val)] *)
Definition PUT (p val : Z) : M unit :=
  fun s => if valid s p then Ok (tt, set_mem s (store (mem s) p val))
           else Err (SegFault p).

Definition GET_SIZE (p : Z) : M Z := v <- GET p ;; ret (Z.land v SIZE_MASK).
Definition GET_ALLOC (p : Z) : M Z := v <- GET p ;; ret (Z.land v 1).

Definition FTRP (bp : Z) : M Z :=
  sz <- GET_SIZE (HDRP bp) ;; ret (wrap (wrap (bp + sz) - DSIZE)).

Definition NEXT_BLKP (bp : Z) : M Z :=
  sz <- GET_SIZE (HDRP bp) ;; ret (wrap (bp + sz)).

Definition PREV_BLKP (bp : Z) : M Z :=
  sz <- GET_SIZE (wrap (bp - DSIZE)) ;; ret (wrap (bp - sz)).

Definition GET_PREV_PTR (bp : Z) : M Z := GET bp.
Definition GET_NEXT_PTR (bp : Z) : M Z := GET (wrap (bp + WSIZE)).
Definition SET_PREV_PTR (bp addr : Z) : M unit := PUT bp addr.
Definition SET_NEXT_PTR (bp addr : Z) : M unit := PUT (wrap (bp + WSIZE)) addr.

Definition get_free_listp : M Z := fun s => Ok (free_listp s, s).
Definition put_free_listp (p : Z) : M unit :=
  fun s => Ok (tt, set_free_listp s p).

(** [segregated_lists[i]], read. *)
Definition get_list (i : Z) : M Z :=
  fun s => if (0 <=? i) && (i <? LISTLIMIT)
           then match nth_error (segregated_lists s) (Z.to_nat i) with
                | Some p => Ok (p, s)
                | None => Err (OutOfBounds i)
                end
           else Err (OutOfBounds i).

Fixpoint set_nth (l : list Z) (n : nat) (v : Z) : list Z :=
  match l, n with
  | [], _ => []
  | _ :: t, O => v :: t
  | h :: t, S k => h :: set_nth t k v
  end.

(** [segregated_lists[i] = p]. *)
Definition put_list (i p : Z) : M unit :=
  fun s => if (0 <=? i) && (i <? LISTLIMIT)
              && (Z.to_nat i <? length (segregated_lists s))%nat
           then Ok (tt, set_segregated_lists s
                          (set_nth (segregated_lists s) (Z.to_nat i) p))
           else Err (OutOfBounds i).

(** Modelled from the spec: memlib's [mem_sbrk] is not part of the
    sources.  It is the collaborator primitive [extend_memory]: it grows
    the one heap region by [incr] bytes and returns the old break, or
    reports failure, here [(void * )-1], when the region cannot grow,
    leaving the break where it was.  Memory that becomes part of the heap
    keeps whatever bytes it held. *)
Definition sbrk_refuses (s : state) (incr : Z) : bool :=
  (incr <? 0) || (mem_brk s + incr >? mem_max_addr s).

Definition mem_sbrk (incr : Z) : M Z :=
  fun s => if sbrk_refuses s incr
           then Ok (SBRK_FAILED, s)
           else Ok (mem_brk s, set_brk s (mem_brk s + incr)).

(** [memcpy(dst, src, n)] *)
Definition memcpy (dst src n : Z) : M unit :=
  fun s => if n =? 0 then Ok (tt, s)
           else if negb (valid_range s src n) then Err (SegFault src)
           else if negb (valid_range s dst n) then Err (SegFault dst)
           else Ok (tt, set_mem s (copy_bytes (mem s) dst src n)).

(** [memset(dst, c, n)] *)
Definition memset (dst c n : Z) : M unit :=
  fun s => if n =? 0 then Ok (tt, s)
           else if negb (valid_range s dst n) then Err (SegFault dst)
           else Ok (tt, set_mem s (fill_bytes (mem s) dst c n)).

(** ** The private helpers of mm.c *)

Definition insert_to_free_list (bp : Z) : M unit :=
  fl <- get_free_listp ;;
  SET_NEXT_PTR bp fl ;;;
  fl <- get_free_listp ;;
  SET_PREV_PTR fl bp ;;;
  SET_PREV_PTR bp NULL ;;;
  put_free_listp bp.

Definition remove_from_free_list (bp : Z) : M unit :=
  prev <- GET_PREV_PTR bp ;;
  (if negb (prev =? 0)
   then prev <- GET_PREV_PTR bp ;;
        next <- GET_NEXT_PTR bp ;;
        SET_NEXT_PTR prev next
   else next <- GET_NEXT_PTR bp ;;
        put_free_listp next) ;;;
  next <- GET_NEXT_PTR bp ;;
  prev <- GET_PREV_PTR bp ;;
  SET_PREV_PTR next prev.

(** The [if] / [else if] chain of [coalesce]: the merge with the free
    neighbours, for the values of [prev_alloc], [next_alloc] and [size]
    read before it; the result is the block pointer after the merge. *)
Definition coalesce_merge (bp prev_alloc next_alloc size : Z) : M Z :=
  if negb (prev_alloc =? 0) && (next_alloc =? 0) then
    nb <- NEXT_BLKP bp ;;
    nsz <- GET_SIZE (HDRP nb) ;;
    let size := wrap (size + nsz) in
    nb <- NEXT_BLKP bp ;;
    remove_from_free_list nb ;;;
    PUT (HDRP bp) (PACK size 0) ;;;
    f <- FTRP bp ;;
    PUT f (PACK size 0) ;;;
    ret bp
  else if (prev_alloc =? 0) && negb (next_alloc =? 0) then
    pb <- PREV_BLKP bp ;;
    psz <- GET_SIZE (HDRP pb) ;;
    let size := wrap (size + psz) in
    pb <- PREV_BLKP bp ;;
    remove_from_free_list pb ;;;
    f <- FTRP bp ;;
    PUT f (PACK size 0) ;;;
    pb <- PREV_BLKP bp ;;
    PUT (HDRP pb) (PACK size 0) ;;;
    PREV_BLKP bp
  else if (prev_alloc =? 0) && (next_alloc =? 0) then
    pb <- PREV_BLKP bp ;;
    psz <- GET_SIZE (HDRP pb) ;;
    nb <- NEXT_BLKP bp ;;
    nsz <- GET_SIZE (HDRP nb) ;;
    let size := wrap (size + wrap (psz + nsz)) in
    pb <- PREV_BLKP bp ;;
    remove_from_free_list pb ;;;
    nb <- NEXT_BLKP bp ;;
    remove_from_free_list nb ;;;
    pb <- PREV_BLKP bp ;;
    PUT (HDRP pb) (PACK size 0) ;;;
    nb <- NEXT_BLKP bp ;;
    f <- FTRP nb ;;
    PUT f (PACK size 0) ;;;
    PREV_BLKP bp
  else ret bp.

Definition coalesce (bp : Z) : M Z :=
  pb <- PREV_BLKP bp ;;
  pf <- FTRP pb ;;
  pa <- GET_ALLOC pf ;;
  prev_alloc <- (if negb (pa =? 0) then ret 1
                 else pb' <- PREV_BLKP bp ;;
                      ret (if pb' =? bp then 1 else 0)) ;;
  nb <- NEXT_BLKP bp ;;
  next_alloc <- GET_ALLOC (HDRP nb) ;;
  size <- GET_SIZE (HDRP bp) ;;
  bp' <- coalesce_merge bp prev_alloc next_alloc size ;;
  insert_to_free_list bp' ;;;
  ret bp'.

(** The byte count [extend_heap] asks [mem_sbrk] for. *)
Definition extend_size (words : Z) : Z :=
  if negb (words mod 2 =? 0)
  then wrap (wrap (words + 1) * WSIZE)
  else wrap (words * WSIZE).

Definition extend_heap (words : Z) : M Z :=
  let size := extend_size words in
  bp <- mem_sbrk size ;;
  if bp =? SBRK_FAILED then ret NULL
  else
    PUT (HDRP bp) (PACK size 0) ;;;
    f <- FTRP bp ;;
    PUT f (PACK size 0) ;;;
    nb <- NEXT_BLKP bp ;;
    PUT (HDRP nb) (PACK 0 1) ;;;
    coalesce bp.

(** The size-class loop of [find_fit].  The source shifts a variable it
    calls [size], which [find_fit] does not declare; the one size in
    scope is the parameter [asize], and the loop is seeded with it.  The
    index grows by one per round and the guard stops it at [LISTLIMIT],
    so [LISTLIMIT] rounds of fuel are never used up. *)
Fixpoint class_loop (fuel : nat) (listIdx size : Z) : Z :=
  match fuel with
  | O => listIdx
  | S k => if (listIdx <? LISTLIMIT) && (size >? 1)
           then class_loop k (listIdx + 1) (Z.shiftr size 1)
           else listIdx
  end.

Definition list_index (asize : Z) : Z :=
  class_loop (Z.to_nat LISTLIMIT) 0 asize.

(** The [for] loop of [find_fit].  Each round reads the header of [bp],
    which lies in the heap; a walk of more rounds than the heap has bytes
    is back at a block it has seen and, memory being only read, goes
    round for ever: the embedding reports [Hang]. *)
Fixpoint fit_loop (fuel : nat) (asize bp : Z) : M Z :=
  match fuel with
  | O => raise Hang
  | S k =>
      a <- GET_ALLOC (HDRP bp) ;;
      if a =? 0 then
        sz <- GET_SIZE (HDRP bp) ;;
        if sz >=? asize then ret bp
        else nx <- GET_NEXT_PTR bp ;; fit_loop k asize nx
      else ret NULL
  end.

Definition heap_fuel (s : state) : nat :=
  S (Z.to_nat (mem_brk s - mem_lo s)).

Definition find_fit (asize : Z) : M Z :=
  let listIdx := list_index asize in
  bp <- get_list listIdx ;;
  fun s => fit_loop (heap_fuel s) asize bp s.

Definition place (bp asize : Z) : M unit :=
  oldsize <- GET_SIZE (HDRP bp) ;;
  let remain := wrap (oldsize - asize) in
  if remain >=? DSIZE + OVERHEAD then
    PUT (HDRP bp) (PACK asize 1) ;;;
    f <- FTRP bp ;;
    PUT f (PACK asize 1) ;;;
    remove_from_free_list bp ;;;
    bp <- NEXT_BLKP bp ;;
    PUT (HDRP bp) (PACK remain 0) ;;;
    f <- FTRP bp ;;
    PUT f (PACK remain 0) ;;;
    coalesce bp ;;;
    ret tt
  else
    PUT (HDRP bp) (PACK oldsize 1) ;;;
    f <- FTRP bp ;;
    PUT f (PACK oldsize 1) ;;;
    remove_from_free_list bp.

(** ** The public operations *)

Fixpoint clear_lists (n : nat) (list : Z) : M unit :=
  match n with
  | O => ret tt
  | S k => put_list list NULL ;;; clear_lists k (list + 1)
  end.

(** [mm_init]; the result is the C return value, 0 or -1. *)
Definition mm_init : M Z :=
  p <- mem_sbrk (4 * WSIZE) ;;
  (fun s => Ok (tt, set_heap_listp s p)) ;;;
  if p =? SBRK_FAILED then ret (-1)
  else
    PUT p 0 ;;;
    PUT (wrap (p + 1 * WSIZE)) (PACK DSIZE 1) ;;;
    PUT (wrap (p + 2 * WSIZE)) (PACK DSIZE 1) ;;;
    PUT (wrap (p + 3 * WSIZE)) (PACK 0 1) ;;;
    (fun s => Ok (tt, set_heap_listp s (wrap (heap_listp s + 2 * WSIZE)))) ;;;
    clear_lists (Z.to_nat LISTLIMIT) 0 ;;;
    r <- extend_heap 4 ;;
    if r =? NULL then ret (-1) else ret 0.

(** The adjusted block size computed by [malloc]. *)
Definition adjust (size : Z) : Z :=
  if size <=? DSIZE then DSIZE + OVERHEAD
  else ALIGN (wrap (size + OVERHEAD)).

Definition malloc (size : Z) : M Z :=
  if size <=? 0 then ret NULL
  else
    let asize := adjust size in
    bp <- find_fit asize ;;
    if negb (bp =? NULL) then
      place bp asize ;;; ret bp
    else
      let extendsize := MAX asize CHUNKSIZE in
      bp <- extend_heap (extendsize / WSIZE) ;;
      if bp =? NULL then ret NULL
      else place bp asize ;;; ret bp.

Definition free (ptr : Z) : M unit :=
  if ptr =? NULL then ret tt
  else
    size <- GET_SIZE (HDRP ptr) ;;
    PUT (HDRP ptr) (PACK size 0) ;;;
    f <- FTRP ptr ;;
    PUT f (PACK size 0) ;;;
    coalesce ptr ;;;
    ret tt.

Definition realloc (oldptr size : Z) : M Z :=
  if size =? 0 then free oldptr ;;; ret NULL
  else if oldptr =? NULL then malloc size
  else
    newptr <- malloc size ;;
    if newptr =? NULL then ret NULL
    else
      oldsize <- GET_SIZE (HDRP oldptr) ;;
      let oldsize := if size <? oldsize then size else oldsize in
      memcpy newptr oldptr oldsize ;;;
      free oldptr ;;;
      ret newptr.

Definition calloc (nmemb size : Z) : M Z :=
  let bytes := wrap (nmemb * size) in
  newptr <- malloc bytes ;;
  memset newptr 0 bytes ;;;
  ret newptr.

(** * Specification vocabulary *)

(** A step relation kept by every successful run of a computation. *)
Definition keeps {A} (R : state -> state -> Prop) (c : M A) : Prop :=
  forall s a s', c s = Ok (a, s') -> R s s'.

(** Reads leave the state as it is. *)
Definition unchanged (s s' : state) : Prop := s' = s.

(** The bucket table is assigned by [mm_init] only. *)
Definition same_lists (s s' : state) : Prop :=
  segregated_lists s' = segregated_lists s.

(** The bucket table and memlib's limit are as they were. *)
Definition same_limits (s s' : state) : Prop :=
  segregated_lists s' = segregated_lists s /\
  mem_max_addr s' = mem_max_addr s.


(** [c] run from [s] returns, with a result and a state that satisfy [Q]. *)
Definition returns {A} (c : M A) (s : state) (Q : A -> state -> Prop)
  : Prop :=
  exists r s', c s = Ok (r, s') /\ Q r s'.

(** The value a run returns, when it returns. *)
Definition value_of {A} (r : result (A * state)) : option A :=
  match r with
  | Ok (a, _) => Some a
  | Err _ => None
  end.

(** The state a run leaves, when it returns. *)
Definition state_of {A} (r : result (A * state)) (d : state) : state :=
  match r with
  | Ok (_, s) => s
  | Err _ => d
  end.

(** The free list as the allocator links it: the blocks met from
    [free_listp] along the successor links, up to the first null link. *)
Fixpoint list_walk (fuel : nat) (m : memory) (p : Z) : list Z :=
  match fuel with
  | O => []
  | S k => if p =? NULL then []
           else p :: list_walk k m (load m (wrap (p + WSIZE)))
  end.

Definition free_list_of (s : state) : list Z :=
  list_walk (heap_fuel s) (mem s) (free_listp s).

(** The members of size class [i]: the same walk from [segregated_lists[i]]. *)
Definition bucket_of (s : state) (i : nat) : list Z :=
  list_walk (heap_fuel s) (mem s) (nth i (segregated_lists s) NULL).

(** The walk of [mm_checkheap]: from the prologue, block after block by
    the size in each header, to the header of size 0.  Each block is
    reported as (address, size, allocated bit). *)
Fixpoint walk_loop (fuel : nat) (bp : Z) : M (list (Z * Z * Z)) :=
  match fuel with
  | O => raise Hang
  | S k =>
      sz <- GET_SIZE (HDRP bp) ;;
      if sz >? 0 then
        a <- GET_ALLOC (HDRP bp) ;;
        nb <- NEXT_BLKP bp ;;
        rest <- walk_loop k nb ;;
        ret ((bp, sz, a) :: rest)
      else ret []
  end.

Definition heap_walk : M (list (Z * Z * Z)) :=
  fun s => walk_loop (heap_fuel s) (heap_listp s) s.

(** Two blocks next to each other in the walk, both free. *)
Fixpoint adjacent_free (l : list (Z * Z * Z)) : bool :=
  match l with
  | (_, _, a1) :: r =>
      match r with
      | (_, _, a2) :: _ => ((a1 =? 0) && (a2 =? 0)) || adjacent_free r
      | [] => false
      end
  | [] => false
  end.

(** The first, respectively the last, block of a list is free. *)
Definition head_free (l : list (Z * Z * Z)) : bool :=
  match l with
  | [] => false
  | c :: _ => snd c =? 0
  end.

Definition last_free (l : list (Z * Z * Z)) : bool :=
  match l with
  | [] => false
  | c :: r => snd (last r c) =? 0
  end.


(** ** The heap as the allocator means it

    A block is described by its payload address, its size (header and
    footer included) and its allocated bit, as [heap_walk] reports it. *)
Abbreviation block := (Z * Z * Z)%type (only parsing).
Definition bptr (b : block) : Z := fst (fst b).
Definition bsize (b : block) : Z := snd (fst b).
Definition balloc (b : block) : Z := snd b.

(** The bytes a list of blocks takes. *)
Definition total (l : list block) : Z :=
  fold_right (fun c a => bsize c + a) 0 l.

(** The blocks of [bl] lie end to end from [p] to [e]. *)
Fixpoint linked (p : Z) (bl : list block) (e : Z) : Prop :=
  match bl with
  | [] => p = e
  | b :: r => bptr b = p /\ linked (p + bsize b) r e
  end.

(** Header and footer of a block hold [PACK(size, alloc)], which for a
    size that is a multiple of 16 is [size + alloc]. *)
Definition hdr_ok (m : memory) (b : block) : Prop :=
  load m (bptr b - WSIZE) = bsize b + balloc b.

Definition ftr_ok (m : memory) (b : block) : Prop :=
  load m (bptr b + bsize b - DSIZE) = bsize b + balloc b.

(** A block handed out or kept by the allocator: at least header, footer
    and two link words, a multiple of the alignment. *)
Definition block_ok (b : block) : Prop :=
  DSIZE + OVERHEAD <= bsize b /\ bsize b mod 16 = 0 /\
  (balloc b = 0 \/ balloc b = 1).

Definition prologue (s : state) : block := (mem_lo s + DSIZE, DSIZE, 1).

(** The epilogue header, seen as a block of size 0 at the end of the heap. *)
Definition epilogue (s : state) : block := (mem_brk s, 0, 1).

(** The doubly linked list [fl] in memory: predecessor link in the first
    payload word, successor link in the second; the first block has
    predecessor [prev] and the last has successor [t]. *)
Fixpoint dll (m : memory) (prev : Z) (fl : list Z) (t : Z) : Prop :=
  match fl with
  | [] => True
  | p :: r => load m p = prev /\ load m (p + WSIZE) = hd t r /\ dll m p r t
  end.

(** The free blocks of [bl] are exactly the members of [fl]. *)
Definition cover (bl : list block) (fl : list Z) : Prop :=
  forall p, In p fl <-> exists sz, In (p, sz, 0) bl.

(** The word at [p] is inside the heap and holds [PACK(sz, a)]. *)
Definition tag_at (s : state) (p sz a : Z) : Prop :=
  mem_lo s <= p /\ p + WSIZE <= mem_brk s /\ mem_brk s < 2 ^ 64 /\
  0 <= mem_lo s /\
  load (mem s) p = sz + a /\
  0 <= sz /\ sz mod 16 = 0 /\ (a = 0 \/ a = 1).

(** A block of positive size. *)
Definition sized (b : block) : Prop := 0 < bsize b.

(** The link words of a list: the two first payload words of each
    member, and the predecessor word of the value [t] that ends it. *)
Definition link_byte (fl : list Z) (t : Z) (x : Z) : Prop :=
  (exists q, In q fl /\ q <= x < q + DSIZE) \/ t <= x < t + WSIZE.

(** The word at [x] shares no byte with the link words. *)
Definition off_links (fl : list Z) (t : Z) (x : Z) : Prop :=
  forall i, 0 <= i < WSIZE -> ~ link_byte fl t (x + i).

(** The members of [fl] have their link words inside the heap, above the
    padding word, and apart from one another. *)
Definition placed (s : state) (fl : list Z) : Prop :=
  (forall q, In q fl -> mem_lo s + WSIZE <= q /\ q + DSIZE <= mem_brk s) /\
  (forall p q, In p fl -> In q fl ->
               p = q \/ p + DSIZE <= q \/ q + DSIZE <= p).

(** How the heap is represented in memory.  [bl] are the blocks between
    prologue and epilogue, [fl] the free list from [free_listp], and [t]
    the value that ends the list: NULL, or the address of the padding
    word at the bottom of the heap. *)
Record heap_rep (s : state) (bl : list block) (fl : list Z) (t : Z)
  : Prop := {
  rep_lo : 0 < mem_lo s;
  rep_brk : mem_brk s < 2 ^ 64;
  rep_listp : heap_listp s = mem_lo s + DSIZE;
  rep_linked : linked (mem_lo s + DSIZE) (prologue s :: bl) (mem_brk s);
  rep_blocks : Forall block_ok bl;
  rep_hdr : Forall (hdr_ok (mem s)) (prologue s :: bl);
  rep_ftr : Forall (ftr_ok (mem s)) (prologue s :: bl);
  rep_epilogue : load (mem s) (mem_brk s - WSIZE) = 1;
  rep_members : forall q, In q fl -> exists sz, In (q, sz, 0) bl;
  rep_nodup : NoDup fl;
  rep_dll : dll (mem s) NULL fl t;
  rep_head : free_listp s = hd t fl;
  rep_term : t = NULL \/ t = mem_lo s
}.

(** The invariant between two public operations: every free block is on
    the free list and no two neighbours are both free. *)
Definition heap_ok (s : state) (bl : list block) (fl : list Z) (t : Z)
  : Prop :=
  heap_rep s bl fl t /\ cover bl fl /\ adjacent_free bl = false.

(** The heap when [coalesce] is called: the free block [b], between the
    blocks [l1] and [l2], is on no list yet and may touch a free
    neighbour; with [b] counted as allocated the invariant holds. *)
Definition heap_pending (s : state) (l1 : list block) (b : block)
    (l2 : list block) (fl : list Z) (t : Z) : Prop :=
  heap_rep s (l1 ++ b :: l2) fl t /\ balloc b = 0 /\
  cover (l1 ++ l2) fl /\
  adjacent_free (l1 ++ (bptr b, bsize b, 1) :: l2) = false.

(** The heap when [coalesce] calls [insert_to_free_list]: the merged
    block [r] is free, has no free neighbour and is on no list yet. *)
Definition heap_ready (s : state) (k1 : list block) (r : block)
    (k2 : list block) (fl : list Z) (t : Z) : Prop :=
  heap_rep s (k1 ++ r :: k2) fl t /\ balloc r = 0 /\
  cover (k1 ++ k2) fl /\
  adjacent_free (k1 ++ r :: k2) = false.

(** Every entry of the bucket table is null, a block of the free list,
    or an allocated block (the prologue is one).  The table [mm_init]
    leaves, twenty null entries, is of this kind, and no other function
    of mm.c assigns an entry. *)
Definition lists_ok (s : state) (bl : list block) (fl : list Z) : Prop :=
  Forall (fun h => h = NULL \/ In h fl \/
                   exists sz, In (h, sz, 1) (prologue s :: bl))
         (segregated_lists s).

(** The heap between two calls of the allocator.  The free list ends at
    the padding word, where [insert_to_free_list] and
    [remove_from_free_list] may write the predecessor link of the end;
    memlib's limit is an address. *)
Definition good (s : state) (bl : list block) (fl : list Z) : Prop :=
  heap_ok s bl fl (mem_lo s) /\ lists_ok s bl fl /\
  mem_max_addr s < 2 ^ 64.

(** A pointer the caller may pass to [free] and [realloc]: null, or the
    payload address of an allocated block. *)
Definition in_use (bl : list block) (p : Z) : Prop :=
  p = NULL \/ exists z, In (p, z, 1) bl.

(** Two block lists with the same allocated blocks. *)
Definition same_allocated (bl bl' : list block) : Prop :=
  forall c, balloc c = 1 -> (In c bl <-> In c bl').

(** A byte of the payload of an allocated block. *)
Definition payload_byte (bl : list block) (x : Z) : Prop :=
  exists b, In b bl /\ balloc b = 1 /\
            bptr b <= x < bptr b + bsize b - OVERHEAD.

(** What the operations leave alone: memlib's bounds, [heap_listp], the
    bucket table, and the payload bytes of the allocated blocks [bl]. *)
Definition frame (bl : list block) (s s' : state) : Prop :=
  mem_lo s' = mem_lo s /\ mem_brk s' = mem_brk s /\
  mem_max_addr s' = mem_max_addr s /\
  heap_listp s' = heap_listp s /\
  segregated_lists s' = segregated_lists s /\
  forall x, payload_byte bl x -> mem s' x = mem s x.

(** [frame] for an operation that may move the break. *)
Definition grown (bl : list block) (s s' : state) : Prop :=
  mem_lo s' = mem_lo s /\ mem_brk s <= mem_brk s' /\
  mem_max_addr s' = mem_max_addr s /\
  heap_listp s' = heap_listp s /\
  segregated_lists s' = segregated_lists s /\
  forall x, payload_byte bl x -> mem s' x = mem s x.

(** What [malloc] leaves when it hands out the block at [r]: a heap in
    order again, with one more allocated block, of at least
    [n + OVERHEAD] bytes, which was no allocated block before. *)
Definition allocated_at (n : Z) (s : state) (bl : list block) (t : Z)
    (r : Z) (s' : state) : Prop :=
  r <> NULL /\
  exists bl' fl' z,
    heap_ok s' bl' fl' t /\ n + OVERHEAD <= z /\ In (r, z, 1) bl' /\
    same_allocated ((r, z, 1) :: bl) bl' /\ grown bl s s' /\
    (forall c, In c bl -> balloc c = 1 -> bptr c <> r).

(** The state in which a C program starts: nothing obtained from memlib
    yet, the table of [LISTLIMIT] buckets, and [free_listp] null, as a
    pointer at file scope is before its first assignment; mm.c assigns
    [free_listp] in [insert_to_free_list] and
    [remove_from_free_list] only. *)
Definition unstarted (s : state) : Prop :=
  0 < mem_lo s /\ mem_brk s = mem_lo s /\ free_listp s = NULL /\
  mem_max_addr s < 2 ^ 64 /\
  length (segregated_lists s) = Z.to_nat LISTLIMIT.

(** ** The public operations as calls *)

Inductive call : Type :=
| Init
| Malloc (size : Z)
| Free (ptr : Z)
| Realloc (ptr size : Z)
| Calloc (nmemb size : Z).

(** The result is the returned pointer, the return value of [mm_init],
    or 0 for [free]. *)
Definition run (c : call) : M Z :=
  match c with
  | Init => mm_init
  | Malloc size => malloc size
  | Free ptr => free ptr ;;; ret 0
  | Realloc ptr size => realloc ptr size
  | Calloc nmemb size => calloc nmemb size
  end.

(** What a call may rely on: [mm_init] the state a program starts in,
    the others a heap in order, pointers that are in use, and a request
    that [malloc] can adjust without wrapping around. *)
Definition ready (c : call) (s : state) (bl : list block) (fl : list Z)
  : Prop :=
  match c with
  | Init => unstarted s
  | Malloc size => good s bl fl /\ 0 <= size /\ size + 2 * DSIZE < 2 ^ 64
  | Free ptr => good s bl fl /\ in_use bl ptr
  | Realloc ptr size =>
      good s bl fl /\ in_use bl ptr /\
      0 <= size /\ size + 2 * DSIZE < 2 ^ 64
  | Calloc nmemb size =>
      good s bl fl /\ wrap (nmemb * size) + 2 * DSIZE < 2 ^ 64
  end.

(** ** Sessions: one call after another

    Every bucket is null, as [mm_init] leaves it, or holds the prologue
    block.  No function but [mm_init] assigns a bucket, and the prologue
    stays allocated, so a table of this kind stays of this kind. *)
Definition tame (s : state) : Prop :=
  Forall (fun h => h = NULL \/ h = heap_listp s) (segregated_lists s).

(** A heap between two calls of a session.  Either its free list ends
    at the padding word, or it is the heap a failed [mm_init] leaves:
    prologue and epilogue only, an empty free list with a null head, and
    every bucket null. *)
Definition settled (s : state) : Prop :=
  mem_max_addr s < 2 ^ 64 /\
  ((exists bl fl, heap_ok s bl fl (mem_lo s) /\ tame s) \/
   (heap_ok s [] [] NULL /\
    Forall (fun h => h = NULL) (segregated_lists s))).




(** ** A concrete heap

    A heap of eight blocks between the prologue and the epilogue, at
    addresses as memlib could hand them out:
<<
      4096  padding                    4288  E  32 bytes, allocated
      4112  prologue                   4320  F  32 bytes, allocated
      4128  A  32 bytes, allocated     4352  G  32 bytes, allocated
      4160  B  32 bytes, free          4384  H  32 bytes, free
      4192  C  32 bytes, allocated     4408  epilogue header
      4224  D  64 bytes, free          4416  end of the heap
>>
    The free blocks are linked D -> B -> H from [free_listp]. *)
Fixpoint write_words (m : memory) (a : Z) (ws : list Z) : memory :=
  match ws with
  | [] => m
  | w :: r => write_words (store m a w) (a + WSIZE) r
  end.

Module Demo.

Definition A : Z := 4128.
Definition B : Z := 4160.
Definition C : Z := 4192.
Definition D : Z := 4224.
Definition E : Z := 4288.
Definition F : Z := 4320.
Definition G : Z := 4352.
Definition H : Z := 4384.

Definition words : list Z :=
  [ 0; 17; 17;
    33; 11; 12; 33;
    32; D; H; 32;
    33; 31; 32; 33;
    64; NULL; B; 0; 0; 0; 0; 64;
    33; 51; 52; 33;
    33; 61; 62; 33;
    33; 71; 72; 33;
    32; B; NULL; 32;
    1 ].

Definition image : memory := write_words (fun _ => 0) 4096 words.

(** The heap above with bucket table [lists] and [room] bytes left to
    [mem_sbrk]. *)
Definition heap (lists : list Z) (room : Z) : state :=
  mkState image 4096 4416 (4416 + room) 4112 lists D.

(** The table as [mm_init] leaves it. *)
Definition no_lists : list Z := repeat NULL (Z.to_nat LISTLIMIT).

(** A table whose class 5 ends at once, on the allocated prologue. *)
Definition ended_lists : list Z := set_nth no_lists 5 4112.

(** A table whose class 6 starts at the 64-byte block D. *)
Definition D_lists : list Z := set_nth no_lists 6 D.

(** Block F with header and footer rewritten as free, the state in
    which [free] calls [coalesce]. *)
Definition released_F : state :=
  set_mem (heap no_lists 0) (store (store image (HDRP F) 32) (F + 16) 32).

(** The state a program starts in, with [room] bytes that memlib can
    hand out: no heap yet, and the pointers at file scope null. *)
Definition start (room : Z) : state :=
  mkState (fun _ => 0) 4096 4096 (4096 + room) NULL no_lists NULL.

(** The blocks of the heap above, and its free list. *)
Definition blocks : list block :=
  [ (A, 32, 1); (B, 32, 0); (C, 32, 1); (D, 64, 0);
    (E, 32, 1); (F, 32, 1); (G, 32, 1); (H, 32, 0) ].

Definition free_blocks : list Z := [D; B; H].

(** The same heap with the free list ending at the padding word, where
    a list that began with [free_listp] at the bottom of the heap ends. *)
Definition tidy (lists : list Z) (room : Z) : state :=
  set_mem (heap lists room) (store image (H + WSIZE) 4096).

End Demo.


(** ** The heap checker of mm.c

    [mm_checkheap], [print_block] and [check_block] only read the heap
    and print.  What they print is the value of the embedding: one
    message for each [printf] of the source, carrying the arguments of
    its format, in the order of the calls. *)

(** The letter a block is printed with, ['a'] for allocated and ['f']
    for free. *)
Inductive letter : Type := letter_a | letter_f.

Inductive message : Type :=
| Heap_at (p : Z)                    (* Heap (%p): *)
| Bad_prologue                       (* Bad prologue header *)
| Bad_epilogue                       (* Bad epilogue header *)
| End_of_list (bp : Z)               (* %p: EOL *)
| Block_line (bp hsize : Z) (h : letter) (fsize : Z) (f : letter)
                                     (* %p: header: [%ld:%c] footer: [%ld:%c] *)
| Not_aligned (bp : Z)               (* Error: %p is not doubleword aligned *)
| Tag_mismatch.                      (* Error: header does not match footer *)

(** [(x)? 'a' : 'f'] *)
Definition letter_of (x : Z) : letter :=
  if negb (x =? 0) then letter_a else letter_f.

Definition print_block (bp : Z) : M (list message) :=
  hsize <- GET_SIZE (HDRP bp) ;;
  halloc <- GET_ALLOC (HDRP bp) ;;
  f <- FTRP bp ;;
  fsize <- GET_SIZE f ;;
  f <- FTRP bp ;;
  falloc <- GET_ALLOC f ;;
  if hsize =? 0 then ret [End_of_list bp]
  else ret [Block_line bp hsize (letter_of halloc) fsize (letter_of falloc)].

Definition check_block (bp : Z) : M (list message) :=
  let o1 := if negb (bp mod 8 =? 0) then [Not_aligned bp] else [] in
  h <- GET (HDRP bp) ;;
  f <- FTRP bp ;;
  t <- GET f ;;
  ret (o1 ++ (if negb (h =? t) then [Tag_mismatch] else [])).

(** The [for] loop of [mm_checkheap]: what it prints, and the block
    pointer it stops at.  The walk only reads, so one that takes more
    rounds than the heap has bytes never ends: [Hang], as in
    [fit_loop]. *)
Fixpoint check_loop (fuel : nat) (verbose bp : Z) : M (list message * Z) :=
  match fuel with
  | O => raise Hang
  | S k =>
      sz <- GET_SIZE (HDRP bp) ;;
      if sz >? 0 then
        o1 <- (if negb (verbose =? 0) then print_block bp else ret []) ;;
        o2 <- check_block bp ;;
        nb <- NEXT_BLKP bp ;;
        r <- check_loop k verbose nb ;;
        ret (o1 ++ o2 ++ fst r, snd r)
      else ret ([], bp)
  end.

(** The test [(GET_SIZE(HDRP(bp)) != size) || !GET_ALLOC(HDRP(bp))] of
    the prologue and of the epilogue; the allocated bit is read only
    when the size is the expected one. *)
Definition bad_header (bp size : Z) : M bool :=
  sz <- GET_SIZE (HDRP bp) ;;
  if negb (sz =? size) then ret true
  else a <- GET_ALLOC (HDRP bp) ;; ret (a =? 0).

Definition mm_checkheap (verbose : Z) : M (list message) :=
  fun s =>
  (let hp := heap_listp s in
   let o0 := if negb (verbose =? 0) then [Heap_at hp] else [] in
   bad <- bad_header hp DSIZE ;;
   let o1 := if (bad : bool) then [Bad_prologue] else [] in
   o2 <- check_block hp ;;
   r <- check_loop (heap_fuel s) verbose hp ;;
   o4 <- (if negb (verbose =? 0) then print_block (snd r) else ret []) ;;
   bad <- bad_header (snd r) 0 ;;
   let o5 := if (bad : bool) then [Bad_epilogue] else [] in
   ret (o0 ++ o1 ++ o2 ++ fst r ++ o4 ++ o5)) s.

(** The line [print_block] prints for a block whose header and footer
    agree. *)
Definition line_of (b : block) : message :=
  Block_line (bptr b) (bsize b) (letter_of (balloc b))
             (bsize b) (letter_of (balloc b)).

(** ** The concrete heap, a block being released

    The heap [Demo.tidy] with both boundary tags of the allocated block
    at [p], of [size] bytes, rewritten as free: the state in which
    [free] calls [coalesce]. *)
Definition tidy_released (p size : Z) : state :=
  let s := Demo.tidy Demo.no_lists 0 in
  set_mem s (store (store (mem s) (HDRP p) (PACK size 0))
                   (p + size - DSIZE) (PACK size 0)).

(** The blocks of [Demo.tidy] with the block at [p] counted as free. *)
Definition released_blocks (p : Z) : list block :=
  map (fun c => if bptr c =? p then (bptr c, bsize c, 0) else c) Demo.blocks.
(** * Reasoning about the embedding *)

(** ** Inversion of monadic code *)

Lemma bind_ok {A B} (c : M A) (k : A -> M B) s b s' :
  bind c k s = Ok (b, s') ->
  exists a s1, c s = Ok (a, s1) /\ k a s1 = Ok (b, s').
Proof.
  unfold bind. destruct (c s) as [[a s1]|f]; [|discriminate].
  intros H. exists a, s1. split; [reflexivity|exact H].
Qed.

Lemma bind_eq {A B} (c : M A) (k : A -> M B) s a s1 :
  c s = Ok (a, s1) -> bind c k s = k a s1.
Proof. unfold bind. intros ->. reflexivity. Qed.

Lemma bind_err {A B} (c : M A) (k : A -> M B) s f :
  c s = Err f -> bind c k s = Err f.
Proof. unfold bind. intros ->. reflexivity. Qed.

Lemma GET_ok p s v s' :
  GET p s = Ok (v, s') -> s' = s /\ valid s p = true /\ v = load (mem s) p.
Proof.
  unfold GET. destruct (valid s p); [|discriminate].
  intros H. inversion H. auto.
Qed.

Lemma GET_eq p s : valid s p = true -> GET p s = Ok (load (mem s) p, s).
Proof. unfold GET. intros ->. reflexivity. Qed.

Lemma PUT_ok p v s u s' :
  PUT p v s = Ok (u, s') ->
  s' = set_mem s (store (mem s) p v) /\ valid s p = true.
Proof.
  unfold PUT. destruct (valid s p); [|discriminate].
  intros H. inversion H. auto.
Qed.

Lemma PUT_eq p v s :
  valid s p = true -> PUT p v s = Ok (tt, set_mem s (store (mem s) p v)).
Proof. unfold PUT. intros ->. reflexivity. Qed.

(** [returns]: a call that is seen to come back, and what it gives. *)
Lemma returns_intro {A} (c : M A) s (Q : A -> state -> Prop) :
  (forall X, c s = X -> exists r s', X = Ok (r, s') /\ Q r s') ->
  returns c s Q.
Proof. intros H. exact (H _ eq_refl). Qed.

Lemma returns_ok {A} (c : M A) s (Q : A -> state -> Prop) r s' :
  returns c s Q -> c s = Ok (r, s') -> Q r s'.
Proof.
  intros (r0 & s0 & E & HQ) H. rewrite E in H. inversion H. subst. exact HQ.
Qed.

Lemma returns_weaken {A} (c : M A) s (Q Q' : A -> state -> Prop) :
  returns c s Q -> (forall r s', Q r s' -> Q' r s') -> returns c s Q'.
Proof.
  intros (r & s' & E & HQ) H. exists r, s'. split; [exact E|auto].
Qed.

Lemma returns_bind {A B} (c : M A) (k : A -> M B) s
    (Q : B -> state -> Prop) :
  returns c s (fun a s1 => returns (k a) s1 Q) -> returns (bind c k) s Q.
Proof.
  intros (a & s1 & E & r & s' & E' & HQ). exists r, s'.
  split; [rewrite (bind_eq _ _ _ _ _ E); exact E'|exact HQ].
Qed.

Lemma returns_ret {A} (a : A) s (Q : A -> state -> Prop) :
  Q a s -> returns (ret a) s Q.
Proof. intros H. exists a, s. split; [reflexivity|exact H]. Qed.

Section Keeps.
Variable R : state -> state -> Prop.
Hypothesis R_refl : forall s, R s s.
Hypothesis R_trans : forall s1 s2 s3, R s1 s2 -> R s2 s3 -> R s1 s3.

Lemma keeps_ret {A} (a : A) : keeps R (ret a).
Proof. intros s a' s' H. inversion H. apply R_refl. Qed.

Lemma keeps_raise {A} f : keeps R (@raise A f).
Proof. intros s a' s' H. discriminate. Qed.

Lemma keeps_bind {A B} (c : M A) (k : A -> M B) :
  keeps R c -> (forall a, keeps R (k a)) -> keeps R (bind c k).
Proof.
  intros Hc Hk s b s' H. apply bind_ok in H.
  destruct H as (a & s1 & H1 & H2).
  eapply R_trans; [eapply Hc; eassumption | eapply Hk; eassumption].
Qed.

Lemma keeps_if {A} (b : bool) (c1 c2 : M A) :
  keeps R c1 -> keeps R c2 -> keeps R (if b then c1 else c2).
Proof. destruct b; auto. Qed.

Lemma keeps_GET p : keeps R (GET p).
Proof. intros s a s' H. apply GET_ok in H. destruct H as (-> & _). apply R_refl. Qed.

Lemma keeps_get_free_listp : keeps R get_free_listp.
Proof. intros s a s' H. inversion H. apply R_refl. Qed.

Lemma keeps_get_list i : keeps R (get_list i).
Proof.
  intros s a s' H. unfold get_list in H.
  destruct ((0 <=? i) && (i <? LISTLIMIT)); [|discriminate].
  destruct (nth_error _ _); [|discriminate].
  inversion H. apply R_refl.
Qed.

Lemma keeps_reads_GET_SIZE p : keeps R (GET_SIZE p).
Proof. apply keeps_bind; [apply keeps_GET | intros; apply keeps_ret]. Qed.

Lemma keeps_reads_GET_ALLOC p : keeps R (GET_ALLOC p).
Proof. apply keeps_bind; [apply keeps_GET | intros; apply keeps_ret]. Qed.

Lemma keeps_FTRP p : keeps R (FTRP p).
Proof. apply keeps_bind; [apply keeps_reads_GET_SIZE | intros; apply keeps_ret]. Qed.

Lemma keeps_NEXT_BLKP p : keeps R (NEXT_BLKP p).
Proof. apply keeps_bind; [apply keeps_reads_GET_SIZE | intros; apply keeps_ret]. Qed.

Lemma keeps_PREV_BLKP p : keeps R (PREV_BLKP p).
Proof. apply keeps_bind; [apply keeps_reads_GET_SIZE | intros; apply keeps_ret]. Qed.

Lemma keeps_fit_loop n asize bp : keeps R (fit_loop n asize bp).
Proof.
  revert bp. induction n as [|n IH]; intros bp; simpl.
  - apply keeps_raise.
  - apply keeps_bind; [apply keeps_reads_GET_ALLOC|]. intros a.
    apply keeps_if; [|apply keeps_ret].
    apply keeps_bind; [apply keeps_reads_GET_SIZE|]. intros sz.
    apply keeps_if; [apply keeps_ret|].
    apply keeps_bind; [apply keeps_GET|]. intros nx. apply IH.
Qed.

Lemma keeps_find_fit asize : keeps R (find_fit asize).
Proof.
  apply keeps_bind; [apply keeps_get_list|]. intros bp s a s' H.
  eapply keeps_fit_loop; eassumption.
Qed.

(** Computations that write: what they keep depends on [R]. *)
Hypothesis R_mem : forall s m, R s (set_mem s m).
Hypothesis R_fl : forall s p, R s (set_free_listp s p).

Lemma keeps_PUT p v : keeps R (PUT p v).
Proof. intros s a s' H. apply PUT_ok in H. destruct H as (-> & _). apply R_mem. Qed.

Lemma keeps_put_free_listp p : keeps R (put_free_listp p).
Proof. intros s a s' H. inversion H. apply R_fl. Qed.

Lemma keeps_memcpy d sr n : keeps R (memcpy d sr n).
Proof.
  intros s a s' H. unfold memcpy in H.
  destruct (n =? 0); [inversion H; apply R_refl|].
  destruct (negb _); [discriminate|].
  destruct (negb _); [discriminate|].
  inversion H. apply R_mem.
Qed.

Lemma keeps_memset d c n : keeps R (memset d c n).
Proof.
  intros s a s' H. unfold memset in H.
  destruct (n =? 0); [inversion H; apply R_refl|].
  destruct (negb _); [discriminate|].
  inversion H. apply R_mem.
Qed.

Hypothesis R_brk : forall s b, R s (set_brk s b).

Lemma keeps_mem_sbrk n : keeps R (mem_sbrk n).
Proof.
  intros s a s' H. unfold mem_sbrk in H.
  destruct (sbrk_refuses s n); inversion H; [apply R_refl | apply R_brk].
Qed.

Ltac keeps_step :=
  first [ progress cbv zeta
        | apply keeps_ret | apply keeps_GET | apply keeps_PUT
        | apply keeps_get_free_listp | apply keeps_put_free_listp
        | apply keeps_find_fit | apply keeps_mem_sbrk
        | apply keeps_memcpy | apply keeps_memset
        | apply keeps_if
        | apply keeps_bind; [|intros ?] ].

Lemma keeps_insert_to_free_list bp : keeps R (insert_to_free_list bp).
Proof. unfold insert_to_free_list. repeat keeps_step. Qed.

Lemma keeps_remove_from_free_list bp : keeps R (remove_from_free_list bp).
Proof. unfold remove_from_free_list. repeat keeps_step. Qed.

Lemma keeps_coalesce_merge bp pa na size :
keeps R (coalesce_merge bp pa na size).
Proof.
unfold coalesce_merge.
repeat first [ apply keeps_remove_from_free_list | keeps_step ].
Qed.

Lemma keeps_coalesce bp : keeps R (coalesce bp).
Proof.
unfold coalesce.
repeat first [ apply keeps_coalesce_merge
             | apply keeps_insert_to_free_list | keeps_step ].
Qed.

Lemma keeps_place bp asize : keeps R (place bp asize).
Proof.
  unfold place.
  repeat first [ apply keeps_remove_from_free_list
               | apply keeps_coalesce | keeps_step ].
Qed.

Lemma keeps_free ptr : keeps R (free ptr).
Proof. unfold free. repeat first [ apply keeps_coalesce | keeps_step ]. Qed.

Lemma keeps_extend_heap words : keeps R (extend_heap words).
Proof.
  unfold extend_heap. repeat first [ apply keeps_coalesce | keeps_step ].
Qed.

Lemma keeps_malloc size : keeps R (malloc size).
Proof.
  unfold malloc.
  repeat first [ apply keeps_place | apply keeps_extend_heap | keeps_step ].
Qed.

Lemma keeps_realloc oldptr size : keeps R (realloc oldptr size).
Proof.
  unfold realloc.
  repeat first [ apply keeps_malloc | apply keeps_free | keeps_step ].
Qed.

Lemma keeps_calloc nmemb size : keeps R (calloc nmemb size).
Proof. unfold calloc. repeat first [ apply keeps_malloc | keeps_step ]. Qed.
End Keeps.

Lemma unchanged_refl s : unchanged s s.
Proof. reflexivity. Qed.

Lemma unchanged_trans s1 s2 s3 :
  unchanged s1 s2 -> unchanged s2 s3 -> unchanged s1 s3.
Proof. unfold unchanged. congruence. Qed.

Lemma find_fit_pure asize s bp s' : find_fit asize s = Ok (bp, s') -> s' = s.
Proof.
  intros H.
  exact (keeps_find_fit unchanged unchanged_refl unchanged_trans asize s bp s' H).
Qed.

Lemma find_fit_value asize s bp :
  value_of (find_fit asize s) = Some bp -> find_fit asize s = Ok (bp, s).
Proof.
  destruct (find_fit asize s) as [[v s']|f] eqn:H; [|discriminate].
  intros E. inversion E. subst v.
  apply find_fit_pure in H. subst s'. reflexivity.
Qed.

Lemma same_lists_refl s : same_lists s s.
Proof. reflexivity. Qed.

Lemma same_lists_trans s1 s2 s3 :
  same_lists s1 s2 -> same_lists s2 s3 -> same_lists s1 s3.
Proof. unfold same_lists. congruence. Qed.

Lemma same_lists_mem s m : same_lists s (set_mem s m).
Proof. reflexivity. Qed.

Lemma same_lists_fl s p : same_lists s (set_free_listp s p).
Proof. reflexivity. Qed.

Lemma same_lists_brk s b : same_lists s (set_brk s b).
Proof. reflexivity. Qed.

(** ** Words in memory *)

Lemma store_in m a v x :
  a <= x < a + 8 -> store m a v x = Z.shiftr v (8 * (x - a)) mod 256.
Proof.
  intros H. unfold store.
  replace ((a <=? x) && (x <? a + 8)) with true; [reflexivity|].
  symmetry. apply andb_true_iff. split; [apply Z.leb_le | apply Z.ltb_lt]; lia.
Qed.

Lemma store_out m a v x :
  x < a \/ a + 8 <= x -> store m a v x = m x.
Proof.
  intros H. unfold store.
  replace ((a <=? x) && (x <? a + 8)) with false; [reflexivity|].
  symmetry. apply andb_false_iff.
  destruct H; [left; apply Z.leb_gt | right; apply Z.ltb_ge]; lia.
Qed.

Lemma load_bytes_ext n m1 m2 a :
  (forall i, 0 <= i < Z.of_nat n -> m1 (a + i) = m2 (a + i)) ->
  load_bytes n m1 a = load_bytes n m2 a.
Proof.
  revert a. induction n as [|n IH]; intros a H; [reflexivity|].
  cbn [load_bytes]. f_equal.
  - replace a with (a + 0) by lia. rewrite (H 0) by lia. reflexivity.
  - f_equal. apply IH. intros i Hi.
    replace (a + 1 + i) with (a + (1 + i)) by lia. apply H. lia.
Qed.

Lemma load_ext m1 m2 a :
  (forall i, 0 <= i < 8 -> m1 (a + i) = m2 (a + i)) -> load m1 a = load m2 a.
Proof. intros H. apply load_bytes_ext. exact H. Qed.

Lemma load_bytes_range n m a : 0 <= load_bytes n m a < 2 ^ (8 * Z.of_nat n).
Proof.
  revert a. induction n as [|n IH]; intros a.
  - cbn. lia.
  - cbn [load_bytes].
    replace (8 * Z.of_nat (S n)) with (8 + 8 * Z.of_nat n) by lia.
    rewrite Z.pow_add_r by lia.
    specialize (IH (a + 1)).
    assert (0 <= m a mod 256 < 256) by (apply Z.mod_pos_bound; lia).
    change (2 ^ 8) with 256. nia.
Qed.

Lemma load_range m a : 0 <= load m a < 2 ^ 64.
Proof. exact (load_bytes_range 8 m a). Qed.

Lemma load_bytes_store n m a v k :
  0 <= k -> k + Z.of_nat n <= 8 ->
  load_bytes n (store m a v) (a + k) =
  Z.shiftr v (8 * k) mod 2 ^ (8 * Z.of_nat n).
Proof.
  revert k. induction n as [|n IH]; intros k Hk Hn.
  - cbn. rewrite Z.mod_1_r. reflexivity.
  - cbn [load_bytes]. rewrite store_in by lia.
    replace (a + k + 1) with (a + (k + 1)) by lia.
    rewrite IH by lia.
    replace (a + k - a) with k by lia.
    rewrite Z.mod_mod by lia.
    replace (8 * Z.of_nat (S n)) with (8 + 8 * Z.of_nat n) by lia.
    rewrite Z.pow_add_r by lia. change (2 ^ 8) with 256.
    rewrite Z.rem_mul_r by lia.
    replace (8 * (k + 1)) with (8 * k + 8) by lia.
    rewrite <- Z.shiftr_shiftr by lia.
    rewrite (Z.shiftr_div_pow2 (Z.shiftr v (8 * k)) 8) by lia.
    reflexivity.
Qed.

Lemma load_store_same m a v : load (store m a v) a = wrap v.
Proof.
  unfold load, wrap. replace a with (a + 0) at 2 by lia.
  rewrite load_bytes_store by lia. rewrite Z.shiftr_0_r. reflexivity.
Qed.

Lemma load_store_other m a v b :
  b + 8 <= a \/ a + 8 <= b -> load (store m a v) b = load m b.
Proof.
  intros H. apply load_ext. intros i Hi. apply store_out. lia.
Qed.

Lemma wrap_small z : 0 <= z < 2 ^ 64 -> wrap z = z.
Proof. intros H. unfold wrap. apply Z.mod_small. exact H. Qed.

Lemma wrap_range z : 0 <= wrap z < 2 ^ 64.
Proof. unfold wrap. apply Z.mod_pos_bound. lia. Qed.

(** ** Packing a size and an allocated bit *)

Lemma land_SIZE_MASK x :
  0 <= x < 2 ^ 64 -> Z.land x SIZE_MASK = 16 * (x / 16).
Proof.
  intros H.
  change SIZE_MASK with (Z.shiftl (Z.ones 60) 4).
  replace (16 * (x / 16)) with (Z.shiftl (Z.shiftr x 4) 4)
    by (rewrite Z.shiftl_mul_pow2, Z.shiftr_div_pow2 by lia;
        change (2 ^ 4) with 16; lia).
  apply Z.bits_inj'. intros i Hi.
  rewrite Z.land_spec, !Z.shiftl_spec by lia.
  destruct (Z.ltb_spec i 4) as [Hlt|Hge].
  - rewrite !(Z.testbit_neg_r _ (i - 4)) by lia. apply andb_false_r.
  - rewrite Z.shiftr_spec by lia. replace (i - 4 + 4) with i by lia.
    rewrite Z.testbit_ones_nonneg by lia.
    destruct (Z.ltb_spec (i - 4) 60) as [Hlo|Hhi]; [apply andb_true_r|].
    rewrite andb_false_r. symmetry.
    destruct (Z.eq_dec x 0) as [->|Hx]; [apply Z.bits_0|].
    apply Z.bits_above_log2; [lia|].
    apply Z.log2_lt_pow2; [lia|].
    apply Z.lt_le_trans with (2 ^ 64); [lia|].
    apply Z.pow_le_mono_r; lia.
Qed.

Lemma land_1 x : Z.land x 1 = x mod 2.
Proof. change 1 with (Z.ones 1) at 1. rewrite Z.land_ones by lia. reflexivity. Qed.

Lemma PACK_free size : PACK size 0 = size.
Proof. apply Z.lor_0_r. Qed.

Lemma PACK_add size a :
  size mod 16 = 0 -> a = 0 \/ a = 1 -> PACK size a = size + a.
Proof.
  intros Hs [->| ->]; [rewrite PACK_free; lia|].
  unfold PACK. pose proof (Z.add_lor_land size 1) as E.
  rewrite land_1 in E.
  assert (size mod 2 = 0).
  { rewrite (Z.div_mod size 16) by lia. rewrite Hs.
    replace (16 * (size / 16) + 0) with ((8 * (size / 16)) * 2) by lia.
    apply Z.mod_mul. lia. }
  lia.
Qed.

Lemma unpack_size size a :
  0 <= size -> size + a < 2 ^ 64 -> size mod 16 = 0 -> a = 0 \/ a = 1 ->
  Z.land (size + a) SIZE_MASK = size.
Proof.
  intros H0 H1 Hs Ha. rewrite land_SIZE_MASK by lia.
  assert (size = 16 * (size / 16)) by (pose proof (Z.div_mod size 16); lia).
  assert ((size + a) / 16 = size / 16).
  { symmetry. apply Z.div_unique with (r := a); lia. }
  lia.
Qed.

Lemma unpack_alloc size a :
  size mod 16 = 0 -> a = 0 \/ a = 1 -> Z.land (size + a) 1 = a.
Proof.
  intros Hs Ha. rewrite land_1.
  assert (size = 2 * (8 * (size / 16))) by (pose proof (Z.div_mod size 16); lia).
  symmetry. apply Z.mod_unique with (q := 8 * (size / 16)); lia.
Qed.

(** * The size-class index of [find_fit] *)

Lemma class_loop_saturates n i size :
  i + Z.of_nat n = LISTLIMIT -> 2 ^ Z.of_nat n <= size ->
  class_loop n i size = LISTLIMIT.
Proof.
  revert i size. induction n as [|n IH]; intros i size Hi Hs.
  - cbn in *. lia.
  - cbn [class_loop].
    assert (Hp : 2 ^ Z.of_nat (S n) = 2 * 2 ^ Z.of_nat n).
    { rewrite Nat2Z.inj_succ, Z.pow_succ_r by lia. reflexivity. }
    assert (0 < 2 ^ Z.of_nat n) by (apply Z.pow_pos_nonneg; lia).
    replace ((i <? LISTLIMIT) && (size >? 1)) with true.
    + apply IH; [lia|].
      rewrite Z.shiftr_div_pow2 by lia. change (2 ^ 1) with 2.
      apply Z.div_le_lower_bound; lia.
    + symmetry. apply andb_true_iff. split.
      * apply Z.ltb_lt. lia.
      * apply Z.gtb_lt. lia.
Qed.

Lemma class_loop_bound n i size k :
  0 <= k -> size < 2 ^ (k + 1) -> i <= class_loop n i size <= i + k.
Proof.
  revert i size k. induction n as [|n IH]; intros i size k Hk Hs.
  - cbn. lia.
  - cbn [class_loop].
    destruct ((i <? LISTLIMIT) && (size >? 1)) eqn:Hg; [|lia].
    apply andb_true_iff in Hg. destruct Hg as [_ Hg]. apply Z.gtb_lt in Hg.
    assert (1 <= k).
    { destruct (Z.eq_dec k 0) as [->|]; [|lia]. cbn in Hs. lia. }
    assert (Hr : Z.shiftr size 1 < 2 ^ (k - 1 + 1)).
    { rewrite Z.shiftr_div_pow2 by lia. change (2 ^ 1) with 2.
      apply Z.div_lt_upper_bound; [lia|].
      replace (k - 1 + 1) with k by lia.
      rewrite <- Z.pow_succ_r by lia. replace (Z.succ k) with (k + 1) by lia.
      exact Hs. }
    specialize (IH (i + 1) (Z.shiftr size 1) (k - 1) ltac:(lia) Hr). lia.
Qed.

(** Below 2^20 bytes the index is one of the twenty classes. *)
Lemma list_index_small asize :
  asize < 2 ^ 20 -> 0 <= list_index asize < LISTLIMIT.
Proof.
  intros H. unfold list_index.
  pose proof (class_loop_bound (Z.to_nat LISTLIMIT) 0 asize 19 ltac:(lia) H).
  unfold LISTLIMIT in *. lia.
Qed.

(** C8, which the code does not meet: the guard of the shifting loop is
    [listIdx < LISTLIMIT], so for every adjusted size of 2^20 bytes or
    more the loop stops with [listIdx = LISTLIMIT = 20], and the read of
    [segregated_lists[listIdx]] that follows is one past the twenty
    entries of the array. *)
Theorem find_fit_index_reaches_LISTLIMIT asize s :
  2 ^ 20 <= asize ->
  list_index asize = LISTLIMIT /\
  find_fit asize s = Err (OutOfBounds LISTLIMIT).
Proof.
  intros H.
  assert (Hi : list_index asize = LISTLIMIT).
  { unfold list_index. apply class_loop_saturates; [reflexivity|exact H]. }
  split; [exact Hi|].
  unfold find_fit. rewrite Hi. reflexivity.
Qed.

Lemma find_fit_index_reaches_LISTLIMIT_witness :
  2 ^ 20 <= adjust (2 ^ 20) /\
  list_index (adjust (2 ^ 20)) = LISTLIMIT /\
  find_fit (adjust (2 ^ 20)) (Demo.heap Demo.no_lists 0) =
    Err (OutOfBounds LISTLIMIT).
Proof.
  split; [vm_compute; discriminate|].
  apply (find_fit_index_reaches_LISTLIMIT (adjust (2 ^ 20))
           (Demo.heap Demo.no_lists 0)).
  vm_compute. discriminate.
Defined.

(** * Resizing the null pointer to nothing *)

(** C10: [realloc(NULL, 0)] takes the [size == 0] branch first, which
    calls [free(NULL)], a no-op, and returns NULL; the state is the one
    it was called in. *)
Theorem realloc_null_zero s : realloc NULL 0 s = Ok (NULL, s).
Proof. reflexivity. Qed.

(** * Allocation when the heap cannot grow *)

Lemma mem_sbrk_fails incr s :
  sbrk_refuses s incr = true -> mem_sbrk incr s = Ok (SBRK_FAILED, s).
Proof. unfold mem_sbrk. intros ->. reflexivity. Qed.

Lemma extend_heap_fails words s :
  sbrk_refuses s (extend_size words) = true ->
  extend_heap words s = Ok (NULL, s).
Proof.
  intros H. unfold extend_heap. cbv zeta.
  rewrite (bind_eq _ _ _ _ _ (mem_sbrk_fails _ _ H)). reflexivity.
Qed.

Lemma malloc_fails_unchanged s s' size :
  0 < size ->
  find_fit (adjust size) s = Ok (NULL, s') ->
  sbrk_refuses s (extend_size (MAX (adjust size) CHUNKSIZE / WSIZE)) = true ->
  malloc size s = Ok (NULL, s).
Proof.
  intros Hs Hf Hm.
  assert (s' = s) by (eapply find_fit_pure; eassumption). subst s'.
  unfold malloc.
  replace (size <=? 0) with false by (symmetry; apply Z.leb_gt; exact Hs).
  cbv zeta. rewrite (bind_eq _ _ _ _ _ Hf). cbn [negb Z.eqb NULL].
  rewrite (bind_eq _ _ _ _ _ (extend_heap_fails _ _ Hm)). reflexivity.
Qed.

(** * Zeroed allocation *)

Lemma memset_null_faults n s :
  0 < mem_lo s -> n <> 0 -> memset NULL 0 n s = Err (SegFault NULL).
Proof.
  intros Hlo Hn. unfold memset.
  replace (n =? 0) with false by (symmetry; apply Z.eqb_neq; exact Hn).
  unfold valid_range.
  replace (mem_lo s <=? NULL) with false
    by (symmetry; apply Z.leb_gt; exact Hlo).
  reflexivity.
Qed.

(** C6, which the code does not meet: [calloc] passes the result of
    [malloc] to [memset] without looking at it.  When the allocation
    fails for a non-zero byte count, the zero fill is attempted at NULL
    and the call ends in a null-pointer write instead of returning NULL. *)
Theorem calloc_fills_through_null s s' nmemb size :
  0 < mem_lo s' ->
  wrap (nmemb * size) <> 0 ->
  malloc (wrap (nmemb * size)) s = Ok (NULL, s') ->
  calloc nmemb size s = Err (SegFault NULL).
Proof.
  intros Hlo Hn Hm. unfold calloc. cbv zeta.
  rewrite (bind_eq _ _ _ _ _ Hm).
  apply bind_err. apply memset_null_faults; assumption.
Qed.

Lemma calloc_fills_through_null_witness :
  calloc 2 8 (Demo.heap Demo.ended_lists 0) = Err (SegFault NULL).
Proof.
  apply (calloc_fills_through_null (Demo.heap Demo.ended_lists 0)
           (Demo.heap Demo.ended_lists 0) 2 8).
  - vm_compute. reflexivity.
  - vm_compute. discriminate.
  - apply (malloc_fails_unchanged _ (Demo.heap Demo.ended_lists 0)).
    + vm_compute. reflexivity.
    + apply find_fit_value. vm_compute. reflexivity.
    + vm_compute. reflexivity.
Defined.

(** * Null links in the free list *)

Lemma valid_null s : 0 < mem_lo s -> valid s NULL = false.
Proof.
  intros H. unfold valid, valid_range.
  replace (mem_lo s <=? NULL) with false by (symmetry; apply Z.leb_gt; exact H).
  reflexivity.
Qed.

Lemma PUT_null_faults v s : 0 < mem_lo s -> PUT NULL v s = Err (SegFault NULL).
Proof. intros H. unfold PUT. rewrite (valid_null s H). reflexivity. Qed.

(** C9, which the code does not meet: neither function tests the link it
    writes through.  [insert_to_free_list] stores the predecessor link of
    the old head even when the list is empty ([free_listp] null), and
    [remove_from_free_list] stores the predecessor link of the successor
    even when the block is the last of its list (successor link null):
    both end in a write at address 0. *)
Theorem free_list_writes_through_null s bp :
  0 < mem_lo s ->
  valid s bp = true -> valid s (wrap (bp + WSIZE)) = true ->
  (free_listp s = NULL ->
   insert_to_free_list bp s = Err (SegFault NULL)) /\
  (load (mem s) bp = NULL -> load (mem s) (wrap (bp + WSIZE)) = NULL ->
   remove_from_free_list bp s = Err (SegFault NULL)).
Proof.
  intros Hlo Hv Hv'. split.
  - intros Hfl. unfold insert_to_free_list, SET_NEXT_PTR, SET_PREV_PTR.
    unfold get_free_listp at 1. unfold bind at 1.
    rewrite (bind_eq _ _ _ _ _ (PUT_eq _ _ _ Hv')).
    unfold get_free_listp, bind at 1. cbn [free_listp set_mem]. rewrite Hfl.
    apply bind_err. apply PUT_null_faults. exact Hlo.
  - intros Hp Hn.
    unfold remove_from_free_list, GET_PREV_PTR, GET_NEXT_PTR, SET_PREV_PTR.
    rewrite (bind_eq _ _ _ _ _ (GET_eq _ _ Hv)). rewrite Hp. cbn [Z.eqb NULL negb].
    rewrite (bind_eq _ _ _ (tt) (set_free_listp s NULL)).
    2:{ rewrite (bind_eq _ _ _ _ _ (GET_eq _ _ Hv')). rewrite Hn. reflexivity. }
    assert (Hv2 : valid (set_free_listp s NULL) (wrap (bp + WSIZE)) = true)
      by exact Hv'.
    assert (Hv3 : valid (set_free_listp s NULL) bp = true) by exact Hv.
    rewrite (bind_eq _ _ _ _ _ (GET_eq _ _ Hv2)).
    rewrite (bind_eq _ _ _ _ _ (GET_eq _ _ Hv3)).
    cbn [mem set_free_listp]. rewrite Hn.
    apply PUT_null_faults. exact Hlo.
Qed.

Lemma free_list_writes_through_null_witness :
  insert_to_free_list Demo.F (set_free_listp (Demo.heap Demo.no_lists 0) NULL)
    = Err (SegFault NULL) /\
  remove_from_free_list Demo.A
    (set_mem (Demo.heap Demo.no_lists 0)
       (store (store Demo.image Demo.A NULL) (Demo.A + 8) NULL))
    = Err (SegFault NULL).
Proof.
  split.
  - apply (free_list_writes_through_null
             (set_free_listp (Demo.heap Demo.no_lists 0) NULL) Demo.F);
      vm_compute; reflexivity.
  - apply (free_list_writes_through_null
             (set_mem (Demo.heap Demo.no_lists 0)
                (store (store Demo.image Demo.A NULL) (Demo.A + 8) NULL))
             Demo.A); vm_compute; reflexivity.
Defined.

(** * The fit search and the bucket table *)

Lemma fit_loop_unfold n asize bp s :
  fit_loop (S n) asize bp s =
  if valid s (HDRP bp) then
    if Z.land (load (mem s) (HDRP bp)) 1 =? 0 then
      if Z.land (load (mem s) (HDRP bp)) SIZE_MASK >=? asize then Ok (bp, s)
      else if valid s (wrap (bp + WSIZE))
           then fit_loop n asize (load (mem s) (wrap (bp + WSIZE))) s
           else Err (SegFault (wrap (bp + WSIZE)))
    else Ok (NULL, s)
  else Err (SegFault (HDRP bp)).
Proof.
  cbn [fit_loop]. unfold GET_ALLOC, GET_SIZE, GET_NEXT_PTR, bind, GET, ret.
  destruct (valid s (HDRP bp)) eqn:E1; cbv beta iota; [|reflexivity].
  destruct (Z.land (load (mem s) (HDRP bp)) 1 =? 0); cbv beta iota;
    [|reflexivity].
  rewrite E1. cbv beta iota.
  destruct (Z.land (load (mem s) (HDRP bp)) SIZE_MASK >=? asize);
    cbv beta iota; [reflexivity|].
  destruct (valid s (wrap (bp + WSIZE))); reflexivity.
Qed.

Lemma fit_loop_same_memory n asize bp s1 s2 :
  mem s1 = mem s2 -> mem_lo s1 = mem_lo s2 -> mem_brk s1 = mem_brk s2 ->
  value_of (fit_loop n asize bp s1) = value_of (fit_loop n asize bp s2).
Proof.
  intros Hm Hl Hb. revert bp. induction n as [|n IH]; intros bp; [reflexivity|].
  rewrite !fit_loop_unfold. unfold valid, valid_range. rewrite Hm, Hl, Hb.
  destruct ((mem_lo s2 <=? HDRP bp) && (HDRP bp + 8 <=? mem_brk s2));
    [|reflexivity].
  destruct (Z.land (load (mem s2) (HDRP bp)) 1 =? 0); [|reflexivity].
  destruct (Z.land (load (mem s2) (HDRP bp)) SIZE_MASK >=? asize);
    [reflexivity|].
  destruct ((mem_lo s2 <=? wrap (bp + WSIZE))
            && (wrap (bp + WSIZE) + 8 <=? mem_brk s2)); [|reflexivity].
  apply IH.
Qed.

(** [find_fit] looks at one class: its answer is the same whatever the
    other nineteen entries of the table hold. *)
Lemma find_fit_single_class asize s lists :
  nth_error lists (Z.to_nat (list_index asize)) =
  nth_error (segregated_lists s) (Z.to_nat (list_index asize)) ->
  value_of (find_fit asize (set_segregated_lists s lists)) =
  value_of (find_fit asize s).
Proof.
  intros H. unfold find_fit, bind, get_list. cbn [segregated_lists set_segregated_lists].
  rewrite H.
  destruct ((0 <=? list_index asize) && (list_index asize <? LISTLIMIT));
    [|reflexivity].
  destruct (nth_error (segregated_lists s) _); [|reflexivity].
  apply fit_loop_same_memory; reflexivity.
Qed.

(** C1, which the code does not meet.  In the heap below class 5, the
    class of a 32-byte request, is exhausted at once, class 6 holds the
    free 64-byte block D, and the free blocks B and H have 32 bytes each;
    [find_fit] reports no fit without looking at class 6, and [malloc(16)]
    turns to [mem_sbrk] and returns NULL.  With the table as [mm_init]
    leaves it, all null, the search reads the header of the null pointer. *)
Theorem find_fit_does_not_escalate :
  let s := Demo.heap (set_nth Demo.ended_lists 6 Demo.D) 0 in
  value_of (heap_walk s) =
    Some [ (4112, 16, 1); (Demo.A, 32, 1); (Demo.B, 32, 0); (Demo.C, 32, 1);
           (Demo.D, 64, 0); (Demo.E, 32, 1); (Demo.F, 32, 1);
           (Demo.G, 32, 1); (Demo.H, 32, 0) ] /\
  adjust 16 = 32 /\ list_index 32 = 5 /\
  bucket_of s 6 = [Demo.D; Demo.B; Demo.H] /\
  find_fit 32 s = Ok (NULL, s) /\
  malloc 16 s = Ok (NULL, s) /\
  malloc 16 (Demo.heap Demo.no_lists 0) = Err (SegFault (wrap (NULL - WSIZE))).
Proof.
  cbv zeta.
  assert (Hf : find_fit 32 (Demo.heap (set_nth Demo.ended_lists 6 Demo.D) 0) =
               Ok (NULL, Demo.heap (set_nth Demo.ended_lists 6 Demo.D) 0)).
  { apply find_fit_value. vm_compute. reflexivity. }
  assert (Hm : malloc 16 (Demo.heap (set_nth Demo.ended_lists 6 Demo.D) 0) =
               Ok (NULL, Demo.heap (set_nth Demo.ended_lists 6 Demo.D) 0)).
  { apply (malloc_fails_unchanged _ _ 16 ltac:(lia) Hf). vm_compute. reflexivity. }
  split; [vm_compute; reflexivity|].
  split; [vm_compute; reflexivity|].
  split; [vm_compute; reflexivity|].
  split; [vm_compute; reflexivity|].
  split; [exact Hf|].
  split; [exact Hm|].
  vm_compute. reflexivity.
Qed.

Lemma set_nth_split (l : list Z) j v :
  (j < length l)%nat -> set_nth l j v = firstn j l ++ v :: skipn (S j) l.
Proof.
  revert j. induction l as [|h t IH]; intros j Hj; [cbn in Hj; lia|].
  destruct j; [reflexivity|]. cbn. f_equal. apply IH. cbn in Hj. lia.
Qed.

Lemma clear_lists_ok k : forall j s u s',
  clear_lists k (Z.of_nat j) s = Ok (u, s') ->
  segregated_lists s' =
  firstn j (segregated_lists s) ++ repeat NULL k
    ++ skipn (j + k) (segregated_lists s).
Proof.
  induction k as [|k IH]; intros j s u s' H.
  - cbn in H. inversion H. subst. cbn [repeat app].
    rewrite Nat.add_0_r. symmetry. apply firstn_skipn.
  - cbn [clear_lists] in H. apply bind_ok in H.
    destruct H as ([] & s1 & H1 & H2). unfold put_list in H1.
    destruct ((0 <=? Z.of_nat j) && (Z.of_nat j <? LISTLIMIT)
              && (Z.to_nat (Z.of_nat j) <? length (segregated_lists s))%nat)
      eqn:G; [|discriminate].
    inversion H1. subst s1. clear H1.
    apply andb_true_iff in G. destruct G as [_ G]. apply Nat.ltb_lt in G.
    rewrite Nat2Z.id in *.
    replace (Z.of_nat j + 1) with (Z.of_nat (S j)) in H2 by lia.
    apply IH in H2. cbn [segregated_lists set_segregated_lists] in H2.
    rewrite H2, (set_nth_split _ _ NULL G).
    assert (Hfl : length (firstn j (segregated_lists s)) = j)
      by (rewrite length_firstn; lia).
    rewrite firstn_app, Hfl, firstn_all2 by lia.
    replace (S j - j)%nat with 1%nat by lia. cbn [firstn].
    rewrite skipn_app, Hfl, skipn_all2 by lia.
    replace (S j + k - j)%nat with (S k) by lia. rewrite skipn_cons.
    rewrite skipn_skipn. replace (k + S j)%nat with (j + S k)%nat by lia.
    rewrite <- app_assoc. reflexivity.
Qed.

Lemma clear_lists_all_null n s u s' :
  clear_lists n 0 s = Ok (u, s') ->
  length (segregated_lists s) = n ->
  segregated_lists s' = repeat NULL n.
Proof.
  intros H Hl. apply (clear_lists_ok n 0%nat) in H.
  rewrite H. cbn [firstn app Nat.add].
  rewrite skipn_all2 by lia. apply app_nil_r.
Qed.

(** [mm_init] empties the twenty buckets. *)
Lemma mm_init_clears_lists s s' :
  length (segregated_lists s) = Z.to_nat LISTLIMIT ->
  mm_init s = Ok (0, s') ->
  segregated_lists s' = repeat NULL (Z.to_nat LISTLIMIT).
Proof.
  intros Hl H. unfold mm_init in H.
  apply bind_ok in H. destruct H as (p & s1 & H1 & H).
  apply bind_ok in H. destruct H as (u2 & s2 & H2 & H).
  destruct (p =? SBRK_FAILED); [inversion H|].
  apply bind_ok in H. destruct H as (u3 & s3 & H3 & H).
  apply bind_ok in H. destruct H as (u4 & s4 & H4 & H).
  apply bind_ok in H. destruct H as (u5 & s5 & H5 & H).
  apply bind_ok in H. destruct H as (u6 & s6 & H6 & H).
  apply bind_ok in H. destruct H as (u7 & s7 & H7 & H).
  apply bind_ok in H. destruct H as (u8 & s8 & H8 & H).
  apply bind_ok in H. destruct H as (r & s9 & H9 & H).
  apply (keeps_mem_sbrk same_lists same_lists_refl same_lists_brk) in H1.
  inversion H2. subst s2.
  apply (keeps_PUT same_lists same_lists_mem) in H3, H4, H5, H6.
  inversion H7. subst s7.
  apply clear_lists_all_null in H8.
  2:{ cbn [segregated_lists set_heap_listp]. unfold same_lists in *.
      cbn [segregated_lists set_heap_listp] in *. congruence. }
  apply (keeps_extend_heap same_lists same_lists_refl same_lists_trans
           same_lists_mem same_lists_fl same_lists_brk) in H9.
  destruct (r =? NULL); inversion H. subst.
  unfold same_lists in H9. congruence.
Qed.

(** No other public operation assigns an entry of the table. *)
Lemma operations_leave_lists :
  (forall n, keeps same_lists (malloc n)) /\
  (forall p, keeps same_lists (free p)) /\
  (forall p n, keeps same_lists (realloc p n)) /\
  (forall n m, keeps same_lists (calloc n m)).
Proof.
  repeat split; intros.
  - exact (keeps_malloc _ same_lists_refl same_lists_trans same_lists_mem
             same_lists_fl same_lists_brk _).
  - exact (keeps_free _ same_lists_refl same_lists_trans same_lists_mem
             same_lists_fl _).
  - exact (keeps_realloc _ same_lists_refl same_lists_trans same_lists_mem
             same_lists_fl same_lists_brk _ _).
  - exact (keeps_calloc _ same_lists_refl same_lists_trans same_lists_mem
             same_lists_fl same_lists_brk _ _).
Qed.

(** C2, which the code does not meet: [insert_to_free_list] links a block
    at [free_listp] and never into [segregated_lists].  Releasing the
    allocated block F leaves F free and on the list of [free_listp],
    while every one of the twenty buckets is empty. *)
Theorem free_block_in_no_bucket :
  match free Demo.F (Demo.heap Demo.no_lists 0) with
  | Ok (_, s') =>
      value_of (heap_walk s') =
        Some [ (4112, 16, 1); (Demo.A, 32, 1); (Demo.B, 32, 0);
               (Demo.C, 32, 1); (Demo.D, 64, 0); (Demo.E, 32, 1);
               (Demo.F, 32, 0); (Demo.G, 32, 1); (Demo.H, 32, 0) ] /\
      free_list_of s' = [Demo.F; Demo.D; Demo.B; Demo.H] /\
      map (bucket_of s') (seq 0 (Z.to_nat LISTLIMIT)) =
        repeat [] (Z.to_nat LISTLIMIT)
  | Err _ => False
  end.
Proof. vm_compute. repeat split; reflexivity. Qed.

(** * What [coalesce] does to the free list *)

Lemma insert_to_free_list_ok bp s u s' :
  insert_to_free_list bp s = Ok (u, s') ->
  free_listp s' = bp /\ valid s' bp = true /\ load (mem s') bp = NULL.
Proof.
  unfold insert_to_free_list, SET_NEXT_PTR, SET_PREV_PTR. intros H.
  repeat (apply bind_ok in H; destruct H as (? & ? & ? & H)).
  inversion H. subst. clear H.
  match goal with H : PUT bp NULL _ = _ |- _ =>
    apply PUT_ok in H; destruct H as (-> & Hv) end.
  cbn [free_listp set_free_listp set_mem mem].
  repeat split; [exact Hv|]. apply load_store_same.
Qed.

(** C5 as stated fails: the released block F is on no list when
    [coalesce] is called and is the head of the free list when it
    returns. *)
Lemma coalesce_inserts_counterexample :
  match coalesce Demo.F Demo.released_F with
  | Ok (r, s') =>
      r = Demo.F /\
      free_list_of Demo.released_F = [Demo.D; Demo.B; Demo.H] /\
      free_list_of s' = [Demo.F; Demo.D; Demo.B; Demo.H]
  | Err _ => False
  end.
Proof. vm_compute. repeat split; reflexivity. Qed.

(** * The chain of blocks *)

Lemma linked_app p l1 l2 e :
  linked p (l1 ++ l2) e <-> exists q, linked p l1 q /\ linked q l2 e.
Proof.
  revert p. induction l1 as [|b l1 IH]; intros p; cbn [app linked].
  - split.
    + intros H. exists p. split; [reflexivity|exact H].
    + intros (q & -> & H). exact H.
  - rewrite IH. split.
    + intros (Hb & q & H1 & H2). exists q. auto.
    + intros (q & (Hb & H1) & H2). split; [exact Hb|]. exists q. auto.
Qed.

Lemma linked_le p bl e : Forall sized bl -> linked p bl e -> p <= e.
Proof.
  intros Hs. revert p. induction Hs as [|b bl Hb Hs IH]; intros p H; cbn in H.
  - lia.
  - destruct H as [_ H]. apply IH in H. unfold sized in Hb. lia.
Qed.

Lemma linked_In p bl e b :
  Forall sized bl -> linked p bl e -> In b bl ->
  p <= bptr b /\ bptr b + bsize b <= e.
Proof.
  intros Hs. revert p. induction Hs as [|c bl Hc Hs IH]; intros p H Hin.
  - destruct Hin.
  - cbn in H. destruct H as [Hp H]. destruct Hin as [->|Hin].
    + apply linked_le in H; [|exact Hs]. lia.
    + specialize (IH _ H Hin). unfold sized in Hc. lia.
Qed.

(** In a chain, what comes before a block ends before it and what comes
    after starts behind it. *)
Lemma linked_split p l1 b l2 e :
  Forall sized (l1 ++ b :: l2) -> linked p (l1 ++ b :: l2) e ->
  linked p l1 (bptr b) /\ linked (bptr b + bsize b) l2 e /\
  (forall c, In c l1 -> p <= bptr c /\ bptr c + bsize c <= bptr b) /\
  (forall c, In c l2 -> bptr b + bsize b <= bptr c /\ bptr c + bsize c <= e) /\
  p <= bptr b /\ bptr b + bsize b <= e.
Proof.
  intros Hs H. apply linked_app in H. destruct H as (q & H1 & H2).
  cbn in H2. destruct H2 as [Hq H2]. subst q.
  apply Forall_app in Hs. destruct Hs as [Hs1 Hs2].
  inversion Hs2 as [|? ? Hb Hs2']. subst.
  split; [exact H1|]. split; [exact H2|].
  split; [intros c Hc; exact (linked_In _ _ _ _ Hs1 H1 Hc)|].
  split; [intros c Hc; exact (linked_In _ _ _ _ Hs2' H2 Hc)|].
  apply linked_le in H1; [|exact Hs1]. apply linked_le in H2; [|exact Hs2'].
  unfold sized in Hb. lia.
Qed.

Lemma block_ok_sized b : block_ok b -> sized b.
Proof. unfold block_ok, sized, OVERHEAD, DSIZE, WSIZE. intros (H & _). lia. Qed.

Lemma prologue_sized s : sized (prologue s).
Proof. unfold sized, prologue, bsize, DSIZE, WSIZE. cbn. lia. Qed.

(** The block before a block of the heap: the last of those in front of
    it, or the prologue. *)
Lemma linked_prev p0 pro l1 b l2 e :
  linked p0 (pro :: l1 ++ b :: l2) e ->
  exists pb, bptr pb + bsize pb = bptr b /\
    ((l1 = [] /\ pb = pro) \/ (exists k, l1 = k ++ [pb])).
Proof.
  intros H. destruct (exists_last (l := pro :: l1)) as (k & pb & E);
    [discriminate|].
  change (pro :: l1 ++ b :: l2) with ((pro :: l1) ++ b :: l2) in H.
  rewrite E in H. rewrite <- app_assoc in H. cbn [app] in H.
  apply linked_app in H. destruct H as (q & _ & H). cbn in H.
  destruct H as (Hq & Hb & _). exists pb. split; [lia|].
  destruct k as [|c k]; cbn in E.
  - inversion E. left. destruct l1; [auto|discriminate].
  - inversion E. right. exists k. reflexivity.
Qed.

(** The header after a block: that of the next block, or the epilogue. *)
Lemma linked_next p l1 b l2 e :
  linked p (l1 ++ b :: l2) e ->
  (l2 = [] /\ bptr b + bsize b = e) \/
  (exists nb k, l2 = nb :: k /\ bptr nb = bptr b + bsize b).
Proof.
  intros H. apply linked_app in H. destruct H as (q & _ & H). cbn in H.
  destruct H as (Hq & H). subst q. destruct l2 as [|nb k]; cbn in H.
  - left. auto.
  - right. exists nb, k. destruct H as [H _]. auto.
Qed.

(** * The free list in memory *)

Ltac hlia :=
  cbn [mem_lo mem_brk mem_max_addr set_mem set_free_listp set_brk] in *;
  unfold OVERHEAD, DSIZE, WSIZE, NULL in *;
  change (2 ^ 64) with 18446744073709551616 in *; lia.

Lemma valid_iff s a :
  valid s a = true <-> mem_lo s <= a /\ a + 8 <= mem_brk s.
Proof.
  unfold valid, valid_range. rewrite andb_true_iff, Z.leb_le, Z.leb_le.
  reflexivity.
Qed.

Lemma last_cons {A} (a : A) l d : last (a :: l) d = last l a.
Proof.
  revert a d. induction l as [|b l IH]; intros a d; [reflexivity|].
  change (last (a :: b :: l) d) with (last (b :: l) d).
  rewrite !IH. reflexivity.
Qed.

Lemma hd_app {A} (l1 l2 : list A) d : hd d (l1 ++ l2) = hd (hd d l2) l1.
Proof. destruct l1; reflexivity. Qed.

Lemma dll_app m prev f1 f2 t :
  dll m prev (f1 ++ f2) t <->
  dll m prev f1 (hd t f2) /\ dll m (last f1 prev) f2 t.
Proof.
  revert prev. induction f1 as [|p f1 IH]; intros prev.
  - cbn. tauto.
  - cbn [app dll]. rewrite IH, hd_app, last_cons. tauto.
Qed.

Lemma dll_frame m m' prev fl t :
  (forall q, In q fl ->
     load m' q = load m q /\ load m' (q + WSIZE) = load m (q + WSIZE)) ->
  dll m prev fl t -> dll m' prev fl t.
Proof.
  revert prev. induction fl as [|p fl IH]; intros prev Hf H; [exact I|].
  cbn [dll] in *. destruct H as (H1 & H2 & H3).
  destruct (Hf p (or_introl eq_refl)) as [E1 E2].
  rewrite E1, E2. repeat split; try assumption.
  apply IH; [|exact H3]. intros q Hq. apply Hf. right. exact Hq.
Qed.

(** Bytes off the link words of a list, seen from one member. *)
Lemma off_links_member fl t x q :
  ~ link_byte fl t x -> In q fl -> x < q \/ q + DSIZE <= x.
Proof.
  intros Hx Hq. destruct (Z_lt_dec x q) as [|Hge]; [left; assumption|].
  destruct (Z_le_dec (q + DSIZE) x) as [|Hlt]; [right; assumption|].
  exfalso. apply Hx. left. exists q. split; [exact Hq|lia].
Qed.

Lemma NoDup_app_disjoint {A} (l1 l2 : list A) a :
  NoDup (l1 ++ l2) -> In a l1 -> In a l2 -> False.
Proof.
  induction l1 as [|b l1 IH]; intros Hnd H1 H2; [destruct H1|].
  cbn in Hnd. inversion Hnd as [|? ? Hb Hnd']. subst.
  destruct H1 as [->|H1].
  - apply Hb. apply in_or_app. right. exact H2.
  - exact (IH Hnd' H1 H2).
Qed.

Section ListOperations.

Variable s : state.
Variable t : Z.
Hypothesis Hlo : 0 < mem_lo s.
Hypothesis Hbrk : mem_brk s < 2 ^ 64.
Hypothesis Ht : t = NULL \/ t = mem_lo s.

Lemma member_valid fl q :
  placed s fl -> In q fl ->
  valid s q = true /\ valid s (q + WSIZE) = true /\
  wrap (q + WSIZE) = q + WSIZE /\ q <> NULL /\ q <> t.
Proof.
  intros [Hp _] Hq. destruct (Hp q Hq) as [H1 H2].
  repeat split.
  - apply valid_iff. hlia.
  - apply valid_iff. hlia.
  - apply wrap_small. hlia.
  - hlia.
  - destruct Ht; hlia.
Qed.

Lemma apart fl a b :
  placed s fl -> In a fl -> In b fl -> a <> b ->
  a + DSIZE <= b \/ b + DSIZE <= a.
Proof. intros [_ Hp] Ha Hb Hab. destruct (Hp a b Ha Hb) as [|]; tauto. Qed.

(** The word that ends the list lies below every member. *)
Lemma term_below fl q : placed s fl -> In q fl -> t + WSIZE <= q.
Proof.
  intros [Hp _] Hq. destruct (Hp q Hq). destruct Ht; hlia.
Qed.

Lemma load_store_link fl m a b da db v :
  placed s fl -> In a fl -> In b fl -> a <> b ->
  0 <= da <= WSIZE -> 0 <= db <= WSIZE ->
  load (store m (a + da) v) (b + db) = load m (b + db).
Proof.
  intros Hp Ha Hb Hab Hda Hdb. apply load_store_other.
  destruct (apart fl a b Hp Ha Hb Hab); hlia.
Qed.

Lemma load_store_term fl m b db v :
  placed s fl -> In b fl -> 0 <= db <= WSIZE ->
  load (store m t v) (b + db) = load m (b + db).
Proof.
  intros Hp Hb Hdb. apply load_store_other.
  pose proof (term_below fl b Hp Hb). hlia.
Qed.

(** Storing a link of a member leaves the links of a list of other
    members as they were. *)
Lemma dll_store_link fl m prev L e a da v :
  placed s fl -> In a fl -> incl L fl -> ~ In a L ->
  0 <= da <= WSIZE ->
  dll m prev L e -> dll (store m (a + da) v) prev L e.
Proof.
  intros Hp Ha HL Hna Hda. apply dll_frame. intros b Hb.
  assert (a <> b) by (intros ->; exact (Hna Hb)).
  split.
  - pose proof (load_store_link fl m a b da 0 v Hp Ha (HL b Hb) H Hda
                  ltac:(hlia)) as E.
    rewrite Z.add_0_r in E. exact E.
  - apply (load_store_link fl); auto; hlia.
Qed.

Lemma dll_store_term fl m prev L e v :
  placed s fl -> incl L fl ->
  dll m prev L e -> dll (store m t v) prev L e.
Proof.
  intros Hp HL. apply dll_frame. intros b Hb. split.
  - pose proof (load_store_term fl m b 0 v Hp (HL b Hb) ltac:(hlia)) as E.
    rewrite Z.add_0_r in E. exact E.
  - apply (load_store_term fl); auto; hlia.
Qed.

(** The same for a store at the successor of a member, be it another
    member or the end of the list. *)
Lemma load_store_next fl f2 m b db v :
  placed s fl -> incl f2 fl -> In b fl -> b <> hd t f2 ->
  0 <= db <= WSIZE ->
  load (store m (hd t f2) v) (b + db) = load m (b + db).
Proof.
  intros Hp H2 Hb Hne Hdb. destruct f2 as [|n r]; cbn [hd] in *.
  - apply (load_store_term fl); auto.
  - pose proof (load_store_link fl m n b 0 db v Hp
                  (H2 n (or_introl eq_refl)) Hb ltac:(congruence)
                  ltac:(hlia) Hdb) as E.
    rewrite Z.add_0_r in E. exact E.
Qed.

Lemma dll_store_next fl f2 m prev L e v :
  placed s fl -> incl f2 fl -> incl L fl -> ~ In (hd t f2) L ->
  dll m prev L e -> dll (store m (hd t f2) v) prev L e.
Proof.
  intros Hp H2 HL Hn. apply dll_frame. intros b Hb.
  assert (b <> hd t f2) by (intros E; apply Hn; rewrite <- E; exact Hb).
  split.
  - pose proof (load_store_next fl f2 m b 0 v Hp H2 (HL b Hb) H
                  ltac:(hlia)) as E.
    rewrite Z.add_0_r in E. exact E.
  - apply (load_store_next fl); auto; hlia.
Qed.

Lemma off_links_next fl f2 x :
  incl f2 fl -> ~ link_byte fl t x ->
  x < hd t f2 \/ hd t f2 + WSIZE <= x.
Proof.
  intros H2 Hx. destruct f2 as [|n r]; cbn [hd].
  - destruct (Z_lt_dec x t); [left; assumption|].
    destruct (Z_le_dec (t + WSIZE) x); [right; assumption|].
    exfalso. apply Hx. right. lia.
  - destruct (off_links_member fl t x n Hx (H2 n (or_introl eq_refl)));
      hlia.
Qed.

(** [remove_from_free_list] on a member [q] of the list: the list
    without [q], and nothing written but link words. *)
Lemma remove_spec f1 q f2 u s' :
  placed s (f1 ++ q :: f2) -> NoDup (f1 ++ q :: f2) ->
  dll (mem s) NULL (f1 ++ q :: f2) t ->
  free_listp s = hd t (f1 ++ q :: f2) ->
  remove_from_free_list q s = Ok (u, s') ->
  exists m',
    s' = mkState m' (mem_lo s) (mem_brk s) (mem_max_addr s) (heap_listp s)
           (segregated_lists s) (hd t (f1 ++ f2)) /\
    dll m' NULL (f1 ++ f2) t /\
    (forall x, ~ link_byte (f1 ++ q :: f2) t x -> m' x = mem s x).
Proof.
  intros Hp Hnd Hd Hh H.
  set (fl := f1 ++ q :: f2) in *.
  assert (Hq : In q fl) by (apply in_or_app; right; left; reflexivity).
  assert (H1 : incl f1 fl) by (intros x Hx; apply in_or_app; left; exact Hx).
  assert (H2 : incl f2 fl)
    by (intros x Hx; apply in_or_app; right; right; exact Hx).
  destruct (member_valid fl q Hp Hq) as (Vq & Vq8 & Wq & Nq & Tq).
  apply dll_app in Hd. destruct Hd as (Hd1 & Hd2). cbn [dll hd] in Hd1, Hd2.
  destruct Hd2 as (Lq & Lq8 & Hd2).
  assert (Hq1 : ~ In q f1).
  { intros Hin. apply (NoDup_app_disjoint f1 (q :: f2) q Hnd Hin).
    left. reflexivity. }
  assert (Hq2 : ~ In q f2).
  { apply NoDup_app_remove_l in Hnd. inversion Hnd. assumption. }
  assert (Hnx1 : ~ In (hd t f2) f1).
  { destruct f2 as [|n r]; cbn [hd].
    - intros Hin. destruct (member_valid fl t Hp (H1 t Hin)) as (_ & _ & _ & _ & E).
      apply E. reflexivity.
    - intros Hin. apply (NoDup_app_disjoint f1 (q :: n :: r) n Hnd Hin).
      right. left. reflexivity. }
  assert (Hnx2 : ~ In (hd t f2) (tl f2)).
  { destruct f2 as [|n r]; cbn [hd tl]; [intros []|].
    apply NoDup_app_remove_l in Hnd. inversion Hnd as [|? ? _ Hnd'].
    inversion Hnd'. assumption. }
  assert (Hnxq : q <> hd t f2).
  { destruct f2 as [|n r]; cbn [hd]; [exact Tq|].
    intros ->. apply Hq2. left. reflexivity. }
  unfold remove_from_free_list, GET_PREV_PTR, GET_NEXT_PTR, SET_PREV_PTR,
    SET_NEXT_PTR in H.
  rewrite (bind_eq _ _ _ _ _ (GET_eq _ _ Vq)) in H. rewrite Lq in H.
  destruct (exists_last (l := NULL :: f1)) as (k0 & p & Ek);
    [discriminate|].
  destruct k0 as [|z k]; cbn [app] in Ek.
  - (* [q] is the head of the list *)
    inversion Ek as [[Ep Ef]]. destruct f1; [|discriminate]. clear Ek Ef Ep.
    cbn [last NULL Z.eqb negb] in H. cbn [app] in *.
    apply bind_ok in H. destruct H as ([] & s1 & Hb & H).
    apply bind_ok in Hb. destruct Hb as (nx & s0 & Hg & Hb).
    apply GET_ok in Hg. destruct Hg as (-> & _ & ->).
    inversion Hb. subst s1. clear Hb.
    apply bind_ok in H. destruct H as (nx & s1 & Hg & H).
    apply GET_ok in Hg. destruct Hg as (-> & _ & ->).
    apply bind_ok in H. destruct H as (pv & s1 & Hg & H).
    apply GET_ok in Hg. destruct Hg as (-> & _ & ->).
    apply PUT_ok in H. destruct H as (-> & Vn).
    cbn [mem set_mem set_free_listp] in *. rewrite Wq, Lq8, Lq in *.
    exists (store (mem s) (hd t f2) NULL). split; [reflexivity|]. split.
    + destruct f2 as [|n r]; [exact I|]. cbn [hd dll] in *.
      destruct Hd2 as (_ & Ln8 & Hd2).
      split; [apply load_store_same|]. split.
      * rewrite load_store_other by hlia. exact Ln8.
      * pose proof (dll_store_next fl (n :: r) (mem s) n r t NULL Hp H2) as E.
        cbn [hd] in E. apply E; [|exact Hnx2|exact Hd2].
        intros x Hx. apply H2. right. exact Hx.
    + intros x Hx. apply store_out.
      exact (off_links_next fl f2 x H2 Hx).
  - (* [q] has a predecessor [p] *)
    inversion Ek as [[Ez Ef]]. subst z. clear Ek.
    subst f1. rewrite last_last in *.
    assert (Hpf : In p fl) by (apply H1; apply in_or_app; right; left; reflexivity).
    destruct (member_valid fl p Hp Hpf) as (Vp & Vp8 & Wp & Np & Tp).
    assert (Hpq : p <> q).
    { intros ->. apply Hq1. apply in_or_app. right. left. reflexivity. }
    assert (Hpn : p <> hd t f2).
    { intros E. apply Hnx1. rewrite <- E. apply in_or_app. right. left.
      reflexivity. }
    replace (negb (p =? 0)) with true in H
      by (symmetry; apply negb_true_iff, Z.eqb_neq; exact Np).
    apply bind_ok in H. destruct H as ([] & s1 & Hb & H).
    apply bind_ok in Hb. destruct Hb as (pv & s0 & Hg & Hb).
    apply GET_ok in Hg. destruct Hg as (-> & _ & ->).
    apply bind_ok in Hb. destruct Hb as (nx & s0 & Hg & Hb).
    apply GET_ok in Hg. destruct Hg as (-> & _ & ->).
    apply PUT_ok in Hb. destruct Hb as (-> & _).
    apply bind_ok in H. destruct H as (nx & s1 & Hg & H).
    apply GET_ok in Hg. destruct Hg as (-> & _ & ->).
    apply bind_ok in H. destruct H as (pv & s1 & Hg & H).
    apply GET_ok in Hg. destruct Hg as (-> & _ & ->).
    apply PUT_ok in H. destruct H as (-> & Vn).
    cbn [mem set_mem set_free_listp free_listp] in *.
    rewrite Wq, Lq8, Lq, Wp in *.
    assert (E1 : load (store (mem s) (p + WSIZE) (hd t f2)) (q + WSIZE)
                 = hd t f2).
    { rewrite (load_store_link fl) by (auto; hlia). exact Lq8. }
    assert (E2 : load (store (mem s) (p + WSIZE) (hd t f2)) q = p).
    { pose proof (load_store_link fl (mem s) p q WSIZE 0 (hd t f2) Hp Hpf Hq
                    Hpq ltac:(hlia) ltac:(hlia)) as E.
      rewrite Z.add_0_r in E. rewrite E. exact Lq. }
    rewrite E1, E2 in *.
    set (m1 := store (mem s) (p + WSIZE) (hd t f2)) in *.
    exists (store m1 (hd t f2) p). split.
    { unfold set_mem. cbn [mem_lo mem_brk mem_max_addr heap_listp
                             segregated_lists free_listp].
      f_equal. rewrite Hh. unfold fl. rewrite <- !app_assoc, !hd_app.
      reflexivity. }
    split.
    + rewrite <- app_assoc. apply dll_app. apply dll_app in Hd1.
      destruct Hd1 as (Hk & Hpl). cbn [dll hd] in Hpl.
      destruct Hpl as (Lp & Lp8 & _).
      assert (Hkf : incl k fl).
      { intros x Hx. apply H1. apply in_or_app. left. exact Hx. }
      assert (Hpk : ~ In p k).
      { intros Hin. clear - Hin Hnd. unfold fl in Hnd.
        rewrite <- app_assoc in Hnd.
        apply (NoDup_app_disjoint k ([p] ++ q :: f2) p Hnd Hin).
        left. reflexivity. }
      split.
      * cbn [app hd].
        apply (dll_store_next fl f2); auto.
        { intros Hin. apply Hnx1. apply in_or_app. left. exact Hin. }
        apply (dll_store_link fl); auto; hlia.
      * apply dll_app. split.
        { cbn [dll hd]. split; [|split; [|exact I]].
          - pose proof (load_store_next fl f2 m1 p 0 p Hp H2 Hpf Hpn
                          ltac:(hlia)) as E.
            rewrite Z.add_0_r in E. rewrite E. unfold m1.
            rewrite load_store_other by hlia. exact Lp.
          - rewrite (load_store_next fl) by (auto; hlia).
            unfold m1. rewrite load_store_same. apply wrap_small.
            apply valid_iff in Vn. hlia. }
        { cbn [last]. destruct f2 as [|n r]; [exact I|]. cbn [hd dll] in *.
          destruct Hd2 as (_ & Ln8 & Hd2).
          assert (Hnf : In n fl) by (apply H2; left; reflexivity).
          split; [|split].
          - rewrite load_store_same. apply wrap_small.
            apply valid_iff in Vp. hlia.
          - rewrite load_store_other by hlia. unfold m1.
            rewrite (load_store_link fl) by (auto; hlia). exact Ln8.
          - pose proof (dll_store_next fl (n :: r) m1 n r t p Hp H2) as E.
            cbn [hd] in E. apply E; [|exact Hnx2|].
            + intros x Hx. apply H2. right. exact Hx.
            + unfold m1.
              apply (dll_store_link fl _ _ _ _ p WSIZE);
                [exact Hp|exact Hpf| | |hlia|exact Hd2].
              * intros x Hx. apply H2. right. exact Hx.
              * intros Hin.
                apply (NoDup_app_disjoint (k ++ [p]) (q :: n :: r) p Hnd).
                { apply in_or_app. right. left. reflexivity. }
                { right. right. exact Hin. } }
    + intros x Hx. rewrite store_out by exact (off_links_next fl f2 x H2 Hx).
      unfold m1. apply store_out.
      destruct (off_links_member fl t x p Hx Hpf); hlia.
Qed.

(** [insert_to_free_list] on a block [bp] that is not on the list: the
    list with [bp] in front, and nothing written but link words. *)
Lemma insert_spec fl bp u s' :
  placed s (bp :: fl) -> NoDup (bp :: fl) ->
  dll (mem s) NULL fl t ->
  free_listp s = hd t fl ->
  insert_to_free_list bp s = Ok (u, s') ->
  exists m',
    s' = mkState m' (mem_lo s) (mem_brk s) (mem_max_addr s) (heap_listp s)
           (segregated_lists s) bp /\
    dll m' NULL (bp :: fl) t /\
    (forall x, ~ link_byte (bp :: fl) t x -> m' x = mem s x).
Proof.
  intros Hp Hnd Hd Hh H.
  set (fx := bp :: fl) in *.
  assert (Hb : In bp fx) by (left; reflexivity).
  assert (Hf : incl fl fx) by (intros x Hx; right; exact Hx).
  destruct (member_valid fx bp Hp Hb) as (Vb & Vb8 & Wb & Nb & Tb).
  inversion Hnd as [|? ? Hbf Hnd']. subst.
  assert (Hbh : bp <> hd t fl).
  { destruct fl as [|h r]; cbn [hd]; [exact Tb|].
    intros ->. apply Hbf. left. reflexivity. }
  unfold insert_to_free_list, SET_NEXT_PTR, SET_PREV_PTR in H.
  apply bind_ok in H. destruct H as (h1 & s1 & Hg & H).
  inversion Hg. subst h1 s1. clear Hg.
  apply bind_ok in H. destruct H as ([] & s1 & Hs & H).
  apply PUT_ok in Hs. destruct Hs as (-> & _).
  apply bind_ok in H. destruct H as (h1 & s1 & Hg & H).
  inversion Hg. subst h1 s1. clear Hg.
  apply bind_ok in H. destruct H as ([] & s1 & Hs & H).
  apply PUT_ok in Hs. destruct Hs as (-> & Vh).
  apply bind_ok in H. destruct H as ([] & s1 & Hs & H).
  apply PUT_ok in Hs. destruct Hs as (-> & _).
  inversion H. subst s'. clear H.
  cbn [mem set_mem set_free_listp free_listp] in *. rewrite Wb, Hh in *.
  clear Hh.
  set (m1 := store (mem s) (bp + WSIZE) (hd t fl)) in *.
  set (m2 := store m1 (hd t fl) bp) in *.
  exists (store m2 bp NULL). split; [reflexivity|]. split.
  - cbn [dll]. split; [apply load_store_same|]. split.
    + rewrite load_store_other by hlia. unfold m2.
      rewrite (load_store_next fx) by (auto; hlia).
      unfold m1. rewrite load_store_same. apply wrap_small.
      apply valid_iff in Vh. hlia.
    + destruct fl as [|h r]; [exact I|]. cbn [hd dll] in *.
      destruct Hd as (_ & Lh8 & Hd).
      assert (Hhx : In h fx) by (right; left; reflexivity).
      assert (Hr : incl r fx) by (intros x Hx; right; right; exact Hx).
      inversion Hnd' as [|? ? Hhr _]. subst.
      split; [|split].
      * pose proof (load_store_link fx m2 bp h 0 0 NULL Hp Hb Hhx Hbh
                      ltac:(hlia) ltac:(hlia)) as E.
        rewrite !Z.add_0_r in E. rewrite E. unfold m2.
        rewrite load_store_same. apply wrap_small.
        apply valid_iff in Vb. hlia.
      * pose proof (load_store_link fx m2 bp h 0 WSIZE NULL Hp Hb Hhx Hbh
                      ltac:(hlia) ltac:(hlia)) as E.
        rewrite Z.add_0_r in E. rewrite E. unfold m2.
        rewrite load_store_other by hlia. unfold m1.
        rewrite (load_store_link fx) by (auto; hlia). exact Lh8.
      * pose proof (dll_store_link fx m2 h r t bp 0 NULL Hp Hb Hr) as E.
        rewrite Z.add_0_r in E. apply E; [|hlia|].
        { intros Hin. apply Hbf. right. exact Hin. }
        unfold m2.
        pose proof (dll_store_link fx m1 h r t h 0 bp Hp Hhx Hr Hhr) as E'.
        rewrite Z.add_0_r in E'. apply E'; [hlia|].
        unfold m1.
        apply (dll_store_link fx _ _ _ _ bp WSIZE);
          [exact Hp|exact Hb|exact Hr| |hlia|exact Hd].
        intros Hin. apply Hbf. right. exact Hin.
  - intros x Hx. rewrite store_out.
    2:{ destruct (off_links_member fx t x bp Hx Hb); hlia. }
    unfold m2. rewrite store_out.
    2:{ replace (hd t fl) with (hd t (tl fx)) by reflexivity.
        cbn [tl fx].
        apply (off_links_next fx fl x Hf Hx). }
    unfold m1. apply store_out.
    destruct (off_links_member fx t x bp Hx Hb); hlia.
Qed.

End ListOperations.

(** ** The list operations return

    When the value that ends the list is the address of the padding
    word, every word the two operations touch is inside the heap. *)
Section ListRuns.

Variable s : state.
Hypothesis Hlo : 0 < mem_lo s.
Hypothesis Hbrk : mem_brk s < 2 ^ 64.

Lemma next_valid fl f2 :
  placed s fl -> fl <> [] -> incl f2 fl ->
  valid s (hd (mem_lo s) f2) = true.
Proof.
  intros Hp Hne H2. apply valid_iff. destruct Hp as [Hp _].
  destruct f2 as [|n r]; cbn [hd].
  - destruct fl as [|q r]; [contradiction|].
    destruct (Hp q (or_introl eq_refl)). hlia.
  - destruct (Hp n (H2 n (or_introl eq_refl))). hlia.
Qed.

Lemma remove_runs f1 q f2 :
  placed s (f1 ++ q :: f2) -> NoDup (f1 ++ q :: f2) ->
  dll (mem s) NULL (f1 ++ q :: f2) (mem_lo s) ->
  exists s', remove_from_free_list q s = Ok (tt, s').
Proof.
  intros Hp Hnd Hd.
  set (t := mem_lo s) in *.
  assert (Ht : t = NULL \/ t = mem_lo s) by (right; reflexivity).
  set (fl := f1 ++ q :: f2) in *.
  assert (Hq : In q fl) by (apply in_or_app; right; left; reflexivity).
  assert (H1 : incl f1 fl) by (intros x Hx; apply in_or_app; left; exact Hx).
  assert (H2 : incl f2 fl)
    by (intros x Hx; apply in_or_app; right; right; exact Hx).
  destruct (member_valid s t Hlo Hbrk Ht fl q Hp Hq) as (Vq & Vq8 & Wq & Nq & Tq).
  apply dll_app in Hd. destruct Hd as (Hd1 & Hd2). cbn [dll hd] in Hd1, Hd2.
  destruct Hd2 as (Lq & Lq8 & Hd2).
  assert (Vn : valid s (hd t f2) = true).
  { apply (next_valid fl); [exact Hp| |exact H2].
    unfold fl. destruct f1; discriminate. }
  destruct (exists_last (l := NULL :: f1)) as (k0 & p & Ek);
    [discriminate|].
  eexists (match k0 with [] => _ | _ => _ end).
  unfold remove_from_free_list, GET_PREV_PTR, GET_NEXT_PTR, SET_PREV_PTR,
    SET_NEXT_PTR.
  rewrite Wq. rewrite (bind_eq _ _ _ _ _ (GET_eq _ _ Vq)). rewrite Lq.
  destruct k0 as [|z k]; cbn [app] in Ek.
  - inversion Ek as [[Ep Ef]]. destruct f1; [|discriminate]. clear Ek Ef Ep.
    cbn [last NULL Z.eqb negb].
    assert (Ei : (next <- GET (q + WSIZE) ;; put_free_listp next) s
                 = Ok (tt, set_free_listp s (hd t f2))).
    { rewrite (bind_eq _ _ _ _ _ (GET_eq _ _ Vq8)). rewrite Lq8. reflexivity. }
    rewrite (bind_eq _ _ _ _ _ Ei).
    rewrite (bind_eq _ _ _ _ _ (GET_eq _ (set_free_listp s (hd t f2)) Vq8)).
    rewrite (bind_eq _ _ _ _ _ (GET_eq _ (set_free_listp s (hd t f2)) Vq)).
    cbn [mem set_free_listp]. rewrite Lq8.
    apply PUT_eq. exact Vn.
  - inversion Ek as [[Ez Ef]]. subst z. clear Ek.
    subst f1. rewrite last_last in *.
    assert (Hpf : In p fl) by (apply H1; apply in_or_app; right; left; reflexivity).
    destruct (member_valid s t Hlo Hbrk Ht fl p Hp Hpf) as (Vp & Vp8 & Wp & Np & Tp).
    assert (Hpq : p <> q).
    { intros ->. unfold fl in Hnd. rewrite <- app_assoc in Hnd.
      apply NoDup_app_remove_l in Hnd. inversion Hnd as [|? ? Hin _].
      apply Hin. left. reflexivity. }
    replace (negb (p =? 0)) with true
      by (symmetry; apply negb_true_iff, Z.eqb_neq; exact Np).
    set (s1 := set_mem s (store (mem s) (p + WSIZE) (hd t f2))).
    assert (Ei : (prev <- GET q ;; next <- GET (q + WSIZE) ;;
                  PUT (wrap (prev + WSIZE)) next) s = Ok (tt, s1)).
    { rewrite (bind_eq _ _ _ _ _ (GET_eq _ _ Vq)).
      rewrite (bind_eq _ _ _ _ _ (GET_eq _ _ Vq8)).
      rewrite Lq, Lq8, Wp. apply PUT_eq. exact Vp8. }
    rewrite (bind_eq _ _ _ _ _ Ei).
    rewrite (bind_eq _ _ _ _ _ (GET_eq _ s1 Vq8)).
    rewrite (bind_eq _ _ _ _ _ (GET_eq _ s1 Vq)).
    assert (E1 : load (mem s1) (q + WSIZE) = hd t f2).
    { unfold s1. cbn [mem set_mem].
      rewrite (load_store_link s t Ht fl) by (auto; hlia). exact Lq8. }
    rewrite E1. apply PUT_eq. exact Vn.
Qed.

Lemma insert_runs fl bp :
  placed s (bp :: fl) ->
  free_listp s = hd (mem_lo s) fl ->
  exists s', insert_to_free_list bp s = Ok (tt, s').
Proof.
  intros Hp Hh.
  set (t := mem_lo s) in *.
  assert (Ht : t = NULL \/ t = mem_lo s) by (right; reflexivity).
  set (fx := bp :: fl) in *.
  assert (Hb : In bp fx) by (left; reflexivity).
  assert (Hf : incl fl fx) by (intros x Hx; right; exact Hx).
  destruct (member_valid s t Hlo Hbrk Ht fx bp Hp Hb) as (Vb & Vb8 & Wb & Nb & Tb).
  assert (Vh : valid s (hd t fl) = true).
  { apply (next_valid fx); [exact Hp|discriminate|exact Hf]. }
  eexists.
  unfold insert_to_free_list, SET_NEXT_PTR, SET_PREV_PTR, get_free_listp.
  unfold bind at 1. rewrite Wb, Hh.
  rewrite (bind_eq _ _ _ _ _ (PUT_eq _ _ _ Vb8)).
  unfold bind at 1. cbn [free_listp set_mem]. rewrite Hh.
  set (s1 := set_mem s (store (mem s) (bp + WSIZE) (hd t fl))).
  rewrite (bind_eq _ _ _ _ _ (PUT_eq _ _ s1 Vh)).
  set (s2 := set_mem s1 (store (mem s1) (hd t fl) bp)).
  rewrite (bind_eq _ _ _ _ _ (PUT_eq _ _ s2 Vb)).
  reflexivity.
Qed.

End ListRuns.

(** * Blocks, their tags and the link words *)

Lemma load_off_links fl t m m' x :
  (forall y, ~ link_byte fl t y -> m' y = m y) ->
  off_links fl t x -> load m' x = load m x.
Proof. intros Hf Hx. apply load_ext. intros i Hi. apply Hf. apply Hx. exact Hi. Qed.

Lemma off_links_incl fl fl' t x :
  incl fl' fl -> off_links fl t x -> off_links fl' t x.
Proof.
  intros Hi Hx i Hr [(q & Hq & Hb)|Hb]; apply (Hx i Hr).
  - left. exists q. split; [apply Hi; exact Hq|exact Hb].
  - right. exact Hb.
Qed.

Lemma link_byte_incl fl fl' t x :
  incl fl' fl -> link_byte fl' t x -> link_byte fl t x.
Proof.
  intros Hi [(q & Hq & Hb)|Hb].
  - left. exists q. split; [apply Hi; exact Hq|exact Hb].
  - right. exact Hb.
Qed.

(** A store off the link words leaves the list as it is. *)
Lemma dll_store_off fl t m prev e x v :
  off_links fl t x -> dll m prev fl e -> dll (store m x v) prev fl e.
Proof.
  intros Hx. apply dll_frame. intros q Hq.
  assert (x + WSIZE <= q \/ q + DSIZE <= x).
  { destruct (Z_le_dec (x + WSIZE) q) as [|H1]; [left; assumption|].
    destruct (Z_le_dec (q + DSIZE) x) as [|H2]; [right; assumption|].
    exfalso.
    destruct (Z_le_dec q x) as [H3|H3].
    - apply (Hx 0); [hlia|]. left. exists q. split; [exact Hq|hlia].
    - apply (Hx (q - x)); [hlia|]. left. exists q. split; [exact Hq|hlia]. }
  split; apply load_store_other; hlia.
Qed.

Section Geometry.

Variable s : state.
Variable bl : list block.
Hypothesis Hlo : 0 < mem_lo s.
Hypothesis Hbrk : mem_brk s < 2 ^ 64.
Hypothesis Hlink : linked (mem_lo s + DSIZE) (prologue s :: bl) (mem_brk s).
Hypothesis Hblocks : Forall block_ok bl.

Lemma body_sized : Forall sized (prologue s :: bl).
Proof.
  constructor; [apply prologue_sized|].
  eapply Forall_impl; [|exact Hblocks]. intros b. apply block_ok_sized.
Qed.

Lemma bl_linked : linked (mem_lo s + DSIZE + DSIZE) bl (mem_brk s).
Proof. cbn in Hlink. destruct Hlink as [_ H]. exact H. Qed.

Lemma bl_sized : Forall sized bl.
Proof. eapply Forall_impl; [|exact Hblocks]. intros b. apply block_ok_sized. Qed.

(** Where a block of the heap lies. *)
Lemma block_range b :
  In b bl ->
  mem_lo s + 2 * DSIZE <= bptr b /\ bptr b + bsize b <= mem_brk s /\
  2 * DSIZE <= bsize b /\ bsize b mod 16 = 0 /\
  (balloc b = 0 \/ balloc b = 1).
Proof.
  intros Hb.
  destruct (linked_In _ _ _ _ bl_sized bl_linked Hb) as [H1 H2].
  rewrite Forall_forall in Hblocks. destruct (Hblocks b Hb) as (H3 & H4 & H5).
  repeat split; try assumption; hlia.
Qed.

(** Two blocks of the heap are the same block or lie apart. *)
Lemma blocks_apart b c :
  In b bl -> In c bl ->
  b = c \/ bptr b + bsize b <= bptr c \/ bptr c + bsize c <= bptr b.
Proof.
  intros Hb Hc. destruct (in_split _ _ Hb) as (l1 & l2 & E).
  pose proof bl_sized as Hs. pose proof bl_linked as Hl. rewrite E in Hs, Hl.
  destruct (linked_split _ _ _ _ _ Hs Hl) as (_ & _ & H1 & H2 & _).
  rewrite E in Hc. apply in_app_or in Hc. destruct Hc as [Hc|[Hc|Hc]].
  - right. right. apply H1. exact Hc.
  - left. exact Hc.
  - right. left. apply H2. exact Hc.
Qed.

Lemma block_unique p sz a sz' a' :
  In (p, sz, a) bl -> In (p, sz', a') bl -> sz = sz' /\ a = a'.
Proof.
  intros H1 H2. destruct (blocks_apart _ _ H1 H2) as [E|[H|H]].
  - inversion E. auto.
  - destruct (block_range _ H1) as (_ & _ & ? & _). cbn [bptr bsize fst snd] in *. hlia.
  - destruct (block_range _ H2) as (_ & _ & ? & _). cbn [bptr bsize fst snd] in *. hlia.
Qed.

(** A list of blocks of the heap is well placed. *)
Lemma blocks_placed L :
  (forall q, In q L -> exists sz a, In (q, sz, a) bl) -> placed s L.
Proof.
  intros HL. split.
  - intros q Hq. destruct (HL q Hq) as (sz & a & Hb).
    destruct (block_range _ Hb) as (H1 & H2 & H3 & _).
    cbn [bptr bsize fst snd] in *. hlia.
  - intros p q Hpl Hql.
    destruct (HL p Hpl) as (sz & a & Hb). destruct (HL q Hql) as (sz' & a' & Hc).
    destruct (block_range _ Hb) as (_ & _ & H3 & _).
    destruct (block_range _ Hc) as (_ & _ & H3' & _).
    destruct (blocks_apart _ _ Hb Hc) as [E|[H|H]];
      cbn [bptr bsize fst snd] in *.
    + inversion E. left. reflexivity.
    + right. left. hlia.
    + right. right. hlia.
Qed.

Variable t : Z.
Hypothesis Ht : t = NULL \/ t = mem_lo s.

(** A word inside a block of the heap, header and footer included, and
    off that block's own link words, is off the link words of every list
    of blocks of the heap.  The block may be the prologue. *)
Lemma word_off_links L c x :
  (forall q, In q L -> exists sz a, In (q, sz, a) bl) ->
  In c (prologue s :: bl) ->
  bptr c - WSIZE <= x -> x + WSIZE <= bptr c + bsize c - WSIZE ->
  (In (bptr c) L -> x + WSIZE <= bptr c \/ bptr c + DSIZE <= x) ->
  off_links L t x.
Proof.
  intros HL Hc Hx1 Hx2 Hown i Hi [(q & Hq & Hb)|Hb].
  - destruct (HL q Hq) as (sz & a & Hqb).
    destruct (block_range _ Hqb) as (Q1 & Q2 & Q3 & _).
    cbn [bptr bsize fst snd] in *.
    destruct Hc as [<-|Hc].
    + unfold prologue in *. cbn [bptr bsize fst snd] in *. hlia.
    + destruct (block_range _ Hc) as (C1 & C2 & C3 & _).
      destruct (blocks_apart _ _ Hqb Hc) as [E|[H|H]];
        cbn [bptr bsize fst snd] in *.
      * subst c. cbn [bptr bsize fst snd] in *.
        destruct (Hown Hq); hlia.
      * hlia.
      * hlia.
  - destruct Hc as [<-|Hc].
    + unfold prologue in *. cbn [bptr bsize fst snd] in *.
      destruct Ht; hlia.
    + destruct (block_range _ Hc) as (C1 & C2 & C3 & _).
      destruct Ht; hlia.
Qed.

(** The header of the epilogue is off the link words. *)
Lemma epilogue_off_links L :
  (forall q, In q L -> exists sz a, In (q, sz, a) bl) ->
  off_links L t (mem_brk s - WSIZE).
Proof.
  intros HL i Hi [(q & Hq & Hb)|Hb].
  - destruct (HL q Hq) as (sz & a & Hqb).
    destruct (block_range _ Hqb) as (Q1 & Q2 & Q3 & _).
    cbn [bptr bsize fst snd] in *. hlia.
  - pose proof (linked_le _ _ _ body_sized Hlink). destruct Ht; hlia.
Qed.

(** The payload of an allocated block is off the link words of the free
    blocks. *)
Lemma payload_off_links L x :
  (forall q, In q L -> exists sz, In (q, sz, 0) bl) ->
  payload_byte bl x -> ~ link_byte L t x.
Proof.
  intros HL (c & Hc & Ha & Hx) [(q & Hq & Hb)|Hb].
  - destruct (HL q Hq) as (sz & Hqb).
    destruct (block_range _ Hqb) as (Q1 & Q2 & Q3 & _).
    destruct (block_range _ Hc) as (C1 & C2 & C3 & _).
    destruct (blocks_apart _ _ Hqb Hc) as [E|[H|H]];
      cbn [bptr bsize fst snd] in *.
    + subst c. cbn in Ha. discriminate.
    + hlia.
    + hlia.
  - destruct (block_range _ Hc) as (C1 & C2 & C3 & _). destruct Ht; hlia.
Qed.

End Geometry.

(** * Reading and writing boundary tags *)

Lemma tag_at_valid s p sz a : tag_at s p sz a -> valid s p = true.
Proof. intros (H1 & H2 & _). apply valid_iff. hlia. Qed.

Lemma GET_SIZE_at s p sz a : tag_at s p sz a -> GET_SIZE p s = Ok (sz, s).
Proof.
  intros H. pose proof (tag_at_valid _ _ _ _ H) as V.
  destruct H as (H1 & H2 & H3 & H4 & H5 & H6 & H7 & H8).
  unfold GET_SIZE. rewrite (bind_eq _ _ _ _ _ (GET_eq _ _ V)).
  unfold ret. rewrite H5, unpack_size; auto.
  pose proof (load_range (mem s) p). rewrite H5 in *. lia.
Qed.

Lemma GET_ALLOC_at s p sz a : tag_at s p sz a -> GET_ALLOC p s = Ok (a, s).
Proof.
  intros H. pose proof (tag_at_valid _ _ _ _ H) as V.
  destruct H as (H1 & H2 & H3 & H4 & H5 & H6 & H7 & H8).
  unfold GET_ALLOC. rewrite (bind_eq _ _ _ _ _ (GET_eq _ _ V)).
  unfold ret. rewrite H5, unpack_alloc; auto.
Qed.

Lemma HDRP_eq bp : WSIZE <= bp < 2 ^ 64 -> HDRP bp = bp - WSIZE.
Proof. intros H. unfold HDRP. apply wrap_small. hlia. Qed.

Lemma tag_at_bound s p sz a : tag_at s p sz a -> p + WSIZE < 2 ^ 64 /\ 0 <= p.
Proof. intros (H1 & H2 & H3 & H4 & _). hlia. Qed.

Lemma NEXT_BLKP_at s bp sz a :
  tag_at s (bp - WSIZE) sz a -> bp + sz <= mem_brk s ->
  NEXT_BLKP bp s = Ok (bp + sz, s).
Proof.
  intros H Hb. pose proof (tag_at_bound _ _ _ _ H).
  destruct H as (H1 & H2 & H3 & H4 & H5 & H6 & H7 & H8).
  assert (T : tag_at s (bp - WSIZE) sz a) by (repeat split; assumption).
  unfold NEXT_BLKP. rewrite HDRP_eq by hlia.
  rewrite (bind_eq _ _ _ _ _ (GET_SIZE_at _ _ _ _ T)).
  unfold ret. rewrite wrap_small by hlia. reflexivity.
Qed.

Lemma FTRP_at s bp sz a :
  tag_at s (bp - WSIZE) sz a -> bp + sz <= mem_brk s -> WSIZE <= sz ->
  FTRP bp s = Ok (bp + sz - DSIZE, s).
Proof.
  intros H Hb Hsz. pose proof (tag_at_bound _ _ _ _ H).
  destruct H as (H1 & H2 & H3 & H4 & H5 & H6 & H7 & H8).
  assert (T : tag_at s (bp - WSIZE) sz a) by (repeat split; assumption).
  unfold FTRP. rewrite HDRP_eq by hlia.
  rewrite (bind_eq _ _ _ _ _ (GET_SIZE_at _ _ _ _ T)).
  unfold ret. rewrite (wrap_small (bp + sz)) by hlia.
  rewrite wrap_small by hlia. reflexivity.
Qed.

Lemma PREV_BLKP_at s bp sz a :
  tag_at s (bp - DSIZE) sz a -> bp <= mem_brk s -> sz <= bp ->
  PREV_BLKP bp s = Ok (bp - sz, s).
Proof.
  intros H Hb Hsz. pose proof (tag_at_bound _ _ _ _ H).
  destruct H as (H1 & H2 & H3 & H4 & H5 & H6 & H7 & H8).
  assert (T : tag_at s (bp - DSIZE) sz a) by (repeat split; assumption).
  unfold PREV_BLKP. rewrite (wrap_small (bp - DSIZE)) by hlia.
  rewrite (bind_eq _ _ _ _ _ (GET_SIZE_at _ _ _ _ T)).
  unfold ret. rewrite wrap_small by hlia. reflexivity.
Qed.

(** Writing [PACK(sz, a)] at a word of the heap. *)
Lemma PUT_tag s p sz a :
  mem_lo s <= p -> p + WSIZE <= mem_brk s -> mem_brk s < 2 ^ 64 ->
  0 <= mem_lo s -> 0 <= sz -> sz + a < 2 ^ 64 -> sz mod 16 = 0 ->
  a = 0 \/ a = 1 ->
  PUT p (PACK sz a) s = Ok (tt, set_mem s (store (mem s) p (sz + a))) /\
  tag_at (set_mem s (store (mem s) p (sz + a))) p sz a.
Proof.
  intros H1 H2 H3 H4 H5 H6 H7 H8. rewrite PACK_add by assumption. split.
  - apply PUT_eq. apply valid_iff. hlia.
  - repeat split; cbn [mem mem_lo mem_brk set_mem]; try assumption.
    rewrite load_store_same. apply wrap_small. destruct H8; subst; hlia.
Qed.

(** A tag survives a store elsewhere. *)
Lemma tag_at_store s p sz a x v :
  tag_at s p sz a -> x + WSIZE <= p \/ p + WSIZE <= x ->
  tag_at (set_mem s (store (mem s) x v)) p sz a.
Proof.
  intros (H1 & H2 & H3 & H4 & H5 & H6) Hx.
  repeat split; cbn [mem mem_lo mem_brk set_mem]; try tauto.
  rewrite load_store_other by hlia. exact H5.
Qed.

(** A tag survives a change of memory that leaves its word alone. *)
Lemma tag_at_same s s' p sz a :
  tag_at s p sz a ->
  mem_lo s' = mem_lo s -> mem_brk s' = mem_brk s ->
  load (mem s') p = load (mem s) p ->
  tag_at s' p sz a.
Proof.
  intros (H1 & H2 & H3 & H4 & H5 & H6) E1 E2 E3.
  unfold tag_at. rewrite E1, E2, E3. tauto.
Qed.

(** * Free neighbours and the cover of the free list *)

Lemma adjacent_free_cons c l :
  adjacent_free (c :: l) =
  ((balloc c =? 0) && head_free l) || adjacent_free l.
Proof.
  destruct c as [[p sz] a]. destruct l as [|[[p' sz'] a'] l]; cbn.
  - rewrite andb_false_r. reflexivity.
  - reflexivity.
Qed.

Lemma adjacent_free_app l1 l2 :
  adjacent_free (l1 ++ l2) =
  adjacent_free l1 || adjacent_free l2 || (last_free l1 && head_free l2).
Proof.
  induction l1 as [|c l1 IH]; [cbn; rewrite orb_false_r; reflexivity|].
  cbn [app]. rewrite !adjacent_free_cons, IH. unfold balloc.
  destruct l1 as [|c' l1].
  - cbn. destruct (snd c =? 0), (head_free l2), (adjacent_free l2);
      reflexivity.
  - cbn [app head_free last_free]. rewrite last_cons.
    destruct (snd c =? 0), (snd c' =? 0), (adjacent_free (c' :: l1)),
      (adjacent_free l2), (snd (last l1 c') =? 0), (head_free l2);
      reflexivity.
Qed.

Lemma head_free_hd d l :
  balloc d <> 0 -> head_free l = (balloc (hd d l) =? 0).
Proof.
  intros Hd. destruct l as [|c l]; cbn; [|reflexivity].
  symmetry. apply Z.eqb_neq. exact Hd.
Qed.

Lemma last_free_last d l :
  balloc d <> 0 -> last_free l = (balloc (last l d) =? 0).
Proof.
  intros Hd. destruct l as [|c l]; cbn [last_free].
  - cbn. symmetry. apply Z.eqb_neq. exact Hd.
  - rewrite last_cons. reflexivity.
Qed.

Lemma last_free_snoc l c : last_free (l ++ [c]) = (balloc c =? 0).
Proof.
  destruct l as [|a l]; [reflexivity|].
  cbn [app last_free]. rewrite last_last. reflexivity.
Qed.

(** ** The cover *)

Lemma cover_insert la c lb fl :
  balloc c = 0 -> cover (la ++ lb) fl ->
  cover (la ++ c :: lb) (bptr c :: fl).
Proof.
  intros Ha Hc p. cbn [In]. rewrite (Hc p). split.
  - intros [<-|(sz & H)].
    + exists (bsize c). apply in_or_app. right. left.
      destruct c as [[q z] a]. cbn in *. subst. reflexivity.
    + exists sz. apply in_app_or in H. apply in_or_app.
      destruct H; [left|right; right]; assumption.
  - intros (sz & H). apply in_app_or in H. destruct H as [H|[H|H]].
    + right. exists sz. apply in_or_app. left. exact H.
    + left. subst c. reflexivity.
    + right. exists sz. apply in_or_app. right. exact H.
Qed.

Lemma cover_remove la c lb f1 f2 :
  (forall sz a, In (bptr c, sz, a) (la ++ lb) -> False) ->
  NoDup (f1 ++ bptr c :: f2) ->
  cover (la ++ c :: lb) (f1 ++ bptr c :: f2) ->
  cover (la ++ lb) (f1 ++ f2).
Proof.
  intros Hu Hnd Hc p. split.
  - intros Hp.
    assert (Hp' : In p (f1 ++ bptr c :: f2)).
    { apply in_app_or in Hp. apply in_or_app.
      destruct Hp; [left|right; right]; assumption. }
    apply Hc in Hp'. destruct Hp' as (sz & H). exists sz.
    apply in_app_or in H. apply in_or_app. destruct H as [H|[H|H]]; auto.
    exfalso. subst c. cbn [bptr fst] in *.
    apply NoDup_remove_2 in Hnd. exact (Hnd Hp).
  - intros (sz & H).
    assert (H' : In p (f1 ++ bptr c :: f2)).
    { apply Hc. exists sz. apply in_app_or in H. apply in_or_app.
      destruct H; [left|right; right]; assumption. }
    apply in_app_or in H'. apply in_or_app. destruct H' as [H'|[H'|H']]; auto.
    exfalso. subst p. exact (Hu _ _ H).
Qed.

(** * The representation invariant *)

Lemma linked_replace p l1 mid mid' l2 e :
  (forall a e', linked a mid e' -> linked a mid' e') ->
  linked p (l1 ++ mid ++ l2) e -> linked p (l1 ++ mid' ++ l2) e.
Proof.
  intros Hm H. apply linked_app in H. destruct H as (q & H1 & H).
  apply linked_app in H. destruct H as (q' & H2 & H3).
  apply linked_app. exists q. split; [exact H1|].
  apply linked_app. exists q'. split; [apply Hm; exact H2|exact H3].
Qed.

Lemma linked_order p l1 l2 e c1 c2 :
  Forall sized (l1 ++ l2) -> linked p (l1 ++ l2) e ->
  In c1 l1 -> In c2 l2 -> bptr c1 + bsize c1 <= bptr c2.
Proof.
  intros Hs H H1 H2. apply linked_app in H. destruct H as (q & Ha & Hb).
  apply Forall_app in Hs. destruct Hs as [Hs1 Hs2].
  pose proof (linked_In _ _ _ _ Hs1 Ha H1).
  pose proof (linked_In _ _ _ _ Hs2 Hb H2). lia.
Qed.

Lemma linked_last p0 pro l1 b l2 e :
  linked p0 (pro :: l1 ++ b :: l2) e ->
  bptr (last l1 pro) + bsize (last l1 pro) = bptr b.
Proof.
  intros H. destruct (linked_prev _ _ _ _ _ _ H) as (pb & E & [[-> ->]|(k & ->)]).
  - exact E.
  - rewrite last_last. exact E.
Qed.

Lemma linked_hd p l1 b l2 e epi :
  bptr epi = e -> linked p (l1 ++ b :: l2) e ->
  bptr (hd epi l2) = bptr b + bsize b.
Proof.
  intros He H. destruct (linked_next _ _ _ _ _ H) as [[-> E]|(nb & k & -> & E)].
  - cbn. lia.
  - exact E.
Qed.

Section Representation.

Variable s : state.
Variable bl : list block.
Variable fl : list Z.
Variable t : Z.
Hypothesis Hrep : heap_rep s bl fl t.

Lemma rep_body_range c :
  In c (prologue s :: bl) ->
  mem_lo s + DSIZE <= bptr c /\ bptr c + bsize c <= mem_brk s /\
  DSIZE <= bsize c /\ bsize c mod 16 = 0 /\ (balloc c = 0 \/ balloc c = 1).
Proof.
  destruct Hrep as
    [Rlo Rbrk Rlistp Rlinked Rblocks Rhdr Rftr Repi Rmem Rnodup Rdll Rhead Rterm]. intros [<-|Hc].
  - pose proof (linked_le _ _ _ (bl_sized bl Rblocks)
                  (bl_linked s bl Rlinked)).
    unfold prologue. cbn [bptr bsize balloc fst snd].
    repeat split; hlia.
  - destruct (block_range s bl Rlinked Rblocks c Hc) as (H1 & H2 & H3 & H4 & H5).
    repeat split; try assumption; hlia.
Qed.

Lemma rep_tag_hdr c :
  In c (prologue s :: bl) ->
  tag_at s (bptr c - WSIZE) (bsize c) (balloc c).
Proof.
  intros Hc. destruct (rep_body_range c Hc) as (H1 & H2 & H3 & H4 & H5).
  destruct Hrep as
    [Rlo Rbrk Rlistp Rlinked Rblocks Rhdr Rftr Repi Rmem Rnodup Rdll Rhead Rterm]. rewrite Forall_forall in Rhdr.
  pose proof (Rhdr c Hc) as Hh. unfold hdr_ok in Hh.
  repeat split; try assumption; hlia.
Qed.

Lemma rep_tag_ftr c :
  In c (prologue s :: bl) ->
  tag_at s (bptr c + bsize c - DSIZE) (bsize c) (balloc c).
Proof.
  intros Hc. destruct (rep_body_range c Hc) as (H1 & H2 & H3 & H4 & H5).
  destruct Hrep as
    [Rlo Rbrk Rlistp Rlinked Rblocks Rhdr Rftr Repi Rmem Rnodup Rdll Rhead Rterm]. rewrite Forall_forall in Rftr.
  pose proof (Rftr c Hc) as Hh. unfold ftr_ok in Hh.
  repeat split; try assumption; hlia.
Qed.

Lemma rep_brk_range : mem_lo s + 2 * DSIZE <= mem_brk s.
Proof.
  destruct Hrep as
    [Rlo Rbrk Rlistp Rlinked Rblocks Rhdr Rftr Repi Rmem Rnodup Rdll Rhead Rterm].
  pose proof (linked_le _ _ _ (bl_sized bl Rblocks)
                (bl_linked s bl Rlinked)). hlia.
Qed.

Lemma rep_tag_epilogue : tag_at s (mem_brk s - WSIZE) 0 1.
Proof.
  pose proof rep_brk_range. destruct Hrep as
    [Rlo Rbrk Rlistp Rlinked Rblocks Rhdr Rftr Repi Rmem Rnodup Rdll Rhead Rterm].
  repeat split; try assumption; hlia.
Qed.

(** The header of the block after a block, or of the epilogue. *)
Lemma rep_tag_next c :
  In c (bl ++ [epilogue s]) ->
  tag_at s (bptr c - WSIZE) (bsize c) (balloc c).
Proof.
  intros Hc. apply in_app_or in Hc. destruct Hc as [Hc|[<-|[]]].
  - apply rep_tag_hdr. right. exact Hc.
  - exact rep_tag_epilogue.
Qed.

Lemma rep_placed L :
  (forall q, In q L -> exists sz a, In (q, sz, a) bl) -> placed s L.
Proof. destruct Hrep as
    [Rlo Rbrk Rlistp Rlinked Rblocks Rhdr Rftr Repi Rmem Rnodup Rdll Rhead Rterm]. apply (blocks_placed s bl); assumption. Qed.

Lemma rep_free_placed : placed s fl.
Proof.
  apply rep_placed. intros q Hq. destruct Hrep as
    [Rlo Rbrk Rlistp Rlinked Rblocks Rhdr Rftr Repi Rmem Rnodup Rdll Rhead Rterm].
  destruct (Rmem q Hq) as (sz & H). exists sz, 0. exact H.
Qed.

(** The boundary tags of a block are off the link words of any list of
    blocks of the heap. *)
Lemma rep_tag_off L c :
  (forall q, In q L -> exists sz a, In (q, sz, a) bl) ->
  In c (prologue s :: bl) ->
  off_links L t (bptr c - WSIZE) /\
  off_links L t (bptr c + bsize c - DSIZE).
Proof.
  intros HL Hc. destruct (rep_body_range c Hc) as (C1 & C2 & C3 & _).
  destruct Hrep as
    [Rlo Rbrk Rlistp Rlinked Rblocks Rhdr Rftr Repi Rmem Rnodup Rdll Rhead
       Rterm].
  split.
  - apply (word_off_links s bl Rlo Rlinked Rblocks t Rterm L c _ HL Hc);
      [hlia|hlia|]. intros _. left. hlia.
  - apply (word_off_links s bl Rlo Rlinked Rblocks t Rterm L c _ HL Hc);
      [hlia|hlia|]. intros HinL. right.
    destruct Hc as [<-|Hc].
    + exfalso. destruct (HL _ HinL) as (sz & a & Hq).
      destruct (block_range s bl Rlinked Rblocks _ Hq) as (Q1 & _).
      unfold prologue in Q1. cbn [bptr fst] in Q1. hlia.
    + destruct (block_range s bl Rlinked Rblocks c Hc) as (_ & _ & C4 & _).
      hlia.
Qed.

Lemma rep_members_blocks q :
  In q fl -> exists sz a, In (q, sz, a) bl.
Proof.
  intros Hq. destruct Hrep as
    [Rlo Rbrk Rlistp Rlinked Rblocks Rhdr Rftr Repi Rmem Rnodup Rdll Rhead
       Rterm].
  destruct (Rmem q Hq) as (sz & H). exists sz, 0. exact H.
Qed.

End Representation.

(** Rebuilding the invariant after a run [mid] of blocks has been given
    new tags and the free list new links: memory may differ from the old
    one inside the run and on the link words of the blocks [L]. *)
Lemma rep_rebuild s s' l1 mid mid' l2 fl fl' t L :
  heap_rep s (l1 ++ mid ++ l2) fl t ->
  mem_lo s' = mem_lo s -> mem_brk s' = mem_brk s ->
  heap_listp s' = heap_listp s ->
  (forall q, In q L -> exists sz a, In (q, sz, a) (l1 ++ mid ++ l2)) ->
  (forall x,
     (forall c, In c mid ->
        x < bptr c - WSIZE \/ bptr c + bsize c - WSIZE <= x) ->
     ~ link_byte L t x -> mem s' x = mem s x) ->
  (forall a e, linked a mid e -> linked a mid' e) ->
  Forall block_ok mid' ->
  Forall (hdr_ok (mem s')) mid' -> Forall (ftr_ok (mem s')) mid' ->
  (forall q, In q fl' -> exists sz, In (q, sz, 0) (l1 ++ mid' ++ l2)) ->
  NoDup fl' -> dll (mem s') NULL fl' t -> free_listp s' = hd t fl' ->
  heap_rep s' (l1 ++ mid' ++ l2) fl' t.
Proof.
  intros Hrep Elo Ebrk Elp HL Hmem Hlink Hok Hhdr Hftr Hmem' Hnd Hdll Hhd.
  set (bl := l1 ++ mid ++ l2) in *.
  pose proof Hrep as Hrep0. destruct Hrep as
    [Rlo Rbrk Rlistp Rlinked Rblocks Rhdr Rftr Repi Rmem Rnodup Rdll Rhead Rterm].
  assert (Hsz : Forall sized bl) by (apply bl_sized; assumption).
  assert (Hbl : linked (mem_lo s + DSIZE + DSIZE) bl (mem_brk s))
    by (apply bl_linked; assumption).
  (* a tag word of a block outside the run is untouched *)
  assert (Hkeep : forall c x,
             In c (prologue s :: l1 ++ l2) \/ c = epilogue s ->
             x = bptr c - WSIZE \/
             (x = bptr c + bsize c - DSIZE /\ c <> epilogue s) ->
             load (mem s') x = load (mem s) x).
  { intros c x Hc Hx. apply load_ext. intros i Hi. apply Hmem.
    - intros m Hm.
      assert (Hmb : In m bl) by (apply in_or_app; right; apply in_or_app; left; exact Hm).
      destruct (block_range s bl Rlinked Rblocks m Hmb) as (M1 & M2 & M3 & _).
      destruct Hc as [[<-|Hc]| ->].
      + unfold prologue in Hx. cbn [bptr bsize fst snd] in Hx.
        destruct Hx as [->|[-> _]]; hlia.
      + apply in_app_or in Hc. destruct Hc as [Hc|Hc].
        * assert (O : bptr c + bsize c <= bptr m).
          { apply (linked_order _ l1 (mid ++ l2) _ c m Hsz Hbl Hc).
            apply in_or_app. left. exact Hm. }
          assert (In c bl) by (apply in_or_app; left; exact Hc).
          destruct (block_range s bl Rlinked Rblocks c H) as (C1 & C2 & C3 & _).
          destruct Hx as [->|[-> _]]; hlia.
        * assert (O : bptr m + bsize m <= bptr c).
          { unfold bl in Hsz, Hbl. rewrite app_assoc in Hsz, Hbl.
            apply (linked_order _ (l1 ++ mid) l2 _ m c Hsz Hbl); [|exact Hc].
            apply in_or_app. right. exact Hm. }
          assert (In c bl)
            by (apply in_or_app; right; apply in_or_app; right; exact Hc).
          destruct (block_range s bl Rlinked Rblocks c H) as (C1 & C2 & C3 & _).
          destruct Hx as [->|[-> _]]; hlia.
      + unfold epilogue in Hx. cbn [bptr bsize fst snd] in Hx.
        destruct Hx as [->|[_ Hx]]; [hlia|contradiction].
    - revert i Hi. change (off_links L t x).
      destruct Hc as [Hc| ->].
      + assert (Hcb : In c (prologue s :: bl)).
        { destruct Hc as [<-|Hc]; [left; reflexivity|right].
          apply in_app_or in Hc. apply in_or_app.
          destruct Hc; [left|right; apply in_or_app; right]; assumption. }
        destruct (rep_body_range s bl fl t Hrep0 c Hcb) as (C1 & C2 & C3 & _).
        apply (word_off_links s bl Rlo Rlinked Rblocks t
                 Rterm L c x HL Hcb).
        * destruct Hx as [->|[-> _]]; hlia.
        * destruct Hx as [->|[-> _]]; hlia.
        * intros HinL. destruct Hx as [->|[-> _]]; [left; hlia|right].
          destruct Hcb as [<-|Hcb].
          { exfalso. destruct (HL _ HinL) as (sz & a & Hq).
            destruct (block_range s bl Rlinked Rblocks _ Hq) as (Q1 & _).
            unfold prologue in Q1. cbn [bptr fst] in Q1. hlia. }
          destruct (block_range s bl Rlinked Rblocks c Hcb) as (_ & _ & C4 & _).
          hlia.
      + destruct Hx as [->|[_ Hx]]; [|contradiction].
        apply (epilogue_off_links s bl Rlo Rlinked Rblocks t
                 Rterm L HL). }
  assert (Hpro : prologue s' = prologue s) by (unfold prologue; rewrite Elo; reflexivity).
  rewrite Forall_forall in Rhdr, Rftr.
  assert (Hblk : Forall block_ok (l1 ++ mid' ++ l2)).
  { unfold bl in Rblocks. apply Forall_app in Rblocks.
    destruct Rblocks as [B1 B2]. apply Forall_app in B2. destruct B2 as [_ B2].
    apply Forall_app. split; [exact B1|]. apply Forall_app. split; assumption. }
  assert (Hin : forall c, In c (prologue s :: l1 ++ l2) ->
                          In c (prologue s :: bl)).
  { intros c [<-|Hc]; [left; reflexivity|right].
    apply in_app_or in Hc. apply in_or_app.
    destruct Hc; [left|right; apply in_or_app; right]; assumption. }
  assert (Hne : forall c, In c (prologue s :: bl) -> c <> epilogue s).
  { intros c Hc ->. destruct (rep_body_range s bl fl t Hrep0 _ Hc) as (_ & _ & C3 & _).
    unfold epilogue in C3. cbn in C3. hlia. }
  assert (Hkh : forall c, In c (prologue s :: l1 ++ l2) -> hdr_ok (mem s') c).
  { intros c Hc. unfold hdr_ok.
    rewrite (Hkeep c _ (or_introl Hc) (or_introl eq_refl)).
    apply Rhdr. apply Hin. exact Hc. }
  assert (Hkf : forall c, In c (prologue s :: l1 ++ l2) -> ftr_ok (mem s') c).
  { intros c Hc. unfold ftr_ok.
    rewrite (Hkeep c _ (or_introl Hc)
               (or_intror (conj eq_refl (Hne c (Hin c Hc))))).
    apply Rftr. apply Hin. exact Hc. }
  assert (Hsplit : forall c, In c (prologue s :: l1 ++ mid' ++ l2) ->
                             In c (prologue s :: l1 ++ l2) \/ In c mid').
  { intros c [<-|Hc]; [left; left; reflexivity|].
    apply in_app_or in Hc. destruct Hc as [Hc|Hc].
    - left. right. apply in_or_app. left. exact Hc.
    - apply in_app_or in Hc. destruct Hc as [Hc|Hc]; [right; exact Hc|].
      left. right. apply in_or_app. right. exact Hc. }
  rewrite Forall_forall in Hhdr, Hftr.
  constructor; try assumption.
  - rewrite Elo. exact Rlo.
  - rewrite Ebrk. exact Rbrk.
  - rewrite Elp, Elo. exact Rlistp.
  - rewrite Hpro, Elo, Ebrk.
    change (prologue s :: l1 ++ mid' ++ l2)
      with ((prologue s :: l1) ++ mid' ++ l2).
    apply (linked_replace _ _ mid); [exact Hlink|exact Rlinked].
  - rewrite Hpro. apply Forall_forall. intros c Hc.
    destruct (Hsplit c Hc); auto.
  - rewrite Hpro. apply Forall_forall. intros c Hc.
    destruct (Hsplit c Hc); auto.
  - rewrite Ebrk.
    pose proof (Hkeep (epilogue s) _ (or_intror eq_refl) (or_introl eq_refl))
      as E.
    unfold epilogue in E. cbn [bptr fst] in E. rewrite E.
    exact Repi.
  - rewrite Elo. exact Rterm.
Qed.

(** * Coalescing *)

Ltac rep_fields H :=
  destruct H as
    [Rlo Rbrk Rlistp Rlinked Rblocks Rhdr Rftr Repi Rmem Rnodup Rdll Rhead
       Rterm].

Lemma last_in_cons {A} (d : A) l : In (last l d) (d :: l).
Proof.
  revert d. induction l as [|c k IH]; intros d; [left; reflexivity|].
  rewrite last_cons. right. apply IH.
Qed.

Section Coalesce.

Variable s : state.
Variables l1 l2 : list block.
Variable b : block.
Variable fl : list Z.
Variable t : Z.
Hypothesis Hrep : heap_rep s (l1 ++ b :: l2) fl t.

Let pb : block := last l1 (prologue s).
Let nb : block := hd (epilogue s) l2.

Lemma around_b : In b (prologue s :: l1 ++ b :: l2).
Proof. right. apply in_or_app. right. left. reflexivity. Qed.

Lemma around_prev :
  In pb (prologue s :: l1) /\ bptr pb + bsize pb = bptr b.
Proof.
  split.
  - unfold pb. apply last_in_cons.
  - rep_fields Hrep. exact (linked_last _ _ _ _ _ _ Rlinked).
Qed.

Lemma around_prev_in : In pb (prologue s :: l1 ++ b :: l2).
Proof.
  destruct around_prev as [[H|H] _]; [left; exact H|right].
  apply in_or_app. left. exact H.
Qed.

Lemma around_next :
  In nb ((l1 ++ b :: l2) ++ [epilogue s]) /\ bptr nb = bptr b + bsize b.
Proof.
  split.
  - unfold nb. destruct l2 as [|c k]; cbn [hd].
    + apply in_or_app. right. left. reflexivity.
    + apply in_or_app. left. apply in_or_app. right. right. left. reflexivity.
  - rep_fields Hrep.
    eapply (linked_hd _ l1 b l2 (mem_brk s) (epilogue s)); [reflexivity|].
    exact (bl_linked s _ Rlinked).
Qed.

Lemma around_prev_free : balloc pb = 0 -> exists k, l1 = k ++ [pb].
Proof.
  intros H. unfold pb in *. destruct l1 as [|c k]; [cbn in H; discriminate|].
  destruct (exists_last (l := c :: k)) as (k' & x & E); [discriminate|].
  exists k'. rewrite E, last_last. reflexivity.
Qed.

Lemma around_next_free : balloc nb = 0 -> exists k, l2 = nb :: k.
Proof.
  intros H. unfold nb in *. destruct l2 as [|c k]; [cbn in H; discriminate|].
  exists k. reflexivity.
Qed.

(** The reads at the head of [coalesce]: the allocated bit of the block
    before [b], that of the block after it, and the size of [b]. *)
Lemma coalesce_reads :
  coalesce (bptr b) s =
  (bp' <- coalesce_merge (bptr b) (balloc pb) (balloc nb) (bsize b) ;;
   insert_to_free_list bp' ;;; ret bp') s.
Proof.
  destruct around_prev as [_ Ep]. destruct around_next as [Hn En].
  pose proof (rep_tag_hdr _ _ _ _ Hrep _ around_prev_in) as Tph.
  pose proof (rep_tag_ftr _ _ _ _ Hrep _ around_prev_in) as Tpf.
  pose proof (rep_tag_hdr _ _ _ _ Hrep _ around_b) as Tb.
  pose proof (rep_tag_next _ _ _ _ Hrep _ Hn) as Tn.
  destruct (rep_body_range _ _ _ _ Hrep _ around_prev_in) as (P1 & P2 & P3 & P4 & P5).
  destruct (rep_body_range _ _ _ _ Hrep _ around_b) as (B1 & B2 & B3 & B4 & B5).
  pose proof (rep_brk _ _ _ _ Hrep) as Hbrk.
  pose proof (rep_lo _ _ _ _ Hrep) as Hlo.
  replace (bptr pb + bsize pb - DSIZE) with (bptr b - DSIZE) in Tpf by hlia.
  replace (bptr nb - WSIZE) with (bptr b + bsize b - WSIZE) in Tn by hlia.
  assert (E1 : PREV_BLKP (bptr b) s = Ok (bptr pb, s)).
  { rewrite (PREV_BLKP_at _ _ _ _ Tpf) by hlia. repeat f_equal. hlia. }
  assert (E2 : FTRP (bptr pb) s = Ok (bptr b - DSIZE, s)).
  { rewrite (FTRP_at _ _ _ _ Tph) by hlia. repeat f_equal. hlia. }
  assert (E3 : NEXT_BLKP (bptr b) s = Ok (bptr b + bsize b, s)).
  { apply (NEXT_BLKP_at _ _ _ _ Tb). hlia. }
  unfold coalesce.
  rewrite (bind_eq _ _ _ _ _ E1), (bind_eq _ _ _ _ _ E2).
  rewrite (bind_eq _ _ _ _ _ (GET_ALLOC_at _ _ _ _ Tpf)).
  assert (E4 : (if negb (balloc pb =? 0) then ret 1
                else pb' <- PREV_BLKP (bptr b) ;;
                     ret (if pb' =? bptr b then 1 else 0)) s
               = Ok (balloc pb, s)).
  { destruct P5 as [E|E]; rewrite E; cbn [Z.eqb negb]; [|reflexivity].
    rewrite (bind_eq _ _ _ _ _ E1). unfold ret.
    replace (bptr pb =? bptr b) with false; [reflexivity|].
    symmetry. apply Z.eqb_neq. hlia. }
  rewrite (bind_eq _ _ _ _ _ E4), (bind_eq _ _ _ _ _ E3).
  rewrite HDRP_eq by hlia.
  rewrite (bind_eq _ _ _ _ _ (GET_ALLOC_at _ _ _ _ Tn)).
  rewrite HDRP_eq by hlia.
  rewrite (bind_eq _ _ _ _ _ (GET_SIZE_at _ _ _ _ Tb)).
  reflexivity.
Qed.


Hypothesis Hfree : balloc b = 0.
Hypothesis Hcov : cover (l1 ++ l2) fl.
Hypothesis Hadj : adjacent_free (l1 ++ (bptr b, bsize b, 1) :: l2) = false.

Lemma pending_apart :
  adjacent_free l1 = false /\ adjacent_free l2 = false.
Proof.
  rewrite adjacent_free_app, adjacent_free_cons in Hadj.
  cbn [balloc snd Z.eqb andb orb head_free] in Hadj.
  rewrite andb_false_r, orb_false_r in Hadj.
  apply orb_false_iff in Hadj. exact Hadj.
Qed.

Lemma prev_last_free : last_free l1 = (balloc pb =? 0).
Proof. apply last_free_last. cbn. discriminate. Qed.

Lemma next_head_free : head_free l2 = (balloc nb =? 0).
Proof. apply head_free_hd. cbn. discriminate. Qed.

(** No block of the heap but [b] starts where [b] starts. *)
Lemma b_alone sz a : In (bptr b, sz, a) (l1 ++ l2) -> False.
Proof.
  intros H. rep_fields Hrep.
  pose proof (bl_sized _ Rblocks) as Hs.
  pose proof (bl_linked s _ Rlinked) as Hl.
  destruct (linked_split _ _ _ _ _ Hs Hl) as (_ & _ & H1 & H2 & _).
  rewrite Forall_forall in Hs.
  assert (Hb : sized b) by (apply Hs; apply in_or_app; right; left; reflexivity).
  apply in_app_or in H. destruct H as [H|H].
  - specialize (H1 _ H). 
    assert (sized (bptr b, sz, a)) by (apply Hs; apply in_or_app; left; exact H).
    unfold sized in *. cbn [bptr bsize fst snd] in *. lia.
  - specialize (H2 _ H). unfold sized in *. cbn [bptr bsize fst snd] in *. lia.
Qed.

Lemma b_not_member : ~ In (bptr b) fl.
Proof.
  intros H. apply Hcov in H. destruct H as (sz & H). exact (b_alone _ _ H).
Qed.

(** Neither neighbour is free: nothing to merge. *)
Lemma merge_none :
  balloc pb = 1 -> balloc nb = 1 -> heap_ready s l1 b l2 fl t.
Proof.
  intros Hp Hn. destruct pending_apart as [A1 A2].
  split; [exact Hrep|]. split; [exact Hfree|]. split; [exact Hcov|].
  rewrite adjacent_free_app, adjacent_free_cons, A1, A2.
  rewrite prev_last_free, next_head_free, Hp, Hn. cbn.
  rewrite andb_false_r. reflexivity.
Qed.

End Coalesce.

(** ** The list operations on a heap *)

Lemma frame_refl bl s : frame bl s s.
Proof. unfold frame. repeat split; reflexivity. Qed.

Lemma frame_trans bl s1 s2 s3 :
  frame bl s1 s2 -> frame bl s2 s3 -> frame bl s1 s3.
Proof.
  intros (A1 & A2 & A3 & A4 & A5 & A6) (B1 & B2 & B3 & B4 & B5 & B6).
  unfold frame. repeat split; try congruence.
  intros x Hx. rewrite B6, A6 by exact Hx. reflexivity.
Qed.

(** Payload bytes of allocated blocks may be looked for in fewer blocks. *)
Lemma payload_byte_incl bl bl' x :
  (forall c, In c bl -> balloc c = 1 -> In c bl') ->
  payload_byte bl x -> payload_byte bl' x.
Proof.
  intros Hi (c & Hc & Ha & Hx). exists c.
  split; [apply Hi; assumption|]. split; assumption.
Qed.

Lemma frame_incl bl bl' s s' :
  (forall c, In c bl' -> balloc c = 1 -> In c bl) ->
  frame bl s s' -> frame bl' s s'.
Proof.
  intros Hi (A1 & A2 & A3 & A4 & A5 & A6).
  unfold frame. repeat split; try assumption.
  intros x Hx. apply A6. exact (payload_byte_incl _ _ _ Hi Hx).
Qed.

(** Removing a member of the free list of a heap. *)
Lemma rep_remove s bl f1 q f2 t u s' :
  heap_rep s bl (f1 ++ q :: f2) t ->
  remove_from_free_list q s = Ok (u, s') ->
  heap_rep s' bl (f1 ++ f2) t /\ frame bl s s'.
Proof.
  intros Hrep H. pose proof Hrep as Hrep0. rep_fields Hrep.
  pose proof (rep_free_placed _ _ _ _ Hrep0) as Hpl.
  destruct (remove_spec s t Rlo Rbrk Rterm f1 q f2 u s' Hpl Rnodup Rdll Rhead H)
    as (m1 & -> & D1 & F1).
  split.
  - apply (rep_rebuild s _ [] [] [] bl (f1 ++ q :: f2) (f1 ++ f2) t
             (f1 ++ q :: f2)); try reflexivity; try assumption.
    + exact (rep_members_blocks _ _ _ _ Hrep0).
    + intros x _ Hx. apply F1. exact Hx.
    + intros a e Hl. exact Hl.
    + constructor.
    + constructor.
    + constructor.
    + intros p Hp. apply Rmem. apply in_app_or in Hp. apply in_or_app.
      destruct Hp; [left|right; right]; assumption.
    + apply NoDup_remove_1 in Rnodup. exact Rnodup.
  - unfold frame. cbn [mem mem_lo mem_brk mem_max_addr heap_listp
                         segregated_lists].
    repeat split. intros x Hx. apply F1.
    apply (payload_off_links s bl Rlo Rlinked Rblocks t Rterm _ x Rmem Hx).
Qed.

(** Inserting a free block of a heap that is on no list. *)
Lemma rep_insert s bl fl q sz t u s' :
  heap_rep s bl fl t -> In (q, sz, 0) bl -> ~ In q fl ->
  insert_to_free_list q s = Ok (u, s') ->
  heap_rep s' bl (q :: fl) t /\ frame bl s s'.
Proof.
  intros Hrep Hq Hnq H. pose proof Hrep as Hrep0. rep_fields Hrep.
  assert (HL : forall p, In p (q :: fl) -> exists z, In (p, z, 0) bl).
  { intros p [<-|Hp]; [exists sz; exact Hq|apply Rmem; exact Hp]. }
  assert (HL' : forall p, In p (q :: fl) -> exists z a, In (p, z, a) bl).
  { intros p Hp. destruct (HL p Hp) as (z & Hz). exists z, 0. exact Hz. }
  assert (Hpl : placed s (q :: fl)) by exact (rep_placed _ _ _ _ Hrep0 _ HL').
  assert (Hnd : NoDup (q :: fl)) by (constructor; assumption).
  destruct (insert_spec s t Rlo Rbrk Rterm fl q u s' Hpl Hnd Rdll Rhead H)
    as (m1 & -> & D1 & F1).
  split.
  - apply (rep_rebuild s _ [] [] [] bl fl (q :: fl) t (q :: fl));
      try reflexivity; try assumption.
    + intros x _ Hx. apply F1. exact Hx.
    + intros a e Hl. exact Hl.
    + constructor.
    + constructor.
    + constructor.
  - unfold frame. cbn [mem mem_lo mem_brk mem_max_addr heap_listp
                         segregated_lists].
    repeat split. intros x Hx. apply F1.
    apply (payload_off_links s bl Rlo Rlinked Rblocks t Rterm _ x HL Hx).
Qed.

(** With the padding word as the end of the list the two operations
    return. *)
Lemma rep_remove_runs s bl f1 q f2 t :
  heap_rep s bl (f1 ++ q :: f2) t -> t = mem_lo s ->
  exists s', remove_from_free_list q s = Ok (tt, s') /\
             heap_rep s' bl (f1 ++ f2) t /\ frame bl s s'.
Proof.
  intros Hrep Ht. pose proof Hrep as Hrep0. rep_fields Hrep.
  pose proof (rep_free_placed _ _ _ _ Hrep0) as Hpl.
  rewrite Ht in Rdll.
  destruct (remove_runs s Rlo Rbrk f1 q f2 Hpl Rnodup Rdll) as (s' & H).
  exists s'. split; [exact H|]. exact (rep_remove _ _ _ _ _ _ _ _ Hrep0 H).
Qed.

Lemma rep_insert_runs s bl fl q sz t :
  heap_rep s bl fl t -> t = mem_lo s -> In (q, sz, 0) bl -> ~ In q fl ->
  exists s', insert_to_free_list q s = Ok (tt, s') /\
             heap_rep s' bl (q :: fl) t /\ frame bl s s'.
Proof.
  intros Hrep Ht Hq Hnq. pose proof Hrep as Hrep0. rep_fields Hrep.
  assert (HL' : forall p, In p (q :: fl) -> exists z a, In (p, z, a) bl).
  { intros p [<-|Hp]; [exists sz, 0; exact Hq|].
    destruct (Rmem p Hp) as (z & Hz). exists z, 0. exact Hz. }
  assert (Hpl : placed s (q :: fl)) by exact (rep_placed _ _ _ _ Hrep0 _ HL').
  rewrite Ht in Rhead.
  destruct (insert_runs s Rlo Rbrk fl q Hpl Rhead) as (s' & H).
  exists s'. split; [exact H|].
  exact (rep_insert _ _ _ _ _ _ _ _ Hrep0 Hq Hnq H).
Qed.

(** New boundary tags for a run [mid] of blocks none of which is on the
    free list. *)
Lemma rep_retag s s' l1 mid mid' l2 fl t :
  heap_rep s (l1 ++ mid ++ l2) fl t ->
  mem_lo s' = mem_lo s -> mem_brk s' = mem_brk s ->
  heap_listp s' = heap_listp s -> free_listp s' = free_listp s ->
  (forall x,
     (forall c, In c mid ->
        x < bptr c - WSIZE \/ bptr c + bsize c - WSIZE <= x) ->
     mem s' x = mem s x) ->
  (forall q c, In q fl -> In c mid -> q <> bptr c) ->
  (forall a e, linked a mid e -> linked a mid' e) ->
  Forall block_ok mid' ->
  Forall (hdr_ok (mem s')) mid' -> Forall (ftr_ok (mem s')) mid' ->
  heap_rep s' (l1 ++ mid' ++ l2) fl t.
Proof.
  intros Hrep Elo Ebrk Elp Efl Hmem Hout Hlink Hok Hhdr Hftr.
  pose proof Hrep as Hrep0. rep_fields Hrep.
  set (bl := l1 ++ mid ++ l2) in *.
  assert (Hside : forall q, In q fl -> exists sz, In (q, sz, 0) (l1 ++ l2)).
  { intros q Hq. destruct (Rmem q Hq) as (sz & Hz). exists sz.
    apply in_app_or in Hz. apply in_or_app. destruct Hz as [Hz|Hz]; [left; exact Hz|].
    apply in_app_or in Hz. destruct Hz as [Hz|Hz]; [|right; exact Hz].
    exfalso. exact (Hout q _ Hq Hz eq_refl). }
  apply (rep_rebuild s s' l1 mid mid' l2 fl fl t []);
    try assumption.
  - intros q [].
  - intros x Hx _. apply Hmem. exact Hx.
  - intros q Hq. destruct (Hside q Hq) as (sz & Hz). exists sz.
    apply in_app_or in Hz. apply in_or_app.
    destruct Hz; [left|right; apply in_or_app; right]; assumption.
  - apply (dll_frame (mem s)); [|exact Rdll].
    intros q Hq. destruct (Hside q Hq) as (sz & Hz).
    assert (Hqb : In (q, sz, 0) bl).
    { apply in_app_or in Hz. apply in_or_app.
      destruct Hz; [left|right; apply in_or_app; right]; assumption. }
    destruct (block_range s bl Rlinked Rblocks _ Hqb) as (Q1 & Q2 & Q3 & _).
    cbn [bptr bsize fst snd] in *.
    pose proof (bl_sized _ Rblocks) as Hs.
    pose proof (bl_linked s _ Rlinked) as Hl.
    assert (Hfar : forall c, In c mid ->
              q + DSIZE <= bptr c - WSIZE \/ bptr c + bsize c - WSIZE <= q).
    { intros c Hc. apply in_app_or in Hz. destruct Hz as [Hz|Hz].
      - left.
        pose proof (linked_order _ l1 (mid ++ l2) _ _ c Hs Hl Hz
                      ltac:(apply in_or_app; left; exact Hc)) as O.
        cbn [bptr bsize fst snd] in O. hlia.
      - right. unfold bl in Hs, Hl. rewrite app_assoc in Hs, Hl.
        pose proof (linked_order _ (l1 ++ mid) l2 _ c _ Hs Hl
                      ltac:(apply in_or_app; right; exact Hc) Hz) as O.
        cbn [bptr bsize fst snd] in O. hlia. }
    split; apply load_ext; intros i Hi; apply Hmem; intros c Hc;
      destruct (Hfar c Hc); hlia.
  - rewrite Efl. exact Rhead.
Qed.

(** ** The three merges of [coalesce] *)

(** A store at a boundary tag leaves the payloads alone. *)
Lemma frame_store s bl c w v :
  linked (mem_lo s + DSIZE) (prologue s :: bl) (mem_brk s) ->
  Forall block_ok bl ->
  In c (prologue s :: bl) ->
  w = bptr c - WSIZE \/ w = bptr c + bsize c - DSIZE ->
  frame bl s (set_mem s (store (mem s) w v)).
Proof.
  intros Hl Hb Hc Hw. unfold frame.
  cbn [mem mem_lo mem_brk mem_max_addr heap_listp segregated_lists set_mem].
  repeat split. intros x (c' & Hc' & Ha & Hx). apply store_out.
  destruct (block_range s bl Hl Hb c' Hc') as (C1 & C2 & C3 & _).
  destruct Hc as [<-|Hc].
  - unfold prologue in Hw. cbn [bptr bsize fst snd] in Hw.
    destruct Hw as [-> | ->]; hlia.
  - destruct (block_range s bl Hl Hb c Hc) as (D1 & D2 & D3 & _).
    destruct (blocks_apart s bl Hl Hb c c' Hc Hc') as [->|[?|?]];
      destruct Hw as [-> | ->]; hlia.
Qed.
Lemma mod16_add a b : a mod 16 = 0 -> b mod 16 = 0 -> (a + b) mod 16 = 0.
Proof.
  intros Ha Hb. rewrite Z.add_mod, Ha, Hb by lia. reflexivity.
Qed.

Ltac fwd H E := rewrite (bind_eq _ _ _ _ _ E) in H.

(** The block after [b] is free and the block before it is not. *)
Lemma merge_next s l1 b nb k2 fl t :
  heap_rep s (l1 ++ b :: nb :: k2) fl t -> t = mem_lo s ->
  balloc b = 0 -> balloc nb = 0 ->
  cover (l1 ++ nb :: k2) fl ->
  adjacent_free (l1 ++ (bptr b, bsize b, 1) :: nb :: k2) = false ->
  balloc (last l1 (prologue s)) = 1 ->
  returns (coalesce_merge (bptr b) 1 0 (bsize b)) s (fun r s' =>
    exists fl',
      r = bptr b /\
      heap_ready s' l1 (bptr b, bsize b + bsize nb, 0) k2 fl' t /\
      frame (l1 ++ nb :: k2) s s').
Proof.
  intros Hrep Ht Hb Hn Hcov Hadj Hp. apply returns_intro. intros X H.
  pose proof Hrep as Hrep0. rep_fields Hrep.
  set (bl := l1 ++ b :: nb :: k2) in *.
  assert (Ib : In b (prologue s :: bl))
    by (right; apply in_or_app; right; left; reflexivity).
  assert (In_ : In nb (prologue s :: bl))
    by (right; apply in_or_app; right; right; left; reflexivity).
  destruct (around_next s l1 (nb :: k2) b fl t Hrep0) as [_ En]. cbn [hd] in En.
  pose proof (rep_tag_hdr _ _ _ _ Hrep0 _ Ib) as Tb.
  pose proof (rep_tag_hdr _ _ _ _ Hrep0 _ In_) as Tn.
  pose proof (rep_tag_ftr _ _ _ _ Hrep0 _ In_) as Tnf.
  destruct (rep_body_range _ _ _ _ Hrep0 _ Ib) as (B1 & B2 & B3 & B4 & B5).
  destruct (rep_body_range _ _ _ _ Hrep0 _ In_) as (N1 & N2 & N3 & N4 & N5).
  assert (B6 : 2 * DSIZE <= bsize b).
  { rewrite Forall_forall in Rblocks.
    destruct (Rblocks b) as (? & _); [|hlia].
    apply in_or_app; right; left; reflexivity. }
  assert (N6 : 2 * DSIZE <= bsize nb).
  { rewrite Forall_forall in Rblocks.
    destruct (Rblocks nb) as (? & _); [|hlia].
    apply in_or_app; right; right; left; reflexivity. }
  (* the free list holds [nb] *)
  assert (Hnf : In (bptr nb) fl).
  { apply Hcov. exists (bsize nb). apply in_or_app. right. left.
    destruct nb as [[q z] a]. cbn in *. subst. reflexivity. }
  destruct (in_split _ _ Hnf) as (f1 & f2 & Efl).
  pose proof (rep_free_placed _ _ _ _ Hrep0) as Hpl.
  (* the reads *)
  unfold coalesce_merge in H. cbn [Z.eqb negb andb] in H. cbv zeta in H.
  assert (E1 : NEXT_BLKP (bptr b) s = Ok (bptr nb, s)).
  { rewrite (NEXT_BLKP_at _ _ _ _ Tb) by hlia. rewrite En. reflexivity. }
  fwd H E1. rewrite HDRP_eq in H by hlia.
  fwd H (GET_SIZE_at _ _ _ _ Tn). fwd H E1.
  rewrite Efl in Hpl, Rnodup, Rdll, Rhead.
  assert (Hrm : exists s1, remove_from_free_list (bptr nb) s = Ok (tt, s1)).
  { apply (remove_runs s Rlo Rbrk f1 (bptr nb) f2 Hpl Rnodup).
    rewrite <- Ht. exact Rdll. }
  destruct Hrm as (s1 & Hrm). pose proof Hrm as Hrm'. fwd H Hrm'. clear Hrm'.
  destruct (remove_spec s t Rlo Rbrk Rterm f1 (bptr nb) f2 tt s1 Hpl Rnodup Rdll
              Rhead Hrm) as (m1 & Es1 & D1 & F1).
  subst s1. clear Hrm.
  set (s1 := mkState m1 (mem_lo s) (mem_brk s) (mem_max_addr s) (heap_listp s)
               (segregated_lists s) (hd t (f1 ++ f2))) in *.
  assert (L1 : mem_lo s1 = mem_lo s) by reflexivity.
  assert (K1 : mem_brk s1 = mem_brk s) by reflexivity.
  assert (HL : forall q, In q fl -> exists sz a, In (q, sz, a) bl)
    by exact (rep_members_blocks _ _ _ _ Hrep0).
  assert (Tkeep : forall w sz a,
             tag_at s w sz a -> off_links fl t w -> tag_at s1 w sz a).
  { intros w sz a T O. apply (tag_at_same s); try reflexivity; [exact T|].
    cbn [mem s1]. apply (load_off_links fl t); [|exact O].
    rewrite Efl. exact F1. }
  destruct (rep_tag_off _ _ _ _ Hrep0 fl b HL Ib) as [Ob _].
  destruct (rep_tag_off _ _ _ _ Hrep0 fl nb HL In_) as [_ Onf].
  remember (bsize b + bsize nb) as sz eqn:Esz.
  assert (Hsz : sz mod 16 = 0) by (subst sz; apply mod16_add; assumption).
  rewrite HDRP_eq in H by hlia.
  rewrite (wrap_small sz) in H by hlia.
  destruct (PUT_tag s1 (bptr b - WSIZE) sz 0) as [E2 T2]; try hlia.
  fwd H E2.
  set (s2 := set_mem s1 (store (mem s1) (bptr b - WSIZE) (sz + 0))) in *.
  assert (L2 : mem_lo s2 = mem_lo s) by reflexivity.
  assert (K2 : mem_brk s2 = mem_brk s) by reflexivity.
  assert (E3 : FTRP (bptr b) s2 = Ok (bptr nb + bsize nb - DSIZE, s2)).
  { rewrite (FTRP_at _ _ _ _ T2) by hlia. do 2 f_equal. hlia. }
  fwd H E3.
  destruct (PUT_tag s2 (bptr nb + bsize nb - DSIZE) sz 0) as [E4 T4]; try hlia.
  fwd H E4.
  set (s3 := set_mem s2 (store (mem s2) (bptr nb + bsize nb - DSIZE) (sz + 0)))
    in *.
  assert (T2' : tag_at s3 (bptr b - WSIZE) sz 0).
  { apply tag_at_store; [exact T2|hlia]. }
  subst X. exists (bptr b), s3. split; [reflexivity|]. clear E2 E3 E4.
  assert (Hinc : incl (f1 ++ f2) fl).
  { rewrite Efl. intros q Hq. apply in_app_or in Hq. apply in_or_app.
    destruct Hq; [left|right; right]; assumption. }
  assert (Hcov' : cover (l1 ++ k2) (f1 ++ f2)).
  { rewrite Efl in Hcov. apply (cover_remove l1 nb k2 f1 f2); try assumption.
    intros z a Hz.
    assert (Hrep' : heap_rep s ((l1 ++ [b]) ++ nb :: k2) fl t).
    { rewrite <- app_assoc. exact Hrep0. }
    apply (b_alone s (l1 ++ [b]) k2 nb fl t Hrep' z a).
    apply in_app_or in Hz. apply in_or_app. destruct Hz as [Hz|Hz]; [left|right; exact Hz].
    apply in_or_app. left. exact Hz. }
  assert (Hm3 : mem s3 = store (store m1 (bptr b - WSIZE) (sz + 0))
                          (bptr nb + bsize nb - DSIZE) (sz + 0)) by reflexivity.
  exists (f1 ++ f2). split; [reflexivity|]. split.
  - assert (Hrep3 : heap_rep s3 (l1 ++ [(bptr b, sz, 0)] ++ k2) (f1 ++ f2) t).
    { apply (rep_rebuild s s3 l1 [b; nb] _ k2 fl (f1 ++ f2) t fl);
        try reflexivity; try assumption.
      - intros x Hout Hnl. rewrite Hm3.
        pose proof (Hout b (or_introl eq_refl)).
        pose proof (Hout nb (or_intror (or_introl eq_refl))).
        rewrite !store_out by hlia. apply F1. rewrite <- Efl. exact Hnl.
      - intros a e. cbn [linked bptr bsize fst snd]. intros (A1 & A2 & A3).
        split; [exact A1|hlia].
      - constructor; [|constructor]. unfold block_ok.
        cbn [bsize balloc fst snd]. repeat split; hlia.
      - constructor; [|constructor]. unfold hdr_ok. cbn [bptr bsize balloc fst snd].
        destruct T2' as (_ & _ & _ & _ & E & _). exact E.
      - constructor; [|constructor]. unfold ftr_ok. cbn [bptr bsize balloc fst snd].
        destruct T4 as (_ & _ & _ & _ & E & _).
        replace (bptr b + sz - DSIZE) with (bptr nb + bsize nb - DSIZE) by hlia.
        exact E.
      - intros q Hq. apply Hcov' in Hq. destruct Hq as (z & Hz). exists z.
        apply in_app_or in Hz. apply in_or_app.
        destruct Hz; [left|right; right]; assumption.
      - apply NoDup_remove_1 in Rnodup. exact Rnodup.
      - rewrite Hm3. apply (dll_store_off (f1 ++ f2) t).
        { apply (off_links_incl fl); assumption. }
        apply (dll_store_off (f1 ++ f2) t); [|exact D1].
        apply (off_links_incl fl); assumption. }
    split; [exact Hrep3|]. split; [reflexivity|]. split; [exact Hcov'|].
    rewrite adjacent_free_app, !adjacent_free_cons in Hadj.
    rewrite adjacent_free_app, adjacent_free_cons.
    cbn [balloc snd Z.eqb andb orb head_free] in *.
    rewrite (last_free_last (prologue s)) by (cbn; discriminate).
    unfold balloc in *. rewrite Hp.
    rewrite Hn in Hadj. cbn [Z.eqb andb orb] in *.
    destruct (adjacent_free l1), (head_free k2), (adjacent_free k2),
      (last_free l1); cbn in *; congruence.
  - unfold frame. repeat split; try reflexivity.
    intros x Hx. rewrite Hm3.
    assert (Hxb : payload_byte bl x).
    { destruct Hx as (c & Hc & Hx). exists c. split; [|exact Hx].
      apply in_app_or in Hc. apply in_or_app.
      destruct Hc; [left|right; right]; assumption. }
    destruct Hx as (c & Hc & Ha & Hx).
    assert (Hcb : In c bl).
    { apply in_app_or in Hc. apply in_or_app.
      destruct Hc; [left|right; right]; assumption. }
    destruct (block_range s bl Rlinked Rblocks c Hcb) as (C1 & C2 & C3 & _).
    assert (Hbb : In b bl) by (apply in_or_app; right; left; reflexivity).
    assert (Hnb : In nb bl) by (apply in_or_app; right; right; left; reflexivity).
    rewrite !store_out.
    + apply F1. rewrite <- Efl.
      apply (payload_off_links s bl Rlo Rlinked Rblocks t Rterm fl x Rmem Hxb).
    + destruct (blocks_apart s bl Rlinked Rblocks c b Hcb Hbb) as [->|[?|?]];
        [rewrite Hb in Ha; discriminate|hlia|hlia].
    + destruct (blocks_apart s bl Rlinked Rblocks c nb Hcb Hnb) as [->|[?|?]];
        [rewrite Hn in Ha; discriminate|hlia|hlia].
Qed.

(** The block before [b] is free and the block after it is not. *)
Lemma merge_prev s k1 pb b l2 fl t :
  heap_rep s (k1 ++ pb :: b :: l2) fl t -> t = mem_lo s ->
  balloc b = 0 -> balloc pb = 0 ->
  cover (k1 ++ pb :: l2) fl ->
  adjacent_free (k1 ++ pb :: (bptr b, bsize b, 1) :: l2) = false ->
  balloc (hd (epilogue s) l2) = 1 ->
  returns (coalesce_merge (bptr b) 0 1 (bsize b)) s (fun r s' =>
    exists fl',
      r = bptr pb /\
      heap_ready s' k1 (bptr pb, bsize b + bsize pb, 0) l2 fl' t /\
      frame (k1 ++ pb :: l2) s s').
Proof.
  intros Hrep Ht Hb Hp Hcov Hadj Hn. apply returns_intro. intros X H.
  pose proof Hrep as Hrep0. rep_fields Hrep.
  set (bl := k1 ++ pb :: b :: l2) in *.
  assert (Ib : In b (prologue s :: bl))
    by (right; apply in_or_app; right; right; left; reflexivity).
  assert (Ip : In pb (prologue s :: bl))
    by (right; apply in_or_app; right; left; reflexivity).
  assert (Hrepb : heap_rep s ((k1 ++ [pb]) ++ b :: l2) fl t)
    by (rewrite <- app_assoc; exact Hrep0).
  destruct (around_prev s (k1 ++ [pb]) l2 b fl t Hrepb) as [_ Ep].
  rewrite last_last in Ep.
  destruct (rep_body_range _ _ _ _ Hrep0 _ Ib) as (B1 & B2 & B3 & B4 & B5).
  destruct (rep_body_range _ _ _ _ Hrep0 _ Ip) as (P1 & P2 & P3 & P4 & P5).
  assert (B6 : 2 * DSIZE <= bsize b).
  { rewrite Forall_forall in Rblocks.
    destruct (Rblocks b) as (? & _); [|hlia].
    apply in_or_app; right; right; left; reflexivity. }
  assert (P6 : 2 * DSIZE <= bsize pb).
  { rewrite Forall_forall in Rblocks.
    destruct (Rblocks pb) as (? & _); [|hlia].
    apply in_or_app; right; left; reflexivity. }
  assert (Hpf : In (bptr pb) fl).
  { apply Hcov. exists (bsize pb). apply in_or_app. right. left.
    destruct pb as [[q z] a]. cbn in *. subst. reflexivity. }
  destruct (in_split _ _ Hpf) as (f1 & f2 & Efl).
  pose proof (rep_tag_ftr _ _ _ _ Hrep0 _ Ip) as Tpf.
  pose proof (rep_tag_hdr _ _ _ _ Hrep0 _ Ip) as Tph.
  replace (bptr pb + bsize pb - DSIZE) with (bptr b - DSIZE) in Tpf by hlia.
  (* the reads *)
  unfold coalesce_merge in H. cbn [Z.eqb negb andb] in H. cbv zeta in H.
  assert (E1 : PREV_BLKP (bptr b) s = Ok (bptr pb, s)).
  { rewrite (PREV_BLKP_at _ _ _ _ Tpf) by hlia. do 2 f_equal. hlia. }
  fwd H E1. rewrite HDRP_eq in H by hlia.
  fwd H (GET_SIZE_at _ _ _ _ Tph). fwd H E1.
  pose proof Hrep0 as Hrepf. rewrite Efl in Hrepf.
  destruct (rep_remove_runs s bl f1 (bptr pb) f2 t Hrepf Ht)
    as (s1 & Hrm & Hrep1 & F1).
  fwd H Hrm.
  destruct F1 as (L1 & K1 & M1 & LP1 & SL1 & F1).
  assert (Ib1 : In b (prologue s1 :: bl)).
  { unfold prologue. rewrite L1. exact Ib. }
  assert (Ip1 : In pb (prologue s1 :: bl)).
  { unfold prologue. rewrite L1. exact Ip. }
  pose proof (rep_tag_hdr _ _ _ _ Hrep1 _ Ib1) as Tb1.
  pose proof (rep_tag_ftr _ _ _ _ Hrep1 _ Ip1) as Tpf1.
  replace (bptr pb + bsize pb - DSIZE) with (bptr b - DSIZE) in Tpf1 by hlia.
  remember (bsize b + bsize pb) as sz eqn:Esz.
  assert (Hsz : sz mod 16 = 0) by (subst sz; apply mod16_add; assumption).
  rewrite (wrap_small sz) in H by hlia.
  fwd H (FTRP_at _ _ _ _ Tb1 ltac:(hlia) ltac:(hlia)).
  destruct (PUT_tag s1 (bptr b + bsize b - DSIZE) sz 0) as [E2 T2]; try hlia.
  fwd H E2.
  set (s2 := set_mem s1 (store (mem s1) (bptr b + bsize b - DSIZE) (sz + 0)))
    in *.
  assert (L2 : mem_lo s2 = mem_lo s) by exact L1.
  assert (K2 : mem_brk s2 = mem_brk s) by exact K1.
  assert (Tpf2 : tag_at s2 (bptr b - DSIZE) (bsize pb) (balloc pb)).
  { apply tag_at_store; [exact Tpf1|hlia]. }
  assert (E3 : PREV_BLKP (bptr b) s2 = Ok (bptr pb, s2)).
  { rewrite (PREV_BLKP_at _ _ _ _ Tpf2) by hlia. do 2 f_equal. hlia. }
  fwd H E3. rewrite HDRP_eq in H by hlia.
  destruct (PUT_tag s2 (bptr pb - WSIZE) sz 0) as [E4 T4]; try hlia.
  fwd H E4.
  set (s3 := set_mem s2 (store (mem s2) (bptr pb - WSIZE) (sz + 0))) in *.
  assert (L3 : mem_lo s3 = mem_lo s) by exact L1.
  assert (K3 : mem_brk s3 = mem_brk s) by exact K1.
  assert (Tpf3 : tag_at s3 (bptr b - DSIZE) (bsize pb) (balloc pb)).
  { apply tag_at_store; [exact Tpf2|hlia]. }
  assert (T2' : tag_at s3 (bptr b + bsize b - DSIZE) sz 0).
  { apply tag_at_store; [exact T2|hlia]. }
  assert (E5 : PREV_BLKP (bptr b) s3 = Ok (bptr pb, s3)).
  { rewrite (PREV_BLKP_at _ _ _ _ Tpf3) by hlia. do 2 f_equal. hlia. }
  rewrite E5 in H. subst X. exists (bptr pb), s3. split; [reflexivity|].
  clear E2 E3 E4 E5.
  assert (Hm3 : mem s3 = store (store (mem s1) (bptr b + bsize b - DSIZE) (sz + 0))
                          (bptr pb - WSIZE) (sz + 0)) by reflexivity.
  assert (Hnd : NoDup (f1 ++ bptr pb :: f2)) by (rewrite <- Efl; exact Rnodup).
  assert (Hpu : forall z a, In (bptr pb, z, a) (k1 ++ l2) -> False).
  { intros z a Hz. apply (b_alone s k1 (b :: l2) pb fl t Hrep0 z a).
    apply in_app_or in Hz. apply in_or_app.
    destruct Hz; [left|right; right]; assumption. }
  assert (Hbu : forall z a, In (bptr b, z, a) (k1 ++ pb :: l2) -> False).
  { intros z a Hz. apply (b_alone s (k1 ++ [pb]) l2 b fl t Hrepb z a).
    rewrite <- app_assoc. exact Hz. }
  assert (Hcov' : cover (k1 ++ l2) (f1 ++ f2)).
  { rewrite Efl in Hcov. apply (cover_remove k1 pb l2 f1 f2); assumption. }
  exists (f1 ++ f2). split; [reflexivity|]. split.
  - assert (Hrep3 : heap_rep s3 (k1 ++ [(bptr pb, sz, 0)] ++ l2) (f1 ++ f2) t).
    { apply (rep_retag s1 s3 k1 [pb; b] _ l2 (f1 ++ f2) t);
        try reflexivity; try assumption.
      - intros x Hout. rewrite Hm3.
        pose proof (Hout pb (or_introl eq_refl)).
        pose proof (Hout b (or_intror (or_introl eq_refl))).
        rewrite !store_out by hlia. reflexivity.
      - intros q c Hq [<-|[<-|[]]] ->.
        + apply NoDup_remove_2 in Hnd. exact (Hnd Hq).
        + apply Hcov' in Hq. destruct Hq as (z & Hz).
          apply (Hbu z 0). apply in_app_or in Hz. apply in_or_app.
          destruct Hz; [left|right; right]; assumption.
      - intros a e. cbn [linked bptr bsize fst snd]. intros (A1 & A2 & A3).
        split; [exact A1|hlia].
      - constructor; [|constructor]. unfold block_ok.
        cbn [bsize balloc fst snd]. repeat split; hlia.
      - constructor; [|constructor]. unfold hdr_ok. cbn [bptr bsize balloc fst snd].
        destruct T4 as (_ & _ & _ & _ & E & _). exact E.
      - constructor; [|constructor]. unfold ftr_ok. cbn [bptr bsize balloc fst snd].
        destruct T2' as (_ & _ & _ & _ & E & _).
        replace (bptr pb + sz - DSIZE) with (bptr b + bsize b - DSIZE) by hlia.
        exact E. }
    split; [exact Hrep3|]. split; [reflexivity|]. split; [exact Hcov'|].
    rewrite adjacent_free_app, !adjacent_free_cons in Hadj.
    rewrite adjacent_free_app, adjacent_free_cons.
    cbn [balloc snd Z.eqb andb orb head_free] in *.
    rewrite (next_head_free s l2) in *.
    unfold balloc in *. rewrite Hn. rewrite Hp in Hadj.
    cbn [Z.eqb andb orb] in *.
    destruct (adjacent_free k1), (adjacent_free l2),
      (last_free k1); cbn in *; congruence.
  - apply (frame_trans _ s s1).
    { apply (frame_incl bl); [|repeat split; assumption].
      intros c Hc _. apply in_app_or in Hc. apply in_or_app.
      destruct Hc as [Hc|[Hc|Hc]]; [left|right; left|right; right; right];
        assumption. }
    apply (frame_incl bl).
    { intros c Hc _. apply in_app_or in Hc. apply in_or_app.
      destruct Hc as [Hc|[Hc|Hc]]; [left|right; left|right; right; right];
        assumption. }
    apply (frame_trans _ s1 s2).
    + apply (frame_store s1 bl b); [unfold prologue; rewrite L1, K1; exact Rlinked|exact Rblocks
                                    |exact Ib1|right; reflexivity].
    + apply (frame_store s2 bl pb); [unfold prologue; rewrite L2, K2; exact Rlinked|exact Rblocks
                                    |unfold prologue; rewrite L2; exact Ip
                                    |left; reflexivity].
Qed.

(** Both neighbours of [b] are free. *)
Lemma merge_both s k1 pb b nb k2 fl t :
  heap_rep s (k1 ++ pb :: b :: nb :: k2) fl t -> t = mem_lo s ->
  balloc b = 0 -> balloc pb = 0 -> balloc nb = 0 ->
  cover (k1 ++ pb :: nb :: k2) fl ->
  adjacent_free (k1 ++ pb :: (bptr b, bsize b, 1) :: nb :: k2) = false ->
  returns (coalesce_merge (bptr b) 0 0 (bsize b)) s (fun r s' =>
    exists fl',
      r = bptr pb /\
      heap_ready s' k1 (bptr pb, bsize b + (bsize pb + bsize nb), 0) k2 fl' t /\
      frame (k1 ++ pb :: nb :: k2) s s').
Proof.
  intros Hrep Ht Hb Hp Hn Hcov Hadj. apply returns_intro. intros X H.
  pose proof Hrep as Hrep0. rep_fields Hrep.
  set (bl := k1 ++ pb :: b :: nb :: k2) in *.
  assert (Ip : In pb (prologue s :: bl))
    by (right; apply in_or_app; right; left; reflexivity).
  assert (Ib : In b (prologue s :: bl))
    by (right; apply in_or_app; right; right; left; reflexivity).
  assert (In_ : In nb (prologue s :: bl))
    by (right; apply in_or_app; right; right; right; left; reflexivity).
  assert (Hrepb : heap_rep s ((k1 ++ [pb]) ++ b :: nb :: k2) fl t)
    by (rewrite <- app_assoc; exact Hrep0).
  assert (Hrepn : heap_rep s ((k1 ++ [pb; b]) ++ nb :: k2) fl t)
    by (rewrite <- app_assoc; exact Hrep0).
  destruct (around_prev s (k1 ++ [pb]) (nb :: k2) b fl t Hrepb) as [_ Ep].
  rewrite last_last in Ep.
  destruct (around_next s (k1 ++ [pb]) (nb :: k2) b fl t Hrepb) as [_ En].
  cbn [hd] in En.
  destruct (rep_body_range _ _ _ _ Hrep0 _ Ib) as (B1 & B2 & B3 & B4 & B5).
  destruct (rep_body_range _ _ _ _ Hrep0 _ Ip) as (P1 & P2 & P3 & P4 & P5).
  destruct (rep_body_range _ _ _ _ Hrep0 _ In_) as (N1 & N2 & N3 & N4 & N5).
  assert (B6 : 2 * DSIZE <= bsize b /\ 2 * DSIZE <= bsize pb /\
               2 * DSIZE <= bsize nb).
  { rewrite Forall_forall in Rblocks.
    destruct (Rblocks b) as (? & _);
      [apply in_or_app; right; right; left; reflexivity|].
    destruct (Rblocks pb) as (? & _);
      [apply in_or_app; right; left; reflexivity|].
    destruct (Rblocks nb) as (? & _);
      [apply in_or_app; right; right; right; left; reflexivity|].
    hlia. }
  assert (Hpf : In (bptr pb) fl).
  { apply Hcov. exists (bsize pb). apply in_or_app. right. left.
    destruct pb as [[q z] a]. cbn in *. subst. reflexivity. }
  assert (Hnf : In (bptr nb) fl).
  { apply Hcov. exists (bsize nb). apply in_or_app. right. right. left.
    destruct nb as [[q z] a]. cbn in *. subst. reflexivity. }
  destruct (in_split _ _ Hpf) as (f1 & f2 & Efl).
  assert (Hnf' : In (bptr nb) (f1 ++ f2)).
  { rewrite Efl in Hnf. apply in_app_or in Hnf. apply in_or_app.
    destruct Hnf as [?|[E|?]]; [left; assumption| |right; assumption].
    exfalso. hlia. }
  destruct (in_split _ _ Hnf') as (g1 & g2 & Egl).
  pose proof (rep_tag_ftr _ _ _ _ Hrep0 _ Ip) as Tpf.
  pose proof (rep_tag_hdr _ _ _ _ Hrep0 _ Ip) as Tph.
  pose proof (rep_tag_hdr _ _ _ _ Hrep0 _ Ib) as Tb.
  pose proof (rep_tag_hdr _ _ _ _ Hrep0 _ In_) as Tn.
  replace (bptr pb + bsize pb - DSIZE) with (bptr b - DSIZE) in Tpf by hlia.
  (* the reads *)
  unfold coalesce_merge in H. cbn [Z.eqb negb andb] in H. cbv zeta in H.
  assert (E1 : PREV_BLKP (bptr b) s = Ok (bptr pb, s)).
  { rewrite (PREV_BLKP_at _ _ _ _ Tpf) by hlia. do 2 f_equal. hlia. }
  assert (E1' : NEXT_BLKP (bptr b) s = Ok (bptr nb, s)).
  { rewrite (NEXT_BLKP_at _ _ _ _ Tb) by hlia. rewrite En. reflexivity. }
  fwd H E1. rewrite HDRP_eq in H by hlia.
  fwd H (GET_SIZE_at _ _ _ _ Tph). fwd H E1'.
  rewrite HDRP_eq in H by hlia.
  fwd H (GET_SIZE_at _ _ _ _ Tn). fwd H E1.
  pose proof Hrep0 as Hrepf. rewrite Efl in Hrepf.
  destruct (rep_remove_runs s bl f1 (bptr pb) f2 t Hrepf Ht)
    as (s1 & Hrm & Hrep1 & F1).
  fwd H Hrm.
  pose proof F1 as (L1 & K1 & M1 & LP1 & SL1 & _).
  assert (Ib1 : In b (prologue s1 :: bl)).
  { unfold prologue. rewrite L1. exact Ib. }
  pose proof (rep_tag_hdr _ _ _ _ Hrep1 _ Ib1) as Tb1.
  assert (E2 : NEXT_BLKP (bptr b) s1 = Ok (bptr nb, s1)).
  { rewrite (NEXT_BLKP_at _ _ _ _ Tb1) by hlia. rewrite En. reflexivity. }
  fwd H E2.
  pose proof Hrep1 as Hrepg. rewrite Egl in Hrepg.
  destruct (rep_remove_runs s1 bl g1 (bptr nb) g2 t Hrepg
              ltac:(rewrite L1; exact Ht)) as (s2 & Hrm2 & Hrep2 & F2).
  fwd H Hrm2.
  pose proof F2 as (L2 & K2 & M2 & LP2 & SL2 & _).
  rewrite L1 in L2. rewrite K1 in K2.
  assert (I2 : forall c, In c (prologue s :: bl) -> In c (prologue s2 :: bl)).
  { unfold prologue. rewrite L2. intros c Hc. exact Hc. }
  pose proof (rep_tag_hdr _ _ _ _ Hrep2 _ (I2 _ Ib)) as Tb2.
  pose proof (rep_tag_hdr _ _ _ _ Hrep2 _ (I2 _ In_)) as Tn2.
  pose proof (rep_tag_ftr _ _ _ _ Hrep2 _ (I2 _ Ip)) as Tpf2.
  replace (bptr pb + bsize pb - DSIZE) with (bptr b - DSIZE) in Tpf2 by hlia.
  remember (bsize b + (bsize pb + bsize nb)) as sz eqn:Esz.
  assert (Hsz : sz mod 16 = 0).
  { subst sz. apply mod16_add; [assumption|]. apply mod16_add; assumption. }
  rewrite (wrap_small (bsize pb + bsize nb)) in H by hlia.
  rewrite <- Esz in H.
  rewrite (wrap_small sz) in H by hlia.
  assert (E3 : PREV_BLKP (bptr b) s2 = Ok (bptr pb, s2)).
  { rewrite (PREV_BLKP_at _ _ _ _ Tpf2) by hlia. do 2 f_equal. hlia. }
  fwd H E3. rewrite HDRP_eq in H by hlia.
  destruct (PUT_tag s2 (bptr pb - WSIZE) sz 0) as [E4 T4]; try hlia.
  fwd H E4.
  set (s3 := set_mem s2 (store (mem s2) (bptr pb - WSIZE) (sz + 0))) in *.
  assert (L3 : mem_lo s3 = mem_lo s) by exact L2.
  assert (K3 : mem_brk s3 = mem_brk s) by exact K2.
  assert (Tb3 : tag_at s3 (bptr b - WSIZE) (bsize b) (balloc b)).
  { apply tag_at_store; [exact Tb2|hlia]. }
  assert (Tn3 : tag_at s3 (bptr nb - WSIZE) (bsize nb) (balloc nb)).
  { apply tag_at_store; [exact Tn2|hlia]. }
  assert (E5 : NEXT_BLKP (bptr b) s3 = Ok (bptr nb, s3)).
  { rewrite (NEXT_BLKP_at _ _ _ _ Tb3) by hlia. rewrite En. reflexivity. }
  fwd H E5.
  fwd H (FTRP_at _ _ _ _ Tn3 ltac:(hlia) ltac:(hlia)).
  destruct (PUT_tag s3 (bptr nb + bsize nb - DSIZE) sz 0) as [E6 T6]; try hlia.
  fwd H E6.
  set (s4 := set_mem s3 (store (mem s3) (bptr nb + bsize nb - DSIZE) (sz + 0)))
    in *.
  assert (L4 : mem_lo s4 = mem_lo s) by exact L2.
  assert (K4 : mem_brk s4 = mem_brk s) by exact K2.
  assert (Tpf4 : tag_at s4 (bptr b - DSIZE) (bsize pb) (balloc pb)).
  { apply tag_at_store; [apply tag_at_store; [exact Tpf2|hlia]|hlia]. }
  assert (T4' : tag_at s4 (bptr pb - WSIZE) sz 0).
  { apply tag_at_store; [exact T4|hlia]. }
  assert (E7 : PREV_BLKP (bptr b) s4 = Ok (bptr pb, s4)).
  { rewrite (PREV_BLKP_at _ _ _ _ Tpf4) by hlia. do 2 f_equal. hlia. }
  rewrite E7 in H. subst X. exists (bptr pb), s4. split; [reflexivity|].
  clear E3 E4 E5 E6 E7.
  assert (Hm4 : mem s4 = store (store (mem s2) (bptr pb - WSIZE) (sz + 0))
                          (bptr nb + bsize nb - DSIZE) (sz + 0)) by reflexivity.
  assert (Hndf : NoDup (f1 ++ bptr pb :: f2)) by (rewrite <- Efl; exact Rnodup).
  assert (Hndg : NoDup (g1 ++ bptr nb :: g2)).
  { rewrite <- Egl. exact (rep_nodup _ _ _ _ Hrep1). }
  assert (Hpu : forall z a, In (bptr pb, z, a) (k1 ++ nb :: k2) -> False).
  { intros z a Hz. apply (b_alone s k1 (b :: nb :: k2) pb fl t Hrep0 z a).
    apply in_app_or in Hz. apply in_or_app.
    destruct Hz; [left|right; right]; assumption. }
  assert (Hbu : forall z a, In (bptr b, z, a) (k1 ++ k2) -> False).
  { intros z a Hz.
    apply (b_alone s (k1 ++ [pb]) (nb :: k2) b fl t Hrepb z a).
    rewrite <- app_assoc. apply in_app_or in Hz. apply in_or_app.
    destruct Hz; [left|right; right; right]; assumption. }
  assert (Hnu : forall z a, In (bptr nb, z, a) (k1 ++ k2) -> False).
  { intros z a Hz. apply (b_alone s (k1 ++ [pb; b]) k2 nb fl t Hrepn z a).
    rewrite <- app_assoc. apply in_app_or in Hz. apply in_or_app.
    destruct Hz; [left|right; right; right]; assumption. }
  assert (Hcov1 : cover (k1 ++ nb :: k2) (f1 ++ f2)).
  { rewrite Efl in Hcov. apply (cover_remove k1 pb (nb :: k2) f1 f2); assumption. }
  assert (Hcov' : cover (k1 ++ k2) (g1 ++ g2)).
  { rewrite Egl in Hcov1. apply (cover_remove k1 nb k2 g1 g2); assumption. }
  assert (Hinb : forall c, In c (k1 ++ pb :: nb :: k2) -> In c bl).
  { intros c Hc. apply in_app_or in Hc. apply in_or_app.
    destruct Hc as [Hc|[Hc|[Hc|Hc]]];
      [left|right; left|right; right; right; left
       |right; right; right; right]; assumption. }
  exists (g1 ++ g2). split; [reflexivity|]. split.
  - assert (Hrep4 : heap_rep s4 (k1 ++ [(bptr pb, sz, 0)] ++ k2) (g1 ++ g2) t).
    { apply (rep_retag s2 s4 k1 [pb; b; nb] _ k2 (g1 ++ g2) t);
        try reflexivity; try assumption.
      - intros x Hout. rewrite Hm4.
        pose proof (Hout pb (or_introl eq_refl)).
        pose proof (Hout nb (or_intror (or_intror (or_introl eq_refl)))).
        rewrite !store_out by hlia. reflexivity.
      - intros q c Hq Hc ->. apply Hcov' in Hq. destruct Hq as (z & Hz).
        destruct Hc as [<-|[<-|[<-|[]]]].
        + apply (Hpu z 0). apply in_app_or in Hz. apply in_or_app.
          destruct Hz; [left|right; right]; assumption.
        + exact (Hbu z 0 Hz).
        + exact (Hnu z 0 Hz).
      - intros a e. cbn [linked bptr bsize fst snd].
        intros (A1 & A2 & A3 & A4). split; [exact A1|hlia].
      - constructor; [|constructor]. unfold block_ok.
        cbn [bsize balloc fst snd]. repeat split; hlia.
      - constructor; [|constructor]. unfold hdr_ok. cbn [bptr bsize balloc fst snd].
        destruct T4' as (_ & _ & _ & _ & E & _). exact E.
      - constructor; [|constructor]. unfold ftr_ok. cbn [bptr bsize balloc fst snd].
        destruct T6 as (_ & _ & _ & _ & E & _).
        replace (bptr pb + sz - DSIZE) with (bptr nb + bsize nb - DSIZE) by hlia.
        exact E. }
    split; [exact Hrep4|]. split; [reflexivity|]. split; [exact Hcov'|].
    rewrite adjacent_free_app, !adjacent_free_cons in Hadj.
    rewrite adjacent_free_app, adjacent_free_cons.
    cbn [balloc snd Z.eqb andb orb head_free] in *.
    unfold balloc in *. rewrite Hp, Hn in Hadj.
    cbn [Z.eqb andb orb] in *.
    destruct (adjacent_free k1), (adjacent_free k2), (head_free k2),
      (last_free k1); cbn in *; congruence.
  - apply (frame_incl bl); [intros c Hc _; exact (Hinb c Hc)|].
    apply (frame_trans _ s s1); [exact F1|].
    apply (frame_trans _ s1 s2); [exact F2|].
    apply (frame_trans _ s2 s3).
    + apply (frame_store s2 bl pb); [unfold prologue; rewrite L2, K2; exact Rlinked
                                    |exact Rblocks|exact (I2 _ Ip)|left; reflexivity].
    + apply (frame_store s3 bl nb); [unfold prologue; rewrite L3, K3; exact Rlinked
                                    |exact Rblocks
                                    |unfold prologue; rewrite L3; exact In_
                                    |right; reflexivity].
Qed.

(** ** [coalesce] *)

Lemma alloc_bit s bl fl t c :
  heap_rep s bl fl t -> In c (prologue s :: bl ++ [epilogue s]) ->
  balloc c = 0 \/ balloc c = 1.
Proof.
  intros Hrep [<-|Hc]; [right; reflexivity|].
  apply in_app_or in Hc. destruct Hc as [Hc|[<-|[]]]; [|right; reflexivity].
  rep_fields Hrep. rewrite Forall_forall in Rblocks.
  destruct (Rblocks c Hc) as (_ & _ & H). exact H.
Qed.

Lemma same_allocated_refl bl : same_allocated bl bl.
Proof. intros c _. tauto. Qed.

Lemma same_allocated_trans b1 b2 b3 :
  same_allocated b1 b2 -> same_allocated b2 b3 -> same_allocated b1 b3.
Proof. intros H1 H2 c Hc. rewrite (H1 c Hc). exact (H2 c Hc). Qed.

Lemma same_allocated_sym b1 b2 : same_allocated b1 b2 -> same_allocated b2 b1.
Proof. intros H c Hc. symmetry. exact (H c Hc). Qed.

(** A free block does not count. *)
Lemma same_allocated_drop l1 c l2 :
  balloc c = 0 -> same_allocated (l1 ++ c :: l2) (l1 ++ l2).
Proof.
  intros Hc x Hx. rewrite !in_app_iff. cbn [In]. split.
  - intros [H|[H|H]]; [left; exact H| |right; exact H].
    subst x. rewrite Hc in Hx. discriminate.
  - intros [H|H]; [left|right; right]; exact H.
Qed.

(** The last step of [coalesce]: the merged block goes on the list. *)
Lemma ready_insert s k1 c k2 fl t :
  heap_ready s k1 c k2 fl t -> t = mem_lo s ->
  returns (insert_to_free_list (bptr c)) s (fun _ s' =>
    heap_ok s' (k1 ++ c :: k2) (bptr c :: fl) t /\
    frame (k1 ++ c :: k2) s s').
Proof.
  intros (Hrep & Hc & Hcov & Hadj) Ht.
  assert (Hin : In (bptr c, bsize c, 0) (k1 ++ c :: k2)).
  { apply in_or_app. right. left. destruct c as [[q z] a]. cbn in *.
    subst. reflexivity. }
  assert (Hnc : ~ In (bptr c) fl).
  { intros H. apply Hcov in H. destruct H as (z & Hz).
    exact (b_alone s k1 k2 c fl t Hrep z 0 Hz). }
  destruct (rep_insert_runs s _ fl (bptr c) (bsize c) t Hrep Ht Hin Hnc)
    as (s' & E & Hrep' & F).
  exists tt, s'. split; [exact E|]. split; [|exact F].
  split; [exact Hrep'|]. split; [|exact Hadj].
  apply cover_insert; assumption.
Qed.

Lemma block_eta (c : Z * Z * Z) : c = (bptr c, bsize c, balloc c).
Proof. destruct c as [[q z] a]. reflexivity. Qed.

(** The free blocks of a run count as one block of their total size. *)
Lemma total_In mids b :
  (forall x, In x mids -> 0 <= bsize x) -> In b mids -> bsize b <= total mids.
Proof.
  induction mids as [|c r IH]; intros Hs Hb; [destruct Hb|].
  cbn [total fold_right].
  assert (0 <= total r).
  { clear - Hs. induction r as [|d r IH]; cbn [total fold_right]; [lia|].
    assert (0 <= bsize d) by (apply Hs; right; left; reflexivity).
    assert (0 <= fold_right (fun c a => bsize c + a) 0 r).
    { apply IH. intros x [<-|Hx]; apply Hs; [left|right; right]; auto. }
    unfold total in *. lia. }
  destruct Hb as [<-|Hb].
  - unfold total in *. lia.
  - assert (0 <= bsize c) by (apply Hs; left; reflexivity).
    specialize (IH (fun x Hx => Hs x (or_intror Hx)) Hb).
    unfold total in *. lia.
Qed.

Lemma run_same_allocated l1 b l2 k1 mids k2 :
  l1 ++ b :: l2 = k1 ++ mids ++ k2 -> balloc b = 0 ->
  (forall x, In x mids -> balloc x = 0) ->
  same_allocated (l1 ++ l2) (k1 ++ k2).
Proof.
  intros E Hb Hm x Hx.
  assert (H1 : In x (l1 ++ l2) <-> In x (l1 ++ b :: l2)).
  { rewrite !in_app_iff. cbn [In].
    assert (x <> b) by (intros ->; rewrite Hb in Hx; discriminate).
    intuition congruence. }
  rewrite H1, E, !in_app_iff.
  assert (~ In x mids) by (intros K; rewrite (Hm x K) in Hx; discriminate).
  tauto.
Qed.

(** [coalesce]: the run [mids] of free blocks around [b], which are [b],
    the block before it if that is free and the block after it if that
    is free, becomes one free block at the head of the free list. *)
Lemma coalesce_exact s l1 b l2 fl t :
  heap_pending s l1 b l2 fl t -> t = mem_lo s ->
  returns (coalesce (bptr b)) s (fun r s' =>
    exists k1 mids k2 fl',
      l1 ++ b :: l2 = k1 ++ mids ++ k2 /\ In b mids /\
      (forall x, In x mids -> balloc x = 0) /\
      (length mids <= 3)%nat /\
      r = bptr (hd b mids) /\
      heap_ok s' (k1 ++ (r, total mids, 0) :: k2) (r :: fl') t /\
      frame (l1 ++ l2) s s').
Proof.
  intros (Hrep & Hb & Hcov & Hadj) Ht.
  set (pb := last l1 (prologue s)). set (nb := hd (epilogue s) l2).
  assert (Hpa : balloc pb = 0 \/ balloc pb = 1).
  { apply (alloc_bit s _ fl t pb Hrep).
    destruct (around_prev_in s l1 l2 b fl t Hrep) as [H|H]; [left; exact H|].
    right. apply in_or_app. left. exact H. }
  assert (Hna : balloc nb = 0 \/ balloc nb = 1).
  { apply (alloc_bit s _ fl t nb Hrep). right.
    exact (proj1 (around_next s l1 l2 b fl t Hrep)). }
  assert (Hfin : forall k1 mids k2 c,
    l1 ++ b :: l2 = k1 ++ mids ++ k2 -> In b mids ->
    (forall x, In x mids -> balloc x = 0) -> (length mids <= 3)%nat ->
    c = (bptr (hd b mids), total mids, 0) ->
    returns (coalesce_merge (bptr b) (balloc pb) (balloc nb) (bsize b)) s
      (fun r s1 => exists fl', r = bptr c /\ heap_ready s1 k1 c k2 fl' t /\
                               frame (l1 ++ l2) s s1) ->
    returns (coalesce (bptr b)) s (fun r s' =>
      exists k1 mids k2 fl',
        l1 ++ b :: l2 = k1 ++ mids ++ k2 /\ In b mids /\
        (forall x, In x mids -> balloc x = 0) /\
        (length mids <= 3)%nat /\
        r = bptr (hd b mids) /\
        heap_ok s' (k1 ++ (r, total mids, 0) :: k2) (r :: fl') t /\
        frame (l1 ++ l2) s s')).
  { intros k1 mids k2 c Eq Hin Hfree Hlen -> (r & s1 & E & fl' & -> & Hready & F1).
    pose proof F1 as (L1 & _).
    destruct (ready_insert s1 k1 _ k2 fl' t Hready ltac:(rewrite L1; exact Ht))
      as ([] & s2 & E2 & Hok & F2).
    cbn [bptr fst] in E, E2, Hok.
    exists (bptr (hd b mids)), s2. split.
    - rewrite (coalesce_reads s l1 l2 b fl t Hrep).
      fold pb nb. rewrite (bind_eq _ _ _ _ _ E).
      rewrite (bind_eq _ _ _ _ _ E2). reflexivity.
    - exists k1, mids, k2, fl'. split; [exact Eq|]. split; [exact Hin|].
      split; [exact Hfree|]. split; [exact Hlen|]. split; [reflexivity|].
      split; [exact Hok|].
      apply (frame_trans _ s s1); [exact F1|].
      apply (frame_incl (k1 ++ (bptr (hd b mids), total mids, 0) :: k2));
        [|exact F2].
      intros x Hx Hax.
      apply (run_same_allocated l1 b l2 k1 mids k2 Eq Hb Hfree x Hax) in Hx.
      apply in_app_or in Hx. apply in_or_app.
      destruct Hx; [left|right; right]; assumption. }
  destruct Hpa as [Hp|Hp], Hna as [Hn|Hn].
  - (* both neighbours free *)
    destruct (around_prev_free s l1 l2 b fl t Hrep Hp) as (k1 & E1).
    destruct (around_next_free s l1 l2 b fl t Hrep Hn) as (k2 & E2).
    fold pb in E1. fold nb in E2. clearbody pb nb. subst l1 l2.
    rewrite <- !app_assoc in *. cbn [app] in *.
    apply (Hfin k1 [pb; b; nb] k2
             (bptr pb, bsize b + (bsize pb + bsize nb), 0)).
    + reflexivity.
    + right. left. reflexivity.
    + intros x [<-|[<-|[<-|[]]]]; assumption.
    + cbn. lia.
    + cbn [hd total fold_right]. do 2 f_equal. lia.
    + rewrite Hp, Hn.
      exact (merge_both s k1 pb b nb k2 fl t Hrep Ht Hb Hp Hn Hcov Hadj).
  - (* the block before is free *)
    destruct (around_prev_free s l1 l2 b fl t Hrep Hp) as (k1 & E1).
    fold pb in E1. fold nb in Hn. clearbody pb. subst l1.
    rewrite <- !app_assoc in *. cbn [app] in *.
    apply (Hfin k1 [pb; b] l2 (bptr pb, bsize b + bsize pb, 0)).
    + reflexivity.
    + right. left. reflexivity.
    + intros x [<-|[<-|[]]]; assumption.
    + cbn. lia.
    + cbn [hd total fold_right]. do 2 f_equal. lia.
    + rewrite Hp, Hn.
      exact (merge_prev s k1 pb b l2 fl t Hrep Ht Hb Hp Hcov Hadj Hn).
  - (* the block after is free *)
    destruct (around_next_free s l1 l2 b fl t Hrep Hn) as (k2 & E2).
    fold nb in E2. fold pb in Hp. clearbody nb. subst l2.
    apply (Hfin l1 [b; nb] k2 (bptr b, bsize b + bsize nb, 0)).
    + reflexivity.
    + left. reflexivity.
    + intros x [<-|[<-|[]]]; assumption.
    + cbn. lia.
    + cbn [hd total fold_right]. do 2 f_equal. lia.
    + rewrite Hp, Hn.
      exact (merge_next s l1 b nb k2 fl t Hrep Ht Hb Hn Hcov Hadj Hp).
  - (* no neighbour is free *)
    apply (Hfin l1 [b] l2 b).
    + reflexivity.
    + left. reflexivity.
    + intros x [<-|[]]. exact Hb.
    + cbn. lia.
    + cbn [hd total fold_right]. rewrite Z.add_0_r, <- Hb. apply block_eta.
    + rewrite Hp, Hn. unfold coalesce_merge. cbn [Z.eqb negb andb].
      apply returns_ret. exists fl. split; [reflexivity|].
      split; [|apply frame_refl].
      exact (merge_none s l1 l2 b fl t Hrep Hb Hcov Hadj Hp Hn).
Qed.

Lemma coalesce_spec s l1 b l2 fl t :
  heap_pending s l1 b l2 fl t -> t = mem_lo s ->
  returns (coalesce (bptr b)) s (fun r s' =>
    exists k1 c k2 fl',
      r = bptr c /\ balloc c = 0 /\ bsize b <= bsize c /\
      heap_ok s' (k1 ++ c :: k2) (bptr c :: fl') t /\
      same_allocated (l1 ++ l2) (k1 ++ k2) /\
      frame (l1 ++ l2) s s').
Proof.
  intros Hpend Ht.
  apply (returns_weaken _ _ _ _ (coalesce_exact s l1 b l2 fl t Hpend Ht)).
  intros r s' (k1 & mids & k2 & fl' & Eq & Hin & Hfree & _ & Er & Hok & F).
  destruct Hpend as (Hrep & Hb & _).
  exists k1, (r, total mids, 0), k2, fl'.
  split; [reflexivity|]. split; [reflexivity|]. split.
  - cbn [bsize fst snd]. apply total_In; [|exact Hin].
    intros x Hx. rep_fields Hrep. rewrite Forall_forall in Rblocks.
    destruct (Rblocks x) as (H & _); [|hlia].
    rewrite Eq. apply in_or_app. right. apply in_or_app. left. exact Hx.
  - split; [exact Hok|]. split; [|exact F].
    exact (run_same_allocated l1 b l2 k1 mids k2 Eq Hb Hfree).
Qed.

(** No neighbour of [b] is free: [coalesce] puts [b] on the list. *)
Lemma coalesce_alone s l1 b l2 fl t :
  heap_pending s l1 b l2 fl t -> t = mem_lo s ->
  balloc (last l1 (prologue s)) = 1 -> balloc (hd (epilogue s) l2) = 1 ->
  returns (coalesce (bptr b)) s (fun r s' =>
    r = bptr b /\ heap_ok s' (l1 ++ b :: l2) (bptr b :: fl) t /\
    frame (l1 ++ b :: l2) s s').
Proof.
  intros (Hrep & Hb & Hcov & Hadj) Ht Hp Hn.
  pose proof (merge_none s l1 l2 b fl t Hrep Hb Hcov Hadj Hp Hn) as Hready.
  destruct (ready_insert s l1 b l2 fl t Hready Ht) as ([] & s2 & E2 & Hok & F2).
  exists (bptr b), s2. split.
  - rewrite (coalesce_reads s l1 l2 b fl t Hrep). rewrite Hp, Hn.
    unfold coalesce_merge. cbn [Z.eqb negb andb].
    rewrite (bind_eq _ _ _ _ _ (eq_refl : ret (bptr b) s = Ok (bptr b, s))).
    rewrite (bind_eq _ _ _ _ _ E2). reflexivity.
  - split; [reflexivity|]. split; [exact Hok|exact F2].
Qed.

(** ** [free] *)

Lemma cover_drop l1 c l2 fl :
  balloc c = 1 -> cover (l1 ++ c :: l2) fl -> cover (l1 ++ l2) fl.
Proof.
  intros Hc H p. rewrite (H p). split; intros (sz & Hz); exists sz.
  - apply in_app_or in Hz. apply in_or_app.
    destruct Hz as [Hz|[Hz|Hz]]; [left; exact Hz| |right; exact Hz].
    subst c. cbn in Hc. discriminate.
  - apply in_app_or in Hz. apply in_or_app.
    destruct Hz; [left|right; right]; assumption.
Qed.

(** The two boundary tags of an allocated block rewritten as free: the
    heap as [coalesce] expects it. *)
Lemma free_exact s l1 b l2 fl t :
  heap_ok s (l1 ++ b :: l2) fl t -> t = mem_lo s -> balloc b = 1 ->
  returns (free (bptr b)) s (fun _ s' =>
    exists k1 mids k2 fl',
      l1 ++ (bptr b, bsize b, 0) :: l2 = k1 ++ mids ++ k2 /\
      In (bptr b, bsize b, 0) mids /\
      (forall x, In x mids -> balloc x = 0) /\ (length mids <= 3)%nat /\
      heap_ok s' (k1 ++ (bptr (hd b mids), total mids, 0) :: k2)
              (bptr (hd b mids) :: fl') t /\
      frame (l1 ++ l2) s s').
Proof.
  intros (Hrep & Hcov & Hadj) Ht Hb.
  pose proof Hrep as Hrep0. rep_fields Hrep.
  set (bl := l1 ++ b :: l2) in *.
  assert (Ib : In b (prologue s :: bl))
    by (right; apply in_or_app; right; left; reflexivity).
  destruct (rep_body_range _ _ _ _ Hrep0 _ Ib) as (B1 & B2 & B3 & B4 & B5).
  assert (B6 : 2 * DSIZE <= bsize b).
  { rewrite Forall_forall in Rblocks.
    destruct (Rblocks b) as (? & _); [|hlia].
    apply in_or_app; right; left; reflexivity. }
  pose proof (rep_tag_hdr _ _ _ _ Hrep0 _ Ib) as Tb.
  apply returns_intro. intros X H. unfold free in H.
  replace (bptr b =? NULL) with false in H
    by (symmetry; apply Z.eqb_neq; hlia).
  rewrite HDRP_eq in H by hlia.
  fwd H (GET_SIZE_at _ _ _ _ Tb).
  destruct (PUT_tag s (bptr b - WSIZE) (bsize b) 0) as [E1 T1]; try hlia.
  fwd H E1.
  set (s1 := set_mem s (store (mem s) (bptr b - WSIZE) (bsize b + 0))) in *.
  assert (L1 : mem_lo s1 = mem_lo s) by reflexivity.
  assert (K1 : mem_brk s1 = mem_brk s) by reflexivity.
  fwd H (FTRP_at _ _ _ _ T1 ltac:(hlia) ltac:(hlia)).
  destruct (PUT_tag s1 (bptr b + bsize b - DSIZE) (bsize b) 0) as [E2 T2];
    try hlia.
  fwd H E2.
  set (s2 := set_mem s1 (store (mem s1) (bptr b + bsize b - DSIZE)
                           (bsize b + 0))) in *.
  assert (L2 : mem_lo s2 = mem_lo s) by reflexivity.
  assert (K2 : mem_brk s2 = mem_brk s) by reflexivity.
  assert (T1' : tag_at s2 (bptr b - WSIZE) (bsize b) 0).
  { apply tag_at_store; [exact T1|hlia]. }
  set (b0 := (bptr b, bsize b, 0)).
  assert (Hcov' : cover (l1 ++ l2) fl) by exact (cover_drop _ _ _ _ Hb Hcov).
  assert (Hrep2 : heap_rep s2 (l1 ++ [b0] ++ l2) fl t).
  { apply (rep_retag s s2 l1 [b] _ l2 fl t);
      try reflexivity; try assumption.
    - intros x Hout. pose proof (Hout b (or_introl eq_refl)).
      unfold s2, s1. cbn [mem set_mem]. rewrite !store_out by hlia.
      reflexivity.
    - intros q c Hq [<-|[]] ->. apply Hcov' in Hq. destruct Hq as (z & Hz).
      exact (b_alone s l1 l2 b fl t Hrep0 z 0 Hz).
    - intros a e Hl. exact Hl.
    - constructor; [|constructor]. unfold block_ok.
      cbn [b0 bsize balloc fst snd].
      split; [hlia|]. split; [hlia|]. left. reflexivity.
    - constructor; [|constructor]. unfold hdr_ok. cbn [bptr bsize balloc fst snd].
      destruct T1' as (_ & _ & _ & _ & E & _). exact E.
    - constructor; [|constructor]. unfold ftr_ok. cbn [bptr bsize balloc fst snd].
      destruct T2 as (_ & _ & _ & _ & E & _). exact E. }
  assert (Hpend : heap_pending s2 l1 b0 l2 fl t).
  { split; [exact Hrep2|]. split; [reflexivity|]. split; [exact Hcov'|].
    cbn [b0 bptr bsize fst snd]. rewrite <- Hb, <- block_eta. exact Hadj. }
  destruct (coalesce_exact s2 l1 b0 l2 fl t Hpend ltac:(rewrite L2; exact Ht))
    as (r & s3 & E3 & k1 & mids & k2 & fl' & Eq & Hin & Hfree & Hlen & Er &
        Hok & F3).
  change (bptr b0) with (bptr b) in E3.
  fwd H E3. subst X. exists tt, s3. split; [reflexivity|].
  exists k1, mids, k2, fl'.
  assert (Ehd : bptr (hd b mids) = r).
  { rewrite Er. destruct mids; reflexivity. }
  rewrite Ehd.
  split; [exact Eq|]. split; [exact Hin|]. split; [exact Hfree|].
  split; [exact Hlen|]. split; [exact Hok|].
  apply (frame_trans _ s s2); [|exact F3].
  apply (frame_incl bl).
  { intros x Hx _. apply in_app_or in Hx. apply in_or_app.
    destruct Hx; [left|right; right]; assumption. }
  apply (frame_trans _ s s1).
  + apply (frame_store s bl b); [exact Rlinked|exact Rblocks|exact Ib
                                |left; reflexivity].
  + apply (frame_store s1 bl b); [exact Rlinked|exact Rblocks|exact Ib
                                 |right; reflexivity].
Qed.

Lemma free_spec s l1 b l2 fl t :
  heap_ok s (l1 ++ b :: l2) fl t -> t = mem_lo s -> balloc b = 1 ->
  returns (free (bptr b)) s (fun _ s' =>
    exists bl' fl',
      heap_ok s' bl' fl' t /\ same_allocated (l1 ++ l2) bl' /\
      frame (l1 ++ l2) s s').
Proof.
  intros Hok Ht Hb.
  apply (returns_weaken _ _ _ _ (free_exact s l1 b l2 fl t Hok Ht Hb)).
  intros u s' (k1 & mids & k2 & fl' & Eq & Hin & Hfree & _ & Hok' & F).
  exists (k1 ++ (bptr (hd b mids), total mids, 0) :: k2),
         (bptr (hd b mids) :: fl').
  split; [exact Hok'|]. split; [|exact F].
  apply (same_allocated_trans _ (k1 ++ k2)).
  - exact (run_same_allocated l1 (bptr b, bsize b, 0) l2 k1 mids k2 Eq
             eq_refl Hfree).
  - apply same_allocated_sym, same_allocated_drop. reflexivity.
Qed.

(** ** The heap walk *)

Lemma linked_length p l e :
  linked p l e -> Forall sized l -> Z.of_nat (length l) <= e - p.
Proof.
  revert p. induction l as [|c r IH]; intros p Hl Hs.
  - cbn in *. lia.
  - cbn [linked] in Hl. destruct Hl as (_ & Hl). inversion Hs as [|? ? Hc Hr].
    subst. specialize (IH _ Hl Hr). unfold sized in Hc.
    cbn [length]. lia.
Qed.




(** ** [place] *)

(** The steps both branches of [place] start with: the free block [b]
    gets the tags of an allocated block of [z] bytes and leaves the free
    list.  The rest of the block, if [z] is less than its size, has no
    tags yet. *)
Lemma take_block s l1 b l2 f1 f2 t z :
  heap_rep s (l1 ++ b :: l2) (f1 ++ bptr b :: f2) t -> t = mem_lo s ->
  2 * DSIZE <= z <= bsize b -> z mod 16 = 0 ->
  exists s3,
    (forall B (k : M B),
       (PUT (HDRP (bptr b)) (PACK z 1) ;;; f <- FTRP (bptr b) ;;
        PUT f (PACK z 1) ;;; remove_from_free_list (bptr b) ;;; k) s = k s3) /\
    (PUT (HDRP (bptr b)) (PACK z 1) ;;; f <- FTRP (bptr b) ;;
     PUT f (PACK z 1) ;;; remove_from_free_list (bptr b)) s = Ok (tt, s3) /\
    mem_lo s3 = mem_lo s /\ mem_brk s3 = mem_brk s /\
    mem_max_addr s3 = mem_max_addr s /\ heap_listp s3 = heap_listp s /\
    segregated_lists s3 = segregated_lists s /\
    free_listp s3 = hd t (f1 ++ f2) /\
    dll (mem s3) NULL (f1 ++ f2) t /\
    load (mem s3) (bptr b - WSIZE) = z + 1 /\
    load (mem s3) (bptr b + z - DSIZE) = z + 1 /\
    (forall x, x < bptr b - WSIZE \/ bptr b + bsize b - WSIZE <= x ->
               ~ link_byte (f1 ++ bptr b :: f2) t x -> mem s3 x = mem s x).
Proof.
  intros Hrep Ht Hz Hz16. pose proof Hrep as Hrep0. rep_fields Hrep.
  set (bl := l1 ++ b :: l2) in *. set (fl := f1 ++ bptr b :: f2) in *.
  assert (Ib : In b (prologue s :: bl))
    by (right; apply in_or_app; right; left; reflexivity).
  destruct (rep_body_range _ _ _ _ Hrep0 _ Ib) as (B1 & B2 & B3 & B4 & B5).
  pose proof (rep_members_blocks _ _ _ _ Hrep0) as HL.
  pose proof (rep_free_placed _ _ _ _ Hrep0) as Hpl.
  destruct (rep_tag_off _ _ _ _ Hrep0 fl b HL Ib) as [Oh _].
  assert (Of : off_links fl t (bptr b + z - DSIZE)).
  { apply (word_off_links s bl Rlo Rlinked Rblocks t Rterm fl b _ HL Ib);
      hlia. }
  rewrite HDRP_eq by hlia.
  destruct (PUT_tag s (bptr b - WSIZE) z 1) as [E1 T1]; try hlia.
  set (s1 := set_mem s (store (mem s) (bptr b - WSIZE) (z + 1))) in *.
  assert (L1 : mem_lo s1 = mem_lo s) by reflexivity.
  assert (K1 : mem_brk s1 = mem_brk s) by reflexivity.
  pose proof (FTRP_at _ _ _ _ T1 ltac:(hlia) ltac:(hlia)) as E2.
  destruct (PUT_tag s1 (bptr b + z - DSIZE) z 1) as [E3 T3]; try hlia.
  set (s2 := set_mem s1 (store (mem s1) (bptr b + z - DSIZE) (z + 1))) in *.
  assert (L2 : mem_lo s2 = mem_lo s) by reflexivity.
  assert (K2 : mem_brk s2 = mem_brk s) by reflexivity.
  assert (T1' : tag_at s2 (bptr b - WSIZE) z 1).
  { apply tag_at_store; [exact T1|hlia]. }
  assert (D2 : dll (mem s2) NULL fl t).
  { unfold s2, s1. cbn [mem set_mem].
    apply (dll_store_off fl t); [exact Of|].
    apply (dll_store_off fl t); [exact Oh|exact Rdll]. }
  assert (Hrm : exists s3, remove_from_free_list (bptr b) s2 = Ok (tt, s3)).
  { apply (remove_runs s2 Rlo Rbrk f1 (bptr b) f2 Hpl Rnodup).
    change (mem_lo s2) with (mem_lo s). rewrite <- Ht. exact D2. }
  destruct Hrm as (s3 & E4).
  destruct (remove_spec s2 t Rlo Rbrk Rterm f1 (bptr b) f2 tt s3 Hpl Rnodup D2
              Rhead E4) as (m3 & Es3 & D3 & F3).
  exists s3. split; [|split].
  - intros B k. rewrite (bind_eq _ _ _ _ _ E1), (bind_eq _ _ _ _ _ E2),
      (bind_eq _ _ _ _ _ E3), (bind_eq _ _ _ _ _ E4). reflexivity.
  - rewrite (bind_eq _ _ _ _ _ E1), (bind_eq _ _ _ _ _ E2),
      (bind_eq _ _ _ _ _ E3). exact E4.
  - subst s3. cbn [mem mem_lo mem_brk mem_max_addr heap_listp
                     segregated_lists free_listp].
    repeat (split; [reflexivity|]). split; [exact D3|]. split; [|split].
    + rewrite (load_off_links fl t _ _ _ F3 Oh).
      destruct T1' as (_ & _ & _ & _ & E & _). exact E.
    + rewrite (load_off_links fl t _ _ _ F3 Of).
      destruct T3 as (_ & _ & _ & _ & E & _). exact E.
    + intros x Hx Hnl. rewrite (F3 x Hnl). unfold s2, s1. cbn [mem set_mem].
      rewrite !store_out by hlia. reflexivity.
Qed.

Lemma cover_add l1 c l2 fl :
  balloc c = 1 -> cover (l1 ++ l2) fl -> cover (l1 ++ c :: l2) fl.
Proof.
  intros Hc H p. rewrite (H p). split; intros (sz & Hz); exists sz.
  - apply in_app_or in Hz. apply in_or_app.
    destruct Hz; [left|right; right]; assumption.
  - apply in_app_or in Hz. apply in_or_app.
    destruct Hz as [Hz|[Hz|Hz]]; [left; exact Hz| |right; exact Hz].
    subst c. cbn in Hc. discriminate.
Qed.

Lemma adjacent_free_split l1 c l2 :
  adjacent_free (l1 ++ c :: l2) = false ->
  adjacent_free l1 = false /\ adjacent_free l2 = false.
Proof.
  rewrite adjacent_free_app, adjacent_free_cons. intros H.
  destruct (adjacent_free l1), (adjacent_free l2); auto;
    rewrite ?orb_true_r, ?orb_true_l in H; cbn in H; try discriminate.
Qed.

Lemma adjacent_free_join l1 c l2 :
  adjacent_free l1 = false -> adjacent_free l2 = false -> balloc c = 1 ->
  adjacent_free (l1 ++ c :: l2) = false.
Proof.
  intros H1 H2 Hc. rewrite adjacent_free_app, adjacent_free_cons, H1, H2.
  cbn [head_free]. unfold balloc in *. rewrite Hc. cbn.
  apply andb_false_r.
Qed.

(** What is written inside a free block and on link words leaves the
    payloads of the allocated blocks alone. *)
Lemma frame_outside s s' l1 b l2 fl t :
  heap_rep s (l1 ++ b :: l2) fl t -> balloc b = 0 ->
  mem_lo s' = mem_lo s -> mem_brk s' = mem_brk s ->
  mem_max_addr s' = mem_max_addr s -> heap_listp s' = heap_listp s ->
  segregated_lists s' = segregated_lists s ->
  (forall x, x < bptr b - WSIZE \/ bptr b + bsize b - WSIZE <= x ->
             ~ link_byte fl t x -> mem s' x = mem s x) ->
  frame (l1 ++ b :: l2) s s'.
Proof.
  intros Hrep Hb E1 E2 E3 E4 E5 Hm. rep_fields Hrep.
  unfold frame. repeat (split; [assumption|]).
  intros x Hx. apply Hm.
  - destruct Hx as (c & Hc & Ha & Hx).
    assert (Ib : In b (l1 ++ b :: l2))
      by (apply in_or_app; right; left; reflexivity).
    destruct (block_range s _ Rlinked Rblocks c Hc) as (C1 & C2 & C3 & _).
    destruct (blocks_apart s _ Rlinked Rblocks c b Hc Ib) as [->|[?|?]];
      [rewrite Hb in Ha; discriminate|hlia|hlia].
  - exact (payload_off_links s _ Rlo Rlinked Rblocks t Rterm fl x Rmem Hx).
Qed.

Lemma tag_of_load s p sz a :
  mem_lo s <= p -> p + WSIZE <= mem_brk s -> mem_brk s < 2 ^ 64 ->
  0 <= mem_lo s -> load (mem s) p = sz + a -> 0 <= sz -> sz mod 16 = 0 ->
  a = 0 \/ a = 1 -> tag_at s p sz a.
Proof. intros. unfold tag_at. tauto. Qed.

(** [place] on a free block [b] of the heap that is large enough: when
    at least a minimum block would be left over the block is split and
    the rest goes on the free list, else the whole block is taken. *)
Lemma place_exact s l1 b l2 fl t asize :
  heap_ok s (l1 ++ b :: l2) fl t -> t = mem_lo s -> balloc b = 0 ->
  2 * DSIZE <= asize <= bsize b -> asize mod 16 = 0 ->
  returns (place (bptr b) asize) s (fun _ s' =>
    exists f1 f2,
      fl = f1 ++ bptr b :: f2 /\
      (if bsize b - asize >=? DSIZE + OVERHEAD
       then heap_ok s' (l1 ++ (bptr b, asize, 1)
                           :: (bptr b + asize, bsize b - asize, 0) :: l2)
                    (bptr b + asize :: f1 ++ f2) t
       else heap_ok s' (l1 ++ (bptr b, bsize b, 1) :: l2) (f1 ++ f2) t) /\
      frame (l1 ++ b :: l2) s s').
Proof.
  intros (Hrep & Hcov & Hadj) Ht Hb Hz Hz16.
  pose proof Hrep as Hrep0. rep_fields Hrep.
  set (bl := l1 ++ b :: l2) in *.
  assert (Ibl : In b bl) by (apply in_or_app; right; left; reflexivity).
  assert (Ib : In b (prologue s :: bl)) by (right; exact Ibl).
  destruct (rep_body_range _ _ _ _ Hrep0 _ Ib) as (B1 & B2 & B3 & B4 & B5).
  pose proof (rep_tag_hdr _ _ _ _ Hrep0 _ Ib) as Tb.
  assert (Hbf : In (bptr b) fl).
  { apply Hcov. exists (bsize b). rewrite <- Hb, <- block_eta. exact Ibl. }
  destruct (in_split _ _ Hbf) as (f1 & f2 & Efl).
  assert (Hnd : NoDup (f1 ++ bptr b :: f2)) by (rewrite <- Efl; exact Rnodup).
  assert (Hinc : incl (f1 ++ f2) fl).
  { rewrite Efl. intros q Hq. apply in_app_or in Hq. apply in_or_app.
    destruct Hq; [left|right; right]; assumption. }
  assert (Hbu : forall z a, In (bptr b, z, a) (l1 ++ l2) -> False)
    by exact (b_alone s l1 l2 b fl t Hrep0).
  assert (Hcov' : cover (l1 ++ l2) (f1 ++ f2)).
  { rewrite Efl in Hcov. apply (cover_remove l1 b l2 f1 f2); assumption. }
  assert (HL' : forall q, In q (f1 ++ f2) -> exists sz a, In (q, sz, a) bl).
  { intros q Hq. apply (rep_members_blocks _ _ _ _ Hrep0). apply Hinc.
    exact Hq. }
  assert (Hnb : ~ In (bptr b) (f1 ++ f2)) by exact (NoDup_remove_2 _ _ _ Hnd).
  destruct (adjacent_free_split _ _ _ Hadj) as [Ha1 Ha2].
  apply returns_intro. intros X H. unfold place in H.
  rewrite HDRP_eq in H by hlia.
  fwd H (GET_SIZE_at _ _ _ _ Tb). rewrite <- (HDRP_eq (bptr b)) in H by hlia.
  rewrite (wrap_small (bsize b - asize)) in H by hlia.
  pose proof Hrep0 as Hrepf. rewrite Efl in Hrepf.
  destruct (Z.geb_spec (bsize b - asize) (DSIZE + OVERHEAD)) as [Hge|Hlt].
  - (* the block is split *)
    destruct (take_block s l1 b l2 f1 f2 t asize Hrepf Ht ltac:(hlia) Hz16)
      as (s3 & Ek & _ & L3 & K3 & M3 & LP3 & SL3 & FL3 & D3 & Lh & Lf & Hm3).
    rewrite Ek in H.
    set (rem := bsize b - asize) in *.
    assert (Hrem : rem mod 16 = 0).
    { unfold rem. rewrite Zminus_mod, B4, Hz16. reflexivity. }
    assert (T3 : tag_at s3 (bptr b - WSIZE) asize 1).
    { apply tag_of_load; hlia. }
    fwd H (NEXT_BLKP_at _ _ _ _ T3 ltac:(hlia)).
    rewrite HDRP_eq in H by hlia.
    destruct (PUT_tag s3 (bptr b + asize - WSIZE) rem 0) as [E4 T4]; try hlia.
    fwd H E4.
    set (s4 := set_mem s3 (store (mem s3) (bptr b + asize - WSIZE) (rem + 0)))
      in *.
    assert (L4 : mem_lo s4 = mem_lo s) by exact L3.
    assert (K4 : mem_brk s4 = mem_brk s) by exact K3.
    fwd H (FTRP_at _ _ _ _ T4 ltac:(hlia) ltac:(hlia)).
    destruct (PUT_tag s4 (bptr b + asize + rem - DSIZE) rem 0) as [E5 T5];
      try hlia.
    fwd H E5.
    set (s5 := set_mem s4 (store (mem s4) (bptr b + asize + rem - DSIZE)
                             (rem + 0))) in *.
    assert (L5 : mem_lo s5 = mem_lo s) by exact L3.
    assert (K5 : mem_brk s5 = mem_brk s) by exact K3.
    assert (Hm5 : mem s5 = store (store (mem s3) (bptr b + asize - WSIZE)
                                    (rem + 0))
                             (bptr b + asize + rem - DSIZE) (rem + 0))
      by reflexivity.
    set (b1 := (bptr b, asize, 1)). set (b2 := (bptr b + asize, rem, 0)).
    assert (Hagree : forall x,
               x < bptr b - WSIZE \/ bptr b + bsize b - WSIZE <= x ->
               ~ link_byte fl t x -> mem s5 x = mem s x).
    { intros x Hx Hnl. rewrite Hm5, !store_out by hlia.
      apply Hm3; [exact Hx|]. rewrite <- Efl. exact Hnl. }
    assert (Hrep5 : heap_rep s5 (l1 ++ [b1; b2] ++ l2) (f1 ++ f2) t).
    { apply (rep_rebuild s s5 l1 [b] _ l2 fl (f1 ++ f2) t fl);
        try assumption.
      - exact (rep_members_blocks _ _ _ _ Hrep0).
      - intros x Hx Hnl. apply Hagree; [|exact Hnl].
        exact (Hx b (or_introl eq_refl)).
      - intros a e. cbn [linked b1 b2 bptr bsize fst snd].
        intros (A1 & A2). split; [exact A1|]. split; [hlia|]. unfold rem. hlia.
      - constructor; [|constructor; [|constructor]]; unfold block_ok;
          cbn [b1 b2 bsize balloc fst snd].
        + split; [hlia|]. split; [exact Hz16|]. right. reflexivity.
        + split; [hlia|]. split; [exact Hrem|]. left. reflexivity.
      - constructor; [|constructor; [|constructor]]; unfold hdr_ok;
          cbn [b1 b2 bptr bsize balloc fst snd].
        + rewrite Hm5, !load_store_other by hlia. exact Lh.
        + rewrite Hm5, load_store_other by hlia.
          destruct T4 as (_ & _ & _ & _ & E & _). exact E.
      - constructor; [|constructor; [|constructor]]; unfold ftr_ok;
          cbn [b1 b2 bptr bsize balloc fst snd].
        + rewrite Hm5, !load_store_other by hlia. exact Lf.
        + destruct T5 as (_ & _ & _ & _ & E & _). exact E.
      - intros q Hq. apply Hcov' in Hq. destruct Hq as (sz & Hq). exists sz.
        apply in_app_or in Hq. apply in_or_app.
        destruct Hq; [left|right; right; right]; assumption.
      - exact (NoDup_remove_1 _ _ _ Hnd).
      - rewrite Hm5.
        apply (dll_store_off (f1 ++ f2) t).
        { apply (word_off_links s bl Rlo Rlinked Rblocks t Rterm _ b _ HL' Ib);
            [unfold rem; hlia|unfold rem; hlia|].
          intros Hin. contradiction. }
        apply (dll_store_off (f1 ++ f2) t); [|exact D3].
        apply (word_off_links s bl Rlo Rlinked Rblocks t Rterm _ b _ HL' Ib);
            [unfold rem; hlia|unfold rem; hlia|].
        intros Hin. contradiction. }
    assert (Hpend : heap_pending s5 (l1 ++ [b1]) b2 l2 (f1 ++ f2) t).
    { split; [rewrite <- app_assoc; exact Hrep5|]. split; [reflexivity|].
      split.
      - rewrite <- app_assoc. apply cover_add; [reflexivity|exact Hcov'].
      - rewrite <- app_assoc. cbn [app].
        apply adjacent_free_join; [exact Ha1| |reflexivity].
        rewrite adjacent_free_cons, Ha2. reflexivity. }
    assert (Hnx : balloc (hd (epilogue s5) l2) = 1).
    { pose proof Hadj as Hadj'. unfold bl in Hadj'.
      rewrite adjacent_free_app, adjacent_free_cons in Hadj'.
      unfold balloc in Hadj', Hb. rewrite Hb in Hadj'.
      cbn [Z.eqb andb] in Hadj'.
      assert (Hh : head_free l2 = false).
      { destruct (head_free l2); [|reflexivity].
        rewrite !orb_true_r in Hadj'. cbn in Hadj'.
        destruct (adjacent_free l1); discriminate. }
      destruct l2 as [|c l2']; [reflexivity|]. cbn [hd head_free] in *.
      rewrite Forall_forall in Rblocks.
      destruct (Rblocks c) as (_ & _ & [E|E]);
        [apply in_or_app; right; right; left; reflexivity| |exact E].
      unfold balloc in E. rewrite E in Hh. discriminate. }
    destruct (coalesce_alone s5 _ b2 l2 _ t Hpend ltac:(rewrite L5; exact Ht)
                ltac:(rewrite last_last; reflexivity) Hnx)
      as (r & s6 & E6 & -> & Hok & F6).
    change (bptr b2) with (bptr b + asize) in E6.
    fwd H E6. subst X. exists tt, s6. split; [reflexivity|].
    exists f1, f2. split; [exact Efl|]. split.
    + rewrite <- app_assoc in Hok. exact Hok.
    + apply (frame_trans _ s s5).
      * apply (frame_outside s s5 l1 b l2 fl t); assumption.
      * apply (frame_incl ((l1 ++ [b1]) ++ b2 :: l2)); [|exact F6].
        intros x Hx Hax. unfold bl in Hx. rewrite !in_app_iff in Hx.
        rewrite !in_app_iff. cbn [In] in *.
        assert (x <> b) by (intros ->; rewrite Hb in Hax; discriminate).
        intuition congruence.
  - (* the whole block is taken *)
    destruct (take_block s l1 b l2 f1 f2 t (bsize b) Hrepf Ht ltac:(hlia) B4)
      as (s3 & _ & Ek & L3 & K3 & M3 & LP3 & SL3 & FL3 & D3 & Lh & Lf & Hm3).
    rewrite Ek in H. subst X. exists tt, s3. split; [reflexivity|].
    set (b1 := (bptr b, bsize b, 1)).
    assert (Hagree : forall x,
               x < bptr b - WSIZE \/ bptr b + bsize b - WSIZE <= x ->
               ~ link_byte fl t x -> mem s3 x = mem s x).
    { intros x Hx Hnl. apply Hm3; [exact Hx|]. rewrite <- Efl. exact Hnl. }
    assert (Hrep3 : heap_rep s3 (l1 ++ [b1] ++ l2) (f1 ++ f2) t).
    { apply (rep_rebuild s s3 l1 [b] _ l2 fl (f1 ++ f2) t fl);
        try assumption.
      - exact (rep_members_blocks _ _ _ _ Hrep0).
      - intros x Hx Hnl. apply Hagree; [|exact Hnl].
        exact (Hx b (or_introl eq_refl)).
      - intros a e Hl. exact Hl.
      - constructor; [|constructor]. unfold block_ok.
        cbn [b1 bsize balloc fst snd].
        split; [hlia|]. split; [exact B4|]. right. reflexivity.
      - constructor; [|constructor]. unfold hdr_ok.
        cbn [b1 bptr bsize balloc fst snd]. exact Lh.
      - constructor; [|constructor]. unfold ftr_ok.
        cbn [b1 bptr bsize balloc fst snd]. exact Lf.
      - intros q Hq. apply Hcov' in Hq. destruct Hq as (sz & Hq). exists sz.
        apply in_app_or in Hq. apply in_or_app.
        destruct Hq; [left|right; right]; assumption.
      - exact (NoDup_remove_1 _ _ _ Hnd). }
    exists f1, f2. split; [exact Efl|]. split.
    + split; [exact Hrep3|]. split.
      * apply cover_add; [reflexivity|exact Hcov'].
      * apply adjacent_free_join; [exact Ha1|exact Ha2|reflexivity].
    + apply (frame_outside s s3 l1 b l2 fl t); assumption.
Qed.

Lemma place_spec s l1 b l2 fl t asize :
  heap_ok s (l1 ++ b :: l2) fl t -> t = mem_lo s -> balloc b = 0 ->
  2 * DSIZE <= asize <= bsize b -> asize mod 16 = 0 ->
  returns (place (bptr b) asize) s (fun _ s' =>
    exists bl' fl' z,
      heap_ok s' bl' fl' t /\ asize <= z /\ In (bptr b, z, 1) bl' /\
      same_allocated ((bptr b, z, 1) :: l1 ++ b :: l2) bl' /\
      frame (l1 ++ b :: l2) s s').
Proof.
  intros Hok Ht Hb Hz Hz16.
  apply (returns_weaken _ _ _ _ (place_exact s l1 b l2 fl t asize Hok Ht Hb Hz
                                   Hz16)).
  intros [] s' (f1 & f2 & _ & Hcase & F).
  destruct (bsize b - asize >=? DSIZE + OVERHEAD).
  - exists (l1 ++ (bptr b, asize, 1) :: (bptr b + asize, bsize b - asize, 0)
              :: l2), (bptr b + asize :: f1 ++ f2), asize.
    split; [exact Hcase|]. split; [lia|]. split.
    { apply in_or_app. right. left. reflexivity. }
    split; [|exact F].
    intros x Hx. cbn [In]. rewrite !in_app_iff. cbn [In].
    assert (x <> b) by (intros ->; rewrite Hb in Hx; discriminate).
    assert (x <> (bptr b + asize, bsize b - asize, 0))
      by (intros ->; discriminate).
    intuition congruence.
  - exists (l1 ++ (bptr b, bsize b, 1) :: l2), (f1 ++ f2), (bsize b).
    split; [exact Hcase|]. split; [lia|]. split.
    { apply in_or_app. right. left. reflexivity. }
    split; [|exact F].
    intros x Hx. cbn [In]. rewrite !in_app_iff. cbn [In].
    assert (x <> b) by (intros ->; rewrite Hb in Hx; discriminate).
    intuition congruence.
Qed.

(** ** [find_fit] *)

Lemma GET_faults p s : valid s p = false -> GET p s = Err (SegFault p).
Proof. unfold GET. intros ->. reflexivity. Qed.

(** The header of the value that ends the free list is outside the heap. *)
Lemma end_header_invalid s t :
  0 < mem_lo s -> mem_brk s < 2 ^ 64 -> t = NULL \/ t = mem_lo s ->
  valid s (HDRP t) = false.
Proof.
  intros Hlo Hbrk Ht.
  destruct (valid s (HDRP t)) eqn:E; [|reflexivity].
  apply valid_iff in E. unfold HDRP, wrap in E. exfalso.
  destruct Ht as [-> | ->].
  - change ((NULL - WSIZE) mod 2 ^ 64) with (2 ^ 64 - 8) in E. hlia.
  - destruct (Z_lt_dec (mem_lo s) 8) as [Hs|Hs].
    + replace ((mem_lo s - WSIZE) mod 2 ^ 64) with (mem_lo s - 8 + 2 ^ 64) in E.
      * hlia.
      * apply Z.mod_unique with (q := -1); hlia.
    + rewrite Z.mod_small in E by hlia. hlia.
Qed.

Section FindFit.

Variable s : state.
Variables (bl : list block) (fl : list Z) (t : Z).
Hypothesis Hrep : heap_rep s bl fl t.
Variable asize : Z.

(** The walk from a member of the free list ends at a free block that is
    large enough, or leaves the heap. *)
Lemma fit_loop_members f2 : forall f1 fuel q s',
  fl = f1 ++ f2 ->
  fit_loop fuel asize (hd t f2) s = Ok (q, s') ->
  exists b, In b bl /\ bptr b = q /\ balloc b = 0 /\ asize <= bsize b.
Proof.
  pose proof Hrep as Hrep0. rep_fields Hrep0.
  induction f2 as [|p r IH]; intros f1 fuel q s' Efl H.
  - destruct fuel as [|k]; [discriminate|]. cbn [hd] in H.
    rewrite fit_loop_unfold in H.
    rewrite (end_header_invalid s t Rlo Rbrk Rterm) in H. discriminate.
  - destruct fuel as [|k]; [discriminate|]. cbn [hd fit_loop] in H.
    assert (Hp : In p fl) by (rewrite Efl; apply in_or_app; right; left;
                              reflexivity).
    destruct (Rmem p Hp) as (sz & Hb).
    assert (Ib : In (p, sz, 0) (prologue s :: bl)) by (right; exact Hb).
    pose proof (rep_tag_hdr _ _ _ _ Hrep _ Ib) as T.
    destruct (rep_body_range _ _ _ _ Hrep _ Ib) as (B1 & B2 & B3 & _).
    cbn [bptr bsize balloc fst snd] in *.
    rewrite HDRP_eq in H by hlia.
    rewrite (bind_eq _ _ _ _ _ (GET_ALLOC_at _ _ _ _ T)) in H.
    cbn [Z.eqb] in H.
    rewrite (bind_eq _ _ _ _ _ (GET_SIZE_at _ _ _ _ T)) in H.
    destruct (Z.geb_spec sz asize) as [Hge|Hlt].
    + inversion H. subst q s'. exists (p, sz, 0).
      cbn [bptr bsize balloc fst snd]. repeat split; [exact Hb|lia].
    + pose proof (rep_free_placed _ _ _ _ Hrep) as Hpl.
      destruct (member_valid s t Rlo Rbrk Rterm fl p Hpl Hp)
        as (_ & V8 & W8 & _).
      unfold GET_NEXT_PTR in H. rewrite W8 in H.
      rewrite (bind_eq _ _ _ _ _ (GET_eq _ _ V8)) in H.
      rewrite Efl in Rdll. apply dll_app in Rdll. destruct Rdll as (_ & Hd).
      cbn [dll] in Hd. destruct Hd as (_ & L8 & _). rewrite L8 in H.
      apply (IH (f1 ++ [p]) k q s'); [|exact H].
      rewrite <- app_assoc. exact Efl.
Qed.

Lemma find_fit_spec q s' :
  lists_ok s bl fl ->
  find_fit asize s = Ok (q, s') ->
  s' = s /\
  (q = NULL \/
   exists b, In b bl /\ bptr b = q /\ balloc b = 0 /\ asize <= bsize b).
Proof.
  intros Hl H. split; [exact (find_fit_pure _ _ _ _ H)|].
  pose proof Hrep as Hrep0. rep_fields Hrep0.
  unfold find_fit in H. cbv zeta in H.
  apply bind_ok in H. destruct H as (h & s1 & Hg & H).
  unfold get_list in Hg.
  destruct ((0 <=? list_index asize) && (list_index asize <? LISTLIMIT));
    [|discriminate].
  destruct (nth_error (segregated_lists s) (Z.to_nat (list_index asize)))
    as [h'|] eqn:En; [|discriminate].
  inversion Hg. subst h' s1. clear Hg.
  apply nth_error_In in En. unfold lists_ok in Hl.
  rewrite Forall_forall in Hl.
  destruct (Hl h En) as [->|[Hh|(sz & Hh)]].
  - unfold heap_fuel in H. rewrite fit_loop_unfold in H.
    rewrite (end_header_invalid s NULL Rlo Rbrk (or_introl eq_refl)) in H.
    discriminate.
  - right. destruct (in_split _ _ Hh) as (f1 & f2 & Efl).
    exact (fit_loop_members (h :: f2) f1 _ q s' Efl H).
  - left. unfold heap_fuel in H. cbn [fit_loop] in H.
    pose proof (rep_tag_hdr _ _ _ _ Hrep _ Hh) as T.
    destruct (rep_body_range _ _ _ _ Hrep _ Hh) as (B1 & B2 & B3 & _).
    cbn [bptr bsize balloc fst snd] in *.
    rewrite HDRP_eq in H by hlia.
    rewrite (bind_eq _ _ _ _ _ (GET_ALLOC_at _ _ _ _ T)) in H.
    inversion H. reflexivity.
Qed.

End FindFit.

(** ** The fit search along the free list *)

(** Distinct addresses of a range are no more than the range has. *)
Lemma NoDup_range_length (l : list Z) a b :
  a <= b -> NoDup l -> (forall x, In x l -> a <= x < b) ->
  Z.of_nat (length l) <= b - a.
Proof.
  intros Hab Hnd Hr.
  assert (Hm : NoDup (map (fun x => Z.to_nat (x - a)) l)).
  { clear - Hnd Hr. induction Hnd as [|x l Hx Hnd IH]; [constructor|].
    cbn [map]. constructor.
    - intros Hin. apply in_map_iff in Hin. destruct Hin as (y & Ey & Hy).
      assert (a <= y < b) by (apply Hr; right; exact Hy).
      assert (a <= x < b) by (apply Hr; left; reflexivity).
      assert (y = x) by lia. subst y. contradiction.
    - apply IH. intros y Hy. apply Hr. right. exact Hy. }
  assert (Hi : incl (map (fun x => Z.to_nat (x - a)) l)
                    (seq 0 (Z.to_nat (b - a)))).
  { intros n Hn. apply in_map_iff in Hn. destruct Hn as (y & <- & Hy).
    specialize (Hr y Hy). apply in_seq. lia. }
  pose proof (NoDup_incl_length Hm Hi) as Hl.
  rewrite length_map, length_seq in Hl. lia.
Qed.

Section FitWalk.

Variable s : state.
Variables (bl : list block) (fl : list Z) (t : Z).
Hypothesis Hrep : heap_rep s bl fl t.
Variable asize : Z.

Lemma members_fuel : (length fl < heap_fuel s)%nat.
Proof.
  pose proof Hrep as Hrep0. rep_fields Hrep0.
  destruct (rep_free_placed _ _ _ _ Hrep) as [Hp _].
  assert (Hl : Z.of_nat (length fl) <= mem_brk s - mem_lo s).
  { pose proof (rep_brk_range _ _ _ _ Hrep).
    apply NoDup_range_length; [hlia|exact Rnodup|].
    intros x Hx. destruct (Hp x Hx). hlia. }
  unfold heap_fuel. lia.
Qed.

(** The blocks of the list that are too small are passed over. *)
Lemma fit_loop_skip pre : forall f1 rest fuel,
  fl = f1 ++ pre ++ rest ->
  (forall p z, In p pre -> In (p, z, 0) bl -> z < asize) ->
  fit_loop (length pre + fuel) asize (hd t (pre ++ rest)) s =
  fit_loop fuel asize (hd t rest) s.
Proof.
  pose proof Hrep as Hrep0. rep_fields Hrep0.
  induction pre as [|p r IH]; intros f1 rest fuel Efl Hsmall; [reflexivity|].
  cbn [length Nat.add app hd fit_loop].
  assert (Hp : In p fl).
  { rewrite Efl. apply in_or_app. right. left. reflexivity. }
  destruct (Rmem p Hp) as (sz & Hb).
  assert (Ib : In (p, sz, 0) (prologue s :: bl)) by (right; exact Hb).
  pose proof (rep_tag_hdr _ _ _ _ Hrep _ Ib) as T.
  destruct (rep_body_range _ _ _ _ Hrep _ Ib) as (B1 & B2 & B3 & _).
  cbn [bptr bsize balloc fst snd] in *.
  rewrite HDRP_eq by hlia.
  rewrite (bind_eq _ _ _ _ _ (GET_ALLOC_at _ _ _ _ T)). cbn [Z.eqb].
  rewrite (bind_eq _ _ _ _ _ (GET_SIZE_at _ _ _ _ T)).
  pose proof (Hsmall p sz (or_introl eq_refl) Hb) as Hlt.
  replace (sz >=? asize) with false by (symmetry; rewrite Z.geb_leb; apply Z.leb_gt; lia).
  pose proof (rep_free_placed _ _ _ _ Hrep) as Hpl.
  destruct (member_valid s t Rlo Rbrk Rterm fl p Hpl Hp) as (_ & V8 & W8 & _).
  unfold GET_NEXT_PTR. rewrite W8.
  rewrite (bind_eq _ _ _ _ _ (GET_eq _ _ V8)).
  rewrite Efl in Rdll. apply dll_app in Rdll. destruct Rdll as (_ & Hd).
  cbn [app dll] in Hd. destruct Hd as (_ & L8 & _). rewrite L8.
  apply (IH (f1 ++ [p]) rest fuel).
  - rewrite <- app_assoc. exact Efl.
  - intros q z Hq. apply Hsmall. right. exact Hq.
Qed.

Lemma fit_loop_first f1 pre q post z :
  fl = f1 ++ pre ++ q :: post ->
  (forall p z, In p pre -> In (p, z, 0) bl -> z < asize) ->
  In (q, z, 0) bl -> asize <= z ->
  fit_loop (heap_fuel s) asize (hd t (pre ++ q :: post)) s = Ok (q, s).
Proof.
  intros Efl Hsmall Hq Hz.
  pose proof (rep_lo _ _ _ _ Hrep) as Rlo.
  pose proof (rep_brk _ _ _ _ Hrep) as Rbrk.
  pose proof members_fuel as Hf. rewrite Efl, !length_app in Hf.
  cbn [length] in Hf.
  replace (heap_fuel s)
    with (length pre + S (heap_fuel s - length pre - 1))%nat by lia.
  rewrite (fit_loop_skip pre f1 (q :: post) _ Efl Hsmall).
  cbn [hd fit_loop].
  assert (Ib : In (q, z, 0) (prologue s :: bl)) by (right; exact Hq).
  pose proof (rep_tag_hdr _ _ _ _ Hrep _ Ib) as T.
  destruct (rep_body_range _ _ _ _ Hrep _ Ib) as (B1 & B2 & B3 & _).
  cbn [bptr bsize balloc fst snd] in *.
  rewrite HDRP_eq by hlia.
  rewrite (bind_eq _ _ _ _ _ (GET_ALLOC_at _ _ _ _ T)). cbn [Z.eqb].
  rewrite (bind_eq _ _ _ _ _ (GET_SIZE_at _ _ _ _ T)).
  replace (z >=? asize) with true by (symmetry; rewrite Z.geb_leb; apply Z.leb_le; lia).
  reflexivity.
Qed.

Lemma fit_loop_exhausted f1 pre :
  fl = f1 ++ pre ->
  (forall p z, In p pre -> In (p, z, 0) bl -> z < asize) ->
  fit_loop (heap_fuel s) asize (hd t pre) s = Err (SegFault (HDRP t)).
Proof.
  intros Efl Hsmall. pose proof Hrep as Hrep0. rep_fields Hrep0.
  pose proof members_fuel as Hf. rewrite Efl, !length_app in Hf.
  replace (heap_fuel s)
    with (length pre + S (heap_fuel s - length pre - 1))%nat by lia.
  replace (hd t pre) with (hd t (pre ++ [])) by (rewrite app_nil_r; reflexivity).
  rewrite (fit_loop_skip pre f1 [] _); [|rewrite app_nil_r; exact Efl
                                        |exact Hsmall].
  cbn [hd]. rewrite fit_loop_unfold.
  rewrite (end_header_invalid s t Rlo Rbrk Rterm). reflexivity.
Qed.

End FitWalk.

(** ** [extend_heap] *)

(** A new block of [size] bytes where the epilogue header was, and a
    new epilogue header after it. *)
Lemma rep_extend s s' bl fl t size :
  heap_rep s bl fl t ->
  mem_lo s' = mem_lo s -> mem_brk s' = mem_brk s + size ->
  heap_listp s' = heap_listp s -> free_listp s' = free_listp s ->
  2 * DSIZE <= size -> size mod 16 = 0 -> mem_brk s + size < 2 ^ 64 ->
  (forall x, x < mem_brk s - WSIZE -> mem s' x = mem s x) ->
  load (mem s') (mem_brk s - WSIZE) = size + 0 ->
  load (mem s') (mem_brk s + size - DSIZE) = size + 0 ->
  load (mem s') (mem_brk s + size - WSIZE) = 1 ->
  heap_rep s' (bl ++ [(mem_brk s, size, 0)]) fl t.
Proof.
  intros Hrep Elo Ebrk Elp Efl Hsz Hm16 Hlt Hmem Lh Lf Le.
  pose proof Hrep as Hrep0. rep_fields Hrep.
  assert (Hpro : prologue s' = prologue s) by (unfold prologue; rewrite Elo;
                                               reflexivity).
  assert (Hold : forall c, In c (prologue s :: bl) ->
            load (mem s') (bptr c - WSIZE) = load (mem s) (bptr c - WSIZE) /\
            load (mem s') (bptr c + bsize c - DSIZE)
            = load (mem s) (bptr c + bsize c - DSIZE)).
  { intros c Hc.
    destruct (rep_body_range _ _ _ _ Hrep0 _ Hc) as (B1 & B2 & B3 & _).
    split; apply load_ext; intros i Hi; apply Hmem; hlia. }
  constructor.
  - rewrite Elo. exact Rlo.
  - rewrite Ebrk. exact Hlt.
  - rewrite Elp, Elo. exact Rlistp.
  - rewrite Hpro, Elo, Ebrk. change (prologue s :: bl ++ [(mem_brk s, size, 0)])
      with ((prologue s :: bl) ++ [(mem_brk s, size, 0)]).
    apply linked_app. exists (mem_brk s). split; [exact Rlinked|].
    cbn [linked bptr bsize fst snd]. split; reflexivity.
  - apply Forall_app. split; [exact Rblocks|]. constructor; [|constructor].
    unfold block_ok. cbn [bsize balloc fst snd].
    split; [hlia|]. split; [exact Hm16|]. left. reflexivity.
  - rewrite Hpro. change (prologue s :: bl ++ [(mem_brk s, size, 0)])
      with ((prologue s :: bl) ++ [(mem_brk s, size, 0)]).
    apply Forall_app. split.
    + rewrite Forall_forall in *. intros c Hc. unfold hdr_ok.
      rewrite (proj1 (Hold c Hc)). exact (Rhdr c Hc).
    + constructor; [|constructor]. unfold hdr_ok.
      cbn [bptr bsize balloc fst snd]. exact Lh.
  - rewrite Hpro. change (prologue s :: bl ++ [(mem_brk s, size, 0)])
      with ((prologue s :: bl) ++ [(mem_brk s, size, 0)]).
    apply Forall_app. split.
    + rewrite Forall_forall in *. intros c Hc. unfold ftr_ok.
      rewrite (proj2 (Hold c Hc)). exact (Rftr c Hc).
    + constructor; [|constructor]. unfold ftr_ok.
      cbn [bptr bsize balloc fst snd]. exact Lf.
  - rewrite Ebrk. exact Le.
  - intros q Hq. destruct (Rmem q Hq) as (sz & Hz). exists sz.
    apply in_or_app. left. exact Hz.
  - exact Rnodup.
  - apply (dll_frame (mem s)); [|exact Rdll].
    intros q Hq. destruct (Rmem q Hq) as (sz & Hz).
    destruct (block_range s bl Rlinked Rblocks _ Hz) as (C1 & C2 & C3 & _).
    cbn [bptr bsize fst snd] in *.
    split; apply load_ext; intros i Hi; apply Hmem; hlia.
  - rewrite Efl. exact Rhead.
  - rewrite Elo. exact Rterm.
Qed.

(** A run of a list that holds its last element, met nowhere else in
    the list, ends the list. *)
Lemma run_at_end {A} (l1 : list A) b k1 mids k2 :
  l1 ++ [b] = k1 ++ mids ++ k2 -> In b mids -> ~ In b l1 -> k2 = [].
Proof.
  intros E Hb Hn. destruct k2 as [|y k2']; [reflexivity|]. exfalso.
  destruct (exists_last (l := y :: k2')) as (k & x & Ek); [discriminate|].
  rewrite Ek, !app_assoc in E. apply app_inj_tail in E.
  destruct E as [E _]. apply Hn. rewrite E.
  apply in_or_app. left. apply in_or_app. right. exact Hb.
Qed.

(** [extend_heap] when memlib has room: the break moves up by [size]
    bytes, and the block returned is the last of the heap, free, with
    the new bytes and those of the free block that was last before. *)
Lemma extend_heap_exact s bl fl t words size :
  heap_ok s bl fl t -> t = mem_lo s -> mem_max_addr s < 2 ^ 64 ->
  extend_size words = size -> 2 * DSIZE <= size -> size mod 16 = 0 ->
  sbrk_refuses s size = false ->
  returns (extend_heap words) s (fun r s' =>
    exists k1 c fl',
      r = bptr c /\ r <> NULL /\ balloc c = 0 /\ size <= bsize c /\
      heap_ok s' (k1 ++ [c]) (bptr c :: fl') t /\
      same_allocated bl k1 /\ grown bl s s' /\
      mem_brk s' = mem_brk s + size /\
      bptr c + bsize c = mem_brk s').
Proof.
  intros (Hrep & Hcov & Hadj) Ht Hmax Ewords Hsz Hm16 Hroom.
  pose proof Hrep as Hrep0. rep_fields Hrep.
  pose proof (rep_brk_range _ _ _ _ Hrep0) as Hr.
  unfold sbrk_refuses in Hroom. apply orb_false_iff in Hroom.
  destruct Hroom as [_ Hroom]. rewrite Z.gtb_ltb in Hroom.
  apply Z.ltb_ge in Hroom.
  set (brk := mem_brk s) in *.
  apply returns_intro. intros X H. unfold extend_heap in H. cbv zeta in H.
  rewrite Ewords in H.
  set (s0 := set_brk s (brk + size)).
  assert (E0 : mem_sbrk size s = Ok (brk, s0)).
  { unfold mem_sbrk, sbrk_refuses.
    replace (size <? 0) with false by (symmetry; apply Z.ltb_ge; hlia).
    replace (mem_brk s + size >? mem_max_addr s) with false
      by (symmetry; rewrite Z.gtb_ltb; apply Z.ltb_ge; exact Hroom).
    reflexivity. }
  fwd H E0.
  replace (brk =? SBRK_FAILED) with false in H
    by (symmetry; apply Z.eqb_neq; unfold SBRK_FAILED, wrap;
        change ((-1) mod 2 ^ 64) with (2 ^ 64 - 1); hlia).
  rewrite HDRP_eq in H by hlia.
  destruct (PUT_tag s0 (brk - WSIZE) size 0) as [E1 T1];
    try (unfold s0; hlia).
  fwd H E1.
  set (s1 := set_mem s0 (store (mem s0) (brk - WSIZE) (size + 0))) in *.
  assert (K1 : mem_brk s1 = brk + size) by reflexivity.
  assert (L1 : mem_lo s1 = mem_lo s) by reflexivity.
  fwd H (FTRP_at _ _ _ _ T1 ltac:(hlia) ltac:(hlia)).
  destruct (PUT_tag s1 (brk + size - DSIZE) size 0) as [E2 T2]; try hlia.
  fwd H E2.
  set (s2 := set_mem s1 (store (mem s1) (brk + size - DSIZE) (size + 0))) in *.
  assert (K2 : mem_brk s2 = brk + size) by reflexivity.
  assert (L2 : mem_lo s2 = mem_lo s) by reflexivity.
  assert (T1' : tag_at s2 (brk - WSIZE) size 0).
  { apply tag_at_store; [exact T1|hlia]. }
  fwd H (NEXT_BLKP_at _ _ _ _ T1' ltac:(hlia)).
  rewrite HDRP_eq in H by hlia.
  destruct (PUT_tag s2 (brk + size - WSIZE) 0 1) as [E3 T3]; try first [hlia|reflexivity].
  fwd H E3.
  set (s3 := set_mem s2 (store (mem s2) (brk + size - WSIZE) (0 + 1))) in *.
  assert (K3 : mem_brk s3 = brk + size) by reflexivity.
  assert (L3 : mem_lo s3 = mem_lo s) by reflexivity.
  assert (Hm3 : mem s3 = store (store (store (mem s) (brk - WSIZE) (size + 0))
                                  (brk + size - DSIZE) (size + 0))
                           (brk + size - WSIZE) (0 + 1)) by reflexivity.
  assert (Hagree : forall x, x < brk - WSIZE -> mem s3 x = mem s x).
  { intros x Hx. rewrite Hm3, !store_out by hlia. reflexivity. }
  set (nb := (brk, size, 0)).
  assert (Hrep3 : heap_rep s3 (bl ++ [nb]) fl t).
  { apply (rep_extend s s3 bl fl t size); try assumption; try reflexivity.
    - hlia.
    - rewrite Hm3, !load_store_other by hlia.
      rewrite load_store_same. apply wrap_small. hlia.
    - rewrite Hm3, load_store_other by hlia.
      rewrite load_store_same. apply wrap_small. hlia.
    - rewrite Hm3, load_store_same. reflexivity. }
  assert (Hpend : heap_pending s3 bl nb [] fl t).
  { split; [exact Hrep3|]. split; [reflexivity|]. split.
    - rewrite app_nil_r. exact Hcov.
    - apply adjacent_free_join; [exact Hadj|reflexivity|reflexivity]. }
  destruct (coalesce_exact s3 bl nb [] fl t Hpend ltac:(rewrite L3; exact Ht))
    as (r & s4 & E4 & k1 & mids & k2 & fl' & Eq & Hin & Hfree & _ & -> & Hok &
        F4).
  change (bptr nb) with brk in E4. rewrite E4 in H. subst X.
  assert (Ek2 : k2 = []).
  { apply (run_at_end bl nb k1 mids k2 Eq Hin). intros Hnb.
    apply (b_alone s3 bl [] nb fl t Hrep3 (bsize nb) (balloc nb)).
    rewrite app_nil_r, <- block_eta. exact Hnb. }
  subst k2.
  set (c := (bptr (hd nb mids), total mids, 0)) in *.
  exists (bptr c), s4. split; [reflexivity|].
  exists k1, c, fl'. split; [reflexivity|].
  pose proof (run_same_allocated bl nb [] k1 mids [] Eq eq_refl Hfree) as Hsame.
  rewrite !app_nil_r in Hsame. rewrite app_nil_r in F4.
  assert (Ic : In c (prologue s4 :: k1 ++ c :: []))
    by (right; apply in_or_app; right; left; reflexivity).
  destruct Hok as (Hrep4 & Hok).
  destruct (rep_body_range _ _ _ _ Hrep4 _ Ic) as (C1 & _).
  pose proof (rep_lo _ _ _ _ Hrep4) as Hlo4.
  destruct F4 as (A1 & A2 & A3 & A4 & A5 & A6).
  split; [hlia|]. split; [reflexivity|]. split.
  { cbn [c bsize fst snd].
    change size with (bsize nb). apply total_In; [|exact Hin].
    intros x Hx. pose proof (rep_blocks _ _ _ _ Hrep3) as Rb3.
    rewrite Forall_forall in Rb3.
    destruct (Rb3 x) as (Hx32 & _); [|hlia].
    rewrite Eq. apply in_or_app. right. apply in_or_app. left. exact Hx. }
  split; [split; [exact Hrep4|exact Hok]|]. split; [exact Hsame|].
  split; [|split].
  - unfold grown. rewrite A1, A2, A3, A4, A5.
    repeat (split; [first [reflexivity|hlia]|]).
    intros x Hx. rewrite (A6 x Hx). apply Hagree.
    destruct Hx as (b & Hb & _ & Hx).
    destruct (block_range s bl Rlinked Rblocks b Hb) as (C3 & C4 & C5 & _).
    hlia.
  - rewrite A2. exact K3.
  - destruct (around_next s4 k1 [] c _ t Hrep4) as [_ En]. cbn [hd] in En.
    symmetry. exact En.
Qed.

Lemma extend_heap_spec s bl fl t words size :
  heap_ok s bl fl t -> t = mem_lo s -> mem_max_addr s < 2 ^ 64 ->
  extend_size words = size -> 2 * DSIZE <= size -> size mod 16 = 0 ->
  sbrk_refuses s size = false ->
  returns (extend_heap words) s (fun r s' =>
    exists k1 c k2 fl',
      r = bptr c /\ r <> NULL /\ balloc c = 0 /\ size <= bsize c /\
      heap_ok s' (k1 ++ c :: k2) (bptr c :: fl') t /\
      same_allocated bl (k1 ++ k2) /\ grown bl s s').
Proof.
  intros Hok Ht Hmax Ew Hsz H16 Hroom.
  apply (returns_weaken _ _ _ _ (extend_heap_exact s bl fl t words size Hok Ht
                                   Hmax Ew Hsz H16 Hroom)).
  intros r s' (k1 & c & fl' & Er & Nr & Hc & Hge & Hok' & Hsame & G & _).
  exists k1, c, [], fl'. rewrite app_nil_r. repeat (split; [assumption|]).
  exact G.
Qed.

(** ** [malloc] *)

Lemma frame_grown bl s s' : frame bl s s' -> grown bl s s'.
Proof.
  intros (A1 & A2 & A3 & A4 & A5 & A6). unfold grown.
  repeat (split; [first [assumption|lia]|]). exact A6.
Qed.

Lemma grown_refl bl s : grown bl s s.
Proof. apply frame_grown, frame_refl. Qed.

Lemma grown_incl bl bl' s s' :
  (forall c, In c bl' -> balloc c = 1 -> In c bl) ->
  grown bl s s' -> grown bl' s s'.
Proof.
  intros Hi (A1 & A2 & A3 & A4 & A5 & A6).
  unfold grown. repeat (split; [assumption|]).
  intros x Hx. apply A6. exact (payload_byte_incl _ _ _ Hi Hx).
Qed.

Lemma grown_trans bl s1 s2 s3 :
  grown bl s1 s2 -> grown bl s2 s3 -> grown bl s1 s3.
Proof.
  intros (A1 & A2 & A3 & A4 & A5 & A6) (B1 & B2 & B3 & B4 & B5 & B6).
  unfold grown. repeat (split; [first [congruence|lia]|]).
  intros x Hx. rewrite B6, A6 by exact Hx. reflexivity.
Qed.

(** The adjusted size of a request that does not wrap. *)
Lemma adjust_ok n :
  0 < n -> n + 2 * DSIZE < 2 ^ 64 ->
  2 * DSIZE <= adjust n /\ adjust n mod 16 = 0 /\
  n + OVERHEAD <= adjust n /\ adjust n < n + 2 * DSIZE.
Proof.
  intros Hn Hb. unfold adjust.
  destruct (Z.leb_spec n DSIZE) as [Hs|Hs].
  - unfold OVERHEAD, DSIZE, WSIZE in *.
    split; [lia|]. split; [reflexivity|]. split; lia.
  - unfold ALIGN, ALIGNMENT.
    rewrite (wrap_small (n + OVERHEAD)) by hlia.
    rewrite wrap_small by hlia.
    rewrite land_SIZE_MASK by hlia.
    unfold OVERHEAD, DSIZE, WSIZE in *.
    match goal with
    | |- context [16 * (?a / 16)] =>
        pose proof (Z.mod_pos_bound a 16 ltac:(lia));
        pose proof (Z.div_mod a 16 ltac:(lia))
    end.
    split; [lia|]. split; [|split; lia].
    rewrite Z.mul_comm. apply Z.mod_mul. lia.
Qed.

(** The request by which [malloc] extends the heap is the adjusted
    size, or the chunk size if that is more. *)
Lemma extend_size_chunk a :
  2 * DSIZE <= a < 2 ^ 64 -> a mod 16 = 0 ->
  extend_size (MAX a CHUNKSIZE / WSIZE) = MAX a CHUNKSIZE /\
  a <= MAX a CHUNKSIZE /\ MAX a CHUNKSIZE mod 16 = 0 /\
  MAX a CHUNKSIZE < 2 ^ 64.
Proof.
  intros Ha H16.
  assert (Hm : MAX a CHUNKSIZE mod 16 = 0 /\ a <= MAX a CHUNKSIZE /\
               MAX a CHUNKSIZE < 2 ^ 64 /\ 0 <= MAX a CHUNKSIZE).
  { unfold MAX. change CHUNKSIZE with 4096.
    destruct (Z.gtb_spec a 4096);
      (split; [first [assumption|reflexivity]|hlia]). }
  destruct Hm as (M16 & Mle & Mlt & M0). set (x := MAX a CHUNKSIZE) in *.
  split; [|tauto].
  unfold extend_size, WSIZE.
  assert (Hx : x = 8 * (x / 8) /\ (x / 8) mod 2 = 0).
  { pose proof (Z.div_mod x 16 ltac:(lia)) as D. rewrite M16 in D.
    replace (x / 8) with (2 * (x / 16)).
    - split; [lia|]. rewrite Z.mul_comm. apply Z.mod_mul. lia.
    - rewrite D at 2. replace (16 * (x / 16) + 0) with (2 * (x / 16) * 8) by lia.
      rewrite Z.div_mul by lia. reflexivity. }
  destruct Hx as [Hx1 Hx2]. rewrite Hx2. cbn [Z.eqb negb].
  rewrite wrap_small by hlia. lia.
Qed.

Lemma malloc_spec s bl fl t n q :
  heap_ok s bl fl t -> t = mem_lo s -> mem_max_addr s < 2 ^ 64 ->
  lists_ok s bl fl ->
  0 < n -> n + 2 * DSIZE < 2 ^ 64 ->
  find_fit (adjust n) s = Ok (q, s) ->
  returns (malloc n) s (fun r s' =>
    (r = NULL /\ s' = s /\ q = NULL) \/
    ((q <> NULL -> r = q) /\ allocated_at n s bl t r s')).
Proof.
  intros Hok Ht Hmax Hlists Hn Hnb Hfit.
  pose proof Hok as (Hrep & Hcov & Hadj).
  pose proof Hrep as Hrep0. rep_fields Hrep0.
  destruct (adjust_ok n Hn Hnb) as (A1 & A2 & A3 & A4).
  set (asize := adjust n) in *.
  apply returns_intro. intros X H. unfold malloc in H.
  replace (n <=? 0) with false in H by (symmetry; apply Z.leb_gt; exact Hn).
  cbv zeta in H. fold asize in H. fwd H Hfit.
  destruct (find_fit_spec s bl fl t Hrep asize q s Hlists Hfit) as (_ & Hq).
  destruct (Z.eqb_spec q NULL) as [Eq|Nq]; cbn [negb] in H.
  - (* no fit: the heap is extended *)
    clear Hq.
    destruct (extend_size_chunk asize ltac:(hlia) A2) as (Ex & Ele & E16 & Elt).
    set (size := MAX asize CHUNKSIZE) in *.
    destruct (sbrk_refuses s size) eqn:Hroom.
    + rewrite <- Ex in Hroom.
      fwd H (extend_heap_fails _ _ Hroom). cbn [Z.eqb NULL] in H.
      subst X. exists NULL, s. split; [reflexivity|]. left. auto.
    + destruct (extend_heap_spec s bl fl t _ size Hok Ht Hmax Ex ltac:(hlia)
                  E16 Hroom)
        as (r & s1 & E1 & k1 & c & k2 & fl1 & -> & Nr & Hc & Hge & Hok1 &
            Hsame1 & G1).
      fwd H E1.
      replace (bptr c =? NULL) with false in H
        by (symmetry; apply Z.eqb_neq; exact Nr).
      pose proof G1 as (L1 & _).
      destruct (place_spec s1 k1 c k2 _ t asize Hok1
                  ltac:(rewrite L1; exact Ht) Hc ltac:(hlia) A2)
        as ([] & s2 & E2 & bl2 & fl2 & z & Hok2 & Hz & Hin & Hsame2 & F2).
      fwd H E2. subst X. exists (bptr c), s2. split; [reflexivity|].
      right. split; [intros Hne; contradiction|].
      split; [exact Nr|]. exists bl2, fl2, z.
      split; [exact Hok2|]. split; [hlia|]. split; [exact Hin|].
      assert (Hsub : forall x, In x bl -> balloc x = 1 ->
                               In x (k1 ++ c :: k2)).
      { intros x Hx Hax. apply (Hsame1 x Hax) in Hx.
        apply in_app_or in Hx. apply in_or_app.
        destruct Hx; [left|right; right]; assumption. }
      split; [|split].
      * intros x Hx. rewrite <- (Hsame2 x Hx). cbn [In].
        rewrite (Hsame1 x Hx). rewrite !in_app_iff. cbn [In].
        assert (x <> c) by (intros ->; rewrite Hc in Hx; discriminate).
        intuition congruence.
      * apply (grown_trans _ s s1); [exact G1|].
        apply frame_grown. apply (frame_incl (k1 ++ c :: k2)); [|exact F2].
        exact Hsub.
      * intros x Hx Hax Ex'. apply (Hsame1 x Hax) in Hx.
        destruct Hok1 as (Hrep1 & _).
        apply (b_alone s1 k1 k2 c _ t Hrep1 (bsize x) (balloc x)).
        rewrite <- Ex', <- block_eta. exact Hx.
  - (* a fit *)
    destruct Hq as [Hq|(b & Hb & Eb & Hfree & Hsz)]; [contradiction|].
    subst q. destruct (in_split _ _ Hb) as (l1 & l2 & Ebl). subst bl.
    destruct (place_spec s l1 b l2 fl t asize Hok Ht Hfree ltac:(hlia) A2)
      as ([] & s2 & E2 & bl2 & fl2 & z & Hok2 & Hz & Hin & Hsame2 & F2).
    fwd H E2. subst X. exists (bptr b), s2. split; [reflexivity|].
    right. split; [reflexivity|]. split; [exact Nq|]. exists bl2, fl2, z.
    split; [exact Hok2|]. split; [hlia|]. split; [exact Hin|].
    split; [exact Hsame2|]. split; [apply frame_grown; exact F2|].
    intros x Hx Hax Ex'.
    destruct (block_unique s _ Rlinked Rblocks (bptr b) (bsize x) (balloc x)
                (bsize b) (balloc b)) as [_ Ea].
    + rewrite <- Ex', <- block_eta. exact Hx.
    + rewrite <- block_eta. exact Hb.
    + congruence.
Qed.

(** ** [realloc] and [calloc] *)

(** Bytes written inside the payload of an allocated block. *)
Lemma payload_write s l1 q z l2 fl t m' :
  heap_ok s (l1 ++ (q, z, 1) :: l2) fl t ->
  (forall x, x < q \/ q + z - OVERHEAD <= x -> m' x = mem s x) ->
  heap_ok (set_mem s m') (l1 ++ (q, z, 1) :: l2) fl t /\
  frame (l1 ++ l2) s (set_mem s m').
Proof.
  intros (Hrep & Hcov & Hadj) Hm. pose proof Hrep as Hrep0. rep_fields Hrep.
  set (c := (q, z, 1)) in *.
  assert (Ic : In c (l1 ++ c :: l2))
    by (apply in_or_app; right; left; reflexivity).
  destruct (block_range s _ Rlinked Rblocks c Ic) as (C1 & C2 & C3 & _).
  cbn [c bptr bsize fst snd] in C1, C2, C3.
  split.
  - split; [|split; assumption].
    apply (rep_retag s (set_mem s m') l1 [c] [c] l2 fl t);
      try reflexivity; try assumption.
    + intros x Hx. specialize (Hx c (or_introl eq_refl)).
      cbn [c bptr bsize fst snd] in Hx. cbn [mem set_mem]. apply Hm. hlia.
    + intros p c' Hp [<-|[]] ->. destruct (Rmem _ Hp) as (sz & Hsz).
      destruct (block_unique s _ Rlinked Rblocks q sz 0 z 1 Hsz Ic) as [_ E].
      discriminate.
    + intros a e Hl. exact Hl.
    + constructor; [|constructor]. rewrite Forall_forall in Rblocks.
      exact (Rblocks c Ic).
    + constructor; [|constructor]. unfold hdr_ok. cbn [mem set_mem].
      rewrite Forall_forall in Rhdr. rewrite <- (Rhdr c (or_intror Ic)).
      apply load_ext. intros i Hi. apply Hm. cbn [c bptr fst]. hlia.
    + constructor; [|constructor]. unfold ftr_ok. cbn [mem set_mem].
      rewrite Forall_forall in Rftr. rewrite <- (Rftr c (or_intror Ic)).
      apply load_ext. intros i Hi. apply Hm. cbn [c bptr bsize fst snd]. hlia.
  - unfold frame. cbn [mem mem_lo mem_brk mem_max_addr heap_listp
                         segregated_lists set_mem].
    repeat (split; [reflexivity|]).
    intros x (b & Hb & Ha & Hx). apply Hm.
    assert (Hb' : In b (l1 ++ c :: l2)).
    { apply in_app_or in Hb. apply in_or_app.
      destruct Hb; [left|right; right]; assumption. }
    destruct (block_range s _ Rlinked Rblocks b Hb') as (D1 & D2 & D3 & _).
    destruct (blocks_apart s _ Rlinked Rblocks b c Hb' Ic) as [E|[?|?]].
    + exfalso. subst b.
      exact (b_alone s l1 l2 c fl t Hrep0 z 1 Hb).
    + cbn [c bptr bsize fst snd] in *. hlia.
    + cbn [c bptr bsize fst snd] in *. hlia.
Qed.

(** [realloc] of an allocated block once [malloc] has handed out the
    block at [q]. *)
Lemma realloc_spec s bl fl t p zp n q s1 :
  heap_ok s bl fl t -> t = mem_lo s -> In (p, zp, 1) bl -> 0 < n ->
  malloc n s = Ok (q, s1) -> allocated_at n s bl t q s1 ->
  returns (realloc p n) s (fun r s' =>
    r = q /\
    exists bl' fl' z,
      heap_ok s' bl' fl' t /\ In (q, z, 1) bl' /\ n + OVERHEAD <= z /\
      (forall zz, ~ In (p, zz, 1) bl') /\
      (forall i, 0 <= i < Z.min n zp -> mem s' (q + i) = mem s1 (p + i)) /\
      (forall i, Z.min n zp <= i < z - OVERHEAD ->
                 mem s' (q + i) = mem s1 (q + i)) /\
      (forall i, 0 <= i < Z.min n (zp - OVERHEAD) ->
                 mem s' (q + i) = mem s (p + i)) /\
      mem_lo s' = mem_lo s).
Proof.
  intros Hok Ht Hp Hn Hmalloc (Nq & bl1 & fl1 & z & Hok1 & Hz & Hq1 & Hsame1 &
                               G1 & Hfresh).
  pose proof Hok as (Hrep & _). pose proof Hok1 as (Hrep1 & _).
  pose proof G1 as (L1 & _).
  assert (Ip : In (p, zp, 1) (prologue s :: bl)) by (right; exact Hp).
  destruct (rep_body_range _ _ _ _ Hrep _ Ip) as (P1 & P2 & P3 & _).
  pose proof (rep_lo _ _ _ _ Hrep) as Hlo.
  pose proof (rep_brk _ _ _ _ Hrep1) as Hbrk1.
  cbn [bptr bsize fst snd] in P1, P2, P3.
  assert (Hp1 : In (p, zp, 1) bl1).
  { apply (Hsame1 (p, zp, 1) eq_refl). right. exact Hp. }
  assert (Ip1 : In (p, zp, 1) (prologue s1 :: bl1)) by (right; exact Hp1).
  assert (Iq1 : In (q, z, 1) (prologue s1 :: bl1)) by (right; exact Hq1).
  destruct (rep_body_range _ _ _ _ Hrep1 _ Ip1) as (P4 & P5 & _).
  destruct (rep_body_range _ _ _ _ Hrep1 _ Iq1) as (Q1 & Q2 & Q3 & _).
  cbn [bptr bsize fst snd] in P4, P5, Q1, Q2, Q3.
  pose proof (rep_tag_hdr _ _ _ _ Hrep1 _ Ip1) as Tp.
  cbn [bptr bsize balloc fst snd] in Tp.
  assert (Hpq : p <> q).
  { intros E. exact (Hfresh (p, zp, 1) Hp eq_refl E). }
  apply returns_intro. intros X H. unfold realloc in H.
  replace (n =? 0) with false in H by (symmetry; apply Z.eqb_neq; lia).
  replace (p =? NULL) with false in H by (symmetry; apply Z.eqb_neq; hlia).
  fwd H Hmalloc.
  replace (q =? NULL) with false in H by (symmetry; apply Z.eqb_neq; exact Nq).
  rewrite HDRP_eq in H by hlia.
  fwd H (GET_SIZE_at _ _ _ _ Tp). cbv zeta in H.
  replace (if n <? zp then n else zp) with (Z.min n zp) in H
    by (destruct (Z.ltb_spec n zp); lia).
  set (cnt := Z.min n zp) in *.
  set (s2 := set_mem s1 (copy_bytes (mem s1) q p cnt)).
  assert (E2 : memcpy q p cnt s1 = Ok (tt, s2)).
  { unfold memcpy.
    replace (cnt =? 0) with false by (symmetry; apply Z.eqb_neq; hlia).
    replace (valid_range s1 p cnt) with true
      by (symmetry; unfold valid_range; apply andb_true_iff;
          rewrite !Z.leb_le; hlia).
    replace (valid_range s1 q cnt) with true
      by (symmetry; unfold valid_range; apply andb_true_iff;
          rewrite !Z.leb_le; hlia).
    reflexivity. }
  fwd H E2.
  destruct (in_split _ _ Hq1) as (l1 & l2 & Ebl1).
  assert (Hcopy : forall x, x < q \/ q + z - OVERHEAD <= x ->
                            copy_bytes (mem s1) q p cnt x = mem s1 x).
  { intros x Hx. unfold copy_bytes.
    destruct (Z.leb_spec q x), (Z.ltb_spec x (q + cnt)); cbn [andb];
      try reflexivity. exfalso. hlia. }
  rewrite Ebl1 in Hok1.
  destruct (payload_write s1 l1 q z l2 fl1 t _ Hok1 Hcopy) as (Hok2 & _).
  fold s2 in Hok2. rewrite <- Ebl1 in Hok2.
  destruct (in_split _ _ Hp1) as (k1 & k2 & Ebl1').
  rewrite Ebl1' in Hok2.
  destruct (free_spec s2 k1 (p, zp, 1) k2 fl1 t Hok2
              ltac:(change (mem_lo s2) with (mem_lo s1); rewrite L1; exact Ht)
              eq_refl)
    as ([] & s3 & E3 & bl3 & fl3 & Hok3 & Hsame3 & F3).
  change (bptr (p, zp, 1)) with p in E3.
  fwd H E3. subst X. exists q, s3. split; [reflexivity|].
  split; [reflexivity|]. exists bl3, fl3, z.
  assert (Hq2 : In (q, z, 1) (k1 ++ k2)).
  { rewrite Ebl1' in Hq1. apply in_app_or in Hq1. apply in_or_app.
    destruct Hq1 as [?|[E|?]]; [left; assumption| |right; assumption].
    inversion E. contradiction. }
  assert (Hbyte : forall i, 0 <= i < z - OVERHEAD ->
                            mem s3 (q + i) = mem s2 (q + i)).
  { intros i Hi. destruct F3 as (_ & _ & _ & _ & _ & F3). apply F3.
    exists (q, z, 1). split; [exact Hq2|]. split; [reflexivity|].
    cbn [bptr bsize fst snd]. lia. }
  split; [exact Hok3|]. split; [apply (Hsame3 (q, z, 1) eq_refl); exact Hq2|].
  split; [exact Hz|]. split; [|split; [|split; [|split]]].
  - intros zz Hin. apply (Hsame3 (p, zz, 1) eq_refl) in Hin.
    destruct Hok2 as (Hrep2 & _).
    exact (b_alone s2 k1 k2 (p, zp, 1) fl1 t Hrep2 zz 1 Hin).
  - intros i Hi. rewrite Hbyte by hlia. unfold s2. cbn [mem set_mem].
    unfold copy_bytes.
    replace ((q <=? q + i) && (q + i <? q + cnt)) with true
      by (symmetry; apply andb_true_iff; rewrite Z.leb_le, Z.ltb_lt; lia).
    f_equal. lia.
  - intros i Hi. rewrite Hbyte by hlia. unfold s2. cbn [mem set_mem].
    unfold copy_bytes.
    replace (q + i <? q + cnt) with false
      by (symmetry; apply Z.ltb_ge; lia).
    rewrite andb_false_r. reflexivity.
  - intros i Hi. rewrite Hbyte by hlia. unfold s2. cbn [mem set_mem].
    unfold copy_bytes.
    replace ((q <=? q + i) && (q + i <? q + cnt)) with true
      by (symmetry; apply andb_true_iff; rewrite Z.leb_le, Z.ltb_lt; hlia).
    replace (p + (q + i - q)) with (p + i) by lia.
    destruct G1 as (_ & _ & _ & _ & _ & G1). apply G1.
    exists (p, zp, 1). split; [exact Hp|]. split; [reflexivity|].
    cbn [bptr bsize fst snd]. hlia.
  - destruct F3 as (L3 & _). rewrite L3. exact L1.
Qed.

(** [calloc] once [malloc] has handed out the block at [q]. *)
Lemma calloc_spec s bl t k n q s1 :
  0 < wrap (k * n) ->
  malloc (wrap (k * n)) s = Ok (q, s1) ->
  allocated_at (wrap (k * n)) s bl t q s1 ->
  returns (calloc k n) s (fun r s' =>
    r = q /\
    exists bl' fl' z,
      heap_ok s' bl' fl' t /\ In (q, z, 1) bl' /\
      wrap (k * n) + OVERHEAD <= z /\
      (forall i, 0 <= i < wrap (k * n) -> mem s' (q + i) = 0) /\
      mem_lo s' = mem_lo s).
Proof.
  intros Hn Hmalloc (Nq & bl1 & fl1 & z & Hok1 & Hz & Hq1 & Hsame1 & G1 & _).
  pose proof Hok1 as (Hrep1 & _). pose proof G1 as (L1 & _).
  assert (Iq1 : In (q, z, 1) (prologue s1 :: bl1)) by (right; exact Hq1).
  destruct (rep_body_range _ _ _ _ Hrep1 _ Iq1) as (Q1 & Q2 & Q3 & _).
  cbn [bptr bsize fst snd] in Q1, Q2, Q3.
  set (bytes := wrap (k * n)) in *.
  set (s2 := set_mem s1 (fill_bytes (mem s1) q 0 bytes)).
  assert (E2 : memset q 0 bytes s1 = Ok (tt, s2)).
  { unfold memset.
    replace (bytes =? 0) with false by (symmetry; apply Z.eqb_neq; lia).
    replace (valid_range s1 q bytes) with true
      by (symmetry; unfold valid_range; apply andb_true_iff;
          rewrite !Z.leb_le; hlia).
    reflexivity. }
  exists q, s2. split.
  - unfold calloc. cbv zeta. fold bytes.
    rewrite (bind_eq _ _ _ _ _ Hmalloc), (bind_eq _ _ _ _ _ E2). reflexivity.
  - split; [reflexivity|]. exists bl1, fl1, z.
    destruct (in_split _ _ Hq1) as (l1 & l2 & Ebl1).
    assert (Hfill : forall x, x < q \/ q + z - OVERHEAD <= x ->
                              fill_bytes (mem s1) q 0 bytes x = mem s1 x).
    { intros x Hx. unfold fill_bytes.
      destruct (Z.leb_spec q x), (Z.ltb_spec x (q + bytes)); cbn [andb];
        try reflexivity. exfalso. hlia. }
    rewrite Ebl1 in Hok1.
    destruct (payload_write s1 l1 q z l2 fl1 t _ Hok1 Hfill) as (Hok2 & _).
    fold s2 in Hok2. rewrite <- Ebl1 in Hok2.
    split; [exact Hok2|]. split; [exact Hq1|]. split; [exact Hz|].
    split; [|exact L1].
    intros i Hi. unfold s2. cbn [mem set_mem]. unfold fill_bytes.
    replace ((q <=? q + i) && (q + i <? q + bytes)) with true
      by (symmetry; apply andb_true_iff; rewrite Z.leb_le, Z.ltb_lt; lia).
    reflexivity.
Qed.

(** ** [mm_init] *)

Lemma clear_lists_heap k : forall j s u s',
  clear_lists k j s = Ok (u, s') -> exists l, s' = set_segregated_lists s l.
Proof.
  induction k as [|k IH]; intros j s u s' H.
  - cbn in H. inversion H. subst s'. exists (segregated_lists s).
    destruct s. reflexivity.
  - cbn [clear_lists] in H. apply bind_ok in H.
    destruct H as ([] & s1 & H1 & H2). unfold put_list in H1.
    destruct ((0 <=? j) && (j <? LISTLIMIT)
              && (Z.to_nat j <? length (segregated_lists s))%nat);
      [|discriminate].
    inversion H1. subst s1. clear H1.
    destruct (IH _ _ _ _ H2) as (l & ->). exists l. reflexivity.
Qed.

(** The representation does not read the bucket table. *)
Lemma rep_lists s bl fl t l :
  heap_rep s bl fl t -> heap_rep (set_segregated_lists s l) bl fl t.
Proof.
  intros Hrep. rep_fields Hrep. constructor; assumption.
Qed.

(** The heap [mm_init] builds before it asks for the first block: a
    prologue and an epilogue header, and a free list that is empty. *)
Lemma init_rep s m t :
  0 < mem_lo s -> mem_brk s = mem_lo s + 2 * DSIZE -> mem_brk s < 2 ^ 64 ->
  heap_listp s = mem_lo s + DSIZE -> free_listp s = t ->
  t = NULL \/ t = mem_lo s ->
  mem s = store (store (store (store m (mem_lo s) 0)
                          (mem_lo s + WSIZE) (DSIZE + 1))
                   (mem_lo s + DSIZE) (DSIZE + 1))
            (mem_lo s + 3 * WSIZE) 1 ->
  heap_ok s [] [] t.
Proof.
  intros Hlo Hbrk Hlt Hlp Hfl Ht Hm. split; [|split].
  - constructor.
    + exact Hlo.
    + exact Hlt.
    + exact Hlp.
    + cbn [linked prologue bptr bsize fst snd]. split; [reflexivity|hlia].
    + constructor.
    + constructor; [|constructor]. unfold hdr_ok.
      cbn [prologue bptr bsize balloc fst snd]. rewrite Hm.
      rewrite !load_store_other by hlia.
      replace (mem_lo s + DSIZE - WSIZE) with (mem_lo s + WSIZE) by hlia.
      rewrite load_store_same. apply wrap_small. hlia.
    + constructor; [|constructor]. unfold ftr_ok.
      cbn [prologue bptr bsize balloc fst snd]. rewrite Hm.
      rewrite !load_store_other by hlia.
      replace (mem_lo s + DSIZE + DSIZE - DSIZE) with (mem_lo s + DSIZE)
        by hlia.
      rewrite load_store_same. apply wrap_small. hlia.
    + rewrite Hm, Hbrk.
      replace (mem_lo s + 2 * DSIZE - WSIZE) with (mem_lo s + 3 * WSIZE)
        by hlia.
      rewrite load_store_same. reflexivity.
    + intros q [].
    + constructor.
    + exact I.
    + exact Hfl.
    + exact Ht.
  - intros p. split; [intros []|intros (sz & [])].
  - reflexivity.
Qed.

(** ** The public operations on a heap in order *)

(** What [malloc] does when it returns. *)
Lemma malloc_cases s bl fl n q s1 :
  good s bl fl -> 0 <= n -> n + 2 * DSIZE < 2 ^ 64 ->
  malloc n s = Ok (q, s1) ->
  (q = NULL /\ s1 = s) \/ allocated_at n s bl (mem_lo s) q s1.
Proof.
  intros (Hok & Hlists & Hmax) Hn Hb H.
  destruct (Z.eq_dec n 0) as [->|Hn0].
  { cbn in H. inversion H. left. auto. }
  pose proof H as H'. unfold malloc in H'.
  replace (n <=? 0) with false in H' by (symmetry; apply Z.leb_gt; lia).
  cbv zeta in H'. apply bind_ok in H'. destruct H' as (q0 & s0 & Hfit & _).
  pose proof (find_fit_pure _ _ _ _ Hfit) as ->.
  pose proof (malloc_spec s bl fl (mem_lo s) n q0 Hok eq_refl Hmax Hlists
                ltac:(lia) Hb Hfit) as Hm.
  destruct (returns_ok _ _ _ _ _ Hm H) as [(-> & -> & _)|(_ & Ha)].
  - left. auto.
  - right. exact Ha.
Qed.

Lemma free_cases s bl fl p u s' :
  heap_ok s bl fl (mem_lo s) -> in_use bl p ->
  free p s = Ok (u, s') ->
  mem_lo s' = mem_lo s /\ exists bl' fl', heap_ok s' bl' fl' (mem_lo s).
Proof.
  intros Hok [->|(z & Hp)] H.
  - cbn in H. inversion H. subst. split; [reflexivity|]. exists bl, fl.
    exact Hok.
  - destruct (in_split _ _ Hp) as (l1 & l2 & ->).
    pose proof (free_spec s l1 (p, z, 1) l2 fl (mem_lo s) Hok eq_refl eq_refl)
      as Hf.
    destruct (returns_ok _ _ _ _ _ Hf H) as (bl' & fl' & Hok' & _ & F).
    destruct F as (L & _). split; [exact L|]. exists bl', fl'. exact Hok'.
Qed.

Lemma allocated_at_ok n s bl q s1 :
  allocated_at n s bl (mem_lo s) q s1 ->
  mem_lo s1 = mem_lo s /\ exists bl' fl', heap_ok s1 bl' fl' (mem_lo s).
Proof.
  intros (_ & bl' & fl' & z & Hok & _ & _ & _ & (L & _) & _).
  split; [exact L|]. exists bl', fl'. exact Hok.
Qed.

(** The heap is in order again after every call that returns. *)
Lemma heap_ok_after_call c s bl fl r s' :
  ready c s bl fl -> run c s = Ok (r, s') -> c <> Init ->
  exists bl' fl', heap_ok s' bl' fl' (mem_lo s').
Proof.
  intros Hready H Hr.
  assert (Hfin : forall s1, mem_lo s1 = mem_lo s /\
                   (exists bl' fl', heap_ok s1 bl' fl' (mem_lo s)) ->
                 exists bl' fl', heap_ok s1 bl' fl' (mem_lo s1)).
  { intros s1 (L & Hx). rewrite L. exact Hx. }
  destruct c as [|n|p|p n|k n]; cbn [run ready] in *.
  - contradiction.
  - destruct Hready as (Hgood & Hn & Hb).
    destruct (malloc_cases s bl fl n r s' Hgood Hn Hb H) as [(_ & ->)|Ha].
    + exists bl, fl. exact (proj1 Hgood).
    + exact (Hfin _ (allocated_at_ok _ _ _ _ _ Ha)).
  - destruct Hready as ((Hok & _) & Hp).
    apply bind_ok in H. destruct H as (u & s1 & H & Hret).
    inversion Hret. subst s1. exact (Hfin _ (free_cases _ _ _ _ _ _ Hok Hp H)).
  - destruct Hready as (Hgood & Hp & Hn & Hb). pose proof Hgood as (Hok & _).
    unfold realloc in H. destruct (Z.eqb_spec n 0) as [->|Hn0].
    { apply bind_ok in H. destruct H as (u & s1 & H & Hret).
      inversion Hret. subst s1.
      exact (Hfin _ (free_cases _ _ _ _ _ _ Hok Hp H)). }
    destruct (Z.eqb_spec p NULL) as [->|Hp0].
    { destruct (malloc_cases s bl fl n r s' Hgood Hn Hb H) as [(_ & ->)|Ha].
      - exists bl, fl. exact Hok.
      - exact (Hfin _ (allocated_at_ok _ _ _ _ _ Ha)). }
    destruct Hp as [Hp|(zp & Hp)]; [contradiction|].
    pose proof H as H'. apply bind_ok in H'.
    destruct H' as (q & s1 & Hm & H').
    destruct (malloc_cases s bl fl n q s1 Hgood Hn Hb Hm) as [(-> & ->)|Ha].
    + cbn in H'. inversion H'. subst. exists bl, fl. exact Hok.
    + pose proof (realloc_spec s bl fl (mem_lo s) p zp n q s1 Hok eq_refl Hp
                    ltac:(lia) Hm Ha) as Hre.
      assert (Hre' : realloc p n s = Ok (r, s')).
      { unfold realloc.
        replace (n =? 0) with false by (symmetry; apply Z.eqb_neq; exact Hn0).
        replace (p =? NULL) with false
          by (symmetry; apply Z.eqb_neq; exact Hp0).
        exact H. }
      destruct (returns_ok _ _ _ _ _ Hre Hre')
        as (_ & bl' & fl' & z & Hok' & _ & _ & _ & _ & _ & _ & L).
      rewrite <- L in Hok'. exists bl', fl'. exact Hok'.
  - destruct Hready as (Hgood & Hb). pose proof Hgood as (Hok & _).
    pose proof (Z.mod_pos_bound (k * n) (2 ^ 64) ltac:(lia)) as Hw.
    fold (wrap (k * n)) in Hw.
    pose proof H as H'. unfold calloc in H'. cbv zeta in H'.
    apply bind_ok in H'. destruct H' as (q & s1 & Hm & H').
    destruct (malloc_cases s bl fl (wrap (k * n)) q s1 Hgood ltac:(lia) Hb Hm)
      as [(-> & ->)|Ha].
    + apply bind_ok in H'. destruct H' as (u & s2 & Hset & Hret).
      inversion Hret. subst s2. unfold memset in Hset.
      destruct (wrap (k * n) =? 0).
      * inversion Hset. subst. exists bl, fl. exact Hok.
      * replace (valid_range s NULL (wrap (k * n))) with false in Hset.
        { discriminate. }
        symmetry. unfold valid_range. apply andb_false_iff. left.
        apply Z.leb_gt. destruct Hok as (Hrep & _).
        pose proof (rep_lo _ _ _ _ Hrep). hlia.
    + destruct (Z.eq_dec (wrap (k * n)) 0) as [E0|E0].
      { rewrite E0 in Hm. cbn in Hm. inversion Hm. subst.
        destruct Ha as (Nq & _). contradiction. }
      pose proof (calloc_spec s bl (mem_lo s) k n q s1 ltac:(lia) Hm Ha) as Hc.
      destruct (returns_ok _ _ _ _ _ Hc H)
        as (_ & bl' & fl' & z & Hok' & _ & _ & _ & L).
      rewrite <- L in Hok'. exists bl', fl'. exact Hok'.
Qed.

(** With the bucket table as [mm_init] leaves it, what the next call
    relies on holds again. *)
Lemma same_limits_refl s : same_limits s s.
Proof. split; reflexivity. Qed.

Lemma same_limits_trans s1 s2 s3 :
  same_limits s1 s2 -> same_limits s2 s3 -> same_limits s1 s3.
Proof. intros [A1 A2] [B1 B2]. split; congruence. Qed.

Lemma calls_keep_limits c s r s' :
  c <> Init -> run c s = Ok (r, s') -> same_limits s s'.
Proof.
  assert (Hm : forall s m, same_limits s (set_mem s m))
    by (intros; split; reflexivity).
  assert (Hf : forall s p, same_limits s (set_free_listp s p))
    by (intros; split; reflexivity).
  assert (Hb : forall s b, same_limits s (set_brk s b))
    by (intros; split; reflexivity).
  intros Hc H. destruct c as [|n|p|p n|k n]; cbn [run] in H.
  - contradiction.
  - exact (keeps_malloc _ same_limits_refl same_limits_trans Hm Hf Hb _ _ _ _
             H).
  - apply bind_ok in H. destruct H as (u & s1 & H & Hret).
    inversion Hret. subst s1.
    exact (keeps_free _ same_limits_refl same_limits_trans Hm Hf _ _ _ _ H).
  - exact (keeps_realloc _ same_limits_refl same_limits_trans Hm Hf Hb _ _ _ _
             _ H).
  - exact (keeps_calloc _ same_limits_refl same_limits_trans Hm Hf Hb _ _ _ _
             _ H).
Qed.

Lemma good_after_call c s bl fl r s' :
  ready c s bl fl -> c <> Init ->
  Forall (fun h => h = NULL) (segregated_lists s) ->
  run c s = Ok (r, s') ->
  exists bl' fl', good s' bl' fl'.
Proof.
  intros Hready Hc Hnull H.
  destruct (heap_ok_after_call c s bl fl r s' Hready H Hc)
    as (bl' & fl' & Hok).
  destruct (calls_keep_limits c s r s' Hc H) as [Hl Hmax].
  assert (Hlim : mem_max_addr s < 2 ^ 64).
  { destruct c; cbn [ready] in Hready; [contradiction|..];
      destruct Hready as ((_ & _ & Hx) & _); exact Hx. }
  exists bl', fl'. split; [exact Hok|]. split; [|rewrite Hmax; exact Hlim].
  unfold lists_ok. rewrite Hl. apply Forall_forall. intros h Hh. left.
  rewrite Forall_forall in Hnull. exact (Hnull h Hh).
Qed.

(** ** The concrete heap is in order *)

Lemma demo_heap_ok lists room :
  heap_ok (Demo.tidy lists room) Demo.blocks Demo.free_blocks 4096.
Proof.
  split; [|split].
  - constructor.
    + reflexivity.
    + reflexivity.
    + reflexivity.
    + cbn. repeat split; reflexivity.
    + unfold Demo.blocks.
      repeat (constructor;
              [unfold block_ok; cbn [bsize balloc fst snd];
               split; [unfold OVERHEAD, DSIZE, WSIZE; lia|];
               split; [reflexivity|]; first [left; reflexivity
                                            |right; reflexivity]|]).
      constructor.
    + unfold Demo.blocks.
      repeat (constructor; [vm_compute; reflexivity|]). constructor.
    + unfold Demo.blocks.
      repeat (constructor; [vm_compute; reflexivity|]). constructor.
    + vm_compute. reflexivity.
    + intros q [<-|[<-|[<-|[]]]]; [exists 64|exists 32|exists 32];
        cbn; tauto.
    + unfold Demo.free_blocks, Demo.D, Demo.B, Demo.H.
      repeat constructor; cbn; intros K; repeat destruct K as [K|K];
        try discriminate; exact K.
    + cbn [dll Demo.free_blocks hd]. repeat split; vm_compute; reflexivity.
    + reflexivity.
    + right. reflexivity.
  - intros p. split.
    + intros [<-|[<-|[<-|[]]]]; [exists 64|exists 32|exists 32];
        cbn; tauto.
    + intros (sz & K). cbn in K.
      repeat destruct K as [K|K]; try discriminate; try contradiction;
        inversion K; cbn; tauto.
  - reflexivity.
Qed.

Lemma demo_good_empty :
  good (Demo.tidy Demo.no_lists 0) Demo.blocks Demo.free_blocks.
Proof.
  split; [exact (demo_heap_ok _ _)|]. split; [|reflexivity].
  unfold lists_ok. cbn [segregated_lists Demo.tidy Demo.heap set_mem].
  apply Forall_forall. intros h Hh. left.
  exact (repeat_spec _ _ _ Hh).
Qed.

Lemma demo_good_D :
  good (Demo.tidy Demo.D_lists 0) Demo.blocks Demo.free_blocks.
Proof.
  split; [exact (demo_heap_ok _ _)|]. split; [|reflexivity].
  unfold lists_ok. cbn [segregated_lists Demo.tidy Demo.heap set_mem].
  apply Forall_forall. intros h Hh. cbn in Hh.
  repeat destruct Hh as [Hh|Hh]; try contradiction;
    try (left; symmetry; exact Hh).
  right. left. left. exact Hh.
Qed.

(** * What [realloc] copies *)

(** C4, as the code has it: let [p] be an allocated block of [zp] bytes,
    boundary tags included, so with a payload of [zp - OVERHEAD] bytes,
    and [m > 0] a request for which [malloc m] returns [q].  If [q] is
    null, [realloc p m] returns null and the heap is as it was.  If not,
    [realloc p m] returns [q], an allocated block with room for [m]
    bytes, and [p] is no allocated block any more.  The bytes copied are
    [min m zp]: the count is taken from the header of [p], which holds
    the block size, not the payload size.  So the first
    [min m (zp - OVERHEAD)] bytes at [q] are the bytes stored at [p]
    before the call, the bytes up to [min m zp] are those that followed
    them when [malloc] had returned (the footer of [p] and the header
    after it), and the rest of the payload of [q] is as [malloc] left
    it. *)
Theorem realloc_copies_block_size s bl fl p zp m q s1 :
  good s bl fl -> In (p, zp, 1) bl -> 0 < m -> m + 2 * DSIZE < 2 ^ 64 ->
  malloc m s = Ok (q, s1) ->
  (q = NULL -> realloc p m s = Ok (NULL, s)) /\
  (q <> NULL ->
   returns (realloc p m) s (fun r s' =>
     r = q /\
     exists bl' fl' z,
       heap_ok s' bl' fl' (mem_lo s') /\
       In (q, z, 1) bl' /\ m + OVERHEAD <= z /\
       (forall zz, ~ In (p, zz, 1) bl') /\
       (forall i, 0 <= i < Z.min m zp -> mem s' (q + i) = mem s1 (p + i)) /\
       (forall i, Z.min m zp <= i < z - OVERHEAD ->
                  mem s' (q + i) = mem s1 (q + i)) /\
       (forall i, 0 <= i < Z.min m (zp - OVERHEAD) ->
                  mem s' (q + i) = mem s (p + i)))).
Proof.
  intros Hgood Hp Hm Hb Hmalloc. pose proof Hgood as (Hok & _).
  destruct (malloc_cases s bl fl m q s1 Hgood ltac:(lia) Hb Hmalloc)
    as [(-> & ->)|Ha].
  - split; [|intros K; contradiction]. intros _.
    assert (Ip : In (p, zp, 1) (prologue s :: bl)) by (right; exact Hp).
    destruct Hok as (Hrep & _).
    destruct (rep_body_range _ _ _ _ Hrep _ Ip) as (P1 & _).
    pose proof (rep_lo _ _ _ _ Hrep) as Hlo. cbn [bptr fst] in P1.
    unfold realloc.
    replace (m =? 0) with false by (symmetry; apply Z.eqb_neq; lia).
    replace (p =? NULL) with false by (symmetry; apply Z.eqb_neq; hlia).
    rewrite (bind_eq _ _ _ _ _ Hmalloc). reflexivity.
  - split; [intros K; destruct Ha as (Nq & _); contradiction|]. intros _.
    pose proof (realloc_spec s bl fl (mem_lo s) p zp m q s1 Hok eq_refl Hp Hm
                  Hmalloc Ha) as Hre.
    apply (returns_weaken _ _ _ _ Hre).
    intros r s' (-> & bl' & fl' & z & Hok' & Hq & Hz & Hrel & C1 & C2 & C3 & L).
    split; [reflexivity|]. exists bl', fl', z. rewrite L.
    repeat (split; [assumption|]). exact C3.
Qed.

Lemma realloc_copies_block_size_witness :
  let s := Demo.tidy Demo.D_lists 0 in
  let s1 := state_of (malloc 40 s) s in
  returns (realloc Demo.F 40) s (fun r s' =>
    r = Demo.D /\
    exists bl' fl' z,
      heap_ok s' bl' fl' (mem_lo s') /\
      In (Demo.D, z, 1) bl' /\ 40 + OVERHEAD <= z /\
      (forall zz, ~ In (Demo.F, zz, 1) bl') /\
      (forall i, 0 <= i < Z.min 40 32 ->
                 mem s' (Demo.D + i) = mem s1 (Demo.F + i)) /\
      (forall i, Z.min 40 32 <= i < z - OVERHEAD ->
                 mem s' (Demo.D + i) = mem s1 (Demo.D + i)) /\
      (forall i, 0 <= i < Z.min 40 (32 - OVERHEAD) ->
                 mem s' (Demo.D + i) = mem s (Demo.F + i))).
Proof.
  intros s s1.
  assert (V : value_of (malloc 40 s) = Some Demo.D)
    by (vm_compute; reflexivity).
  assert (E : malloc 40 s = Ok (Demo.D, s1)).
  { unfold s1. destruct (malloc 40 s) as [[q x]|f]; [|discriminate].
    cbn in *. inversion V. reflexivity. }
  refine (proj2 (realloc_copies_block_size s Demo.blocks Demo.free_blocks
                   Demo.F 32 40 Demo.D s1 demo_good_D _ _ _ E) _).
  - cbn. tauto.
  - lia.
  - reflexivity.
  - discriminate.
Defined.

(** The claim as the specification has it: [F] has a payload of 16
    bytes, so [realloc F 40] would copy 16 bytes.  The word at offset 16
    of the new block, which [malloc] left 0, holds the footer of [F]
    after the call. *)
Lemma realloc_copy_counterexample :
  let s := Demo.tidy Demo.D_lists 0 in
  In (Demo.F, 32, 1) Demo.blocks /\ Z.min (32 - OVERHEAD) 40 = 16 /\
  match malloc 40 s, realloc Demo.F 40 s with
  | Ok (q, s1), Ok (r, s') =>
      r = q /\ mem s1 (q + 16) = 0 /\
      mem s (Demo.F + 16) = 33 /\ mem s' (q + 16) = 33
  | _, _ => False
  end.
Proof.
  split; [cbn; tauto|]. split; [reflexivity|].
  vm_compute. repeat split; reflexivity.
Qed.

(** * The heap checker *)

(** The checker only reads. *)
Lemma keeps_print_block bp : keeps unchanged (print_block bp).
Proof.
  pose proof unchanged_refl as Rr. pose proof unchanged_trans as Rt.
  unfold print_block.
  apply keeps_bind; [assumption|apply keeps_reads_GET_SIZE; assumption|].
  intros hsize.
  apply keeps_bind; [assumption|apply keeps_reads_GET_ALLOC; assumption|].
  intros halloc.
  apply keeps_bind; [assumption|apply keeps_FTRP; assumption|]. intros f.
  apply keeps_bind; [assumption|apply keeps_reads_GET_SIZE; assumption|].
  intros fsize.
  apply keeps_bind; [assumption|apply keeps_FTRP; assumption|]. intros f'.
  apply keeps_bind; [assumption|apply keeps_reads_GET_ALLOC; assumption|].
  intros falloc.
  apply keeps_if; apply keeps_ret; assumption.
Qed.

Lemma keeps_check_block bp : keeps unchanged (check_block bp).
Proof.
  pose proof unchanged_refl as Rr. pose proof unchanged_trans as Rt.
  unfold check_block.
  apply keeps_bind; [assumption|apply keeps_GET; assumption|]. intros h.
  apply keeps_bind; [assumption|apply keeps_FTRP; assumption|]. intros f.
  apply keeps_bind; [assumption|apply keeps_GET; assumption|]. intros t.
  apply keeps_ret; assumption.
Qed.

Lemma keeps_check_loop n verbose bp : keeps unchanged (check_loop n verbose bp).
Proof.
  pose proof unchanged_refl as Rr. pose proof unchanged_trans as Rt.
  revert bp. induction n as [|n IH]; intros bp; cbn [check_loop].
  - apply keeps_raise.
  - apply keeps_bind; [assumption|apply keeps_reads_GET_SIZE; assumption|].
    intros sz. apply keeps_if; [|apply keeps_ret; assumption].
    apply keeps_bind; [assumption| |].
    { apply keeps_if; [apply keeps_print_block|apply keeps_ret; assumption]. }
    intros o1.
    apply keeps_bind; [assumption|apply keeps_check_block|]. intros o2.
    apply keeps_bind; [assumption|apply keeps_NEXT_BLKP; assumption|].
    intros nb.
    apply keeps_bind; [assumption|apply IH|]. intros r.
    apply keeps_ret; assumption.
Qed.

Lemma keeps_bad_header bp size : keeps unchanged (bad_header bp size).
Proof.
  pose proof unchanged_refl as Rr. pose proof unchanged_trans as Rt.
  unfold bad_header.
  apply keeps_bind; [assumption|apply keeps_reads_GET_SIZE; assumption|].
  intros sz. apply keeps_if; [apply keeps_ret; assumption|].
  apply keeps_bind; [assumption|apply keeps_reads_GET_ALLOC; assumption|].
  intros a. apply keeps_ret; assumption.
Qed.

Lemma keeps_mm_checkheap verbose : keeps unchanged (mm_checkheap verbose).
Proof.
  pose proof unchanged_refl as Rr. pose proof unchanged_trans as Rt.
  intros s o s' H. unfold mm_checkheap in H. revert H.
  apply (keeps_bind unchanged Rt).
  - apply keeps_bad_header.
  - intros bad.
    apply keeps_bind; [assumption|apply keeps_check_block|]. intros o2.
    apply keeps_bind; [assumption|apply keeps_check_loop|]. intros r.
    apply keeps_bind; [assumption| |].
    { apply keeps_if; [apply keeps_print_block|apply keeps_ret; assumption]. }
    intros o4.
    apply keeps_bind; [assumption|apply keeps_bad_header|]. intros bad'.
    apply keeps_ret; assumption.
Qed.

(** Blocks that lie end to end and whose sizes are multiples of 16 all
    start a multiple of 16 bytes from the first. *)
Lemma linked_aligned p l e c :
  linked p l e -> (forall x, In x l -> bsize x mod 16 = 0) -> In c l ->
  (bptr c - p) mod 16 = 0.
Proof.
  revert p. induction l as [|x r IH]; intros p Hl Hs Hc; [destruct Hc|].
  cbn [linked] in Hl. destruct Hl as (Ex & Hl). destruct Hc as [<-|Hc].
  - rewrite Ex, Z.sub_diag. reflexivity.
  - specialize (IH _ Hl (fun y Hy => Hs y (or_intror Hy)) Hc).
    replace (bptr c - p) with ((bptr c - (p + bsize x)) + bsize x) by lia.
    apply mod16_add; [exact IH|]. apply Hs. left. reflexivity.
Qed.

Lemma rep_aligned s bl fl t c :
  heap_rep s bl fl t -> mem_lo s mod 8 = 0 -> In c (prologue s :: bl) ->
  bptr c mod 8 = 0.
Proof.
  intros Hrep Hlo Hc. pose proof Hrep as Hrep0. rep_fields Hrep0.
  assert (H16 : (bptr c - (mem_lo s + DSIZE)) mod 16 = 0).
  { apply (linked_aligned _ _ _ _ Rlinked); [|exact Hc].
    intros x Hx. destruct (rep_body_range _ _ _ _ Hrep _ Hx) as (_ & _ & _ & H & _).
    exact H. }
  apply Z.mod_divide in H16; [|lia]. destruct H16 as (k & Hk).
  apply Z.mod_divide in Hlo; [|lia]. destruct Hlo as (j & Hj).
  apply Z.mod_divide; [lia|]. exists (2 * k + j + 2). hlia.
Qed.

(** [FTRP] of a header of size 0 is the word before the header. *)
Lemma FTRP_end s bp a :
  tag_at s (bp - WSIZE) 0 a -> DSIZE <= bp ->
  FTRP bp s = Ok (bp - DSIZE, s).
Proof.
  intros T Hb. pose proof (tag_at_bound _ _ _ _ T).
  unfold FTRP. rewrite HDRP_eq by hlia.
  rewrite (bind_eq _ _ _ _ _ (GET_SIZE_at _ _ _ _ T)).
  unfold ret. rewrite Z.add_0_r, (wrap_small bp) by hlia.
  rewrite wrap_small by hlia. reflexivity.
Qed.

Lemma print_block_at s bp sz a fsz fa :
  tag_at s (bp - WSIZE) sz a -> tag_at s (bp + sz - DSIZE) fsz fa ->
  bp + sz <= mem_brk s -> WSIZE <= sz ->
  print_block bp s =
  Ok ([Block_line bp sz (letter_of a) fsz (letter_of fa)], s).
Proof.
  intros T F Hb Hs. pose proof (tag_at_bound _ _ _ _ T).
  unfold print_block. rewrite HDRP_eq by hlia.
  rewrite (bind_eq _ _ _ _ _ (GET_SIZE_at _ _ _ _ T)).
  rewrite (bind_eq _ _ _ _ _ (GET_ALLOC_at _ _ _ _ T)).
  rewrite (bind_eq _ _ _ _ _ (FTRP_at _ _ _ _ T Hb Hs)).
  rewrite (bind_eq _ _ _ _ _ (GET_SIZE_at _ _ _ _ F)).
  rewrite (bind_eq _ _ _ _ _ (FTRP_at _ _ _ _ T Hb Hs)).
  rewrite (bind_eq _ _ _ _ _ (GET_ALLOC_at _ _ _ _ F)).
  replace (sz =? 0) with false by (symmetry; apply Z.eqb_neq; hlia).
  reflexivity.
Qed.

Lemma print_block_end s bp a fsz fa :
  tag_at s (bp - WSIZE) 0 a -> tag_at s (bp - DSIZE) fsz fa ->
  print_block bp s = Ok ([End_of_list bp], s).
Proof.
  intros T F. pose proof (tag_at_bound _ _ _ _ T).
  pose proof (tag_at_bound _ _ _ _ F).
  assert (Hb : DSIZE <= bp) by hlia.
  unfold print_block. rewrite HDRP_eq by hlia.
  rewrite (bind_eq _ _ _ _ _ (GET_SIZE_at _ _ _ _ T)).
  rewrite (bind_eq _ _ _ _ _ (GET_ALLOC_at _ _ _ _ T)).
  rewrite (bind_eq _ _ _ _ _ (FTRP_end _ _ _ T Hb)).
  rewrite (bind_eq _ _ _ _ _ (GET_SIZE_at _ _ _ _ F)).
  rewrite (bind_eq _ _ _ _ _ (FTRP_end _ _ _ T Hb)).
  rewrite (bind_eq _ _ _ _ _ (GET_ALLOC_at _ _ _ _ F)).
  reflexivity.
Qed.

Lemma GET_at s p sz a : tag_at s p sz a -> GET p s = Ok (sz + a, s).
Proof.
  intros T. pose proof (tag_at_valid _ _ _ _ T) as V.
  destruct T as (_ & _ & _ & _ & E & _). rewrite (GET_eq _ _ V), E.
  reflexivity.
Qed.

Lemma check_block_at s bp sz a fsz fa :
  tag_at s (bp - WSIZE) sz a -> tag_at s (bp + sz - DSIZE) fsz fa ->
  bp + sz <= mem_brk s -> WSIZE <= sz ->
  check_block bp s =
  Ok ((if negb (bp mod 8 =? 0) then [Not_aligned bp] else []) ++
      (if negb (sz + a =? fsz + fa) then [Tag_mismatch] else []), s).
Proof.
  intros T F Hb Hs. pose proof (tag_at_bound _ _ _ _ T).
  unfold check_block. rewrite HDRP_eq by hlia.
  rewrite (bind_eq _ _ _ _ _ (GET_at _ _ _ _ T)).
  rewrite (bind_eq _ _ _ _ _ (FTRP_at _ _ _ _ T Hb Hs)).
  rewrite (bind_eq _ _ _ _ _ (GET_at _ _ _ _ F)).
  reflexivity.
Qed.

Lemma bad_header_at s bp sz a size :
  tag_at s (bp - WSIZE) sz a ->
  bad_header bp size s = Ok (negb (sz =? size) || (a =? 0), s).
Proof.
  intros T. pose proof (tag_at_bound _ _ _ _ T).
  unfold bad_header. rewrite HDRP_eq by hlia.
  rewrite (bind_eq _ _ _ _ _ (GET_SIZE_at _ _ _ _ T)).
  destruct (sz =? size); cbn [negb orb]; [|reflexivity].
  rewrite (bind_eq _ _ _ _ _ (GET_ALLOC_at _ _ _ _ T)). reflexivity.
Qed.

Section CheckLoop.

Variable s : state.
Variable verbose : Z.
Variables po co : block -> list message.
Variable ea : Z.
Hypothesis Hbrk : WSIZE <= mem_brk s < 2 ^ 64.
Hypothesis Te : tag_at s (mem_brk s - WSIZE) 0 ea.

Lemma check_loop_blocks l :
  (forall c, In c l ->
     tag_at s (bptr c - WSIZE) (bsize c) (balloc c) /\ 0 < bsize c /\
     WSIZE <= bptr c /\ bptr c + bsize c <= mem_brk s /\
     (if negb (verbose =? 0) then print_block (bptr c) else ret []) s =
       Ok (po c, s) /\
     check_block (bptr c) s = Ok (co c, s)) ->
  forall fuel p,
    linked p l (mem_brk s) -> (length l < fuel)%nat ->
    check_loop fuel verbose p s =
    Ok ((flat_map (fun c => po c ++ co c) l, mem_brk s), s).
Proof.
  induction l as [|c r IH]; intros Hc fuel p Hl Hf.
  - cbn [linked] in Hl. subst p.
    destruct fuel as [|k]; [cbn in Hf; lia|]. cbn [check_loop].
    rewrite HDRP_eq by hlia.
    rewrite (bind_eq _ _ _ _ _ (GET_SIZE_at _ _ _ _ Te)). reflexivity.
  - cbn [linked] in Hl. destruct Hl as (Ep & Hl). subst p.
    destruct (Hc c (or_introl eq_refl)) as (T & Hs & H8 & He & Hp & Hk).
    destruct fuel as [|k]; [cbn in Hf; lia|]. cbn [check_loop].
    rewrite HDRP_eq by hlia.
    rewrite (bind_eq _ _ _ _ _ (GET_SIZE_at _ _ _ _ T)).
    replace (bsize c >? 0) with true by (symmetry; apply Z.gtb_lt; exact Hs).
    rewrite (bind_eq _ _ _ _ _ Hp).
    rewrite (bind_eq _ _ _ _ _ Hk).
    rewrite (bind_eq _ _ _ _ _ (NEXT_BLKP_at _ _ _ _ T He)).
    rewrite (bind_eq _ _ _ _ _ (IH (fun x Hx => Hc x (or_intror Hx)) k _ Hl
                                   ltac:(cbn in Hf; lia))).
    unfold ret. cbn [fst snd flat_map]. rewrite <- app_assoc. reflexivity.
Qed.

End CheckLoop.

(** The checker on a heap whose boundary tags are in order. *)
Lemma checkheap_rep s bl fl t verbose :
  heap_rep s bl fl t -> mem_lo s mod 8 = 0 ->
  mm_checkheap verbose s =
  Ok (if verbose =? 0 then []
      else Heap_at (mem_lo s + DSIZE) ::
           map line_of (prologue s :: bl) ++ [End_of_list (mem_brk s)], s).
Proof.
  intros Hrep Hlo. pose proof Hrep as Hrep0. rep_fields Hrep0.
  pose proof (rep_brk_range _ _ _ _ Hrep) as Hr.
  pose proof (rep_tag_epilogue _ _ _ _ Hrep) as Te.
  assert (Ip : In (prologue s) (prologue s :: bl)) by (left; reflexivity).
  pose proof (rep_tag_hdr _ _ _ _ Hrep _ Ip) as Tp.
  pose proof (rep_tag_ftr _ _ _ _ Hrep _ Ip) as Fp.
  cbn [prologue bptr bsize balloc fst snd] in Tp, Fp.
  assert (Hcheck : forall c, In c (prologue s :: bl) ->
            check_block (bptr c) s = Ok ([], s)).
  { intros c Hc.
    destruct (rep_body_range _ _ _ _ Hrep _ Hc) as (B1 & B2 & B3 & _).
    rewrite (check_block_at _ _ _ _ _ _ (rep_tag_hdr _ _ _ _ Hrep _ Hc)
               (rep_tag_ftr _ _ _ _ Hrep _ Hc) B2 ltac:(hlia)).
    rewrite (rep_aligned _ _ _ _ _ Hrep Hlo Hc), !Z.eqb_refl. reflexivity. }
  assert (Hprint : forall c, In c (prologue s :: bl) ->
            print_block (bptr c) s = Ok ([line_of c], s)).
  { intros c Hc.
    destruct (rep_body_range _ _ _ _ Hrep _ Hc) as (B1 & B2 & B3 & _).
    exact (print_block_at _ _ _ _ _ _ (rep_tag_hdr _ _ _ _ Hrep _ Hc)
               (rep_tag_ftr _ _ _ _ Hrep _ Hc) B2 ltac:(hlia)). }
  assert (Hlast : exists fsz fa, tag_at s (mem_brk s - DSIZE) fsz fa).
  { pose proof (last_in_cons (prologue s) bl) as Hin.
    pose proof (rep_tag_ftr _ _ _ _ Hrep _ Hin) as F.
    pose proof (linked_last (mem_lo s + DSIZE) (prologue s) bl) as Hll.
    exists (bsize (last bl (prologue s))), (balloc (last bl (prologue s))).
    replace (mem_brk s - DSIZE)
      with (bptr (last bl (prologue s)) + bsize (last bl (prologue s)) - DSIZE);
      [exact F|].
    clear - Rlinked. revert Rlinked. generalize (prologue s) (mem_lo s + DSIZE).
    induction bl as [|x r IH]; intros c p Hl.
    - cbn in *. lia.
    - rewrite last_cons. cbn [linked] in Hl. destruct Hl as (_ & Hl).
      exact (IH _ _ Hl). }
  destruct Hlast as (fsz & fa & Fl).
  assert (Hlen : (length (prologue s :: bl) < heap_fuel s)%nat).
  { assert (Hs : Forall sized (prologue s :: bl)).
    { apply Forall_forall. intros c Hc.
      destruct (rep_body_range _ _ _ _ Hrep _ Hc) as (_ & _ & B3 & _).
      unfold sized. hlia. }
    pose proof (linked_length _ _ _ Rlinked Hs) as Hlen.
    unfold heap_fuel. hlia. }
  assert (Hblk : forall c, In c (prologue s :: bl) ->
     tag_at s (bptr c - WSIZE) (bsize c) (balloc c) /\ 0 < bsize c /\
     WSIZE <= bptr c /\ bptr c + bsize c <= mem_brk s /\
     (if negb (verbose =? 0) then print_block (bptr c) else ret []) s =
       Ok ((fun c => if verbose =? 0 then [] else [line_of c]) c, s) /\
     check_block (bptr c) s = Ok ((fun _ => []) c, s)).
  { intros c Hc.
    destruct (rep_body_range _ _ _ _ Hrep _ Hc) as (B1 & B2 & B3 & _).
    split; [exact (rep_tag_hdr _ _ _ _ Hrep _ Hc)|].
    split; [hlia|]. split; [hlia|]. split; [hlia|].
    split; [|exact (Hcheck c Hc)].
    destruct (verbose =? 0); cbn [negb]; [reflexivity|exact (Hprint c Hc)]. }
  unfold mm_checkheap. rewrite Rlistp.
  rewrite (bind_eq _ _ _ _ _ (bad_header_at _ _ _ _ DSIZE Tp)).
  rewrite (bind_eq _ _ _ _ _ (Hcheck _ Ip)).
  rewrite (bind_eq _ _ _ _ _
      (check_loop_blocks s verbose _ _ 1 ltac:(hlia) Te (prologue s :: bl)
         Hblk _ _ Rlinked Hlen)).
  cbn [fst snd].
  destruct (verbose =? 0) eqn:Ev; cbn [negb].
  - rewrite (bind_eq _ _ _ _ _ (eq_refl : ret [] s = Ok ([], s))).
    rewrite (bind_eq _ _ _ _ _ (bad_header_at _ _ _ _ 0 Te)).
    unfold ret. cbn.
    replace (flat_map (fun _ : block => []) bl) with (@nil message);
      [reflexivity|].
    clear. induction bl as [|x r IH]; [reflexivity|exact IH].
  - rewrite (bind_eq _ _ _ _ _ (print_block_end _ _ _ _ _ Te Fl)).
    rewrite (bind_eq _ _ _ _ _ (bad_header_at _ _ _ _ 0 Te)).
    unfold ret. rewrite Z.eqb_refl. cbn [Z.eqb negb orb app].
    replace (flat_map (fun c : block => [line_of c]) (prologue s :: bl))
      with (map line_of (prologue s :: bl)); [reflexivity|].
    clear. induction (prologue s :: bl) as [|x r IH]; [reflexivity|].
    cbn [map flat_map app]. rewrite IH. reflexivity.
Qed.

(** [check_block] compares the header with whatever word lies where the
    header says the footer is. *)
Lemma check_block_word s bp sz a :
  tag_at s (bp - WSIZE) sz a -> bp + sz <= mem_brk s -> DSIZE <= sz ->
  check_block bp s =
  Ok ((if negb (bp mod 8 =? 0) then [Not_aligned bp] else []) ++
      (if negb (sz + a =? load (mem s) (bp + sz - DSIZE))
       then [Tag_mismatch] else []), s).
Proof.
  intros T Hb Hs. pose proof (tag_at_bound _ _ _ _ T).
  assert (V : valid s (bp + sz - DSIZE) = true).
  { destruct T as (T1 & _). apply valid_iff. hlia. }
  unfold check_block. rewrite HDRP_eq by hlia.
  rewrite (bind_eq _ _ _ _ _ (GET_at _ _ _ _ T)).
  rewrite (bind_eq _ _ _ _ _ (FTRP_at _ _ _ _ T Hb ltac:(hlia))).
  rewrite (bind_eq _ _ _ _ _ (GET_eq _ _ V)).
  reflexivity.
Qed.

Lemma flat_map_nil {A B} (f : A -> list B) l :
  (forall x, In x l -> f x = []) -> flat_map f l = [].
Proof.
  induction l as [|x r IH]; intros H; [reflexivity|].
  cbn [flat_map]. rewrite (H x (or_introl eq_refl)), IH; [reflexivity|].
  intros y Hy. apply H. right. exact Hy.
Qed.

(** * The arithmetic of the requests *)

Lemma ALIGN_eq x :
  0 <= x -> x + 15 < 2 ^ 64 -> ALIGN x = 16 * ((x + 15) / 16).
Proof.
  intros H0 H1. unfold ALIGN, ALIGNMENT.
  replace (x + (2 * WSIZE - 1)) with (x + 15) by (unfold WSIZE; lia).
  rewrite wrap_small by lia. apply land_SIZE_MASK. lia.
Qed.

Lemma adjust_eq n :
  0 < n -> n + 31 < 2 ^ 64 -> adjust n = 16 * ((n + 31) / 16).
Proof.
  intros Hn Hb. unfold adjust.
  destruct (Z.leb_spec n DSIZE) as [Hs|Hs].
  - unfold OVERHEAD, DSIZE, WSIZE in *.
    assert ((n + 31) / 16 = 2); [|lia].
    symmetry. apply Z.div_unique with (r := n - 1); lia.
  - unfold OVERHEAD, DSIZE, WSIZE in *.
    rewrite (wrap_small (n + 2 * 8)) by lia.
    rewrite ALIGN_eq by lia. f_equal. f_equal. lia.
Qed.

(** The class loop counts the halvings of the size, up to [LISTLIMIT]. *)
Lemma class_loop_log2 fuel : forall i size,
  0 <= size -> 0 <= i <= LISTLIMIT -> (Z.to_nat (LISTLIMIT - i) <= fuel)%nat ->
  class_loop fuel i size = Z.min LISTLIMIT (i + Z.log2 size).
Proof.
  unfold LISTLIMIT.
  induction fuel as [|k IH]; intros i size Hs Hi Hf.
  - cbn [class_loop]. pose proof (Z.log2_nonneg size). lia.
  - cbn [class_loop]. unfold LISTLIMIT. pose proof (Z.log2_nonneg size).
    destruct (Z.ltb_spec i 20) as [Hlt|Hge]; cbn [andb]; [|lia].
    destruct (Z.gtb_spec size 1) as [Hgt|Hle].
    + rewrite IH by (try (apply Z.shiftr_nonneg); lia).
      rewrite Z.log2_shiftr by lia.
      assert (1 <= Z.log2 size).
      { change 1 with (Z.log2 2). apply Z.log2_le_mono. lia. }
      lia.
    + assert (E : Z.log2 size = 0).
      { destruct (Z.eq_dec size 1) as [->|]; [reflexivity|].
        apply Z.log2_nonpos. lia. }
      lia.
Qed.

(** * The search and the allocation, step by step *)

Lemma get_list_at s i h :
  0 <= i < LISTLIMIT ->
  nth_error (segregated_lists s) (Z.to_nat i) = Some h ->
  get_list i s = Ok (h, s).
Proof.
  intros Hi E. unfold get_list.
  replace ((0 <=? i) && (i <? LISTLIMIT)) with true.
  - rewrite E. reflexivity.
  - symmetry. apply andb_true_iff. split; [apply Z.leb_le|apply Z.ltb_lt]; lia.
Qed.

(** [find_fit] returns the first block of the list, from the bucket
    entry on, that is large enough. *)
Lemma find_fit_first s bl fl t asize f1 pre q post z :
  heap_rep s bl fl t ->
  0 <= list_index asize < LISTLIMIT ->
  nth_error (segregated_lists s) (Z.to_nat (list_index asize)) =
    Some (hd t (pre ++ q :: post)) ->
  fl = f1 ++ pre ++ q :: post ->
  (forall p y, In p pre -> In (p, y, 0) bl -> y < asize) ->
  In (q, z, 0) bl -> asize <= z ->
  find_fit asize s = Ok (q, s).
Proof.
  intros Hrep Hi Hn Efl Hsmall Hq Hz. unfold find_fit. cbv zeta.
  rewrite (bind_eq _ _ _ _ _ (get_list_at _ _ _ Hi Hn)).
  exact (fit_loop_first s bl fl t Hrep asize f1 pre q post z Efl Hsmall Hq Hz).
Qed.

(** A bucket entry that is an allocated block ends the search at once. *)
Lemma find_fit_stale s bl fl t asize h z :
  heap_rep s bl fl t ->
  0 <= list_index asize < LISTLIMIT ->
  nth_error (segregated_lists s) (Z.to_nat (list_index asize)) = Some h ->
  In (h, z, 1) (prologue s :: bl) ->
  find_fit asize s = Ok (NULL, s).
Proof.
  intros Hrep Hi Hn Hh. unfold find_fit. cbv zeta.
  rewrite (bind_eq _ _ _ _ _ (get_list_at _ _ _ Hi Hn)).
  pose proof (rep_lo _ _ _ _ Hrep) as Rlo.
  pose proof (rep_brk _ _ _ _ Hrep) as Rbrk.
  pose proof (rep_tag_hdr _ _ _ _ Hrep _ Hh) as T.
  destruct (rep_body_range _ _ _ _ Hrep _ Hh) as (B1 & B2 & B3 & _).
  cbn [bptr bsize balloc fst snd] in *.
  unfold heap_fuel. cbn [fit_loop]. rewrite HDRP_eq by hlia.
  rewrite (bind_eq _ _ _ _ _ (GET_ALLOC_at _ _ _ _ T)). reflexivity.
Qed.

(** [malloc] when [find_fit] has found the free block [b]. *)
Lemma malloc_takes s l1 b l2 fl t n :
  heap_ok s (l1 ++ b :: l2) fl t -> t = mem_lo s ->
  0 < n -> n + 2 * DSIZE < 2 ^ 64 ->
  balloc b = 0 -> adjust n <= bsize b ->
  find_fit (adjust n) s = Ok (bptr b, s) ->
  returns (malloc n) s (fun r s' =>
    r = bptr b /\
    exists f1 f2, fl = f1 ++ bptr b :: f2 /\
      (if bsize b - adjust n >=? DSIZE + OVERHEAD
       then heap_ok s' (l1 ++ (bptr b, adjust n, 1) ::
                          (bptr b + adjust n, bsize b - adjust n, 0) :: l2)
                    (bptr b + adjust n :: f1 ++ f2) t
       else heap_ok s' (l1 ++ (bptr b, bsize b, 1) :: l2) (f1 ++ f2) t) /\
      frame (l1 ++ b :: l2) s s').
Proof.
  intros Hok Ht Hn Hnb Hb Hsz Hfit.
  pose proof Hok as (Hrep & _).
  destruct (adjust_ok n Hn Hnb) as (A1 & A2 & A3 & A4).
  assert (Ib : In b (prologue s :: l1 ++ b :: l2))
    by (right; apply in_or_app; right; left; reflexivity).
  destruct (rep_body_range _ _ _ _ Hrep _ Ib) as (B1 & _).
  pose proof (rep_lo _ _ _ _ Hrep) as Rlo.
  apply returns_intro. intros X H. unfold malloc in H.
  replace (n <=? 0) with false in H by (symmetry; apply Z.leb_gt; exact Hn).
  cbv zeta in H. fwd H Hfit.
  replace (bptr b =? NULL) with false in H
    by (symmetry; apply Z.eqb_neq; hlia).
  cbn [negb] in H.
  destruct (place_exact s l1 b l2 fl t (adjust n) Hok Ht Hb ltac:(lia) A2)
    as ([] & s2 & E2 & Hpost).
  fwd H E2. subst X. exists (bptr b), s2. split; [reflexivity|].
  split; [reflexivity|exact Hpost].
Qed.

(** [malloc] when [find_fit] has found nothing and memlib has room. *)
Lemma malloc_extends s bl fl t n :
  heap_ok s bl fl t -> t = mem_lo s -> mem_max_addr s < 2 ^ 64 ->
  0 < n -> n + 2 * DSIZE < 2 ^ 64 ->
  find_fit (adjust n) s = Ok (NULL, s) ->
  sbrk_refuses s (MAX (adjust n) CHUNKSIZE) = false ->
  returns (malloc n) s (fun r s' =>
    mem_brk s' = mem_brk s + MAX (adjust n) CHUNKSIZE /\
    r <= mem_brk s /\ allocated_at n s bl t r s').
Proof.
  intros Hok Ht Hmax Hn Hnb Hfit Hroom.
  pose proof Hok as (Hrep & Hcov & Hadj).
  destruct (adjust_ok n Hn Hnb) as (A1 & A2 & A3 & A4).
  set (asize := adjust n) in *.
  destruct (extend_size_chunk asize ltac:(hlia) A2) as (Ex & Ele & E16 & Elt).
  set (size := MAX asize CHUNKSIZE) in *.
  apply returns_intro. intros X H. unfold malloc in H.
  replace (n <=? 0) with false in H by (symmetry; apply Z.leb_gt; exact Hn).
  cbv zeta in H. fold asize in H. fwd H Hfit.
  cbn [Z.eqb NULL negb] in H. fold size in H.
  destruct (extend_heap_exact s bl fl t _ size Hok Ht Hmax Ex ltac:(hlia)
              E16 Hroom)
    as (r & s1 & E1 & k1 & c & fl1 & -> & Nr & Hc & Hge & Hok1 &
        Hsame1 & G1 & Hbrk1 & Hend).
  fwd H E1.
  replace (bptr c =? NULL) with false in H
    by (symmetry; apply Z.eqb_neq; exact Nr).
  pose proof G1 as (L1 & _).
  destruct (place_spec s1 k1 c [] _ t asize Hok1
              ltac:(rewrite L1; exact Ht) Hc ltac:(hlia) A2)
    as ([] & s2 & E2 & bl2 & fl2 & z & Hok2 & Hz & Hin & Hsame2 & F2).
  fwd H E2. subst X. exists (bptr c), s2. split; [reflexivity|].
  pose proof F2 as (_ & K2 & _).
  split; [rewrite K2; exact Hbrk1|]. split; [hlia|].
  split; [exact Nr|]. exists bl2, fl2, z.
  split; [exact Hok2|]. split; [hlia|]. split; [exact Hin|].
  assert (Hsub : forall x, In x bl -> balloc x = 1 -> In x (k1 ++ [c])).
  { intros x Hx Hax. apply (Hsame1 x Hax) in Hx.
    apply in_or_app. left. exact Hx. }
  split; [|split].
  - intros x Hx. rewrite <- (Hsame2 x Hx). cbn [In].
    rewrite (Hsame1 x Hx). rewrite !in_app_iff. cbn [In].
    assert (x <> c) by (intros ->; rewrite Hc in Hx; discriminate).
    intuition congruence.
  - apply (grown_trans _ s s1); [exact G1|].
    apply frame_grown. apply (frame_incl (k1 ++ [c])); [|exact F2].
    exact Hsub.
  - intros x Hx Hax Ex'. apply (Hsame1 x Hax) in Hx.
    destruct Hok1 as (Hrep1 & _).
    apply (b_alone s1 k1 [] c _ t Hrep1 (bsize x) (balloc x)).
    rewrite <- Ex', <- block_eta, app_nil_r. exact Hx.
Qed.

(** * [mm_init], case by case *)

Lemma set_nth_length (l : list Z) : forall n v,
  length (set_nth l n v) = length l.
Proof.
  induction l as [|h r IH]; intros n v; [reflexivity|].
  destruct n as [|k]; cbn [set_nth length]; [reflexivity|].
  rewrite IH. reflexivity.
Qed.

(** The loop of [mm_init] runs through when the table has its entries. *)
Lemma clear_lists_runs k : forall j s,
  (j + k <= length (segregated_lists s))%nat ->
  Z.of_nat (j + k) <= LISTLIMIT ->
  exists l, clear_lists k (Z.of_nat j) s = Ok (tt, set_segregated_lists s l).
Proof.
  induction k as [|k IH]; intros j s Hl Hk.
  - exists (segregated_lists s). cbn. destruct s. reflexivity.
  - cbn [clear_lists].
    assert (E : put_list (Z.of_nat j) NULL s =
                Ok (tt, set_segregated_lists s
                          (set_nth (segregated_lists s) j NULL))).
    { unfold put_list. rewrite Nat2Z.id.
      replace ((0 <=? Z.of_nat j) && (Z.of_nat j <? LISTLIMIT)
               && (j <? length (segregated_lists s))%nat) with true;
        [reflexivity|].
      symmetry. rewrite !andb_true_iff. repeat split.
      - apply Z.leb_le. lia.
      - apply Z.ltb_lt. lia.
      - apply Nat.ltb_lt. lia. }
    rewrite (bind_eq _ _ _ _ _ E).
    replace (Z.of_nat j + 1) with (Z.of_nat (S j)) by lia.
    destruct (IH (S j) (set_segregated_lists s
                          (set_nth (segregated_lists s) j NULL)))
      as (l & El).
    + cbn [segregated_lists set_segregated_lists]. rewrite set_nth_length. lia.
    + lia.
    + exists l. rewrite El. reflexivity.
Qed.

(** * The concrete heap, a block being released *)

Ltac literal_blocks :=
  match goal with
  | |- context [released_blocks ?p] =>
      let l := eval vm_compute in (released_blocks p) in
      change (released_blocks p) with l
  end.

Lemma released_rep p :
  In p [Demo.A; Demo.C; Demo.E; Demo.F; Demo.G] ->
  heap_rep (tidy_released p 32) (released_blocks p) Demo.free_blocks 4096.
Proof.
  intros [<-|[<-|[<-|[<-|[<-|[]]]]]].
  all: constructor;
    [ reflexivity | reflexivity | reflexivity
    | literal_blocks; cbn; repeat split; reflexivity
    | literal_blocks;
      repeat (constructor;
              [unfold block_ok; cbn [bsize balloc fst snd];
               split; [unfold OVERHEAD, DSIZE, WSIZE; lia|];
               split; [reflexivity|]; first [left; reflexivity
                                            |right; reflexivity]|]);
      constructor
    | literal_blocks;
      repeat (constructor; [vm_compute; reflexivity|]); constructor
    | literal_blocks;
      repeat (constructor; [vm_compute; reflexivity|]); constructor
    | vm_compute; reflexivity
    | literal_blocks;
      intros q [<-|[<-|[<-|[]]]]; [exists 64|exists 32|exists 32];
        cbn; tauto
    | unfold Demo.free_blocks, Demo.D, Demo.B, Demo.H;
      repeat constructor; cbn; intros K; repeat destruct K as [K|K];
        try discriminate; exact K
    | cbn [dll Demo.free_blocks hd]; repeat split; vm_compute; reflexivity
    | reflexivity
    | right; reflexivity ].
Qed.

(** Block C, between the free blocks B and D, being released. *)
Lemma pending_C :
  heap_pending (tidy_released Demo.C 32)
    [(Demo.A, 32, 1); (Demo.B, 32, 0)] (Demo.C, 32, 0)
    [(Demo.D, 64, 0); (Demo.E, 32, 1); (Demo.F, 32, 1); (Demo.G, 32, 1);
     (Demo.H, 32, 0)]
    Demo.free_blocks 4096.
Proof.
  split; [apply (released_rep Demo.C); right; left; reflexivity|].
  split; [reflexivity|]. split; [|reflexivity].
  apply (cover_drop _ (Demo.C, 32, 1)); [reflexivity|].
  exact (proj1 (proj2 (demo_heap_ok Demo.no_lists 0))).
Qed.

(** * A bucket that is NULL *)

Lemma HDRP_NULL_invalid s : mem_brk s < 2 ^ 64 -> valid s (HDRP NULL) = false.
Proof.
  intros Hb. unfold valid, valid_range.
  change (HDRP NULL) with (2 ^ 64 - 8).
  apply andb_false_iff. right. apply Z.leb_gt. lia.
Qed.

(** The search starts by reading the header of the bucket entry. *)
Lemma find_fit_null_bucket s asize :
  mem_brk s < 2 ^ 64 ->
  0 <= list_index asize < LISTLIMIT ->
  nth_error (segregated_lists s) (Z.to_nat (list_index asize)) = Some NULL ->
  find_fit asize s = Err (SegFault (HDRP NULL)).
Proof.
  intros Hb Hi Hn. unfold find_fit. cbv zeta.
  rewrite (bind_eq _ _ _ _ _ (get_list_at _ _ _ Hi Hn)).
  unfold heap_fuel. cbn [fit_loop].
  unfold GET_ALLOC, GET, bind. rewrite (HDRP_NULL_invalid s Hb). reflexivity.
Qed.

Lemma malloc_null_bucket s n :
  mem_brk s < 2 ^ 64 -> 0 < n ->
  0 <= list_index (adjust n) < LISTLIMIT ->
  nth_error (segregated_lists s) (Z.to_nat (list_index (adjust n))) =
    Some NULL ->
  malloc n s = Err (SegFault (HDRP NULL)).
Proof.
  intros Hb Hn Hi Hnth. unfold malloc.
  replace (n <=? 0) with false by (symmetry; apply Z.leb_gt; exact Hn).
  cbv zeta. unfold bind at 1.
  rewrite (find_fit_null_bucket s (adjust n) Hb Hi Hnth). reflexivity.
Qed.

(** * [mm_init] from the state a program starts in *)

(** An empty list with a null head: [insert_to_free_list] writes the
    predecessor link of the head it finds, at address 0. *)
Lemma insert_null_head s bp :
  0 < mem_lo s -> valid s (wrap (bp + WSIZE)) = true ->
  free_listp s = NULL ->
  insert_to_free_list bp s = Err (SegFault NULL).
Proof.
  intros Hlo Hv' Hfl. unfold insert_to_free_list, SET_NEXT_PTR, SET_PREV_PTR.
  unfold get_free_listp at 1. unfold bind at 1.
  rewrite (bind_eq _ _ _ _ _ (PUT_eq _ _ _ Hv')).
  unfold get_free_listp, bind at 1. cbn [free_listp set_mem]. rewrite Hfl.
  apply bind_err. apply PUT_null_faults. exact Hlo.
Qed.

(** [extend_heap] up to its call of [coalesce]: the new block is
    tagged free where the epilogue header was, and is on no list. *)
Lemma extend_heap_pending s bl fl t words size :
  heap_ok s bl fl t -> mem_max_addr s < 2 ^ 64 ->
  extend_size words = size -> 2 * DSIZE <= size -> size mod 16 = 0 ->
  sbrk_refuses s size = false ->
  exists s3,
    extend_heap words s = coalesce (mem_brk s) s3 /\
    heap_pending s3 bl (mem_brk s, size, 0) [] fl t /\
    mem_lo s3 = mem_lo s /\ mem_brk s3 = mem_brk s + size /\
    free_listp s3 = free_listp s.
Proof.
  intros (Hrep & Hcov & Hadj) Hmax Ewords Hsz Hm16 Hroom.
  pose proof Hrep as Hrep0. rep_fields Hrep.
  pose proof (rep_brk_range _ _ _ _ Hrep0) as Hr.
  unfold sbrk_refuses in Hroom. apply orb_false_iff in Hroom.
  destruct Hroom as [_ Hroom]. rewrite Z.gtb_ltb in Hroom.
  apply Z.ltb_ge in Hroom.
  set (brk := mem_brk s) in *.
  unfold extend_heap. cbv zeta. rewrite Ewords.
  set (s0 := set_brk s (brk + size)).
  assert (E0 : mem_sbrk size s = Ok (brk, s0)).
  { unfold mem_sbrk, sbrk_refuses.
    replace (size <? 0) with false by (symmetry; apply Z.ltb_ge; hlia).
    replace (mem_brk s + size >? mem_max_addr s) with false
      by (symmetry; rewrite Z.gtb_ltb; apply Z.ltb_ge; exact Hroom).
    reflexivity. }
  rewrite (bind_eq _ _ _ _ _ E0).
  replace (brk =? SBRK_FAILED) with false
    by (symmetry; apply Z.eqb_neq; unfold SBRK_FAILED, wrap;
        change ((-1) mod 2 ^ 64) with (2 ^ 64 - 1); hlia).
  rewrite HDRP_eq by hlia.
  destruct (PUT_tag s0 (brk - WSIZE) size 0) as [E1 T1];
    try (unfold s0; hlia).
  rewrite (bind_eq _ _ _ _ _ E1).
  set (s1 := set_mem s0 (store (mem s0) (brk - WSIZE) (size + 0))) in *.
  assert (K1 : mem_brk s1 = brk + size) by reflexivity.
  assert (L1 : mem_lo s1 = mem_lo s) by reflexivity.
  rewrite (bind_eq _ _ _ _ _ (FTRP_at _ _ _ _ T1 ltac:(hlia) ltac:(hlia))).
  destruct (PUT_tag s1 (brk + size - DSIZE) size 0) as [E2 T2]; try hlia.
  rewrite (bind_eq _ _ _ _ _ E2).
  set (s2 := set_mem s1 (store (mem s1) (brk + size - DSIZE) (size + 0))) in *.
  assert (K2 : mem_brk s2 = brk + size) by reflexivity.
  assert (L2 : mem_lo s2 = mem_lo s) by reflexivity.
  assert (T1' : tag_at s2 (brk - WSIZE) size 0).
  { apply tag_at_store; [exact T1|hlia]. }
  rewrite (bind_eq _ _ _ _ _ (NEXT_BLKP_at _ _ _ _ T1' ltac:(hlia))).
  rewrite HDRP_eq by hlia.
  destruct (PUT_tag s2 (brk + size - WSIZE) 0 1) as [E3 T3];
    try first [hlia|reflexivity].
  rewrite (bind_eq _ _ _ _ _ E3).
  set (s3 := set_mem s2 (store (mem s2) (brk + size - WSIZE) (0 + 1))) in *.
  assert (K3 : mem_brk s3 = brk + size) by reflexivity.
  assert (L3 : mem_lo s3 = mem_lo s) by reflexivity.
  assert (Hm3 : mem s3 = store (store (store (mem s) (brk - WSIZE) (size + 0))
                                  (brk + size - DSIZE) (size + 0))
                           (brk + size - WSIZE) (0 + 1)) by reflexivity.
  assert (Hagree : forall x, x < brk - WSIZE -> mem s3 x = mem s x).
  { intros x Hx. rewrite Hm3, !store_out by hlia. reflexivity. }
  set (nb := (brk, size, 0)).
  assert (Hrep3 : heap_rep s3 (bl ++ [nb]) fl t).
  { apply (rep_extend s s3 bl fl t size); try assumption; try reflexivity.
    - hlia.
    - rewrite Hm3, !load_store_other by hlia.
      rewrite load_store_same. apply wrap_small. hlia.
    - rewrite Hm3, load_store_other by hlia.
      rewrite load_store_same. apply wrap_small. hlia.
    - rewrite Hm3, load_store_same. reflexivity. }
  exists s3. split; [reflexivity|]. split.
  - split; [exact Hrep3|]. split; [reflexivity|]. split.
    + rewrite app_nil_r. exact Hcov.
    + apply adjacent_free_join; [exact Hadj|reflexivity|reflexivity].
  - repeat split; reflexivity.
Qed.

(** [mm_init] in the state a program starts in.  With room for the
    first block it does not return: [free_listp] is null when
    [extend_heap] hands the block to [coalesce], and
    [insert_to_free_list] writes at address 0.  With room for the
    prologue and the epilogue only it returns -1 and keeps them; with
    less it returns -1 and has assigned [heap_listp] only. *)
Lemma mm_init_unstarted s :
  unstarted s ->
  (mem_lo s + 4 * DSIZE <= mem_max_addr s ->
   mm_init s = Err (SegFault NULL)) /\
  (mem_lo s + 2 * DSIZE <= mem_max_addr s < mem_lo s + 4 * DSIZE ->
   exists s', mm_init s = Ok (-1, s') /\
     heap_ok s' [] [] NULL /\
     segregated_lists s' = repeat NULL (Z.to_nat LISTLIMIT) /\
     mem_lo s' = mem_lo s /\ mem_brk s' = mem_lo s + 2 * DSIZE /\
     mem_max_addr s' = mem_max_addr s) /\
  (mem_max_addr s < mem_lo s + 2 * DSIZE ->
   mm_init s = Ok (-1, set_heap_listp s SBRK_FAILED)).
Proof.
  intros (Hlo & Hbrk & Hfl & Hmax & Hlen).
  set (lo := mem_lo s) in *.
  assert (Hlast : mem_max_addr s < lo + 2 * DSIZE ->
                  mm_init s = Ok (-1, set_heap_listp s SBRK_FAILED)).
  { intros Hroom. unfold mm_init.
    assert (Hr : sbrk_refuses s (4 * WSIZE) = true).
    { unfold sbrk_refuses. rewrite Hbrk. apply orb_true_iff. right.
      apply Z.gtb_lt. hlia. }
    rewrite (bind_eq _ _ _ _ _ (mem_sbrk_fails _ _ Hr)).
    rewrite (bind_eq _ _ s tt (set_heap_listp s SBRK_FAILED) eq_refl).
    rewrite Z.eqb_refl. reflexivity. }
  assert (Hfirst : lo + 2 * DSIZE <= mem_max_addr s ->
            exists s7,
              mm_init s = (r <- extend_heap 4 ;;
                           if r =? NULL then ret (-1) else ret 0) s7 /\
              heap_ok s7 [] [] NULL /\
              segregated_lists s7 = repeat NULL (Z.to_nat LISTLIMIT) /\
              mem_lo s7 = lo /\ mem_brk s7 = lo + 2 * DSIZE /\
              mem_max_addr s7 = mem_max_addr s).
  { intros Hroom. unfold mm_init.
    assert (Hr : sbrk_refuses s (4 * WSIZE) = false).
    { unfold sbrk_refuses. rewrite Hbrk. apply orb_false_iff.
      split; [reflexivity|]. rewrite Z.gtb_ltb. apply Z.ltb_ge. hlia. }
    set (s0 := set_brk s (lo + 4 * WSIZE)).
    assert (E0 : mem_sbrk (4 * WSIZE) s = Ok (lo, s0)).
    { unfold mem_sbrk. rewrite Hr, Hbrk. reflexivity. }
    rewrite (bind_eq _ _ _ _ _ E0).
    rewrite (bind_eq _ _ s0 tt (set_heap_listp s0 lo) eq_refl).
    replace (lo =? SBRK_FAILED) with false
      by (symmetry; apply Z.eqb_neq; unfold SBRK_FAILED, wrap;
          change ((-1) mod 2 ^ 64) with (2 ^ 64 - 1); hlia).
    set (s1 := set_heap_listp s0 lo) in *.
    assert (V : forall (x : state) d, mem_lo x = lo ->
                  mem_brk x = lo + 4 * WSIZE -> 0 <= d <= 3 * WSIZE ->
                  valid x (lo + d) = true).
    { intros x d E1 E2 Hd. apply valid_iff. hlia. }
    rewrite !wrap_small by hlia.
    rewrite (PACK_add DSIZE 1) by (try reflexivity; right; reflexivity).
    change (PACK 0 1) with 1.
    replace (PUT lo 0) with (PUT (lo + 0) 0) by (rewrite Z.add_0_r; reflexivity).
    rewrite (bind_eq _ _ _ _ _
               (PUT_eq (lo + 0) 0 s1 (V s1 0 eq_refl eq_refl ltac:(hlia)))).
    set (s2 := set_mem s1 (store (mem s1) (lo + 0) 0)) in *.
    rewrite (bind_eq _ _ _ _ _
               (PUT_eq (lo + 1 * WSIZE) (DSIZE + 1) s2
                  (V s2 (1 * WSIZE) eq_refl eq_refl ltac:(hlia)))).
    set (s3 := set_mem s2 (store (mem s2) (lo + 1 * WSIZE) (DSIZE + 1))) in *.
    rewrite (bind_eq _ _ _ _ _
               (PUT_eq (lo + 2 * WSIZE) (DSIZE + 1) s3
                  (V s3 (2 * WSIZE) eq_refl eq_refl ltac:(hlia)))).
    set (s4 := set_mem s3 (store (mem s3) (lo + 2 * WSIZE) (DSIZE + 1))) in *.
    rewrite (bind_eq _ _ _ _ _
               (PUT_eq (lo + 3 * WSIZE) 1 s4
                  (V s4 (3 * WSIZE) eq_refl eq_refl ltac:(hlia)))).
    set (s5 := set_mem s4 (store (mem s4) (lo + 3 * WSIZE) 1)) in *.
    rewrite (bind_eq _ _ s5 tt
               (set_heap_listp s5 (wrap (heap_listp s5 + 2 * WSIZE))) eq_refl).
    change (heap_listp s5) with lo.
    rewrite (wrap_small (lo + 2 * WSIZE)) by hlia.
    set (s6 := set_heap_listp s5 (lo + 2 * WSIZE)) in *.
    destruct (clear_lists_runs (Z.to_nat LISTLIMIT) 0 s6) as (l & Ec).
    { change (segregated_lists s6) with (segregated_lists s). lia. }
    { cbn. unfold LISTLIMIT. lia. }
    change (Z.of_nat 0) with 0 in Ec.
    pose proof (clear_lists_all_null _ _ _ _ Ec Hlen) as El.
    cbn [segregated_lists set_segregated_lists] in El. subst l.
    rewrite (bind_eq _ _ _ _ _ Ec).
    set (s7 := set_segregated_lists s6 (repeat NULL (Z.to_nat LISTLIMIT))) in *.
    exists s7. split; [reflexivity|].
    assert (Hok6 : heap_ok s6 [] [] NULL).
    { apply (init_rep s6 (mem s) NULL).
      - exact Hlo.
      - unfold s6, s5, s4, s3, s2, s1, s0.
        cbn [mem_lo mem_brk set_mem set_heap_listp set_brk]. fold lo. hlia.
      - unfold s6, s5, s4, s3, s2, s1, s0.
        cbn [mem_lo mem_brk set_mem set_heap_listp set_brk]. fold lo. hlia.
      - reflexivity.
      - exact Hfl.
      - left. reflexivity.
      - unfold s6, s5, s4, s3, s2, s1, s0.
        cbn [mem mem_lo set_mem set_heap_listp set_brk]. fold lo.
        rewrite Z.add_0_r. do 4 f_equal; hlia. }
    split.
    { destruct Hok6 as (Hrep6 & Hc6 & Ha6).
      split; [|split; assumption]. apply rep_lists. exact Hrep6. }
    split; [reflexivity|]. split; [reflexivity|].
    split; [|reflexivity].
    unfold s7, s6, s5, s4, s3, s2, s1, s0.
    cbn [mem_lo mem_brk set_mem set_heap_listp set_brk set_segregated_lists].
    hlia. }
  split; [|split; [|exact Hlast]].
  - intros Hroom.
    destruct (Hfirst ltac:(hlia)) as (s7 & E & Hok7 & S7 & L7 & K7 & M7).
    rewrite E. apply bind_err.
    assert (Hr7 : sbrk_refuses s7 (2 * DSIZE) = false).
    { unfold sbrk_refuses. rewrite K7, M7. apply orb_false_iff.
      split; [reflexivity|]. rewrite Z.gtb_ltb. apply Z.ltb_ge. hlia. }
    destruct (extend_heap_pending s7 [] [] NULL 4 (2 * DSIZE) Hok7
                ltac:(rewrite M7; exact Hmax) eq_refl ltac:(lia) eq_refl Hr7)
      as (s8 & E8 & (Hrep8 & _) & L8 & K8 & F8).
    rewrite E8.
    pose proof (coalesce_reads s8 [] [] (mem_brk s7, 2 * DSIZE, 0) [] NULL
                  Hrep8) as Hc.
    cbn [bptr bsize balloc fst snd last hd prologue epilogue] in Hc.
    rewrite Hc. unfold coalesce_merge. cbn [Z.eqb negb andb].
    rewrite (bind_eq _ _ _ _ _
               (eq_refl : ret (mem_brk s7) s8 = Ok (mem_brk s7, s8))).
    apply bind_err. apply insert_null_head.
    + rewrite L8, L7. exact Hlo.
    + rewrite wrap_small by hlia. apply valid_iff. hlia.
    + rewrite F8. destruct Hok7 as (Hrep7 & _).
      exact (rep_head _ _ _ _ Hrep7).
  - intros Hroom.
    destruct (Hfirst ltac:(hlia)) as (s7 & E & Hok7 & S7 & L7 & K7 & M7).
    exists s7.
    split; [|split; [exact Hok7|split; [exact S7|split; [exact L7|
              split; [exact K7|exact M7]]]]].
    rewrite E.
    assert (Hr7 : sbrk_refuses s7 (extend_size 4) = true).
    { change (extend_size 4) with (2 * DSIZE).
      unfold sbrk_refuses. rewrite K7, M7. apply orb_true_iff. right.
      apply Z.gtb_lt. hlia. }
    rewrite (bind_eq _ _ _ _ _ (extend_heap_fails _ _ Hr7)). reflexivity.
Qed.

(** * Sessions *)










(** A settled heap has a heap. *)
Lemma settled_begun s : settled s -> mem_lo s < mem_brk s.
Proof.
  intros (_ & [(bl & fl & (Hrep & _) & _)|((Hrep & _) & _)]);
    pose proof (rep_brk_range _ _ _ _ Hrep); hlia.
Qed.






(** * [coalesce] and the free list *)

(** Whenever [coalesce] returns, what it returns heads the list. *)
Lemma coalesce_head bp s r s' :
  coalesce bp s = Ok (r, s') ->
  free_listp s' = r /\
  GET_PREV_PTR r s' = Ok (NULL, s') /\
  (r <> NULL -> In r (free_list_of s')).
Proof.
  intros H. unfold coalesce in H.
  do 8 (apply bind_ok in H; destruct H as (? & ? & _ & H)).
  apply bind_ok in H. destruct H as ([] & s1 & Hi & H).
  inversion H. subst. clear H.
  apply insert_to_free_list_ok in Hi. destruct Hi as (Hfl & Hv & Hl).
  split; [exact Hfl|]. split.
  - unfold GET_PREV_PTR. rewrite (GET_eq _ _ Hv), Hl. reflexivity.
  - intros Hr. unfold free_list_of, heap_fuel. cbn [list_walk].
    rewrite Hfl. apply Z.eqb_neq in Hr. rewrite Hr. left. reflexivity.
Qed.

(** The blocks of a run start where no block outside the run starts. *)
Lemma run_apart s k1 mids k2 fl t x y :
  heap_rep s (k1 ++ mids ++ k2) fl t ->
  In x mids -> In y (k1 ++ k2) -> bptr x <> bptr y.
Proof.
  intros Hrep Hx Hy. rep_fields Hrep.
  pose proof (bl_sized _ Rblocks) as Hs.
  pose proof (bl_linked s _ Rlinked) as Hl.
  assert (Hpos : forall c, In c (k1 ++ mids ++ k2) -> 0 < bsize c).
  { rewrite Forall_forall in Hs. exact Hs. }
  apply in_app_or in Hy. destruct Hy as [Hy|Hy].
  - pose proof (linked_order _ k1 (mids ++ k2) _ y x Hs Hl Hy
                  ltac:(apply in_or_app; left; exact Hx)).
    specialize (Hpos y ltac:(apply in_or_app; left; exact Hy)). lia.
  - rewrite app_assoc in Hs, Hl.
    pose proof (linked_order _ (k1 ++ mids) k2 _ x y Hs Hl
                  ltac:(apply in_or_app; right; exact Hx) Hy).
    specialize (Hpos x ltac:(apply in_or_app; right; apply in_or_app; left;
                             exact Hx)). lia.
Qed.

(** [coalesce] on a free block that is on no list: the neighbours it
    absorbs leave the free list, every other member stays, and the
    merged block is put at the head. *)
Lemma coalesce_detaches s l1 b l2 fl t :
  heap_pending s l1 b l2 fl t -> t = mem_lo s ->
  returns (coalesce (bptr b)) s (fun r s' =>
    exists k1 mids k2 fl',
      l1 ++ b :: l2 = k1 ++ mids ++ k2 /\ In b mids /\
      (forall x, In x mids -> balloc x = 0) /\ (length mids <= 3)%nat /\
      r = bptr (hd b mids) /\
      heap_ok s' (k1 ++ (r, total mids, 0) :: k2) (r :: fl') t /\
      (forall q, In q fl' <->
                 In q fl /\ forall x, In x mids -> bptr x <> q) /\
      free_listp s' = r /\ GET_PREV_PTR r s' = Ok (NULL, s') /\
      frame (l1 ++ l2) s s').
Proof.
  intros Hpend Ht. pose proof Hpend as (Hrep & Hb & Hcov & _).
  destruct (coalesce_exact s l1 b l2 fl t Hpend Ht)
    as (r & s' & E & k1 & mids & k2 & fl' & Eq & Hin & Hfree & Hlen & Er &
        Hok & F).
  exists r, s'. split; [exact E|]. exists k1, mids, k2, fl'.
  destruct (coalesce_head _ _ _ _ E) as (Hhead & Hprev & _).
  repeat (split; [assumption|]). split; [|auto].
  pose proof Hok as (Hrep' & Hcov' & _).
  pose proof (rep_nodup _ _ _ _ Hrep') as Hnd.
  inversion Hnd as [|? ? Hr Hnd']. subst.
  rewrite Eq in Hrep.
  assert (Hsub : forall c, In c (k1 ++ k2) -> In c (l1 ++ l2)).
  { intros c Hc.
    assert (Hc' : In c (l1 ++ b :: l2)).
    { rewrite Eq. apply in_app_or in Hc. apply in_or_app.
      destruct Hc; [left; assumption|right; apply in_or_app; right;
                                     assumption]. }
    apply in_app_or in Hc'. apply in_or_app.
    destruct Hc' as [Hc'|[Hc'|Hc']]; [left; exact Hc'| |right; exact Hc'].
    subst c. exfalso.
    exact (run_apart s k1 mids k2 fl _ b b Hrep Hin Hc eq_refl). }
  assert (Hhd : In (hd b mids) mids).
  { destruct mids as [|m ms]; [destruct Hin|left; reflexivity]. }
  intros q. split.
  - intros Hq.
    assert (Hne : q <> bptr (hd b mids)) by (intros ->; contradiction).
    destruct (proj1 (Hcov' q) (or_intror Hq)) as (sz & Hz).
    assert (Hz' : In (q, sz, 0) (k1 ++ k2)).
    { apply in_app_or in Hz. apply in_or_app.
      destruct Hz as [Hz|[Hz|Hz]]; [left; exact Hz| |right; exact Hz].
      exfalso. apply Hne. inversion Hz. reflexivity. }
    split.
    + apply Hcov. exists sz. exact (Hsub _ Hz').
    + intros x Hx Ex.
      exact (run_apart s k1 mids k2 fl _ x (q, sz, 0) Hrep Hx Hz' Ex).
  - intros (Hq & Hout). apply Hcov in Hq. destruct Hq as (sz & Hz).
    assert (Hz' : In (q, sz, 0) (k1 ++ k2)).
    { assert (Hc : In (q, sz, 0) (l1 ++ b :: l2)).
      { apply in_app_or in Hz. apply in_or_app.
        destruct Hz; [left|right; right]; assumption. }
      rewrite Eq in Hc. apply in_app_or in Hc. apply in_or_app.
      destruct Hc as [Hc|Hc]; [left; exact Hc|].
      apply in_app_or in Hc. destruct Hc as [Hc|Hc]; [|right; exact Hc].
      exfalso. exact (Hout _ Hc eq_refl). }
    assert (Hm : In q (bptr (hd b mids) :: fl')).
    { apply Hcov'. exists sz. apply in_app_or in Hz'. apply in_or_app.
      destruct Hz'; [left|right; right]; assumption. }
    destruct Hm as [Hm|Hm]; [|exact Hm].
    exfalso. exact (Hout _ Hhd Hm).
Qed.

(** The callers of [coalesce] put nothing on the list themselves. *)
Section Callers.

Let head_kept (s s' : state) : Prop := free_listp s' = free_listp s.

Lemma head_kept_refl s : head_kept s s.
Proof. reflexivity. Qed.

Lemma head_kept_trans s1 s2 s3 :
  head_kept s1 s2 -> head_kept s2 s3 -> head_kept s1 s3.
Proof. unfold head_kept. congruence. Qed.

Lemma head_kept_mem s m : head_kept s (set_mem s m).
Proof. reflexivity. Qed.

Lemma free_ends_in_coalesce ptr s u s' :
  ptr <> NULL -> free ptr s = Ok (u, s') ->
  exists s0 r, free_listp s0 = free_listp s /\ coalesce ptr s0 = Ok (r, s').
Proof.
  intros Hp H. unfold free in H.
  replace (ptr =? NULL) with false in H
    by (symmetry; apply Z.eqb_neq; exact Hp).
  apply bind_ok in H. destruct H as (sz & s1 & H1 & H).
  apply bind_ok in H. destruct H as (u1 & s2 & H2 & H).
  apply bind_ok in H. destruct H as (f & s3 & H3 & H).
  apply bind_ok in H. destruct H as (u2 & s4 & H4 & H).
  apply bind_ok in H. destruct H as (r & s5 & H5 & H).
  inversion H. subst s5. exists s4, r. split; [|exact H5].
  pose proof (keeps_reads_GET_SIZE head_kept head_kept_refl head_kept_trans _ _ _ _ H1).
  pose proof (keeps_PUT head_kept head_kept_mem _ _ _ _ _ H2).
  pose proof (keeps_FTRP head_kept head_kept_refl head_kept_trans _ _ _ _ H3).
  pose proof (keeps_PUT head_kept head_kept_mem _ _ _ _ _ H4).
  unfold head_kept in *. congruence.
Qed.

Lemma extend_heap_ends_in_coalesce words s r s' :
  extend_heap words s = Ok (r, s') ->
  r = NULL \/
  exists s0 bp, free_listp s0 = free_listp s /\ coalesce bp s0 = Ok (r, s').
Proof.
  intros H. unfold extend_heap in H. cbv zeta in H.
  apply bind_ok in H. destruct H as (p & s1 & H1 & H).
  assert (E1 : head_kept s s1).
  { unfold mem_sbrk in H1. destruct (sbrk_refuses s _); inversion H1;
      reflexivity. }
  destruct (p =? SBRK_FAILED).
  { inversion H. left. reflexivity. }
  apply bind_ok in H. destruct H as (u1 & s2 & H2 & H).
  apply bind_ok in H. destruct H as (f & s3 & H3 & H).
  apply bind_ok in H. destruct H as (u2 & s4 & H4 & H).
  apply bind_ok in H. destruct H as (nb & s5 & H5 & H).
  apply bind_ok in H. destruct H as (u3 & s6 & H6 & H).
  right. exists s6, p. split; [|exact H].
  pose proof (keeps_PUT head_kept head_kept_mem _ _ _ _ _ H2).
  pose proof (keeps_FTRP head_kept head_kept_refl head_kept_trans _ _ _ _ H3).
  pose proof (keeps_PUT head_kept head_kept_mem _ _ _ _ _ H4).
  pose proof (keeps_NEXT_BLKP head_kept head_kept_refl head_kept_trans _ _ _ _ H5).
  pose proof (keeps_PUT head_kept head_kept_mem _ _ _ _ _ H6).
  unfold head_kept in *. congruence.
Qed.

Lemma place_ends_in_coalesce bp asize s u s' :
  place bp asize s = Ok (u, s') ->
  (exists s0 nb r, coalesce nb s0 = Ok (r, s')) \/
  (exists s0, remove_from_free_list bp s0 = Ok (u, s')).
Proof.
  intros H. unfold place in H.
  apply bind_ok in H. destruct H as (old & s1 & H1 & H). cbv zeta in H.
  destruct (wrap (old - asize) >=? DSIZE + OVERHEAD).
  - apply bind_ok in H. destruct H as (u1 & s2 & H2 & H).
    apply bind_ok in H. destruct H as (f & s3 & H3 & H).
    apply bind_ok in H. destruct H as (u2 & s4 & H4 & H).
    apply bind_ok in H. destruct H as (u3 & s5 & H5 & H).
    apply bind_ok in H. destruct H as (nb & s6 & H6 & H).
    apply bind_ok in H. destruct H as (u4 & s7 & H7 & H).
    apply bind_ok in H. destruct H as (f' & s8 & H8 & H).
    apply bind_ok in H. destruct H as (u5 & s9 & H9 & H).
    apply bind_ok in H. destruct H as (r & s10 & H10 & H).
    inversion H. subst s10. left. exists s9, nb, r. exact H10.
  - apply bind_ok in H. destruct H as (u1 & s2 & H2 & H).
    apply bind_ok in H. destruct H as (f & s3 & H3 & H).
    apply bind_ok in H. destruct H as (u2 & s4 & H4 & H).
    right. exists s4. exact H.
Qed.

End Callers.

(** * No two free neighbours, call after call *)



(** * What [coalesce] does to the free list *)

(** C5 as the code has it.  [coalesce] ends by calling
    [insert_to_free_list] on the merged block.

    - On a free block [b] that is on no list, in a heap otherwise in
      order, it returns; the blocks it merges are a run [mids] of at
      most three free neighbours with [b] among them; the heap it leaves
      is in order with the run replaced by one free block of the summed
      size at the address of the first; the absorbed neighbours have
      left the free list, every other member is still on it, and the
      merged block has been put at its head; no block outside the run is
      touched.
    - Whenever it returns, the block it returns is [free_listp], with a
      null predecessor link.
    - Its callers insert nothing: [free] and [extend_heap] end with the
      call of [coalesce] and have not assigned [free_listp] before it;
      [place] ends with the call of [coalesce] on the remainder or with
      a removal. *)
Theorem coalesce_inserts_its_result :
  (forall s l1 b l2 fl,
     heap_pending s l1 b l2 fl (mem_lo s) ->
     returns (coalesce (bptr b)) s (fun r s' =>
       exists k1 mids k2 fl',
         l1 ++ b :: l2 = k1 ++ mids ++ k2 /\ In b mids /\
         (forall x, In x mids -> balloc x = 0) /\ (length mids <= 3)%nat /\
         r = bptr (hd b mids) /\
         heap_ok s' (k1 ++ (r, total mids, 0) :: k2) (r :: fl') (mem_lo s) /\
         (forall q, In q fl' <->
                    In q fl /\ forall x, In x mids -> bptr x <> q) /\
         free_listp s' = r /\ GET_PREV_PTR r s' = Ok (NULL, s') /\
         frame (l1 ++ l2) s s')) /\
  (forall bp s r s',
     coalesce bp s = Ok (r, s') ->
     free_listp s' = r /\
     GET_PREV_PTR r s' = Ok (NULL, s') /\
     (r <> NULL -> In r (free_list_of s'))) /\
  (forall ptr s u s',
     ptr <> NULL -> free ptr s = Ok (u, s') ->
     exists s0 r,
       free_listp s0 = free_listp s /\ coalesce ptr s0 = Ok (r, s')) /\
  (forall words s r s',
     extend_heap words s = Ok (r, s') ->
     r = NULL \/
     exists s0 bp,
       free_listp s0 = free_listp s /\ coalesce bp s0 = Ok (r, s')) /\
  (forall bp asize s u s',
     place bp asize s = Ok (u, s') ->
     (exists s0 nb r, coalesce nb s0 = Ok (r, s')) \/
     (exists s0, remove_from_free_list bp s0 = Ok (u, s'))).
Proof.
  split; [|split; [|split; [|split]]].
  - intros s l1 b l2 fl H.
    exact (coalesce_detaches s l1 b l2 fl (mem_lo s) H eq_refl).
  - exact coalesce_head.
  - exact free_ends_in_coalesce.
  - exact extend_heap_ends_in_coalesce.
  - exact place_ends_in_coalesce.
Qed.

(** Block C released between the free blocks B and D: the three are
    merged into one block at B, B and D leave the list and the merged
    block heads it.  The list of this heap ends at the padding word, at
    4096. *)
Lemma coalesce_inserts_its_result_witness :
  let s := tidy_released Demo.C 32 in
  returns (coalesce Demo.C) s (fun r s' =>
    r = Demo.B /\ free_listp s' = Demo.B /\
    value_of (heap_walk s') =
      Some [(4112, 16, 1); (Demo.A, 32, 1); (Demo.B, 128, 0);
            (Demo.E, 32, 1); (Demo.F, 32, 1); (Demo.G, 32, 1);
            (Demo.H, 32, 0)] /\
    firstn 4 (free_list_of s) = [Demo.D; Demo.B; Demo.H; 4096] /\
    firstn 3 (free_list_of s') = [Demo.B; Demo.H; 4096] /\
    exists k1 mids k2 fl',
      heap_ok s' (k1 ++ (r, total mids, 0) :: k2) (r :: fl') 4096 /\
      (forall q, In q fl' <->
                 In q Demo.free_blocks /\
                 forall x, In x mids -> bptr x <> q)).
Proof.
  intros s.
  destruct (proj1 coalesce_inserts_its_result s _ _ _ _ pending_C)
    as (r & s' & E & k1 & mids & k2 & fl' & _ & _ & _ & _ & _ & Hok & Hfl & _).
  exists r, s'. split; [exact E|].
  assert (V : value_of (coalesce Demo.C s) = Some Demo.B)
    by (vm_compute; reflexivity).
  assert (Er : r = Demo.B).
  { change (coalesce (bptr (Demo.C, 32, 0)) s) with (coalesce Demo.C s) in E.
    rewrite E in V. inversion V. reflexivity. }
  assert (Es : s' = state_of (coalesce Demo.C s) s).
  { change (coalesce (bptr (Demo.C, 32, 0)) s) with (coalesce Demo.C s) in E.
    rewrite E. reflexivity. }
  split; [exact Er|]. rewrite Es.
  split; [vm_compute; reflexivity|].
  split; [vm_compute; reflexivity|].
  split; [vm_compute; reflexivity|].
  split; [vm_compute; reflexivity|].
  rewrite <- Es. exists k1, mids, k2, fl'. split; [exact Hok|exact Hfl].
Defined.

(** * [malloc] when no block fits and the heap cannot grow *)

(** When nothing from the bucket entry on is large enough, [find_fit]
    walks past the end of the list. *)
Lemma find_fit_exhausted s bl fl t asize f1 pre :
  heap_rep s bl fl t ->
  0 <= list_index asize < LISTLIMIT ->
  nth_error (segregated_lists s) (Z.to_nat (list_index asize)) =
    Some (hd t pre) ->
  fl = f1 ++ pre ->
  (forall p y, In p pre -> In (p, y, 0) bl -> y < asize) ->
  find_fit asize s = Err (SegFault (HDRP t)).
Proof.
  intros Hrep Hi Hn Efl Hsmall. unfold find_fit. cbv zeta.
  rewrite (bind_eq _ _ _ _ _ (get_list_at _ _ _ Hi Hn)).
  exact (fit_loop_exhausted s bl fl t Hrep asize f1 pre Efl Hsmall).
Qed.

(** C7 fails in the code.  In a heap in order where no free block is
    large enough for the request and [mem_sbrk] refuses the extension,
    what [malloc] does depends on the bucket entry [h] of the request's
    size class alone, and the extension is reached in one case only:
    - [h] is NULL: the search reads the header in front of address 0 and
      [malloc] does not return;
    - [h] is a member of the free list, or the value that ends it: the
      search runs through the list, reads the header in front of the
      value that ends it, and [malloc] does not return;
    - [h] is an allocated block: the search reports no fit, the
      extension is refused, and [malloc] returns NULL with the state of
      the call. *)
Theorem malloc_out_of_memory_faults s bl fl t n h :
  heap_rep s bl fl t ->
  0 < n ->
  0 <= list_index (adjust n) < LISTLIMIT ->
  nth_error (segregated_lists s) (Z.to_nat (list_index (adjust n))) = Some h ->
  (forall p y, In (p, y, 0) bl -> y < adjust n) ->
  sbrk_refuses s (extend_size (MAX (adjust n) CHUNKSIZE / WSIZE)) = true ->
  (h = NULL -> malloc n s = Err (SegFault (HDRP NULL))) /\
  (forall f1 pre, fl = f1 ++ pre -> h = hd t pre ->
     malloc n s = Err (SegFault (HDRP t))) /\
  (forall z, In (h, z, 1) (prologue s :: bl) -> malloc n s = Ok (NULL, s)).
Proof.
  intros Hrep Hn Hi Hnth Hsmall Hr.
  split; [|split].
  - intros ->.
    exact (malloc_null_bucket s n (rep_brk _ _ _ _ Hrep) Hn Hi Hnth).
  - intros f1 pre Efl ->. unfold malloc.
    replace (n <=? 0) with false by (symmetry; apply Z.leb_gt; exact Hn).
    cbv zeta. apply bind_err.
    apply (find_fit_exhausted s bl fl t (adjust n) f1 pre Hrep Hi Hnth Efl).
    intros p y _ Hy. exact (Hsmall p y Hy).
  - intros z Hz.
    apply (malloc_fails_unchanged s s n Hn); [|exact Hr].
    exact (find_fit_stale s bl fl t (adjust n) h z Hrep Hi Hnth Hz).
Qed.

(** A request of 100 bytes, adjusted to 128 and of size class 7, in the
    heap whose free blocks have 32, 64 and 32 bytes and that cannot
    grow.  With the bucket at the free block B the search runs off the
    list and reads at 4088, in front of the heap; with the bucket NULL
    it reads in front of address 0; with the bucket at the allocated
    block A, [malloc] returns NULL. *)
Lemma malloc_out_of_memory_faults_witness :
  malloc 100 (Demo.tidy (set_nth Demo.no_lists 7 Demo.B) 0) =
    Err (SegFault 4088) /\
  malloc 100 (Demo.tidy Demo.no_lists 0) = Err (SegFault (2 ^ 64 - 8)) /\
  malloc 100 (Demo.tidy (set_nth Demo.no_lists 7 Demo.A) 0) =
    Ok (NULL, Demo.tidy (set_nth Demo.no_lists 7 Demo.A) 0).
Proof.
  assert (Hsmall : forall p y, In (p, y, 0) Demo.blocks -> y < adjust 100).
  { intros p y K. cbn in K.
    repeat destruct K as [K|K]; try discriminate K; try contradiction;
      inversion K; reflexivity. }
  split; [|split].
  - apply (proj1 (proj2
      (malloc_out_of_memory_faults
         (Demo.tidy (set_nth Demo.no_lists 7 Demo.B) 0)
         Demo.blocks Demo.free_blocks 4096 100 Demo.B
         (proj1 (demo_heap_ok _ 0)) ltac:(lia)
         ltac:(split; [discriminate|reflexivity]) eq_refl Hsmall eq_refl))
      [Demo.D] [Demo.B; Demo.H]); reflexivity.
  - apply (proj1
      (malloc_out_of_memory_faults
         (Demo.tidy Demo.no_lists 0)
         Demo.blocks Demo.free_blocks 4096 100 NULL
         (proj1 (demo_heap_ok _ 0)) ltac:(lia)
         ltac:(split; [discriminate|reflexivity]) eq_refl Hsmall eq_refl)).
    reflexivity.
  - apply (proj2 (proj2
      (malloc_out_of_memory_faults
         (Demo.tidy (set_nth Demo.no_lists 7 Demo.A) 0)
         Demo.blocks Demo.free_blocks 4096 100 Demo.A
         (proj1 (demo_heap_ok _ 0)) ltac:(lia)
         ltac:(split; [discriminate|reflexivity]) eq_refl Hsmall eq_refl))
      32).
    right. left. reflexivity.
Defined.

(** * Further properties of mm.c

    ** Request sizes and boundary tags *)

(** X1: for a request of [n] bytes with [0 < n] and [n + 31 < 2^64],
    the block size [malloc] computes is [n + 31] rounded down to a
    multiple of 16: a multiple of 16, at least the minimum block of 32
    bytes, with room for [n] bytes and the two boundary tags, and less
    than 16 bytes more than that. *)
Theorem adjust_rounds_up n :
  0 < n -> n + 31 < 2 ^ 64 ->
  adjust n = 16 * ((n + 31) / 16) /\ adjust n mod 16 = 0 /\
  2 * DSIZE <= adjust n /\ n + OVERHEAD <= adjust n < n + 2 * DSIZE.
Proof.
  intros Hn Hb. rewrite (adjust_eq n Hn Hb).
  pose proof (Z.mod_pos_bound (n + 31) 16 ltac:(lia)).
  pose proof (Z.div_mod (n + 31) 16 ltac:(lia)).
  unfold OVERHEAD, DSIZE, WSIZE.
  split; [reflexivity|]. split; [|lia].
  rewrite Z.mul_comm. apply Z.mod_mul. lia.
Qed.

Lemma adjust_rounds_up_witness :
  adjust 17 = 16 * ((17 + 31) / 16) /\ adjust 17 mod 16 = 0 /\
  2 * DSIZE <= adjust 17 /\ 17 + OVERHEAD <= adjust 17 < 17 + 2 * DSIZE.
Proof. apply (adjust_rounds_up 17); reflexivity. Defined.

(** X2: for the 31 largest values of [size_t] the sum
    [size + OVERHEAD], or its rounding, wraps around: the block size
    [malloc] computes is 0 for a request of at most [2^64 - 16] bytes
    and 16 for a larger one, less than the request and less than the
    minimum block. *)
Theorem adjust_wraps_around n :
  2 ^ 64 - 31 <= n < 2 ^ 64 ->
  adjust n = (if n <=? 2 ^ 64 - 16 then 0 else 16).
Proof.
  intros Hn. unfold adjust.
  replace (n <=? DSIZE) with false
    by (symmetry; apply Z.leb_gt; unfold DSIZE, WSIZE; lia).
  unfold ALIGN, ALIGNMENT, OVERHEAD, DSIZE, WSIZE.
  change (2 ^ 64) with 18446744073709551616 in *.
  destruct (Z.leb_spec n (18446744073709551616 - 16)) as [Hs|Hs].
  - assert (E : wrap (wrap (n + 2 * 8) + (2 * 8 - 1)) = n + 31 - 2 ^ 64 \/
                wrap (wrap (n + 2 * 8) + (2 * 8 - 1)) = 15).
    { destruct (Z.eq_dec n (18446744073709551616 - 16)) as [->|Hne].
      - right. reflexivity.
      - left. rewrite (wrap_small (n + 2 * 8))
          by (change (2 ^ 64) with 18446744073709551616; lia).
        unfold wrap. change (2 ^ 64) with 18446744073709551616.
        symmetry. apply Z.mod_unique with (q := 1); lia. }
    destruct E as [E|E]; rewrite E.
    + rewrite land_SIZE_MASK
        by (change (2 ^ 64) with 18446744073709551616; lia).
      change (2 ^ 64) with 18446744073709551616.
      rewrite Z.div_small by lia. reflexivity.
    + reflexivity.
  - assert (E : wrap (n + 2 * 8) = n + 16 - 2 ^ 64).
    { unfold wrap. change (2 ^ 64) with 18446744073709551616.
      symmetry. apply Z.mod_unique with (q := 1); lia. }
    rewrite E. change (2 ^ 64) with 18446744073709551616.
    rewrite wrap_small by (change (2 ^ 64) with 18446744073709551616; lia).
    rewrite land_SIZE_MASK
      by (change (2 ^ 64) with 18446744073709551616; lia).
    assert ((n + 16 - 18446744073709551616 + (2 * 8 - 1)) / 16 = 1); [|lia].
    symmetry.
    apply Z.div_unique with (r := n + 15 - 18446744073709551616); lia.
Qed.

Lemma adjust_wraps_around_witness :
  adjust (2 ^ 64 - 20) = (if 2 ^ 64 - 20 <=? 2 ^ 64 - 16 then 0 else 16).
Proof.
  apply (adjust_wraps_around (2 ^ 64 - 20)). split; [discriminate|reflexivity].
Defined.

(** X3: the size class [find_fit] computes for a block size, its loop
    starting from [asize], is the number of times the size can be
    halved before it reaches 1, that is its binary logarithm rounded
    down, capped at [LISTLIMIT]. *)
Theorem list_index_is_log2 asize :
  0 <= asize -> list_index asize = Z.min LISTLIMIT (Z.log2 asize).
Proof.
  intros H. unfold list_index.
  rewrite class_loop_log2; [reflexivity|exact H|unfold LISTLIMIT; lia|].
  rewrite Z.sub_0_r. apply Nat.le_refl.
Qed.

Lemma list_index_is_log2_witness :
  list_index 48 = Z.min LISTLIMIT (Z.log2 48).
Proof. apply (list_index_is_log2 48). discriminate. Defined.

(** X4: [extend_heap] asks memlib for an even number of words, the
    number it is given rounded up: the byte count is a multiple of 16,
    so that the heap stays aligned. *)
Theorem extend_size_is_even words :
  0 <= words -> WSIZE * (words + 1) < 2 ^ 64 ->
  extend_size words = WSIZE * (words + words mod 2) /\
  extend_size words mod 16 = 0.
Proof.
  intros H0 H1. unfold extend_size, WSIZE in *.
  pose proof (Z.mod_pos_bound words 2 ltac:(lia)) as Hm.
  pose proof (Z.div_mod words 2 ltac:(lia)) as Hd.
  assert (E : extend_size words = 8 * (words + words mod 2)).
  { unfold extend_size, WSIZE.
    destruct (Z.eqb_spec (words mod 2) 0) as [Hz|Hz]; cbn [negb].
    - rewrite wrap_small by lia. lia.
    - rewrite (wrap_small (words + 1)) by lia. rewrite wrap_small by lia. lia. }
  unfold extend_size, WSIZE in E. rewrite E. split; [reflexivity|].
  replace (8 * (words + words mod 2)) with ((words / 2 + words mod 2) * 16) by lia.
  apply Z.mod_mul. lia.
Qed.

Lemma extend_size_is_even_witness :
  extend_size 5 = WSIZE * (5 + 5 mod 2) /\ extend_size 5 mod 16 = 0.
Proof. apply (extend_size_is_even 5); [discriminate|reflexivity]. Defined.

(** X5: a boundary tag written with [PUT(p, PACK(size, alloc))] at a
    word of the heap is read back by [GET_SIZE(p)] and [GET_ALLOC(p)],
    for a size that is a multiple of 16 and an allocated bit 0 or 1;
    nothing but the word at [p] is written. *)
Theorem tag_written_is_read s p sz a :
  valid s p = true -> 0 <= mem_lo s -> mem_brk s < 2 ^ 64 ->
  0 <= sz < 2 ^ 64 -> sz mod 16 = 0 -> a = 0 \/ a = 1 ->
  (PUT p (PACK sz a) ;;;
   z <- GET_SIZE p ;; b <- GET_ALLOC p ;; ret (z, b)) s =
  Ok ((sz, a), set_mem s (store (mem s) p (PACK sz a))).
Proof.
  intros V Hlo Hbrk H0 H16 Ha. apply valid_iff in V.
  assert (Hlt : sz + a < 2 ^ 64).
  { pose proof (Z.div_mod sz 16 ltac:(lia)).
    change (2 ^ 64) with (16 * 1152921504606846976) in *.
    destruct Ha; subst; lia. }
  destruct (PUT_tag s p sz a) as (E & T); try hlia; try assumption.
  rewrite (PACK_add sz a H16 Ha) in *.
  rewrite (bind_eq _ _ _ _ _ E).
  rewrite (bind_eq _ _ _ _ _ (GET_SIZE_at _ _ _ _ T)).
  rewrite (bind_eq _ _ _ _ _ (GET_ALLOC_at _ _ _ _ T)).
  reflexivity.
Qed.

Lemma tag_written_is_read_witness :
  (PUT 4184 (PACK 48 1) ;;;
   z <- GET_SIZE 4184 ;; b <- GET_ALLOC 4184 ;; ret (z, b))
    (Demo.tidy Demo.no_lists 0) =
  Ok ((48, 1),
      set_mem (Demo.tidy Demo.no_lists 0)
              (store (mem (Demo.tidy Demo.no_lists 0)) 4184 (PACK 48 1))).
Proof.
  apply (tag_written_is_read (Demo.tidy Demo.no_lists 0) 4184 48 1).
  - reflexivity.
  - discriminate.
  - reflexivity.
  - split; [discriminate|reflexivity].
  - reflexivity.
  - right. reflexivity.
Defined.

(** X6: in a heap whose boundary tags are in order, [NEXT_BLKP] of a
    block is the block that follows it and [PREV_BLKP] of that block is
    the first one again, for any two neighbours from the prologue on;
    neither writes. *)
Theorem next_prev_round_trip s bl fl t l1 b c l2 :
  heap_rep s bl fl t -> prologue s :: bl = l1 ++ b :: c :: l2 ->
  NEXT_BLKP (bptr b) s = Ok (bptr c, s) /\
  PREV_BLKP (bptr c) s = Ok (bptr b, s).
Proof.
  intros Hrep E. pose proof Hrep as Hrep0. rep_fields Hrep0.
  assert (Ib : In b (prologue s :: bl)).
  { rewrite E. apply in_or_app. right. left. reflexivity. }
  assert (Ic : In c (prologue s :: bl)).
  { rewrite E. apply in_or_app. right. right. left. reflexivity. }
  destruct (rep_body_range _ _ _ _ Hrep _ Ib) as (B1 & B2 & B3 & _).
  destruct (rep_body_range _ _ _ _ Hrep _ Ic) as (C1 & C2 & C3 & _).
  rewrite E in Rlinked. apply linked_app in Rlinked.
  destruct Rlinked as (q & _ & Hl). cbn [linked] in Hl.
  destruct Hl as (Eb & Ec & _). subst q.
  pose proof (rep_tag_hdr _ _ _ _ Hrep _ Ib) as Tb.
  pose proof (rep_tag_ftr _ _ _ _ Hrep _ Ib) as Fb.
  split.
  - rewrite (NEXT_BLKP_at _ _ _ _ Tb B2), Ec. reflexivity.
  - rewrite Ec.
    rewrite (PREV_BLKP_at s (bptr b + bsize b) (bsize b) (balloc b)).
    + f_equal. f_equal. lia.
    + exact Fb.
    + exact B2.
    + hlia.
Qed.

Lemma next_prev_round_trip_witness :
  NEXT_BLKP Demo.B (Demo.tidy Demo.no_lists 0) =
    Ok (Demo.C, Demo.tidy Demo.no_lists 0) /\
  PREV_BLKP Demo.C (Demo.tidy Demo.no_lists 0) =
    Ok (Demo.B, Demo.tidy Demo.no_lists 0).
Proof.
  apply (next_prev_round_trip (Demo.tidy Demo.no_lists 0) Demo.blocks
           Demo.free_blocks 4096
           [prologue (Demo.tidy Demo.no_lists 0); (Demo.A, 32, 1)]
           (Demo.B, 32, 0) (Demo.C, 32, 1)
           [(Demo.D, 64, 0); (Demo.E, 32, 1); (Demo.F, 32, 1);
            (Demo.G, 32, 1); (Demo.H, 32, 0)]).
  - exact (proj1 (demo_heap_ok Demo.no_lists 0)).
  - reflexivity.
Defined.

(** ** The free list *)

(** X7: in a heap whose free list ends at the padding word,
    [insert_to_free_list] on a free block that is not on the list
    returns and makes the block the head of the list, in front of the
    members the list had, in their order; the blocks of the heap, the
    break and the payload bytes of the allocated blocks are as
    before. *)
Theorem insert_puts_block_at_head s bl fl q sz :
  heap_rep s bl fl (mem_lo s) -> In (q, sz, 0) bl -> ~ In q fl ->
  returns (insert_to_free_list q) s (fun _ s' =>
    heap_rep s' bl (q :: fl) (mem_lo s) /\ free_listp s' = q /\
    frame bl s s').
Proof.
  intros Hrep Hq Hn.
  destruct (rep_insert_runs s bl fl q sz (mem_lo s) Hrep eq_refl Hq Hn)
    as (s' & E & Hrep' & F).
  exists tt, s'. split; [exact E|]. split; [exact Hrep'|].
  split; [|exact F]. exact (rep_head _ _ _ _ Hrep').
Qed.

Lemma insert_puts_block_at_head_witness :
  returns (insert_to_free_list Demo.F) (tidy_released Demo.F 32)
    (fun _ s' =>
       heap_rep s' (released_blocks Demo.F) (Demo.F :: Demo.free_blocks)
                (mem_lo (tidy_released Demo.F 32)) /\
       free_listp s' = Demo.F /\
       frame (released_blocks Demo.F) (tidy_released Demo.F 32) s').
Proof.
  apply (insert_puts_block_at_head (tidy_released Demo.F 32)
           (released_blocks Demo.F) Demo.free_blocks Demo.F 32).
  - apply released_rep. right. right. right. left. reflexivity.
  - right. right. right. right. right. left. reflexivity.
  - intros [K|[K|[K|[]]]]; discriminate K.
Defined.

(** X8: in a heap whose free list ends at the padding word,
    [remove_from_free_list] on a member of the list returns and leaves
    the list without that member, the others in their order; the
    blocks of the heap, the break and the payload bytes of the
    allocated blocks are as before. *)
Theorem remove_unlinks_block s bl f1 q f2 :
  heap_rep s bl (f1 ++ q :: f2) (mem_lo s) ->
  returns (remove_from_free_list q) s (fun _ s' =>
    heap_rep s' bl (f1 ++ f2) (mem_lo s) /\
    free_listp s' = hd (mem_lo s) (f1 ++ f2) /\ frame bl s s').
Proof.
  intros Hrep.
  destruct (rep_remove_runs s bl f1 q f2 (mem_lo s) Hrep eq_refl)
    as (s' & E & Hrep' & F).
  exists tt, s'. split; [exact E|]. split; [exact Hrep'|].
  split; [|exact F]. exact (rep_head _ _ _ _ Hrep').
Qed.

Lemma remove_unlinks_block_witness :
  returns (remove_from_free_list Demo.B) (Demo.tidy Demo.no_lists 0)
    (fun _ s' =>
       heap_rep s' Demo.blocks ([Demo.D] ++ [Demo.H])
                (mem_lo (Demo.tidy Demo.no_lists 0)) /\
       free_listp s' =
         hd (mem_lo (Demo.tidy Demo.no_lists 0)) ([Demo.D] ++ [Demo.H]) /\
       frame Demo.blocks (Demo.tidy Demo.no_lists 0) s').
Proof.
  apply (remove_unlinks_block (Demo.tidy Demo.no_lists 0) Demo.blocks
           [Demo.D] Demo.B [Demo.H]).
  exact (proj1 (demo_heap_ok Demo.no_lists 0)).
Defined.

(** X9: [insert_to_free_list] followed by [remove_from_free_list] on
    the same block gives back the free list there was: the same
    members in the same order from the same head, with the blocks, the
    break and the payload bytes of the allocated blocks as before. *)
Theorem insert_then_remove s bl fl q sz :
  heap_rep s bl fl (mem_lo s) -> In (q, sz, 0) bl -> ~ In q fl ->
  returns (insert_to_free_list q ;;; remove_from_free_list q) s
    (fun _ s' =>
       heap_rep s' bl fl (mem_lo s) /\ free_listp s' = free_listp s /\
       frame bl s s').
Proof.
  intros Hrep Hq Hn.
  destruct (rep_insert_runs s bl fl q sz (mem_lo s) Hrep eq_refl Hq Hn)
    as (s1 & E1 & Hrep1 & F1).
  pose proof F1 as (L1 & _).
  destruct (rep_remove_runs s1 bl [] q fl (mem_lo s) Hrep1
              ltac:(symmetry; exact L1))
    as (s2 & E2 & Hrep2 & F2).
  exists tt, s2. split.
  - rewrite (bind_eq _ _ _ _ _ E1). exact E2.
  - cbn [app] in Hrep2. split; [exact Hrep2|]. split.
    + rewrite (rep_head _ _ _ _ Hrep2), (rep_head _ _ _ _ Hrep). reflexivity.
    + exact (frame_trans _ _ _ _ F1 F2).
Qed.

Lemma insert_then_remove_witness :
  returns (insert_to_free_list Demo.F ;;; remove_from_free_list Demo.F)
    (tidy_released Demo.F 32)
    (fun _ s' =>
       heap_rep s' (released_blocks Demo.F) Demo.free_blocks
                (mem_lo (tidy_released Demo.F 32)) /\
       free_listp s' = free_listp (tidy_released Demo.F 32) /\
       frame (released_blocks Demo.F) (tidy_released Demo.F 32) s').
Proof.
  apply (insert_then_remove (tidy_released Demo.F 32)
           (released_blocks Demo.F) Demo.free_blocks Demo.F 32).
  - apply released_rep. right. right. right. left. reflexivity.
  - right. right. right. right. right. left. reflexivity.
  - intros [K|[K|[K|[]]]]; discriminate K.
Defined.

(** ** [find_fit] *)

(** X10: [find_fit] is a first fit along the free list.  When the
    bucket of the size class of [asize] holds a member of the free
    list, [find_fit] returns the first block from there on, in list
    order, whose size is at least [asize], having passed over the
    smaller ones; it changes nothing. *)
Theorem find_fit_returns_first_fit s bl fl t asize f1 pre q post z :
  heap_rep s bl fl t ->
  0 <= list_index asize < LISTLIMIT ->
  nth_error (segregated_lists s) (Z.to_nat (list_index asize)) =
    Some (hd t (pre ++ q :: post)) ->
  fl = f1 ++ pre ++ q :: post ->
  (forall p y, In p pre -> In (p, y, 0) bl -> y < asize) ->
  In (q, z, 0) bl -> asize <= z ->
  find_fit asize s = Ok (q, s).
Proof. exact (find_fit_first s bl fl t asize f1 pre q post z). Qed.

Lemma find_fit_returns_first_fit_witness :
  find_fit 32 (Demo.tidy (set_nth Demo.no_lists 5 Demo.B) 0) =
  Ok (Demo.B, Demo.tidy (set_nth Demo.no_lists 5 Demo.B) 0).
Proof.
  apply (find_fit_returns_first_fit
           (Demo.tidy (set_nth Demo.no_lists 5 Demo.B) 0)
           Demo.blocks Demo.free_blocks 4096 32
           [Demo.D] [] Demo.B [Demo.H] 32).
  - exact (proj1 (demo_heap_ok _ 0)).
  - split; [discriminate|reflexivity].
  - reflexivity.
  - reflexivity.
  - intros p y [].
  - right. left. reflexivity.
  - discriminate.
Defined.

(** X11: the loop of [find_fit] has no test for the end of the list.
    When no block from the bucket entry on is large enough, the search
    does not return NULL: it goes on to the value that ends the list
    and reads a header in front of it, outside the heap. *)
Theorem find_fit_runs_off_the_list s bl fl t asize f1 pre :
  heap_rep s bl fl t ->
  0 <= list_index asize < LISTLIMIT ->
  nth_error (segregated_lists s) (Z.to_nat (list_index asize)) =
    Some (hd t pre) ->
  fl = f1 ++ pre ->
  (forall p y, In p pre -> In (p, y, 0) bl -> y < asize) ->
  find_fit asize s = Err (SegFault (HDRP t)).
Proof.
  intros Hrep Hi Hn Efl Hsmall. unfold find_fit. cbv zeta.
  rewrite (bind_eq _ _ _ _ _ (get_list_at _ _ _ Hi Hn)).
  exact (fit_loop_exhausted s bl fl t Hrep asize f1 pre Efl Hsmall).
Qed.

Lemma find_fit_runs_off_the_list_witness :
  find_fit 64 (Demo.tidy (set_nth Demo.no_lists 6 Demo.B) 0) =
  Err (SegFault (HDRP 4096)).
Proof.
  apply (find_fit_runs_off_the_list
           (Demo.tidy (set_nth Demo.no_lists 6 Demo.B) 0)
           Demo.blocks Demo.free_blocks 4096 64
           [Demo.D] [Demo.B; Demo.H]).
  - exact (proj1 (demo_heap_ok _ 0)).
  - split; [discriminate|reflexivity].
  - reflexivity.
  - reflexivity.
  - intros p y [<-|[<-|[]]] K; cbn in K;
      repeat destruct K as [K|K]; try discriminate K; try contradiction;
      inversion K; reflexivity.
Defined.

(** ** Blocks: [place], [coalesce], [extend_heap], [free] *)

(** X12: [place] on a free block [b] of a heap in order, for an
    aligned size of at least 32 bytes that [b] can hold, returns.  If
    the remainder is at least 32 bytes, the minimum block, [b] is split:
    its first [asize] bytes become an allocated block and the rest a
    free block, which takes the head of the free list; otherwise the
    whole of [b] becomes allocated.  In both cases [b] leaves the free
    list, the heap is in order again and the payload bytes of the
    allocated blocks are as before. *)
Theorem place_splits_or_takes_all s l1 b l2 fl asize :
  heap_ok s (l1 ++ b :: l2) fl (mem_lo s) -> balloc b = 0 ->
  2 * DSIZE <= asize <= bsize b -> asize mod 16 = 0 ->
  returns (place (bptr b) asize) s (fun _ s' =>
    exists f1 f2, fl = f1 ++ bptr b :: f2 /\
      (if bsize b - asize >=? DSIZE + OVERHEAD
       then heap_ok s' (l1 ++ (bptr b, asize, 1) ::
                          (bptr b + asize, bsize b - asize, 0) :: l2)
                    (bptr b + asize :: f1 ++ f2) (mem_lo s)
       else heap_ok s' (l1 ++ (bptr b, bsize b, 1) :: l2) (f1 ++ f2)
                    (mem_lo s)) /\
      frame (l1 ++ b :: l2) s s').
Proof.
  intros Hok Hb Hz H16.
  exact (place_exact s l1 b l2 fl (mem_lo s) asize Hok eq_refl Hb Hz H16).
Qed.

Lemma place_splits_or_takes_all_witness :
  returns (place Demo.D 32) (Demo.tidy Demo.no_lists 0) (fun _ s' =>
    exists f1 f2, Demo.free_blocks = f1 ++ Demo.D :: f2 /\
      heap_ok s'
        ([(Demo.A, 32, 1); (Demo.B, 32, 0); (Demo.C, 32, 1)] ++
         (Demo.D, 32, 1) :: (Demo.D + 32, 32, 0) ::
         [(Demo.E, 32, 1); (Demo.F, 32, 1); (Demo.G, 32, 1);
          (Demo.H, 32, 0)])
        (Demo.D + 32 :: f1 ++ f2) 4096 /\
      frame Demo.blocks (Demo.tidy Demo.no_lists 0) s').
Proof.
  apply (place_splits_or_takes_all (Demo.tidy Demo.no_lists 0)
           [(Demo.A, 32, 1); (Demo.B, 32, 0); (Demo.C, 32, 1)]
           (Demo.D, 64, 0)
           [(Demo.E, 32, 1); (Demo.F, 32, 1); (Demo.G, 32, 1);
            (Demo.H, 32, 0)]
           Demo.free_blocks 32).
  - exact (demo_heap_ok Demo.no_lists 0).
  - reflexivity.
  - split; discriminate.
  - reflexivity.
Defined.

(** X13: [coalesce] on a free block [b] that is on no list yet, in a
    heap otherwise in order, returns.  The run of at most three blocks
    made of [b] and its free neighbours becomes one free block, which
    starts where the run starts and has the sizes of the run added up;
    it is the block returned and the new head of the free list.  The
    heap is in order again, so no neighbour of the result is free, and
    the payload bytes of the allocated blocks are as before. *)
Theorem coalesce_merges_free_neighbours s l1 b l2 fl :
  heap_pending s l1 b l2 fl (mem_lo s) ->
  returns (coalesce (bptr b)) s (fun r s' =>
    exists k1 mids k2 fl',
      l1 ++ b :: l2 = k1 ++ mids ++ k2 /\ In b mids /\
      (forall x, In x mids -> balloc x = 0) /\ (length mids <= 3)%nat /\
      r = bptr (hd b mids) /\
      heap_ok s' (k1 ++ (r, total mids, 0) :: k2) (r :: fl') (mem_lo s) /\
      frame (l1 ++ l2) s s').
Proof.
  intros Hpend.
  exact (coalesce_exact s l1 b l2 fl (mem_lo s) Hpend eq_refl).
Qed.

Lemma coalesce_merges_free_neighbours_witness :
  returns (coalesce Demo.C) (tidy_released Demo.C 32) (fun r s' =>
    exists k1 mids k2 fl',
      [(Demo.A, 32, 1); (Demo.B, 32, 0)] ++ (Demo.C, 32, 0) ::
      [(Demo.D, 64, 0); (Demo.E, 32, 1); (Demo.F, 32, 1); (Demo.G, 32, 1);
       (Demo.H, 32, 0)] = k1 ++ mids ++ k2 /\
      In (Demo.C, 32, 0) mids /\
      (forall x, In x mids -> balloc x = 0) /\ (length mids <= 3)%nat /\
      r = bptr (hd (Demo.C, 32, 0) mids) /\
      heap_ok s' (k1 ++ (r, total mids, 0) :: k2) (r :: fl') 4096 /\
      frame ([(Demo.A, 32, 1); (Demo.B, 32, 0)] ++
             [(Demo.D, 64, 0); (Demo.E, 32, 1); (Demo.F, 32, 1);
              (Demo.G, 32, 1); (Demo.H, 32, 0)])
            (tidy_released Demo.C 32) s').
Proof.
  apply (coalesce_merges_free_neighbours (tidy_released Demo.C 32)
           [(Demo.A, 32, 1); (Demo.B, 32, 0)] (Demo.C, 32, 0)
           [(Demo.D, 64, 0); (Demo.E, 32, 1); (Demo.F, 32, 1);
            (Demo.G, 32, 1); (Demo.H, 32, 0)]
           Demo.free_blocks).
  exact pending_C.
Defined.

(** X14: [extend_heap], when memlib has room for the even number of
    words asked for, a multiple of 16 bytes and at least 32, returns a
    block that is not NULL: the break has moved up by exactly that
    many bytes, and the block returned is free, the last of the heap,
    ends at the new break and heads the free list; it holds the new
    bytes, together with the block that was last if that was free.
    The allocated blocks and their payload bytes are as before. *)
Theorem extend_heap_adds_a_free_block s bl fl words size :
  heap_ok s bl fl (mem_lo s) -> mem_max_addr s < 2 ^ 64 ->
  extend_size words = size -> 2 * DSIZE <= size -> size mod 16 = 0 ->
  sbrk_refuses s size = false ->
  returns (extend_heap words) s (fun r s' =>
    exists k1 c fl',
      r = bptr c /\ r <> NULL /\ balloc c = 0 /\ size <= bsize c /\
      heap_ok s' (k1 ++ [c]) (bptr c :: fl') (mem_lo s) /\
      same_allocated bl k1 /\ grown bl s s' /\
      mem_brk s' = mem_brk s + size /\
      bptr c + bsize c = mem_brk s').
Proof.
  intros Hok Hmax Ew Hsz H16 Hroom.
  exact (extend_heap_exact s bl fl (mem_lo s) words size Hok eq_refl Hmax Ew
           Hsz H16 Hroom).
Qed.

Lemma extend_heap_adds_a_free_block_witness :
  returns (extend_heap 512) (Demo.tidy Demo.no_lists 4096) (fun r s' =>
    exists k1 c fl',
      r = bptr c /\ r <> NULL /\ balloc c = 0 /\ 4096 <= bsize c /\
      heap_ok s' (k1 ++ [c]) (bptr c :: fl') 4096 /\
      same_allocated Demo.blocks k1 /\
      grown Demo.blocks (Demo.tidy Demo.no_lists 4096) s' /\
      mem_brk s' = 4416 + 4096 /\
      bptr c + bsize c = mem_brk s').
Proof.
  apply (extend_heap_adds_a_free_block (Demo.tidy Demo.no_lists 4096)
           Demo.blocks Demo.free_blocks 512 4096).
  - exact (demo_heap_ok Demo.no_lists 4096).
  - reflexivity.
  - reflexivity.
  - discriminate.
  - reflexivity.
  - reflexivity.
Defined.

(** X15: [free] on the payload address of an allocated block [b] of a
    heap in order returns.  The block list is the one before with [b]
    counted as free and the run of at most three blocks made of [b] and
    its free neighbours replaced by one free block of their total
    size, which heads the free list; the heap is in order again, and
    the payload bytes of the other allocated blocks, the break and the
    bucket table are as before. *)
Theorem free_releases_and_merges s l1 b l2 fl :
  heap_ok s (l1 ++ b :: l2) fl (mem_lo s) -> balloc b = 1 ->
  returns (free (bptr b)) s (fun _ s' =>
    exists k1 mids k2 fl',
      l1 ++ (bptr b, bsize b, 0) :: l2 = k1 ++ mids ++ k2 /\
      In (bptr b, bsize b, 0) mids /\
      (forall x, In x mids -> balloc x = 0) /\ (length mids <= 3)%nat /\
      heap_ok s' (k1 ++ (bptr (hd b mids), total mids, 0) :: k2)
              (bptr (hd b mids) :: fl') (mem_lo s) /\
      frame (l1 ++ l2) s s').
Proof.
  intros Hok Hb.
  exact (free_exact s l1 b l2 fl (mem_lo s) Hok eq_refl Hb).
Qed.

Lemma free_releases_and_merges_witness :
  returns (free Demo.C) (Demo.tidy Demo.no_lists 0) (fun _ s' =>
    exists k1 mids k2 fl',
      [(Demo.A, 32, 1); (Demo.B, 32, 0)] ++ (Demo.C, 32, 0) ::
      [(Demo.D, 64, 0); (Demo.E, 32, 1); (Demo.F, 32, 1); (Demo.G, 32, 1);
       (Demo.H, 32, 0)] = k1 ++ mids ++ k2 /\
      In (Demo.C, 32, 0) mids /\
      (forall x, In x mids -> balloc x = 0) /\ (length mids <= 3)%nat /\
      heap_ok s' (k1 ++ (bptr (hd (Demo.C, 32, 1) mids), total mids, 0) :: k2)
              (bptr (hd (Demo.C, 32, 1) mids) :: fl') 4096 /\
      frame ([(Demo.A, 32, 1); (Demo.B, 32, 0)] ++
             [(Demo.D, 64, 0); (Demo.E, 32, 1); (Demo.F, 32, 1);
              (Demo.G, 32, 1); (Demo.H, 32, 0)])
            (Demo.tidy Demo.no_lists 0) s').
Proof.
  apply (free_releases_and_merges (Demo.tidy Demo.no_lists 0)
           [(Demo.A, 32, 1); (Demo.B, 32, 0)] (Demo.C, 32, 1)
           [(Demo.D, 64, 0); (Demo.E, 32, 1); (Demo.F, 32, 1);
            (Demo.G, 32, 1); (Demo.H, 32, 0)]
           Demo.free_blocks).
  - exact (demo_heap_ok Demo.no_lists 0).
  - reflexivity.
Defined.

(** ** The public operations *)

(** X16: [malloc] takes the first fit.  In a heap in order, when the
    bucket of the size class of the adjusted request holds a member of
    the free list and [b] is the first block from there on, in list
    order, that is large enough, [malloc] returns the payload address
    of [b] without moving the break: [b] is split if at least 32 bytes
    would remain and handed out whole otherwise, and the payload bytes
    of the blocks allocated before are as they were. *)
Theorem malloc_takes_first_fit s l1 b l2 fl n f0 pre post :
  heap_ok s (l1 ++ b :: l2) fl (mem_lo s) ->
  0 < n -> n + 2 * DSIZE < 2 ^ 64 ->
  0 <= list_index (adjust n) < LISTLIMIT ->
  nth_error (segregated_lists s) (Z.to_nat (list_index (adjust n))) =
    Some (hd (mem_lo s) (pre ++ bptr b :: post)) ->
  fl = f0 ++ pre ++ bptr b :: post ->
  (forall p y, In p pre -> In (p, y, 0) (l1 ++ b :: l2) -> y < adjust n) ->
  balloc b = 0 -> adjust n <= bsize b ->
  returns (malloc n) s (fun r s' =>
    r = bptr b /\ mem_brk s' = mem_brk s /\
    exists f1 f2, fl = f1 ++ bptr b :: f2 /\
      (if bsize b - adjust n >=? DSIZE + OVERHEAD
       then heap_ok s' (l1 ++ (bptr b, adjust n, 1) ::
                          (bptr b + adjust n, bsize b - adjust n, 0) :: l2)
                    (bptr b + adjust n :: f1 ++ f2) (mem_lo s)
       else heap_ok s' (l1 ++ (bptr b, bsize b, 1) :: l2) (f1 ++ f2)
                    (mem_lo s)) /\
      frame (l1 ++ b :: l2) s s').
Proof.
  intros Hok Hn Hnb Hi Hnth Efl Hsmall Hb Hsz.
  assert (Hin : In (bptr b, bsize b, 0) (l1 ++ b :: l2)).
  { rewrite <- Hb, <- block_eta. apply in_or_app. right. left. reflexivity. }
  pose proof (find_fit_first s _ fl (mem_lo s) (adjust n) f0 pre (bptr b) post
                (bsize b) (proj1 Hok) Hi Hnth Efl Hsmall Hin Hsz) as Hfit.
  apply (returns_weaken _ _ _ _
           (malloc_takes s l1 b l2 fl (mem_lo s) n Hok eq_refl Hn Hnb Hb Hsz
              Hfit)).
  intros r s' (Er & f1 & f2 & E & Hcase & F).
  split; [exact Er|]. split; [exact (proj1 (proj2 F))|].
  exists f1, f2. split; [exact E|]. split; [exact Hcase|exact F].
Qed.

Lemma malloc_takes_first_fit_witness :
  returns (malloc 40) (Demo.tidy Demo.D_lists 0) (fun r s' =>
    r = Demo.D /\ mem_brk s' = 4416 /\
    exists f1 f2, Demo.free_blocks = f1 ++ Demo.D :: f2 /\
      heap_ok s'
        ([(Demo.A, 32, 1); (Demo.B, 32, 0); (Demo.C, 32, 1)] ++
         (Demo.D, 64, 1) ::
         [(Demo.E, 32, 1); (Demo.F, 32, 1); (Demo.G, 32, 1);
          (Demo.H, 32, 0)])
        (f1 ++ f2) 4096 /\
      frame Demo.blocks (Demo.tidy Demo.D_lists 0) s').
Proof.
  apply (malloc_takes_first_fit (Demo.tidy Demo.D_lists 0)
           [(Demo.A, 32, 1); (Demo.B, 32, 0); (Demo.C, 32, 1)]
           (Demo.D, 64, 0)
           [(Demo.E, 32, 1); (Demo.F, 32, 1); (Demo.G, 32, 1);
            (Demo.H, 32, 0)]
           Demo.free_blocks 40 [] [] [Demo.B; Demo.H]).
  - exact (demo_heap_ok Demo.D_lists 0).
  - reflexivity.
  - reflexivity.
  - split; [discriminate|reflexivity].
  - reflexivity.
  - reflexivity.
  - intros p y [].
  - reflexivity.
  - discriminate.
Defined.

(** X17: [malloc] extends the heap when the search finds nothing.  In
    a heap in order, when the bucket of the size class of the adjusted
    request holds an allocated block, the search ends there with no
    fit; if memlib has room, [malloc] moves the break up by exactly
    the adjusted size or [CHUNKSIZE], whichever is more, and returns a
    block that starts at the old break, or below it when the last
    block was free: a block that was not allocated before, with room
    for the request, in a heap in order again in which the blocks
    allocated before keep their payload bytes. *)
Theorem malloc_extends_the_heap s bl fl n h z :
  heap_ok s bl fl (mem_lo s) -> mem_max_addr s < 2 ^ 64 ->
  0 < n -> n + 2 * DSIZE < 2 ^ 64 ->
  0 <= list_index (adjust n) < LISTLIMIT ->
  nth_error (segregated_lists s) (Z.to_nat (list_index (adjust n))) =
    Some h ->
  In (h, z, 1) (prologue s :: bl) ->
  sbrk_refuses s (MAX (adjust n) CHUNKSIZE) = false ->
  returns (malloc n) s (fun r s' =>
    mem_brk s' = mem_brk s + MAX (adjust n) CHUNKSIZE /\
    r <= mem_brk s /\ allocated_at n s bl (mem_lo s) r s').
Proof.
  intros Hok Hmax Hn Hnb Hi Hnth Hh Hroom.
  pose proof (find_fit_stale s bl fl (mem_lo s) (adjust n) h z (proj1 Hok)
                Hi Hnth Hh) as Hfit.
  exact (malloc_extends s bl fl (mem_lo s) n Hok eq_refl Hmax Hn Hnb Hfit
           Hroom).
Qed.

Lemma malloc_extends_the_heap_witness :
  returns (malloc 16) (Demo.tidy Demo.ended_lists 4096) (fun r s' =>
    mem_brk s' = 4416 + 4096 /\ r <= 4416 /\
    allocated_at 16 (Demo.tidy Demo.ended_lists 4096) Demo.blocks 4096 r s').
Proof.
  apply (malloc_extends_the_heap (Demo.tidy Demo.ended_lists 4096)
           Demo.blocks Demo.free_blocks 16 4112 16).
  - exact (demo_heap_ok Demo.ended_lists 4096).
  - reflexivity.
  - reflexivity.
  - reflexivity.
  - split; [discriminate|reflexivity].
  - reflexivity.
  - left. reflexivity.
  - reflexivity.
Defined.

(** X18: [calloc], when its [malloc] of [nmemb * size] bytes (the
    product taken modulo 2^64) returns a block, returns that block with
    every one of these bytes set to zero, in a heap in order again;
    the block has room for them. *)
Theorem calloc_zero_fills s bl fl k n :
  good s bl fl -> 0 < wrap (k * n) -> wrap (k * n) + 2 * DSIZE < 2 ^ 64 ->
  returns (malloc (wrap (k * n))) s (fun q _ => q <> NULL) ->
  returns (calloc k n) s (fun r s' =>
    r <> NULL /\
    (forall i, 0 <= i < wrap (k * n) -> mem s' (r + i) = 0) /\
    exists bl' fl' z,
      heap_ok s' bl' fl' (mem_lo s) /\ In (r, z, 1) bl' /\
      wrap (k * n) + OVERHEAD <= z).
Proof.
  intros Hgood H0 Hb (q & s1 & E & Nq).
  destruct (malloc_cases s bl fl (wrap (k * n)) q s1 Hgood ltac:(lia) Hb E)
    as [(Eq & _)|Hat]; [contradiction|].
  apply (returns_weaken _ _ _ _ (calloc_spec s bl (mem_lo s) k n q s1 H0 E Hat)).
  intros r s' (-> & bl' & fl' & z & Hok & Hin & Hz & Hzero & _).
  split; [exact Nq|]. split; [exact Hzero|].
  exists bl', fl', z. auto.
Qed.

Lemma calloc_zero_fills_witness :
  returns (calloc 5 8) (Demo.tidy Demo.D_lists 0) (fun r s' =>
    r <> NULL /\
    (forall i, 0 <= i < 40 -> mem s' (r + i) = 0) /\
    exists bl' fl' z,
      heap_ok s' bl' fl' 4096 /\ In (r, z, 1) bl' /\ 40 + OVERHEAD <= z).
Proof.
  apply (calloc_zero_fills (Demo.tidy Demo.D_lists 0) Demo.blocks
           Demo.free_blocks 5 8).
  - exact demo_good_D.
  - reflexivity.
  - reflexivity.
  - destruct (malloc (wrap (5 * 8)) (Demo.tidy Demo.D_lists 0))
      as [[q s1]|f] eqn:E.
    + exists q, s1. split; [exact E|].
      assert (V : value_of (malloc (wrap (5 * 8)) (Demo.tidy Demo.D_lists 0))
                  = Some Demo.D) by (vm_compute; reflexivity).
      rewrite E in V. inversion V. discriminate.
    + exfalso.
      assert (V : value_of (malloc (wrap (5 * 8)) (Demo.tidy Demo.D_lists 0))
                  = Some Demo.D) by (vm_compute; reflexivity).
      rewrite E in V. discriminate V.
Defined.

(** X19: [mm_init] called first never returns 0.  The start state is
    the one the program has before any call: the heap region empty and
    the file-scope pointer [free_listp] NULL.  With room for 64 bytes
    [mm_init] does not return: it writes the padding word, the prologue
    and the epilogue, empties the buckets, and [extend_heap] hands the
    first block to [coalesce], where [insert_to_free_list] writes at
    address 0.  With room for 32 bytes only it returns -1 after having
    taken them: prologue and epilogue are written, the free list is
    empty and every bucket is NULL.  With less it returns -1 and has
    changed nothing but [heap_listp], which holds the failure value of
    [mem_sbrk]. *)
Theorem mm_init_at_the_start s :
  unstarted s ->
  (mem_lo s + 4 * DSIZE <= mem_max_addr s ->
   mm_init s = Err (SegFault NULL)) /\
  (mem_lo s + 2 * DSIZE <= mem_max_addr s < mem_lo s + 4 * DSIZE ->
   exists s', mm_init s = Ok (-1, s') /\
     heap_ok s' [] [] NULL /\
     segregated_lists s' = repeat NULL (Z.to_nat LISTLIMIT) /\
     mem_lo s' = mem_lo s /\ mem_brk s' = mem_lo s + 2 * DSIZE /\
     mem_max_addr s' = mem_max_addr s) /\
  (mem_max_addr s < mem_lo s + 2 * DSIZE ->
   mm_init s = Ok (-1, set_heap_listp s SBRK_FAILED)).
Proof. exact (mm_init_unstarted s). Qed.

Lemma mm_init_at_the_start_witness :
  mm_init (Demo.start 8192) = Err (SegFault NULL) /\
  (exists s', mm_init (Demo.start 40) = Ok (-1, s') /\
     heap_ok s' [] [] NULL /\
     segregated_lists s' = repeat NULL (Z.to_nat LISTLIMIT) /\
     mem_lo s' = 4096 /\ mem_brk s' = 4128 /\ mem_max_addr s' = 4136) /\
  mm_init (Demo.start 8) = Ok (-1, set_heap_listp (Demo.start 8) SBRK_FAILED).
Proof.
  assert (U : forall room, 0 <= room < 4294967296 ->
                           unstarted (Demo.start room)).
  { intros room Hr. unfold unstarted, Demo.start.
    cbn [mem_lo mem_brk mem_max_addr free_listp segregated_lists].
    repeat split; try reflexivity.
    change (2 ^ 64) with 18446744073709551616. lia. }
  assert (U1 : unstarted (Demo.start 8192)) by (apply U; lia).
  assert (U2 : unstarted (Demo.start 40)) by (apply U; lia).
  assert (U3 : unstarted (Demo.start 8)) by (apply U; lia).
  split; [|split].
  - apply (proj1 (mm_init_at_the_start (Demo.start 8192) U1)).
    cbn. unfold DSIZE. lia.
  - apply (proj1 (proj2 (mm_init_at_the_start (Demo.start 40) U2))).
    cbn. unfold DSIZE. lia.
  - apply (proj2 (proj2 (mm_init_at_the_start (Demo.start 8) U3))).
    cbn. unfold DSIZE. lia.
Defined.

(** X20: a block obtained from [malloc] and given back to [free] at
    once leaves a heap in order with the same allocated blocks as
    before the two calls, their payload bytes unchanged; the break may
    have moved up. *)
Theorem malloc_then_free s bl fl n :
  good s bl fl -> 0 < n -> n + 2 * DSIZE < 2 ^ 64 ->
  returns (malloc n) s (fun r _ => r <> NULL) ->
  returns (r <- malloc n ;; free r) s (fun _ s2 =>
    exists bl2 fl2,
      heap_ok s2 bl2 fl2 (mem_lo s) /\ same_allocated bl bl2 /\
      grown bl s s2).
Proof.
  intros Hgood Hn Hb (r & s1 & E & Nr).
  destruct (malloc_cases s bl fl n r s1 Hgood ltac:(lia) Hb E)
    as [(Eq & _)|Hat]; [contradiction|].
  destruct Hat as (_ & bl1 & fl1 & z & Hok1 & _ & Hin & Hsame & G1 & Hnew).
  destruct (in_split _ _ Hin) as (l1 & l2 & Ebl). subst bl1.
  pose proof G1 as (L1 & _).
  destruct (free_spec s1 l1 (r, z, 1) l2 fl1 (mem_lo s) Hok1
              ltac:(symmetry; exact L1) eq_refl)
    as ([] & s2 & E2 & bl2 & fl2 & Hok2 & Hsame2 & F2).
  cbn [bptr fst] in E2.
  exists tt, s2. split; [rewrite (bind_eq _ _ _ _ _ E); exact E2|].
  exists bl2, fl2.
  assert (Hsub : forall c, balloc c = 1 -> (In c bl <-> In c (l1 ++ l2))).
  { intros c Hc. split; intros H.
    - assert (H' : In c ((r, z, 1) :: bl)) by (right; exact H).
      apply (Hsame c Hc) in H'. apply in_app_or in H'. apply in_or_app.
      destruct H' as [H'|[H'|H']]; [left; exact H'| |right; exact H'].
      exfalso. apply (Hnew c H Hc). subst c. reflexivity.
    - assert (H' : In c (l1 ++ (r, z, 1) :: l2)).
      { apply in_app_or in H. apply in_or_app.
        destruct H; [left|right; right]; assumption. }
      apply (Hsame c Hc) in H'. destruct H' as [H'|H']; [|exact H'].
      exfalso. subst c.
      exact (b_alone s1 l1 l2 (r, z, 1) fl1 (mem_lo s) (proj1 Hok1) z 1 H). }
  split; [exact Hok2|]. split.
  - intros c Hc. rewrite (Hsub c Hc). exact (Hsame2 c Hc).
  - apply (grown_trans _ s s1); [exact G1|]. apply frame_grown.
    apply (frame_incl (l1 ++ l2)); [|exact F2].
    intros c Hc Hac. apply (Hsub c Hac). exact Hc.
Qed.

Lemma malloc_then_free_witness :
  returns (r <- malloc 40 ;; free r) (Demo.tidy Demo.D_lists 0)
    (fun _ s2 =>
       exists bl2 fl2,
         heap_ok s2 bl2 fl2 4096 /\ same_allocated Demo.blocks bl2 /\
         grown Demo.blocks (Demo.tidy Demo.D_lists 0) s2).
Proof.
  apply (malloc_then_free (Demo.tidy Demo.D_lists 0) Demo.blocks
           Demo.free_blocks 40).
  - exact demo_good_D.
  - reflexivity.
  - reflexivity.
  - destruct (malloc 40 (Demo.tidy Demo.D_lists 0)) as [[q s1]|f] eqn:E.
    + exists q, s1. split; [exact E|].
      assert (V : value_of (malloc 40 (Demo.tidy Demo.D_lists 0))
                  = Some Demo.D) by (vm_compute; reflexivity).
      rewrite E in V. inversion V. discriminate.
    + exfalso.
      assert (V : value_of (malloc 40 (Demo.tidy Demo.D_lists 0))
                  = Some Demo.D) by (vm_compute; reflexivity).
      rewrite E in V. discriminate V.
Defined.

(** ** The heap checker *)

(** X21: [mm_checkheap(0)] prints nothing, and changes nothing, on
    every heap that starts at a multiple of 8 and whose boundary tags
    are in order.  That includes heaps in which two neighbours are
    free, or in which a free block is on no list: the invariant asked
    for here allows both, and the heap of the witness has both. *)
Theorem checkheap_accepts_tagged_heap s bl fl t :
  heap_rep s bl fl t -> mem_lo s mod 8 = 0 ->
  mm_checkheap 0 s = Ok ([], s).
Proof.
  intros Hrep Hlo. exact (checkheap_rep s bl fl t 0 Hrep Hlo).
Qed.

Lemma checkheap_accepts_tagged_heap_witness :
  adjacent_free (released_blocks Demo.C) = true /\
  mm_checkheap 0 (tidy_released Demo.C 32) =
  Ok ([], tidy_released Demo.C 32).
Proof.
  split; [reflexivity|].
  apply (checkheap_accepts_tagged_heap (tidy_released Demo.C 32)
           (released_blocks Demo.C) Demo.free_blocks 4096).
  - apply released_rep. right. left. reflexivity.
  - reflexivity.
Defined.

(** X22: [mm_checkheap] with a verbose flag that is not 0, on a heap
    that starts at a multiple of 8 and whose boundary tags are in
    order, prints the address of the prologue, then one line for the
    prologue and for each block in address order, with the size and
    the letter of the header and the same of the footer, then the end
    of list line at the break, and no error. *)
Theorem checkheap_lists_the_blocks s bl fl t verbose :
  heap_rep s bl fl t -> mem_lo s mod 8 = 0 -> verbose <> 0 ->
  mm_checkheap verbose s =
  Ok (Heap_at (heap_listp s) ::
      map line_of (prologue s :: bl) ++ [End_of_list (mem_brk s)], s).
Proof.
  intros Hrep Hlo Hv. rewrite (checkheap_rep s bl fl t verbose Hrep Hlo).
  replace (verbose =? 0) with false by (symmetry; apply Z.eqb_neq; exact Hv).
  rewrite (rep_listp _ _ _ _ Hrep). reflexivity.
Qed.

Lemma checkheap_lists_the_blocks_witness :
  mm_checkheap 1 (Demo.tidy Demo.no_lists 0) =
  Ok ([ Heap_at 4112;
        Block_line 4112 16 letter_a 16 letter_a;
        Block_line Demo.A 32 letter_a 32 letter_a;
        Block_line Demo.B 32 letter_f 32 letter_f;
        Block_line Demo.C 32 letter_a 32 letter_a;
        Block_line Demo.D 64 letter_f 64 letter_f;
        Block_line Demo.E 32 letter_a 32 letter_a;
        Block_line Demo.F 32 letter_a 32 letter_a;
        Block_line Demo.G 32 letter_a 32 letter_a;
        Block_line Demo.H 32 letter_f 32 letter_f;
        End_of_list 4416 ], Demo.tidy Demo.no_lists 0).
Proof.
  apply (checkheap_lists_the_blocks (Demo.tidy Demo.no_lists 0) Demo.blocks
           Demo.free_blocks 4096 1).
  - exact (proj1 (demo_heap_ok Demo.no_lists 0)).
  - reflexivity.
  - discriminate.
Defined.

(** X23: when the footer of one block of such a heap is overwritten
    with a word other than its header, [mm_checkheap(0)] prints the
    header and footer error, once, and nothing else. *)
Theorem checkheap_reports_damaged_footer s l1 b l2 fl t v :
  heap_rep s (l1 ++ b :: l2) fl t -> mem_lo s mod 8 = 0 ->
  0 <= v < 2 ^ 64 -> v <> bsize b + balloc b ->
  mm_checkheap 0
    (set_mem s (store (mem s) (bptr b + bsize b - DSIZE) v)) =
  Ok ([Tag_mismatch],
      set_mem s (store (mem s) (bptr b + bsize b - DSIZE) v)).
Proof.
  intros Hrep Hlo Hv Hne.
  set (s' := set_mem s (store (mem s) (bptr b + bsize b - DSIZE) v)).
  pose proof Hrep as Hrep0. rep_fields Hrep0.
  set (bl := l1 ++ b :: l2) in *.
  pose proof (rep_brk_range _ _ _ _ Hrep) as Hr.
  assert (Ib : In b bl) by (apply in_or_app; right; left; reflexivity).
  destruct (block_range s bl Rlinked Rblocks b Ib) as (Q1 & Q2 & Q3 & Q4 & Q5).
  assert (Eb : mem_brk s' = mem_brk s) by reflexivity.
  assert (El : mem_lo s' = mem_lo s) by reflexivity.
  assert (Te : tag_at s' (mem_brk s' - WSIZE) 0 1).
  { rewrite Eb. apply tag_at_store; [exact (rep_tag_epilogue _ _ _ _ Hrep)|].
    hlia. }
  assert (Ip : In (prologue s) (prologue s :: bl)) by (left; reflexivity).
  set (co := fun c : block =>
               if bptr c =? bptr b then [Tag_mismatch] else []).
  assert (Hblk : forall c, In c (prologue s :: bl) ->
     tag_at s' (bptr c - WSIZE) (bsize c) (balloc c) /\ 0 < bsize c /\
     WSIZE <= bptr c /\ bptr c + bsize c <= mem_brk s' /\
     (if negb (0 =? 0) then print_block (bptr c) else ret []) s' =
       Ok ((fun _ => []) c, s') /\
     check_block (bptr c) s' = Ok (co c, s')).
  { intros c Hc.
    destruct (rep_body_range _ _ _ _ Hrep _ Hc) as (B1 & B2 & B3 & _).
    assert (Hap : c = b \/ bptr b + bsize b <= bptr c \/
                  bptr c + bsize c <= bptr b).
    { destruct Hc as [<-|Hc].
      - right. right. unfold prologue. cbn [bptr bsize fst snd]. hlia.
      - destruct (blocks_apart s bl Rlinked Rblocks b c Ib Hc) as [E|E];
          [left; symmetry; exact E|right; exact E]. }
    assert (T : tag_at s' (bptr c - WSIZE) (bsize c) (balloc c)).
    { apply tag_at_store; [exact (rep_tag_hdr _ _ _ _ Hrep _ Hc)|].
      destruct Hap as [->|[E|E]]; hlia. }
    split; [exact T|]. split; [hlia|]. split; [hlia|].
    split; [rewrite Eb; exact B2|]. split; [reflexivity|].
    rewrite (check_block_word _ _ _ _ T ltac:(rewrite Eb; exact B2) B3).
    rewrite (rep_aligned _ _ _ _ _ Hrep Hlo Hc), Z.eqb_refl.
    cbn [negb app]. unfold co, s'. cbn [mem set_mem].
    destruct Hap as [->|E].
    - rewrite load_store_same, wrap_small by exact Hv.
      rewrite Z.eqb_refl.
      replace (bsize b + balloc b =? v) with false
        by (symmetry; apply Z.eqb_neq; lia).
      reflexivity.
    - rewrite load_store_other by (destruct E; hlia).
      pose proof (rep_tag_ftr _ _ _ _ Hrep _ Hc) as (_ & _ & _ & _ & F & _).
      rewrite F, Z.eqb_refl.
      replace (bptr c =? bptr b) with false; [reflexivity|].
      symmetry. apply Z.eqb_neq. destruct E; hlia. }
  assert (Hlen : (length (prologue s :: bl) < heap_fuel s')%nat).
  { assert (Hs : Forall sized (prologue s :: bl)).
    { apply Forall_forall. intros c Hc.
      destruct (rep_body_range _ _ _ _ Hrep _ Hc) as (_ & _ & B3 & _).
      unfold sized. hlia. }
    pose proof (linked_length _ _ _ Rlinked Hs) as Hlen.
    unfold heap_fuel. rewrite Eb, El. hlia. }
  destruct (Hblk _ Ip) as (Tp & _ & _ & _ & _ & Cp).
  cbn [prologue bptr bsize balloc fst snd] in Tp, Cp.
  unfold mm_checkheap.
  replace (heap_listp s') with (mem_lo s + DSIZE) by (symmetry; exact Rlistp).
  rewrite (bind_eq _ _ _ _ _ (bad_header_at _ _ _ _ DSIZE Tp)).
  rewrite (bind_eq _ _ _ _ _ Cp).
  rewrite (bind_eq _ _ _ _ _
      (check_loop_blocks s' 0 _ _ 1 ltac:(rewrite Eb; hlia) Te
         (prologue s :: bl) Hblk _ _
         ltac:(rewrite Eb; exact Rlinked) Hlen)).
  cbn [fst snd Z.eqb negb].
  rewrite (bind_eq _ _ _ _ _ (eq_refl : ret [] s' = Ok ([], s'))).
  rewrite (bind_eq _ _ _ _ _ (bad_header_at _ _ _ _ 0 Te)).
  unfold ret. rewrite Z.eqb_refl. cbn [Z.eqb negb orb app].
  assert (Hp : co (mem_lo s + DSIZE, DSIZE, 1) = []).
  { unfold co. cbn [bptr fst].
    replace (mem_lo s + DSIZE =? bptr b) with false; [reflexivity|].
    symmetry. apply Z.eqb_neq. hlia. }
  assert (Hoff : forall c, In c (l1 ++ l2) -> co c = []).
  { intros c Hc. unfold co.
    destruct (bptr c =? bptr b) eqn:E; [|reflexivity].
    apply Z.eqb_eq in E. exfalso.
    apply (b_alone s l1 l2 b fl t Hrep (bsize c) (balloc c)).
    rewrite <- E, <- block_eta. exact Hc. }
  unfold prologue. cbn [flat_map app]. rewrite Hp. cbn [app].
  unfold bl. rewrite flat_map_app. cbn [flat_map].
  rewrite !flat_map_nil.
  - unfold co at 1. rewrite Z.eqb_refl. reflexivity.
  - intros x Hx. apply Hoff. apply in_or_app. right. exact Hx.
  - intros x Hx. apply Hoff. apply in_or_app. left. exact Hx.
Qed.

Lemma checkheap_reports_damaged_footer_witness :
  mm_checkheap 0
    (set_mem (Demo.tidy Demo.no_lists 0)
       (store (mem (Demo.tidy Demo.no_lists 0)) (Demo.C + 32 - DSIZE) 99)) =
  Ok ([Tag_mismatch],
      set_mem (Demo.tidy Demo.no_lists 0)
        (store (mem (Demo.tidy Demo.no_lists 0)) (Demo.C + 32 - DSIZE) 99)).
Proof.
  apply (checkheap_reports_damaged_footer (Demo.tidy Demo.no_lists 0)
           [(Demo.A, 32, 1); (Demo.B, 32, 0)] (Demo.C, 32, 1)
           [(Demo.D, 64, 0); (Demo.E, 32, 1); (Demo.F, 32, 1);
            (Demo.G, 32, 1); (Demo.H, 32, 0)]
           Demo.free_blocks 4096 99).
  - exact (proj1 (demo_heap_ok Demo.no_lists 0)).
  - reflexivity.
  - split; [discriminate|reflexivity].
  - discriminate.
Defined.

(** X24: [mm_checkheap] only reads: whatever the heap holds and
    whatever the flag, a call that returns leaves memory, the break,
    the free list head and the bucket table as they were. *)
Theorem checkheap_only_reads verbose s out s' :
  mm_checkheap verbose s = Ok (out, s') -> s' = s.
Proof. exact (keeps_mm_checkheap verbose s out s'). Qed.

Lemma checkheap_only_reads_witness :
  state_of (mm_checkheap 1 (tidy_released Demo.C 32))
           (Demo.tidy Demo.no_lists 0) =
  tidy_released Demo.C 32.
Proof.
  destruct (mm_checkheap 1 (tidy_released Demo.C 32)) as [[o s']|f] eqn:E.
  - exact (checkheap_only_reads 1 (tidy_released Demo.C 32) o s' E).
  - exfalso.
    assert (V : value_of (mm_checkheap 1 (tidy_released Demo.C 32)) <> None)
      by (vm_compute; discriminate).
    rewrite E in V. apply V. reflexivity.
Defined.

(** ** Edge cases of the public operations *)

(** X25: [realloc(p, 0)] on the payload address of an allocated block
    is [free(p)]: it returns NULL, the block is released and merged
    with its free neighbours as by [free], and no new block is
    allocated. *)
Theorem realloc_to_zero_frees s l1 b l2 fl :
  heap_ok s (l1 ++ b :: l2) fl (mem_lo s) -> balloc b = 1 ->
  returns (realloc (bptr b) 0) s (fun r s' =>
    r = NULL /\ free (bptr b) s = Ok (tt, s') /\
    exists bl' fl',
      heap_ok s' bl' fl' (mem_lo s) /\ same_allocated (l1 ++ l2) bl' /\
      frame (l1 ++ l2) s s').
Proof.
  intros Hok Hb.
  destruct (free_spec s l1 b l2 fl (mem_lo s) Hok eq_refl Hb)
    as ([] & s' & E & Hpost).
  exists NULL, s'. split.
  - unfold realloc. cbn [Z.eqb]. rewrite (bind_eq _ _ _ _ _ E). reflexivity.
  - split; [reflexivity|]. split; [exact E|exact Hpost].
Qed.

Lemma realloc_to_zero_frees_witness :
  returns (realloc Demo.C 0) (Demo.tidy Demo.no_lists 0) (fun r s' =>
    r = NULL /\ free Demo.C (Demo.tidy Demo.no_lists 0) = Ok (tt, s') /\
    exists bl' fl',
      heap_ok s' bl' fl' 4096 /\
      same_allocated
        ([(Demo.A, 32, 1); (Demo.B, 32, 0)] ++
         [(Demo.D, 64, 0); (Demo.E, 32, 1); (Demo.F, 32, 1);
          (Demo.G, 32, 1); (Demo.H, 32, 0)]) bl' /\
      frame ([(Demo.A, 32, 1); (Demo.B, 32, 0)] ++
             [(Demo.D, 64, 0); (Demo.E, 32, 1); (Demo.F, 32, 1);
              (Demo.G, 32, 1); (Demo.H, 32, 0)])
            (Demo.tidy Demo.no_lists 0) s').
Proof.
  apply (realloc_to_zero_frees (Demo.tidy Demo.no_lists 0)
           [(Demo.A, 32, 1); (Demo.B, 32, 0)] (Demo.C, 32, 1)
           [(Demo.D, 64, 0); (Demo.E, 32, 1); (Demo.F, 32, 1);
            (Demo.G, 32, 1); (Demo.H, 32, 0)]
           Demo.free_blocks).
  - exact (demo_heap_ok Demo.no_lists 0).
  - reflexivity.
Defined.

(** Once [mm_init] has obtained its first 32 bytes, whatever it then
    returns, it has set every bucket to NULL. *)
Lemma mm_init_null_buckets s r s' :
  mm_init s = Ok (r, s') ->
  sbrk_refuses s (4 * WSIZE) = false ->
  mem_max_addr s < 2 ^ 64 ->
  length (segregated_lists s) = Z.to_nat LISTLIMIT ->
  segregated_lists s' = repeat NULL (Z.to_nat LISTLIMIT) /\
  mem_brk s' < 2 ^ 64.
Proof.
  intros H Hr Hmax Hlen. pose proof Hr as Hr'.
  apply orb_false_iff in Hr'. destruct Hr' as (_ & Hr').
  rewrite Z.gtb_ltb in Hr'. apply Z.ltb_ge in Hr'.
  unfold mm_init in H.
  apply bind_ok in H. destruct H as (p0 & s0 & P0 & H).
  unfold mem_sbrk in P0. rewrite Hr in P0.
  inversion P0. subst p0 s0. clear P0.
  apply bind_ok in H. destruct H as (u0 & s1 & P1 & H).
  inversion P1. subst s1. clear P1.
  replace (mem_brk s =? SBRK_FAILED) with false in H
    by (symmetry; apply Z.eqb_neq; unfold SBRK_FAILED, wrap;
        change ((-1) mod 2 ^ 64) with (2 ^ 64 - 1); hlia).
  apply bind_ok in H. destruct H as (u1 & s2 & P2 & H).
  apply bind_ok in H. destruct H as (u2 & s3 & P3 & H).
  apply bind_ok in H. destruct H as (u3 & s4 & P4 & H).
  apply bind_ok in H. destruct H as (u4 & s5 & P5 & H).
  apply bind_ok in H. destruct H as (u5 & s6 & P6 & H).
  apply bind_ok in H. destruct H as (u6 & s7 & H7 & H).
  apply bind_ok in H. destruct H as (bp & s8 & H8 & H).
  assert (Es : s' = s8) by (destruct (bp =? NULL); inversion H; reflexivity).
  subst s8. clear H.
  apply PUT_ok in P2. destruct P2 as (-> & _).
  apply PUT_ok in P3. destruct P3 as (-> & _).
  apply PUT_ok in P4. destruct P4 as (-> & _).
  apply PUT_ok in P5. destruct P5 as (-> & _).
  inversion P6. subst s6. clear P6.
  pose proof (clear_lists_all_null _ _ _ _ H7 Hlen) as El.
  destruct (clear_lists_heap _ _ _ _ _ H7) as (l & E7).
  assert (B7 : mem_brk s7 = mem_brk s + 32 /\
               mem_max_addr s7 = mem_max_addr s).
  { rewrite E7. split; reflexivity. }
  destruct B7 as (B7 & M7). clear E7.
  unfold extend_heap in H8. cbv zeta in H8.
  apply bind_ok in H8. destruct H8 as (p & s9 & H9 & H8).
  assert (K9 : segregated_lists s9 = segregated_lists s7 /\
               mem_brk s9 < 2 ^ 64).
  { unfold mem_sbrk in H9.
    destruct (sbrk_refuses s7 _) eqn:Er; inversion H9; subst.
    - split; [reflexivity|]. hlia.
    - split; [reflexivity|].
      apply orb_false_iff in Er. destruct Er as (_ & Er).
      rewrite Z.gtb_ltb in Er. apply Z.ltb_ge in Er.
      cbn [mem_brk set_brk]. lia. }
  destruct K9 as (L9 & K9).
  destruct (p =? SBRK_FAILED).
  { inversion H8. subst s'. split; [congruence|exact K9]. }
  set (R := fun a b : state => segregated_lists b = segregated_lists a /\
                               mem_brk b = mem_brk a).
  assert (Rr : forall a, R a a) by (intros; split; reflexivity).
  assert (Rt : forall a b c, R a b -> R b c -> R a c)
    by (unfold R; intros a b c (? & ?) (? & ?); split; congruence).
  assert (Rm : forall a m, R a (set_mem a m)) by (intros; split; reflexivity).
  assert (Rf : forall a q, R a (set_free_listp a q))
    by (intros; split; reflexivity).
  apply bind_ok in H8. destruct H8 as (v1 & t1 & G1 & H8).
  apply bind_ok in H8. destruct H8 as (v2 & t2 & G2 & H8).
  apply bind_ok in H8. destruct H8 as (v3 & t3 & G3 & H8).
  apply bind_ok in H8. destruct H8 as (v4 & t4 & G4 & H8).
  apply bind_ok in H8. destruct H8 as (v5 & t5 & G5 & H8).
  pose proof (keeps_PUT R Rm _ _ _ _ _ G1) as (A1 & A1').
  pose proof (keeps_FTRP R Rr Rt _ _ _ _ G2) as (A2 & A2').
  pose proof (keeps_PUT R Rm _ _ _ _ _ G3) as (A3 & A3').
  pose proof (keeps_NEXT_BLKP R Rr Rt _ _ _ _ G4) as (A4 & A4').
  pose proof (keeps_PUT R Rm _ _ _ _ _ G5) as (A5 & A5').
  pose proof (keeps_coalesce R Rr Rt Rm Rf _ _ _ _ H8) as (A6 & A6').
  split; [congruence|]. rewrite A6', A5', A4', A3', A2', A1'. exact K9.
Qed.

(** X26: no [malloc] succeeds after [mm_init].  Once [mm_init] has
    obtained its first 32 bytes it sets every bucket to NULL before it
    returns, with 0 or with -1, and [find_fit] reads the header of the
    bucket entry without a test for NULL: [malloc] of any positive size
    whose adjusted size is below 2^20 then reads the word in front of
    address 0, outside the heap. *)
Theorem no_malloc_after_init s r s' :
  mm_init s = Ok (r, s') ->
  sbrk_refuses s (4 * WSIZE) = false ->
  mem_max_addr s < 2 ^ 64 ->
  length (segregated_lists s) = Z.to_nat LISTLIMIT ->
  forall n, 0 < n -> n + 2 * DSIZE <= 2 ^ 20 ->
            malloc n s' = Err (SegFault (HDRP NULL)).
Proof.
  intros H Hr Hmax Hlen n Hn Hb.
  destruct (mm_init_null_buckets s r s' H Hr Hmax Hlen) as (S & K).
  destruct (adjust_ok n Hn ltac:(change (2 ^ 20) with 1048576 in Hb;
                                  change (2 ^ 64) with 18446744073709551616;
                                  lia))
    as (_ & _ & _ & A4).
  pose proof (list_index_small (adjust n) ltac:(lia)) as Hi.
  apply malloc_null_bucket.
  - exact K.
  - exact Hn.
  - exact Hi.
  - rewrite S. apply nth_error_repeat.
    unfold LISTLIMIT in *. lia.
Qed.

(** From the start state with room for 40 bytes [mm_init] returns -1,
    having written prologue and epilogue; no [malloc] returns after
    it. *)
Lemma no_malloc_after_init_witness :
  let s' := state_of (mm_init (Demo.start 40)) (Demo.start 40) in
  value_of (mm_init (Demo.start 40)) = Some (-1) /\
  forall n, 0 < n -> n + 2 * DSIZE <= 2 ^ 20 ->
            malloc n s' = Err (SegFault (HDRP NULL)).
Proof.
  intros s'.
  assert (V : value_of (mm_init (Demo.start 40)) = Some (-1))
    by (vm_compute; reflexivity).
  split; [exact V|].
  destruct (mm_init (Demo.start 40)) as [[r s1]|f] eqn:E;
    [|discriminate V].
  apply (no_malloc_after_init (Demo.start 40) r s').
  - unfold s'. rewrite E. reflexivity.
  - reflexivity.
  - reflexivity.
  - reflexivity.
Defined.
